(* ===== verification/_CoqProject ===== *)
-Q . S2P
Prelude.v
RustStr.v
Net.v
Metadata.v
ListenerConfig.v
FilterChain.v
FilterChainRef.v
FilterChainTree.v
FilterChainAddr.v
FilterChainName.v
FilterChainSpec.v
Balancer.v
Wrr.v
Health.v
HealthSpec.v
TcpPayload.v
F64.v
Priority.v
HealthyLb.v
DefaultLb.v
Maglev.v
MaglevSpec.v
TokenBucket.v
CircuitBreaker.v
ConnectionLimit.v
Http.v
StringMatch.v
HeaderMatch.v
VirtualHost.v
VirtualHostSpec.v
Route.v
Rbac.v
Fmt.v
HttpModifiers.v
HttpModifiersSpec.v
AsyncStream.v
ProxyProtocol.v
ProxyProtocolSpec.v
Retry.v
RetrySpec.v
TraceInfo.v
Tracing.v
TracingSpec.v
Cors.v
HttpFilters.v
HttpFiltersSpec.v
HashPolicy.v
OverrideHost.v
UserRateLimit.v
Xds.v
XdsSpec.v
Body.v
ChannelBody.v
Pools.v
Http2Pool.v
RingHash.v
RandomLb.v
ExtProcMutation.v
ExtProcModes.v
ExtProcProcessing.v
ExtProcWorker.v
ExtProcSide.v
ExtProcTransparent.v
ExtProcSpec.v
ExtProcFilter.v
ExtProcObserve.v
FormatGrammar.v
LogFormatter.v
FormatContext.v
OAuth2.v
OAuth2Spec.v
Jwt.v
Tls.v
Endpoints.v
Clusters.v
StandardLb.v
ClustersSpec.v
