(* ===== verification/Prelude.v ===== *)
(** * Arion: a verification library

    Arion is a proxy written in Rust (the sources are under src/).  A listener
    accepts connections, learns their addresses (from the socket or from a
    PROXY protocol header), selects a filter chain by address and server name,
    and hands the connection to the chain.  Requests are matched to a virtual
    host and a route; filters decide about them; their headers are changed; a
    balancer chooses an endpoint of the route's cluster; the request is sent,
    and possibly sent again.  Circuit breakers, rate limits and connection
    limits bound what goes on at the same time, and health checks keep track of
    the endpoints.  An external processor can see and change a message on its
    way, and clients can be made to log in or to show a token.  The clusters and
    their TLS contexts are built from a configuration and from secrets, which can
    come from an xDS server while the proxy runs.

    This library is a shallow embedding of these parts: Rust data as inductive
    types and records, functions as executable definitions that keep the names
    of the source, threads as step relations over their atomic accesses.  A
    computation that can fail returns [result] or [option], one that can panic
    [outcome].  Integers are [Z] with their width written out where it matters;
    strings are lists of bytes; the release profile does not check overflow,
    so arithmetic wraps.  Crates outside src/ are parameters: classes with
    their operations, and classes with the documented laws that are relied on.

    ** The files

    Where one file holds a component and its theorems, the theorems are in a
    module of their own at its end, named [...Spec] ([CorsSpec] of [Cors], and
    so on).

    - [Prelude]: [result] and [outcome], machine integers ([Int]), BTreeMaps
      in key order ([btree_iter]), [find], [find_map], counting in maps
      ([number]); [RustStr] (module [Str]): what is used of [str]; [Fmt]:
      numbers and addresses as text, with parsing.
    - [Net]: addresses and the crate ipnet ([IpNetLib], [IpNetSpec]);
      [Metadata]: what is known of a connection (listeners/metadata.rs).
    - Filter chains (listeners/filterchain_matcher.rs, config/listener.rs):
      [ListenerConfig] the configured matches and their scores, [FilterChain]
      the compiled matcher with its construction and selection,
      [FilterChainRef], [FilterChainTree], [FilterChainAddr], [FilterChainName]
      the lemmas, [FilterChainSpec] the theorems.
    - Balancers (clusters/balancers/): [Balancer] the traits as classes, [Wrr]
      weighted round robin, [Maglev] and [MaglevSpec] the Maglev table,
      [HealthyLb] the balancer of healthy endpoints over any inner one,
      [F64] binary64 arithmetic, [Priority] the loads of priority levels,
      [DefaultLb] the priority levels of a cluster,
      [HashPolicy] what a request is hashed by (hash_policy.rs), [OverrideHost]
      the balancer that follows a header (override_host.rs), [RingHash] the hash
      ring with its binary search (ring.rs), [RandomLb] the random and the
      least-request balancers (random.rs, least.rs).
    - Health checks (clusters/health/): [Health] and [HealthSpec] the counter,
      the check loop and the interpretation of answers, [TcpPayload] the
      matching of payloads in a stream.
    - Limits: [TokenBucket]
      (listeners/rate_limiter/token_bucket.rs, local_rate_limiter.rs),
      [UserRateLimit] (http_connection_manager/user_rate_limiter.rs),
      [ConnectionLimit] (connection_limit.rs), [CircuitBreaker]
      (clusters/circuit_breaker.rs with its users in clusters_manager.rs,
      http_upstream.rs and transport/tcp_channel.rs).
    - Requests: [Http] the crates http, regex and url; [StringMatch]
      (config/core.rs) and [HeaderMatch] (header_matcher.rs); [VirtualHost] and
      [VirtualHostSpec] host patterns and the table of virtual hosts; [Route]
      (route.rs, match_request_route); [Rbac] access control;
      [HttpModifiers] and [HttpModifiersSpec] (http_modifiers.rs and the
      mutations of http_connection_manager.rs); [Cors] the CORS
      filter (cors.rs); [HttpFilters] and [HttpFiltersSpec] the filters of a
      route and the loop over them (http_filters.rs, to_response).
    - Tracing (arion-tracing/): [TraceInfo] trace contexts in headers, [Tracing]
      and [TracingSpec] request ids, the decision to trace and the start of
      handle_request.
    - Transport: [AsyncStream] streams and the rewindable stream
      (utils/rewindable_stream.rs), [ProxyProtocol] and [ProxyProtocolSpec]
      (transport/proxy_protocol.rs), [Retry] and [RetrySpec]
      (clusters/retry_policy.rs and the send loop of
      transport/http_channel.rs), [Pools] and [Http2Pool] the pools of
      connections (transport/http1_pool.rs, http2_pool.rs).
    - Bodies (body/): [Body] the crate http-body and the bodies that limit the
      time between frames, report their end and count their bytes, [ChannelBody]
      the body that is fed through a channel, and the bridge that feeds it.
    - The external processor (http_connection_manager/ext_proc.rs, ext_proc/):
      [ExtProcMutation] header mutations and their rules, [ExtProcModes] the processing modes and the settings of a worker,
      [ExtProcProcessing] the state of one message and the answers to it,
      [ExtProcWorker] the worker with its two loops, [ExtProcFilter] the filter;
      [ExtProcSide], [ExtProcTransparent], [ExtProcObserve] and [ExtProcSpec]
      the invariants of a worker and the theorems.
    - Formats (arion-format/): [FormatGrammar] operators and the parser of
      format strings, [LogFormatter] the formatter with its slots, its message
      and the formatters of headers and URIs, [FormatContext] the contexts that
      fill the slots.
    - Authentication: [OAuth2] the OAuth2 filter
      (http_connection_manager/oauth2.rs); [OAuth2Spec], with the modules
      [Base64] (an encoder and decoder for examples), [OAuth2Spec] (sessions)
      and [OAuth2Flow] (logins); [Jwt] the JWT filter (jwt_authn.rs, jwt_authn/).
    - Clusters: [Tls] secrets and TLS contexts (secrets/), [Endpoints] channels,
      endpoints and load assignments (clusters/load_assignment.rs and the parts
      of transport/ it builds on), [Clusters] the kinds of cluster and the
      shared map (clusters/cluster.rs, cluster/, clusters_manager.rs,
      cached_watch.rs), [StandardLb] the interface of the balancers for clusters
      discharged by [DefaultLb] and a concrete cluster, [ClustersSpec], with the
      modules [ClustersSpec] (changes of secrets) and [ClustersServe] (requests
      and threads).
    - Configuration: [Xds] and [XdsSpec] the xDS client (arion-xds/src/xds/).

    ** What is shown

    - Filter chains: the compiled matcher selects what the linear reference
      selects, for every set of rules without ambiguity; what it selects is the
      most specific match.
    - Balancing: weighted round robin gives every endpoint its share in every
      round; a Maglev table of prime size is filled and even, and its primality
      test is right; healthy endpoints only are returned after any sequence of
      updates; the counts behind the priority loads are right; the loads of two
      levels in binary64 arithmetic; a header that names endpoints is answered
      with the healthy ones, through any history; a hash ring is consistent.
    - Health: the status is a function of the history of the checks; the check
      loop reports exactly the changes; waiting for payloads ends.
    - Limits: under any interleaving of threads, a token bucket keeps its rate,
      a circuit breaker its limits, and a connection limit is exceeded by no
      more than the tasks that race; a token bucket implements an abstract one;
      the cleaner of the per-user buckets cannot be seen if they fill up within
      a minute, and resets active users if they do not;
      permits are balanced, and two ways in which they are not.
    - Requests: virtual-host tables select what scoring every domain selects;
      a request gets the first matching route of the best virtual host;
      matching without regard to case is matching in lower case; what header
      matchers and access policies decide; an external client cannot claim an
      address; the changes of headers are those of the configuration; a
      request reaches the action of its route only through every filter, and
      the loop over the filters ends; a response is opened only to origins that
      are accepted.
    - Tracing: the trace of a request goes on upstream in its own format, trace
      contexts stay within their types, and the request id that is recorded is
      the one that is sent.
    - Transport: a rewound stream is the stream it wraps; a PROXY header is
      taken from the stream exactly, and what is written is read back; a
      request with a retry policy is answered by its last attempt, with
      bounded attempts, and its retry permit is given back; a connection of a
      pool serves one request, or as many as it has streams, at a time.
    - Bodies: however a body is forwarded through a channel, it arrives as it
      is, and its size is right.
    - The external processor: one that changes nothing leaves a body alone, in
      whatever order its answers and the frames come, and in observability mode
      it does so whatever happens to it; its changes keep to the rules; what
      becomes of a body when it fails or cannot be reached.
    - Formats: the parser accepts exactly the printed texts of the grammar; a
      formatter renders the text it was made of; a message is written completely
      to every writer that takes something; flags and identifiers are told
      apart, and times fit into their buffers.
    - Authentication: a session that is accepted was given out by the filter to
      a login it began, a login whose partners answer is completed, and a token
      that is accepted was validated; two ways around this, through the name of
      a secret and through the cache of tokens.
    - Clusters: which certificate a client is shown; TLS contexts follow the
      secrets that are delivered; a load assignment serves the configured
      endpoints with the configured channels; the copies of the threads follow
      the shared map; the routing context of a request is of the kind the cluster
      takes; what a changed secret does not reach.
    - Configuration: the server knows what is subscribed to and which versions
      are in use, over any sequence of connections, and every response is
      answered; what is lost on a reconnection.

    ** Fuel and bounds

    Recursion that is not structural has a measure as an extra argument: the
    payload matcher and the primality test take fuel, and theorems show how
    much is enough ([try_match_total], [is_prime_correct]); [read_exact] takes
    as many reads as bytes, as every read delivers one; [fmt_radix] as many
    digits as a 128-bit number has; the loop over the filters one more pass
    than there are filters ([filters_terminate]); the loops that empty the
    buffer of an external processor three turns, as it holds data, trailers or
    both ([flush_fuel]); the binary search of the ring as many as the ring has
    slots; the format parser as many turns as the text has bytes, since each
    takes one ([format_parsed] covers every text).  Theorems about counters of 32 bits assume fewer threads than they
    can count.

    ** Not modelled

    Sockets, timers and tasks: their effects are arguments (what a read
    delivers, what an attempt answers, where a timeout fires).  WebAssembly and
    Cedar filters, the MCP gateway, the files of access logs, metrics, spans, the
    admin interface and the start of the processes: mostly input and output over
    generated types and foreign services.  Cryptography, certificates and TLS
    connections are those of crates.  Filters that are not modelled, and those
    modelled apart from the loop over the filters, are used in it through the
    class [OtherFilters], and the actions of routes are parameters of
    [to_response].  The number of slots of an endpoint on the hash ring is a
    parameter, as is the work of the handler of xDS updates.  Redirects have no
    model yet. *)

From stdpp Require Export base decidable option list gmap strings sorting.
From Stdlib Require Export ZArith Lia.

#[export] Set Default Goal Selector "!".

(** ** Rust values *)

(** Rust's [str], [String] and [SmolStr]: a sequence of bytes. *)
Notation str := (list Ascii.ascii).

(** The bytes of a Rust string literal. *)
Definition lit (s : string) : str := String.list_ascii_of_string s.

(** [std::result::Result<A, E>]. *)
Inductive result (E A : Type) : Type :=
  | Ok (a : A)
  | Err (e : E).
Arguments Ok {E A} a.
Arguments Err {E A} e.

#[export] Instance result_ret {E} : MRet (result E) := λ A a, Ok a.
#[export] Instance result_bind {E} : MBind (result E) :=
  λ A B f m, match m with Ok a => f a | Err e => Err e end.
#[export] Instance result_fmap {E} : FMap (result E) :=
  λ A B f m, match m with Ok a => Ok (f a) | Err e => Err e end.

(** [Result::ok]. *)
Definition result_ok {E A} (m : result E A) : option A :=
  match m with Ok a => Some a | Err _ => None end.

(** A computation that either returns or panics. *)
Inductive outcome (A : Type) : Type :=
  | Return (a : A)
  | Panic.
Arguments Return {A} a.
Arguments Panic {A}.

#[export] Instance outcome_ret : MRet outcome := λ A a, Return a.
#[export] Instance outcome_bind : MBind outcome :=
  λ A B f m, match m with Return a => f a | Panic => Panic end.
#[export] Instance outcome_fmap : FMap outcome :=
  λ A B f m, match m with Return a => Return (f a) | Panic => Panic end.

(** ** Machine integers

    A w-bit integer is a [Z]; the operations of the source that depend on the
    width are written out here. *)
Module Int.
Local Open Scope Z_scope.

Definition u8_max : Z := 2 ^ 8 - 1.
Definition u16_max : Z := 2 ^ 16 - 1.
Definition u32_max : Z := 2 ^ 32 - 1.
Definition u64_max : Z := 2 ^ 64 - 1.
Definition u128_max : Z := 2 ^ 128 - 1.
Definition i32_max : Z := 2 ^ 31 - 1.
Definition i32_min : Z := - 2 ^ 31.

Definition is_u8 (x : Z) : Prop := 0 <= x <= u8_max.
Definition is_u16 (x : Z) : Prop := 0 <= x <= u16_max.
Definition is_u32 (x : Z) : Prop := 0 <= x <= u32_max.
Definition is_u64 (x : Z) : Prop := 0 <= x <= u64_max.
Definition is_i32 (x : Z) : Prop := i32_min <= x <= i32_max.

(** [u32::checked_add]. *)
Definition checked_add_u32 (a b : Z) : option Z :=
  if a + b <=? u32_max then Some (a + b) else None.

(** [i32::try_from(x: u32)]. *)
Definition i32_try_from (x : Z) : option Z :=
  if x <=? i32_max then Some x else None.

(** [i32::saturating_add]. *)
Definition saturating_add_i32 (a b : Z) : Z :=
  Z.max i32_min (Z.min i32_max (a + b)).

(** [fetch_add(1)] and [fetch_sub(1)] on a w-bit atomic: the new content. *)
Definition wrapping_incr (w x : Z) : Z := (x + 1) mod 2 ^ w.
Definition wrapping_decr (w x : Z) : Z := (x - 1) mod 2 ^ w.

Lemma saturating_add_id a b :
  i32_min <= a + b <= i32_max -> saturating_add_i32 a b = a + b.
Proof. unfold saturating_add_i32; lia. Qed.

Lemma saturating_add_range a b : is_i32 (saturating_add_i32 a b).
Proof. unfold is_i32, saturating_add_i32, i32_min, i32_max; lia. Qed.

Lemma checked_add_Some a b c :
  checked_add_u32 a b = Some c <-> c = a + b /\ a + b <= u32_max.
Proof.
  unfold checked_add_u32. destruct (Z.leb_spec (a + b) u32_max); naive_solver lia.
Qed.

Lemma wrapping_incr_small w x : 0 <= x -> x + 1 < 2 ^ w -> wrapping_incr w x = x + 1.
Proof. intros. unfold wrapping_incr. apply Z.mod_small; lia. Qed.

Lemma wrapping_decr_small w x : 1 <= x -> x < 2 ^ w -> wrapping_decr w x = x - 1.
Proof. intros. unfold wrapping_decr. apply Z.mod_small; lia. Qed.
End Int.

(** ** Ordered iteration

    [std::collections::BTreeMap] iterates in ascending key order. *)
Section btree.
Context {K V : Type} `{Countable K} (R : relation K) `{!RelDecision R}.

Definition key_le : relation (K * V) := λ p q, R p.1 q.1.
#[global] Instance key_le_dec : RelDecision key_le := λ p q, decide (R p.1 q.1).

Definition btree_iter (m : gmap K V) : list (K * V) :=
  merge_sort key_le (map_to_list m).

Lemma elem_of_btree_iter m k v : (k, v) ∈ btree_iter m ↔ m !! k = Some v.
Proof.
  unfold btree_iter. by rewrite merge_sort_Permutation, elem_of_map_to_list.
Qed.

Lemma NoDup_fst_btree_iter m : NoDup (btree_iter m).*1.
Proof.
  unfold btree_iter. rewrite merge_sort_Permutation. apply NoDup_fst_map_to_list.
Qed.

#[local] Instance key_le_trans `{!Transitive R} : Transitive key_le.
Proof. intros [] [] []; unfold key_le; simpl; etrans; eassumption. Qed.
#[local] Instance key_le_total `{!Total R} : Total key_le.
Proof. intros [] []; unfold key_le; simpl; apply total; apply _. Qed.

Lemma StronglySorted_btree_iter `{!Transitive R, !Total R} m :
  StronglySorted key_le (btree_iter m).
Proof. apply StronglySorted_merge_sort; apply _. Qed.
End btree.

(** ** Iterator adaptors *)

(** [Iterator::find_map]. *)
Fixpoint find_map {A B} (f : A → option B) (l : list A) : option B :=
  match l with
  | [] => None
  | x :: l => match f x with Some y => Some y | None => find_map f l end
  end.

(** [Iterator::find]. *)
Fixpoint find {A} (p : A → bool) (l : list A) : option A :=
  match l with
  | [] => None
  | x :: l => if p x then Some x else find p l
  end.

Lemma find_map_Some {A B} (f : A → option B) l y :
  find_map f l = Some y →
  ∃ l1 x l2, l = l1 ++ x :: l2 ∧ f x = Some y ∧ Forall (λ z, f z = None) l1.
Proof.
  induction l as [|x l IH]; simpl; intros Hf; [done|].
  destruct (f x) eqn:E; simplify_eq.
  - by exists [], x, l.
  - destruct (IH Hf) as (l1 & z & l2 & -> & ? & ?).
    exists (x :: l1), z, l2. auto.
Qed.

Lemma find_map_None {A B} (f : A → option B) l :
  find_map f l = None ↔ Forall (λ x, f x = None) l.
Proof.
  induction l as [|x l IH]; simpl; [by split|].
  rewrite Forall_cons. destruct (f x); naive_solver.
Qed.

Lemma find_Some {A} (p : A → bool) l x :
  find p l = Some x →
  ∃ l1 l2, l = l1 ++ x :: l2 ∧ p x = true ∧ Forall (λ z, p z = false) l1.
Proof.
  induction l as [|y l IH]; simpl; intros Hf; [done|].
  destruct (p y) eqn:E; simplify_eq.
  - by exists [], l.
  - destruct (IH Hf) as (l1 & l2 & -> & ? & ?).
    exists (y :: l1), l2. auto.
Qed.

Lemma find_None {A} (p : A → bool) l :
  find p l = None ↔ Forall (λ x, p x = false) l.
Proof.
  induction l as [|x l IH]; simpl; [by split|].
  rewrite Forall_cons. destruct (p x); naive_solver.
Qed.

(** ** Lists *)

Section filters.
Context {A : Type} (P Q : A → Prop) `{!∀ x, Decision (P x), !∀ x, Decision (Q x)}.

Lemma filter_ext_in (l : list A) :
  (∀ x, x ∈ l → P x ↔ Q x) → filter P l = filter Q l.
Proof.
  induction l as [|x l IH]; intros HPQ; [done|].
  rewrite !filter_cons, IH by set_solver.
  destruct (HPQ x) as [? ?]; [set_solver|]. repeat case_decide; tauto.
Qed.

Lemma filter_none (l : list A) : (∀ x, x ∈ l → ¬ P x) → filter P l = [].
Proof.
  induction l as [|x l IH]; intros HP; [done|].
  rewrite filter_cons_False by set_solver. set_solver.
Qed.

Lemma filter_all (l : list A) : (∀ x, x ∈ l → P x) → filter P l = l.
Proof.
  induction l as [|x l IH]; intros HP; [done|].
  rewrite filter_cons_True by set_solver. f_equal. set_solver.
Qed.

Lemma filter_nonempty (l : list A) : filter P l ≠ [] ↔ ∃ x, x ∈ l ∧ P x.
Proof.
  split.
  - destruct (filter P l) as [|x l'] eqn:E; [done|]. intros _. exists x.
    assert (x ∈ filter P l) as Hx by (rewrite E; set_solver).
    apply list_elem_of_filter in Hx. tauto.
  - intros (x & ? & ?) E. assert (x ∈ filter P l) as Hx by (apply list_elem_of_filter; auto).
    rewrite E in Hx. set_solver.
Qed.
End filters.

Lemma filter_length_insert {A} (P : A → Prop) `{!∀ x, Decision (P x)} (l : list A) i x y :
  l !! i = Some x →
  length (filter P (<[i := y]> l)) + (if decide (P x) then 1 else 0) =
  length (filter P l) + (if decide (P y) then 1 else 0).
Proof.
  revert i. induction l as [|z l IH]; intros [|i] Hi; simplify_eq/=.
  - rewrite !filter_cons. repeat case_decide; simpl; lia.
  - specialize (IH i Hi). rewrite !filter_cons. destruct (decide (P z)); simpl; lia.
Qed.

(** [Some l] for a list with elements. *)
Definition nonempty {A} (l : list A) : option (list A) :=
  match l with [] => None | _ => Some l end.

Lemma nonempty_Some {A} (l k : list A) : nonempty l = Some k ↔ k = l ∧ l ≠ [].
Proof. destruct l; naive_solver. Qed.

Lemma nonempty_None {A} (l : list A) : nonempty l = None ↔ l = [].
Proof. by destruct l. Qed.

Lemma default_nonempty {A} (l : list A) : default [] (nonempty l) = l.
Proof. by destruct l. Qed.

(** A fold whose state is a pair of independent accumulators, the second of
    which collects elements. *)
Lemma fold_left_collect_from {A G} (step : G * list A → A → G * list A) (gs : G → A → G)
    (P : A → Prop) `{!∀ x, Decision (P x)} (l : list A) g w :
  (∀ g w x, step (g, w) x = (gs g x, if decide (P x) then w ++ [x] else w)) →
  fold_left step l (g, w) = (fold_left gs l g, w ++ filter P l).
Proof.
  intros Hstep. revert g w. induction l as [|x l IH]; intros g w; simpl.
  { by rewrite app_nil_r. }
  rewrite Hstep, IH, filter_cons. case_decide; [|done]. by rewrite <-(assoc_L (++)).
Qed.

Lemma fold_left_collect {A G} (step : G * list A → A → G * list A) (gs : G → A → G)
    (P : A → Prop) `{!∀ x, Decision (P x)} (l : list A) g :
  (∀ g w x, step (g, w) x = (gs g x, if decide (P x) then w ++ [x] else w)) →
  fold_left step l (g, []) = (fold_left gs l g, filter P l).
Proof. exact (fold_left_collect_from step gs P l g []). Qed.

Lemma find_map_omap {A B C} (f : B → option C) (g : A → option B) (l : list A) :
  find_map f (omap g l) = find_map (λ x, g x ≫= f) l.
Proof.
  induction l as [|x l IH]; [done|]. simpl.
  change (find_map f (match g x with Some y => y :: omap g l | None => omap g l end) =
    match g x ≫= f with Some y => Some y | None => find_map (λ x, g x ≫= f) l end).
  rewrite <-IH. by destruct (g x).
Qed.

Lemma find_map_ext {A B} (f g : A → option B) (l : list A) :
  (∀ x, x ∈ l → f x = g x) → find_map f l = find_map g l.
Proof.
  induction l as [|x l IH]; intros Hfg; [done|]. simpl.
  rewrite Hfg by set_solver. rewrite IH by set_solver. done.
Qed.

Lemma StronglySorted_seq i n : StronglySorted lt (seq i n).
Proof.
  revert i. induction n as [|n IH]; intros i; simpl; constructor; [done|].
  apply Forall_forall. intros j Hj%elem_of_seq. lia.
Qed.

Lemma StronglySorted_filter {A} (R : relation A) (P : A → Prop) `{!∀ x, Decision (P x)} l :
  StronglySorted R l → StronglySorted R (filter P l).
Proof.
  induction 1 as [|x l Hl IH Hx]; [constructor|]. rewrite filter_cons.
  case_decide; [|done]. constructor; [done|].
  rewrite Forall_forall in *. intros y [_ Hy]%list_elem_of_filter. auto.
Qed.

Lemma StronglySorted_reverse {A} (R : relation A) l :
  StronglySorted R l → StronglySorted (flip R) (reverse l).
Proof.
  induction 1 as [|x l Hl IH Hx]; [constructor|]. rewrite reverse_cons.
  apply StronglySorted_app. split_and!; [|done|repeat constructor].
  intros y z Hy ->%list_elem_of_singleton.
  rewrite Forall_forall in Hx. by apply Hx, elem_of_reverse.
Qed.

Lemma StronglySorted_impl {A} (R S : relation A) l :
  (∀ x y, R x y → S x y) → StronglySorted R l → StronglySorted S l.
Proof. intros HRS. rewrite <-(list_fmap_id l) at 2. by apply (StronglySorted_fmap id). Qed.

Lemma find_map_fmap {A B C} (f : B → option C) (g : A → B) (l : list A) :
  find_map f (g <$> l) = find_map (λ x, f (g x)) l.
Proof. induction l as [|x l IH]; [done|]. rewrite fmap_cons. simpl. by rewrite IH. Qed.

(** ** Sums *)

Definition zsum (l : list Z) : Z := foldr Z.add 0%Z l.

Section zsum.
Local Open Scope Z_scope.

Lemma zsum_app l k : zsum (l ++ k) = zsum l + zsum k.
Proof. induction l as [|x l IH]; simpl; [done|]. rewrite IH. lia. Qed.

Lemma zsum_insert l i x y : l !! i = Some x → zsum (<[i := y]> l) = zsum l - x + y.
Proof.
  revert i. induction l as [|z l IH]; intros [|i] Hi; simplify_eq/=; [lia|].
  rewrite (IH i) by done. lia.
Qed.

(** Elements bounded below bound each other above. *)
Lemma zsum_lower l lo : Forall (λ x, lo <= x) l → Z.of_nat (length l) * lo <= zsum l.
Proof. induction 1; simpl; nia. Qed.

Lemma zsum_upper l hi : Forall (λ x, x <= hi) l → zsum l <= Z.of_nat (length l) * hi.
Proof. induction 1; simpl; nia. Qed.

Lemma zsum_elem_upper l lo i x :
  Forall (λ x, lo <= x) l → l !! i = Some x →
  x + (Z.of_nat (length l) - 1) * lo <= zsum l.
Proof.
  intros Hl. revert i. induction Hl as [|y l Hy Hl IH]; intros [|i] Hi; simplify_eq/=.
  - pose proof (zsum_lower l lo Hl). nia.
  - specialize (IH i Hi). nia.
Qed.

Lemma zsum_zip_with {A B C} (f : C → Z) (z : A → B → C) (g : A → Z) (h : B → Z) l k :
  length l = length k → (∀ a b, f (z a b) = g a - h b) →
  zsum (f <$> zip_with z l k) = zsum (g <$> l) - zsum (h <$> k).
Proof.
  intros Hlen Hf. revert k Hlen. induction l as [|a l IH]; intros [|b k] Hlen; [done..|].
  change (f (z a b) + zsum (f <$> zip_with z l k) = g a + zsum (g <$> l) - (h b + zsum (h <$> k))).
  rewrite Hf, IH by (simpl in Hlen; lia). lia.
Qed.

Lemma zsum_scale {A} (f : A → Z) c l : zsum ((λ a, c * f a) <$> l) = c * zsum (f <$> l).
Proof.
  induction l as [|a l IH]; [simpl; lia|]. rewrite !fmap_cons. cbn [zsum foldr].
  fold (zsum ((λ a, c * f a) <$> l)) (zsum (f <$> l)). lia.
Qed.

(** Pointwise less or equal with the same sum is pointwise equal. *)
Lemma zsum_le_eq l k :
  Forall2 Z.le l k → zsum l = zsum k → l = k.
Proof.
  intros Hlk. assert (zsum l <= zsum k) as Hle by (induction Hlk; simpl; lia).
  clear Hle. induction Hlk as [|x y l k Hxy Hlk IH]; simpl; intros Hs; [done|].
  assert (zsum l <= zsum k) by (clear -Hlk; induction Hlk; simpl; lia).
  f_equal; [lia|]. apply IH. lia.
Qed.
End zsum.

(** ** Counting the entries of a map *)

Definition number {A} (P : A → Prop) `{!∀ x, Decision (P x)} (m : gmap nat A) : nat :=
  size (filter (λ kv : nat * A, P kv.2) m).

Section counting.
Context {A : Type} (P : A → Prop) `{!∀ x, Decision (P x)}.

Lemma number_insert (m : gmap nat A) i x :
  m !! i = None → number P (<[i := x]> m) = ((if decide (P x) then 1 else 0) + number P m)%nat.
Proof.
  intros Hi. unfold number. case_decide.
  - rewrite map_filter_insert_True by done. rewrite map_size_insert_None; [done|].
    by apply map_lookup_filter_None_2; left.
  - rewrite map_filter_insert_False by done. by rewrite delete_id.
Qed.

Lemma number_delete (m : gmap nat A) i x :
  m !! i = Some x → number P m = ((if decide (P x) then 1 else 0) + number P (delete i m))%nat.
Proof.
  intros Hi. rewrite <-(insert_delete_id m i x Hi) at 1. apply number_insert, lookup_delete_eq.
Qed.

Lemma number_le (m : gmap nat A) : (number P m <= size m)%nat.
Proof. apply map_subseteq_size, map_filter_subseteq. Qed.
End counting.
