(* ===== verification/RustStr.v ===== *)
(** Rust's string slices: the operations of [std::str] the proxy uses.

    A [str] is the list of its bytes.  The source slices with [get], which
    fails when a bound is out of range or inside a multi-byte character, so
    the model keeps the character boundaries of UTF-8. *)

From S2P Require Import Prelude.

Module Str.

Definition byte (n : N) : Ascii.ascii := Ascii.ascii_of_N n.

Definition dot : Ascii.ascii := byte 46.
Definition star : Ascii.ascii := byte 42.
Definition slash : Ascii.ascii := byte 47.
Definition colon : Ascii.ascii := byte 58.
Definition comma : Ascii.ascii := byte 44.
Definition question : Ascii.ascii := byte 63.
Definition rbracket : Ascii.ascii := byte 93.

(** [str::starts_with] and [str::ends_with] with a string pattern. *)
Definition starts_with (s p : str) : bool := bool_decide (p `prefix_of` s).
Definition ends_with (s p : str) : bool := bool_decide (p `suffix_of` s).

(** [str::contains] with a one-byte character pattern. *)
Definition contains_char (s : str) (c : Ascii.ascii) : bool := bool_decide (c ∈ s).

(** [str::strip_prefix] and [str::strip_suffix] with a one-byte character. *)
Definition strip_prefix_char (s : str) (c : Ascii.ascii) : option str :=
  match s with
  | [] => None
  | b :: s' => if bool_decide (b = c) then Some s' else None
  end.

Definition strip_suffix_char (s : str) (c : Ascii.ascii) : option str :=
  reverse <$> strip_prefix_char (reverse s) c.

(** [u8::to_ascii_lowercase]. *)
Definition to_ascii_lowercase (c : Ascii.ascii) : Ascii.ascii :=
  let n := Ascii.N_of_ascii c in
  if (65 <=? n)%N && (n <=? 90)%N then byte (n + 32)%N else c.

(** [str::eq_ignore_ascii_case]. *)
Definition eq_ignore_ascii_case (s t : str) : bool :=
  bool_decide (to_ascii_lowercase <$> s = to_ascii_lowercase <$> t).

(** A UTF-8 continuation byte, [0x80..=0xBF]. *)
Definition is_continuation (c : Ascii.ascii) : bool :=
  let n := Ascii.N_of_ascii c in (128 <=? n)%N && (n <=? 191)%N.

(** [str::is_char_boundary]. *)
Definition is_char_boundary (s : str) (i : nat) : bool :=
  bool_decide (i = 0) || bool_decide (i = length s) ||
  match s !! i with Some c => negb (is_continuation c) | None => false end.

(** [s.get(..i)], [s.get(i..)] and [s.get(i..j)]. *)
Definition get_to (s : str) (i : nat) : option str :=
  if is_char_boundary s i then Some (take i s) else None.

Definition get_from (s : str) (i : nat) : option str :=
  if is_char_boundary s i then Some (drop i s) else None.

Definition get_range (s : str) (i j : nat) : option str :=
  if bool_decide (i <= j) && is_char_boundary s i && is_char_boundary s j
  then Some (take (j - i) (drop i s)) else None.

(** The byte offsets of [str::char_indices]. *)
Definition char_indices (s : str) : list nat :=
  filter (λ i, is_char_boundary s i = true) (seq 0 (length s)).

(** [str::find] with a string pattern: the first offset where it occurs. *)
Definition find_str (s needle : str) : option nat :=
  find (λ i, starts_with (drop i s) needle) (seq 0 (S (length s))).

(** The offsets of [str::match_indices] with a one-byte character. *)
Definition match_indices_char (s : str) (c : Ascii.ascii) : list nat :=
  filter (λ i, s !! i = Some c) (seq 0 (length s)).

(** [str::split] with a one-byte character: always at least one piece. *)
Fixpoint split_char (s : str) (c : Ascii.ascii) : list str :=
  match s with
  | [] => [[]]
  | b :: s' =>
    if bool_decide (b = c) then [] :: split_char s' c
    else match split_char s' c with
         | p :: ps => (b :: p) :: ps
         | [] => [[b]]
         end
  end.

(** [str::rsplit_once] with a one-byte character. *)
Fixpoint split_once_char (s : str) (c : Ascii.ascii) : option (str * str) :=
  match s with
  | [] => None
  | b :: s' =>
    if bool_decide (b = c) then Some ([], s')
    else '(l, r) ← split_once_char s' c; Some (b :: l, r)
  end.

Definition rsplit_once_char (s : str) (c : Ascii.ascii) : option (str * str) :=
  '(l, r) ← split_once_char (reverse s) c; Some (reverse r, reverse l).

(** ASCII white space, as [char::is_whitespace] sees it below 128. *)
Definition is_ascii_space (c : Ascii.ascii) : bool :=
  let n := Ascii.N_of_ascii c in
  (9 <=? n)%N && (n <=? 13)%N || (n =? 32)%N.

Fixpoint trim_start (s : str) : str :=
  match s with
  | [] => []
  | b :: s' => if is_ascii_space b then trim_start s' else s
  end.

(** [str::trim] of an ASCII string. *)
Definition trim (s : str) : str := reverse (trim_start (reverse (trim_start s))).

(** [u8::is_ascii_digit]. *)
Definition is_ascii_digit (c : Ascii.ascii) : bool :=
  let n := Ascii.N_of_ascii c in (48 <=? n)%N && (n <=? 57)%N.

(** *** Facts *)

Lemma starts_with_true s p : starts_with s p = true ↔ p `prefix_of` s.
Proof. apply bool_decide_eq_true. Qed.

Lemma ends_with_true s p : ends_with s p = true ↔ p `suffix_of` s.
Proof. apply bool_decide_eq_true. Qed.

Lemma strip_prefix_char_Some s c t :
  strip_prefix_char s c = Some t ↔ s = c :: t.
Proof.
  destruct s as [|b s]; simpl; [naive_solver|].
  case_bool_decide; naive_solver.
Qed.

Lemma strip_suffix_char_Some s c t :
  strip_suffix_char s c = Some t ↔ s = t ++ [c].
Proof.
  unfold strip_suffix_char. rewrite fmap_Some. split.
  - intros (u & Hu%strip_prefix_char_Some & ->).
    by rewrite <-(reverse_involutive s), Hu, reverse_cons.
  - intros ->. exists (reverse t). rewrite reverse_involutive. split; [|done].
    by rewrite strip_prefix_char_Some, reverse_snoc.
Qed.

Lemma strip_suffix_char_None s c :
  strip_suffix_char s c = None ↔ ∀ t, s ≠ t ++ [c].
Proof.
  destruct (strip_suffix_char s c) as [t|] eqn:E.
  - apply strip_suffix_char_Some in E as ->. split; [done|]. intros H. by destruct (H t).
  - split; [|done]. intros _ t Ht. apply strip_suffix_char_Some in Ht. congruence.
Qed.

Lemma eq_ignore_ascii_case_length s t :
  eq_ignore_ascii_case s t = true → length s = length t.
Proof.
  unfold eq_ignore_ascii_case. intros H%bool_decide_eq_true%(f_equal length).
  by rewrite !length_fmap in H.
Qed.

Lemma eq_ignore_ascii_case_refl s : eq_ignore_ascii_case s s = true.
Proof. by apply bool_decide_eq_true. Qed.

Lemma is_char_boundary_le s i : is_char_boundary s i = true → i ≤ length s.
Proof.
  unfold is_char_boundary. rewrite !orb_true_iff, !bool_decide_eq_true.
  intros [[->| ->]|H]; [lia|lia|].
  destruct (s !! i) eqn:E; [|done]. apply lookup_lt_Some in E. lia.
Qed.

Lemma get_to_Some s i t : get_to s i = Some t → t = take i s ∧ i ≤ length s.
Proof.
  unfold get_to. destruct (is_char_boundary s i) eqn:E; [|done].
  intros [= <-]. split; [done|]. by apply is_char_boundary_le.
Qed.

Lemma get_from_Some s i t : get_from s i = Some t → t = drop i s ∧ i ≤ length s.
Proof.
  unfold get_from. destruct (is_char_boundary s i) eqn:E; [|done].
  intros [= <-]. split; [done|]. by apply is_char_boundary_le.
Qed.

Lemma elem_of_match_indices s c i : i ∈ match_indices_char s c ↔ s !! i = Some c.
Proof.
  unfold match_indices_char. rewrite list_elem_of_filter, elem_of_seq.
  split; [naive_solver|]. intros H. pose proof (lookup_lt_Some _ _ _ H). naive_solver lia.
Qed.
Lemma split_once_char_Some s c l r : split_once_char s c = Some (l, r) → s = l ++ c :: r.
Proof.
  revert l. induction s as [|b s IH]; intros l; simpl; [done|].
  case_bool_decide; [naive_solver|].
  destruct (split_once_char s c) as [[l' r']|]; simpl; [|done].
  intros [= <- <-]. simpl. f_equal. auto.
Qed.

Lemma rsplit_once_char_Some s c l r : rsplit_once_char s c = Some (l, r) → s = l ++ c :: r.
Proof.
  unfold rsplit_once_char. destruct (split_once_char _ _) as [[l' r']|] eqn:E; simpl; [|done].
  intros [= <- <-]. apply split_once_char_Some in E.
  rewrite <-(reverse_involutive s), E, reverse_app, reverse_cons, <-(assoc_L (++)). done.
Qed.


(** ** The order of [str] *)

Fixpoint bytes_le (a b : str) : bool :=
  match a, b with
  | [], _ => true
  | _, [] => false
  | x :: a, y :: b =>
    let nx := Ascii.N_of_ascii x in
    let ny := Ascii.N_of_ascii y in
    (nx <? ny)%N || ((nx =? ny)%N && bytes_le a b)
  end.

Definition str_le (a b : str) : Prop := bytes_le a b = true.

#[global] Instance str_le_dec : RelDecision str_le.
Proof. intros a b. unfold str_le. apply _. Defined.

Lemma str_le_cons x a y b :
  str_le (x :: a) (y :: b) ↔ (Ascii.N_of_ascii x < Ascii.N_of_ascii y)%N ∨ x = y ∧ str_le a b.
Proof.
  unfold str_le. cbn [bytes_le]. rewrite orb_true_iff, andb_true_iff, N.ltb_lt, N.eqb_eq.
  split; (intros [?|[Hx ?]]; [by left|right; split; [|done]]); [|by subst].
  by rewrite <-(Ascii.ascii_N_embedding x), Hx, Ascii.ascii_N_embedding.
Qed.

Lemma str_le_refl a : str_le a a.
Proof. induction a as [|x a IH]; [done|]. rewrite str_le_cons. by right. Qed.

#[global] Instance str_le_trans : Transitive str_le.
Proof.
  intros a. induction a as [|x a IH]; intros [|y b] [|z c]; try done.
  rewrite !str_le_cons. intros [?|[-> ?]] [?|[-> ?]]; [left; lia|by left|by left|right; eauto].
Qed.

#[global] Instance str_le_total : Total str_le.
Proof.
  intros a. induction a as [|x a IH]; intros [|y b]; [by left|by left|by right|]. rewrite !str_le_cons.
  destruct (N.lt_trichotomy (Ascii.N_of_ascii x) (Ascii.N_of_ascii y)) as [?|[Heq|?]]; [tauto| |tauto].
  assert (x = y) as -> by by rewrite <-(Ascii.ascii_N_embedding x), Heq, Ascii.ascii_N_embedding.
  destruct (IH b); [left|right]; auto.
Qed.

#[global] Instance str_le_antisymm : AntiSymm (=) str_le.
Proof.
  intros a. induction a as [|x a IH]; intros [|y b]; try done. rewrite !str_le_cons.
  intros [?|[-> ?]] [?|[? ?]]; try lia; simplify_eq; try lia. f_equal. by apply IH.
Qed.
End Str.
