(* ===== verification/Net.v ===== *)
(** Addresses and networks.

    [IpAddr] and [SocketAddr] are the standard library's, with an address as
    its bits.  [IpNet] comes from the third-party crate ipnet: it is a
    parameter of the development, the class [IpNetLib], and [IpNetSpec] states
    the documented behaviour the matchers rely on. *)

From S2P Require Import Prelude.
Local Open Scope Z_scope.

Module Net.

(** [std::net::IpAddr]; [Ipv4Addr::to_bits] and [Ipv6Addr::to_bits] give the
    content. *)
Inductive IpAddr : Type :=
  | V4 (bits : Z)
  | V6 (bits : Z).

Definition wf_ip (a : IpAddr) : Prop :=
  match a with
  | V4 b => 0 <= b < 2 ^ 32
  | V6 b => 0 <= b < 2 ^ 128
  end.

(** [std::net::SocketAddr]. *)
Record SocketAddr : Type := mk_sock { sock_ip : IpAddr; sock_port : Z }.

#[export] Instance IpAddr_eq_dec : EqDecision IpAddr.
Proof. solve_decision. Defined.
#[export] Instance SocketAddr_eq_dec : EqDecision SocketAddr.
Proof. solve_decision. Defined.

(** ** The ipnet crate *)
Class IpNetLib : Type := {
  Ipv4Net : Type;
  Ipv6Net : Type;
  v4_prefix_len : Ipv4Net -> Z;
  v6_prefix_len : Ipv6Net -> Z;
  v4_network : Ipv4Net -> Z;
  v6_network : Ipv6Net -> Z;
  v4_trunc : Ipv4Net -> Ipv4Net;
  v6_trunc : Ipv6Net -> Ipv6Net;
  v4_contains : Ipv4Net -> Z -> bool;
  v6_contains : Ipv6Net -> Z -> bool;
}.

Inductive IpNet `{IpNetLib} : Type :=
  | NetV4 (n : Ipv4Net)
  | NetV6 (n : Ipv6Net).
Arguments NetV4 {_} _.
Arguments NetV6 {_} _.

Section ipnet.
Context `{IpNetLib}.

Definition net_prefix_len (n : IpNet) : Z :=
  match n with NetV4 n => v4_prefix_len n | NetV6 n => v6_prefix_len n end.

Definition net_trunc (n : IpNet) : IpNet :=
  match n with NetV4 n => NetV4 (v4_trunc n) | NetV6 n => NetV6 (v6_trunc n) end.

(** Networks of one family never contain addresses of the other. *)
Definition net_contains (n : IpNet) (a : IpAddr) : bool :=
  match n, a with
  | NetV4 n, V4 b => v4_contains n b
  | NetV6 n, V6 b => v6_contains n b
  | _, _ => false
  end.
End ipnet.

(** A network of width [w]: [len] leading bits are significant, the network
    address has the others at zero, and an address belongs to the network when
    its leading [len] bits are those of the network address. *)
Definition cidr_spec (w len network : Z) (contains : Z -> bool) : Prop :=
  0 <= len <= w /\
  0 <= network < 2 ^ w /\
  network mod 2 ^ (w - len) = 0 /\
  forall b, 0 <= b < 2 ^ w ->
    contains b = (b / 2 ^ (w - len) =? network / 2 ^ (w - len)).

Class IpNetSpec `{IpNetLib} : Prop := {
  v4_cidr : forall n, cidr_spec 32 (v4_prefix_len n) (v4_network n) (v4_contains n);
  v6_cidr : forall n, cidr_spec 128 (v6_prefix_len n) (v6_network n) (v6_contains n);
  v4_trunc_len : forall n, v4_prefix_len (v4_trunc n) = v4_prefix_len n;
  v6_trunc_len : forall n, v6_prefix_len (v6_trunc n) = v6_prefix_len n;
  v4_trunc_network : forall n, v4_network (v4_trunc n) = v4_network n;
  v6_trunc_network : forall n, v6_network (v6_trunc n) = v6_network n;
}.

(** ** Masks *)

(** [MAX << (w - len)] on a [w]-bit word, 0 for a zero-length prefix. *)
Definition prefix_mask (w len : Z) : Z :=
  if len =? 0 then 0 else Z.shiftl (2 ^ w - 1) (w - len) mod 2 ^ w.

Lemma prefix_mask_alt w len :
  0 <= len <= w -> prefix_mask w len = 2 ^ w - 2 ^ (w - len).
Proof.
  intros Hl. unfold prefix_mask. destruct (Z.eqb_spec len 0) as [->|].
  { rewrite Z.sub_0_r. lia. }
  rewrite Z.shiftl_mul_pow2 by lia.
  assert (0 < 2 ^ (w - len)) by (apply Z.pow_pos_nonneg; lia).
  assert (2 ^ (w - len) <= 2 ^ w) by (apply Z.pow_le_mono_r; lia).
  replace ((2 ^ w - 1) * 2 ^ (w - len))
    with (2 ^ w - 2 ^ (w - len) + (2 ^ (w - len) - 1) * 2 ^ w) by ring.
  rewrite Z.mod_add by lia. apply Z.mod_small. lia.
Qed.

Lemma land_prefix_mask w len b :
  0 <= len <= w -> 0 <= b < 2 ^ w ->
  Z.land b (prefix_mask w len) = b / 2 ^ (w - len) * 2 ^ (w - len).
Proof.
  intros Hl Hb. rewrite prefix_mask_alt by done.
  replace (2 ^ w - 2 ^ (w - len)) with (Z.shiftl (Z.ones len) (w - len)).
  2: { rewrite Z.ones_equiv, Z.shiftl_mul_pow2 by lia.
       unfold Z.pred. rewrite Z.mul_add_distr_r, <-Z.pow_add_r by lia.
       replace (len + (w - len)) with w by lia. lia. }
  rewrite <-Z.shiftl_mul_pow2, <-Z.shiftr_div_pow2 by lia.
  apply Z.bits_inj'. intros i Hi.
  rewrite Z.land_spec, !Z.shiftl_spec by lia.
  destruct (Z.ltb_spec i (w - len)).
  { rewrite !(Z.testbit_neg_r _ (i - (w - len))) by lia. by rewrite andb_false_r. }
  rewrite Z.shiftr_spec by lia. replace (i - (w - len) + (w - len)) with i by lia.
  rewrite Z.testbit_ones_nonneg by lia.
  destruct (Z.ltb_spec (i - (w - len)) len).
  { by rewrite andb_true_r. }
  rewrite andb_false_r. symmetry.
  destruct (decide (b = 0)) as [->|]; [by rewrite Z.bits_0|].
  apply Z.bits_above_log2; [lia|]. enough (Z.log2 b < w) by lia. apply Z.log2_lt_pow2; lia.
Qed.

(** Masking an address and comparing with the network address is the
    membership test. *)
Lemma cidr_masked w len network contains b :
  cidr_spec w len network contains -> 0 <= b < 2 ^ w ->
  contains b = true <-> Z.land b (prefix_mask w len) = network.
Proof.
  intros (Hl & Hn & Hmod & Hc) Hb. rewrite Hc, Z.eqb_eq, land_prefix_mask by done.
  assert (0 < 2 ^ (w - len)) by (apply Z.pow_pos_nonneg; lia).
  assert (network = network / 2 ^ (w - len) * 2 ^ (w - len)) as Hnet.
  { rewrite (Z.div_mod network (2 ^ (w - len))) at 1 by lia. lia. }
  split.
  - intros ->. by rewrite <-Hnet.
  - intros E. rewrite <-E, Z.div_mul by lia. done.
Qed.
End Net.
