(* ===== verification/Metadata.v ===== *)
(** What the listener knows about a downstream connection
    (arion-lib/src/listeners/metadata.rs, with the TLV types of
    arion-configuration/src/config/common.rs). *)

From S2P Require Import Prelude Net.
Import Net.

Module Metadata.

(** The type byte of a PROXY protocol v2 TLV. *)
Inductive TlvType : Type :=
  | Custom (value : Z)
  | NoOp.

#[export] Instance TlvType_eq_dec : EqDecision TlvType.
Proof. solve_decision. Defined.

#[export] Instance TlvType_countable : Countable TlvType.
Proof.
  refine (inj_countable' (λ t, match t with Custom v => Some v | NoOp => None end)
                         (λ o, match o with Some v => Custom v | None => NoOp end) _).
  by intros [].
Defined.

(** [impl From<u8> for TlvType]. *)
Definition TlvType_from (value : Z) : TlvType :=
  if (value =? 0)%Z then NoOp else Custom value.

(** [impl From<TlvType> for u8]. *)
Definition u8_from (t : TlvType) : Z :=
  match t with NoOp => 0%Z | Custom value => value end.

(** [Protocol] is [ppp::v2::Protocol]. *)
Inductive DownstreamConnectionMetadata (Protocol : Type) : Type :=
  | FromSocket (peer_addr local_addr : SocketAddr)
  | FromProxyProtocol
      (original_peer_address original_destination_address : SocketAddr)
      (protocol : Protocol)
      (tlv_data : gmap TlvType (list Z))
      (proxy_peer_address proxy_local_address : SocketAddr).
Arguments FromSocket {Protocol} _ _.
Arguments FromProxyProtocol {Protocol} _ _ _ _ _ _.

Section accessors.
Context {Protocol : Type}.

Definition peer_address (m : DownstreamConnectionMetadata Protocol) : SocketAddr :=
  match m with
  | FromSocket peer _ => peer
  | FromProxyProtocol original_peer _ _ _ _ _ => original_peer
  end.

Definition local_address (m : DownstreamConnectionMetadata Protocol) : SocketAddr :=
  match m with
  | FromSocket _ local => local
  | FromProxyProtocol _ original_destination _ _ _ _ => original_destination
  end.
End accessors.
End Metadata.
