(* ===== verification/ListenerConfig.v ===== *)
(** The match rules of a listener's filter chains
    (arion-configuration/src/config/listener.rs): the scores a rule gives to
    one criterion of a connection, and the linear selection over them that the
    repository keeps as the oracle of its tests
    (arion-lib/src/listeners/filterchain_matcher.rs, [reference_select]). *)

From S2P Require Import Prelude RustStr Net Metadata.
Import Net Metadata.
Local Open Scope Z_scope.

Module ListenerConfig.

(** ** Scores *)

(** A lower [Matched] score is a more specific match. *)
Inductive MatchResult : Type :=
  | FailedMatch
  | NoRule
  | Matched (score : Z).

#[export] Instance MatchResult_eq_dec : EqDecision MatchResult.
Proof. solve_decision. Defined.

(** [impl Ord for MatchResult]. *)
Definition mr_cmp (a b : MatchResult) : comparison :=
  match a, b with
  | Matched x, Matched y => CompOpp (x ?= y)
  | FailedMatch, FailedMatch | NoRule, NoRule => Eq
  | Matched _, _ | NoRule, FailedMatch => Gt
  | _, Matched _ | FailedMatch, NoRule => Lt
  end.

Definition mr_gt (a b : MatchResult) : bool :=
  match mr_cmp a b with Gt => true | _ => false end.

(** [Iterator::max]: the last of the greatest elements. *)
Definition mr_max (l : list MatchResult) : option MatchResult :=
  match l with
  | [] => None
  | x :: l => Some (fold_left (fun best y => if mr_gt best y then best else y) l x)
  end.

(** ** Match rules *)

Record ServerNameMatch : Type := mk_sn {
  sn_name : str;
  sn_match_subdomains : bool;
}.

(** The error message; [GenericError] is a trace of messages. *)
Inductive ConfigError : Type := InternalWildcard.

(** [impl FromStr for ServerNameMatch]; [to_lowercase] is [str::to_lowercase]. *)
Definition ServerNameMatch_from_str (to_lowercase : str -> str) (s : str)
    : result ConfigError ServerNameMatch :=
  let '(match_subdomains, s) :=
    match Str.strip_prefix_char s Str.star with
    | Some rest => if Str.starts_with rest [Str.dot] then (true, rest) else (false, s)
    | None => (false, s)
    end in
  if Str.contains_char s Str.star then Err InternalWildcard
  else Ok (mk_sn (to_lowercase s) match_subdomains).

Record FilterChainMatch `{IpNetLib} : Type := mk_fcm {
  destination_port : option Z;
  destination_prefix_ranges : list IpNet;
  server_names : list ServerNameMatch;
  source_prefix_ranges : list IpNet;
  source_ports : list Z;
}.
Arguments mk_fcm {_} _ _ _ _ _.

Section match_rules.
Context `{IpNetLib}.

Definition matches_destination_port (m : FilterChainMatch) (port : Z) : MatchResult :=
  match destination_port m with
  | Some destination => if port =? destination then Matched 0 else FailedMatch
  | None => NoRule
  end.

Definition ip_width (a : IpAddr) : Z := match a with V4 _ => 32 | V6 _ => 128 end.

(** The common body of [matches_destination_ip] and [matches_source_ip]. *)
Definition matches_ranges (ranges : list IpNet) (a : IpAddr) : MatchResult :=
  default NoRule (mr_max ((fun range =>
    if net_contains range a then Matched (ip_width a - net_prefix_len range)
    else FailedMatch) <$> ranges)).

Definition matches_destination_ip (m : FilterChainMatch) (a : IpAddr) : MatchResult :=
  matches_ranges (destination_prefix_ranges m) a.

Definition matches_source_ip (m : FilterChainMatch) (a : IpAddr) : MatchResult :=
  matches_ranges (source_prefix_ranges m) a.

(** How many labels of [server_name] the wildcard stands for: the dots in
    [server_name[..=prefix_len]], the whole name if that is out of range. *)
Definition wildcard_score (server_name name : str) : Z :=
  let prefix_len := (length server_name - length name)%nat in
  let head := if bool_decide (prefix_len < length server_name)%nat
              then take (S prefix_len) server_name else server_name in
  let count := Z.of_nat (length (filter (fun b => b = Str.dot) head)) in
  if count <=? Int.u32_max then count else 0.

Definition matches_one_name (server_name : str) (name_match : ServerNameMatch) : MatchResult :=
  if sn_match_subdomains name_match then
    if Str.ends_with server_name (sn_name name_match)
    then Matched (wildcard_score server_name (sn_name name_match))
    else FailedMatch
  else if bool_decide (server_name = sn_name name_match) then Matched 0
  else FailedMatch.

Definition matches_server_name (m : FilterChainMatch) (server_name : str) : MatchResult :=
  default NoRule (mr_max (matches_one_name server_name <$> server_names m)).

Definition matches_source_port (m : FilterChainMatch) (source_port : Z) : MatchResult :=
  if bool_decide (source_ports m = []) then NoRule
  else if bool_decide (source_port ∈ source_ports m) then Matched 0
  else FailedMatch.

(** ** The linear selection *)

(** First loop of [match_subitem]: score the filters that are still possible
    and keep the best score; the scratchpad of the others is left alone. *)
Fixpoint score_possible (f : FilterChainMatch -> MatchResult)
    (entries : list FilterChainMatch) (scratchpad : list MatchResult)
    (possible : list bool) (best : MatchResult) : list MatchResult * MatchResult :=
  match entries, scratchpad, possible with
  | m :: entries, slot :: scratchpad, p :: possible =>
    if p then
      let match_result := f m in
      let best := if mr_gt match_result best then match_result else best in
      let '(scratchpad, best) := score_possible f entries scratchpad possible best in
      (match_result :: scratchpad, best)
    else
      let '(scratchpad, best) := score_possible f entries scratchpad possible best in
      (slot :: scratchpad, best)
  | _, _, _ => (scratchpad, best)
  end.

(** Second loop: drop the filters that do not have the best score. *)
Definition keep_best (best : MatchResult) (scratchpad : list MatchResult)
    (possible : list bool) : list bool :=
  zip_with (fun result is_possible =>
    if bool_decide (result <> best) || bool_decide (result = FailedMatch)
    then false else is_possible) scratchpad possible.

Definition match_subitem (f : FilterChainMatch -> MatchResult)
    (entries : list FilterChainMatch) (st : list MatchResult * list bool)
    : list MatchResult * list bool :=
  let '(scratchpad, possible) := st in
  let '(scratchpad, best) := score_possible f entries scratchpad possible FailedMatch in
  (scratchpad, keep_best best scratchpad possible).

Inductive SelectError : Type := MultipleFilterChains.

Definition reference_select {Protocol T} (entries : list (FilterChainMatch * T))
    (meta : DownstreamConnectionMetadata Protocol) (server_name : option str)
    : result SelectError (option T) :=
  let source_addr := peer_address meta in
  let destination_addr := local_address meta in
  let rules := entries.*1 in
  let st := ((fun _ => NoRule) <$> rules, (fun _ => true) <$> rules) in
  let st := match_subitem (fun m => matches_destination_port m (sock_port destination_addr)) rules st in
  let st := match_subitem (fun m => matches_destination_ip m (sock_ip destination_addr)) rules st in
  let st := match_subitem (fun m => matches_server_name m (default [] server_name)) rules st in
  let st := match_subitem (fun m => matches_source_ip m (sock_ip source_addr)) rules st in
  let st := match_subitem (fun m => matches_source_port m (sock_port source_addr)) rules st in
  match (filter (fun p : bool * T => p.1 = true) (zip st.2 entries.*2)).*2 with
  | [] => Ok None
  | [value] => Ok (Some value)
  | _ => Err MultipleFilterChains
  end.
End match_rules.
End ListenerConfig.
