(* ===== verification/FilterChain.v ===== *)
(** The compiled filter-chain matcher
    (arion-lib/src/listeners/filterchain_matcher.rs): a five-level decision
    tree built once from the match rules, and the selection that walks it. *)

From S2P Require Import Prelude RustStr Net Metadata ListenerConfig.
Import Net Metadata ListenerConfig.
Local Open Scope Z_scope.

Module FilterChain.

(** [entry(k).or_default()] followed by an update of the value. *)
Definition entry_update {K V} `{Countable K, Inhabited V}
    (k : K) (f : V -> V) (m : gmap K V) : gmap K V :=
  <[k := f (default inhabitant (m !! k))]> m.

(** [BTreeMap::into_iter().rev()]: descending keys. *)
Definition btree_rev {V} (m : gmap Z V) : list (Z * V) := reverse (btree_iter Z.le m).

Inductive MatchLeaf : Type :=
  | Single (idx : nat)
  | Multiple.

(** Levels 2 and 4: one entry per prefix length, longest first.  The prefix
    level of IPv4 and that of IPv6 differ in the width of the mask only. *)
Record IpPrefixLevel (Next : Type) : Type := mk_level {
  level_mask : Z;
  level_prefixes : gmap Z Next;
}.
Arguments mk_level {Next} _ _.
Arguments level_mask {Next} _.
Arguments level_prefixes {Next} _.

Inductive IpMatcher (Next : Type) : Type :=
  | IpWildcardOnly (next : Next)
  | IpWithPrefixes (v4 v6 : list (IpPrefixLevel Next)) (wildcard : option Next).
Arguments IpWildcardOnly {Next} _.
Arguments IpWithPrefixes {Next} _ _ _.

(** Level 5. *)
Inductive SourcePortMatcher : Type :=
  | SrcPortWildcardOnly (leaf : MatchLeaf)
  | SrcPortWithExact (exact : gmap Z MatchLeaf) (wildcard : option MatchLeaf).

Notation SourceIpMatcher := (IpMatcher SourcePortMatcher).

(** Level 3. *)
Inductive ServerNameMatcher : Type :=
  | NameWildcardOnly (next : SourceIpMatcher)
  | NameWithRules (exact wildcard_suffixes : gmap str SourceIpMatcher)
      (fallback : option SourceIpMatcher).

Notation DestIpMatcher := (IpMatcher ServerNameMatcher).

(** Level 1. *)
Inductive DestPortMatcher : Type :=
  | DstPortWildcardOnly (next : DestIpMatcher)
  | DstPortWithExact (exact : gmap Z DestIpMatcher) (wildcard : option DestIpMatcher).

Definition ipv4_mask (prefix_len : Z) : Z := prefix_mask 32 prefix_len.
Definition ipv6_mask (prefix_len : Z) : Z := prefix_mask 128 prefix_len.

(** The whole tree. *)
Record FilterChainMatcher : Type := mk_matcher {
  root : option DestPortMatcher;
  has_server_names : bool;
}.

Record FilterChains (T : Type) : Type := mk_chains {
  matcher : FilterChainMatcher;
  chains : list T;
}.
Arguments mk_chains {T} _ _.
Arguments matcher {T} _.
Arguments chains {T} _.

Section matcher.
Context `{IpNetLib}.

Notation Candidate := (nat * FilterChainMatch)%type.

Definition push_unique_candidate (group : list Candidate) (candidate : Candidate) : list Candidate :=
  if bool_decide (fst <$> last group <> Some candidate.1) then group ++ [candidate] else group.

Definition build_group_map {K Next} `{Countable K}
    (groups : gmap K (list Candidate)) (build_next : list Candidate -> option Next) : gmap K Next :=
  omap build_next groups.

Definition from_candidates (candidates : list Candidate) : option MatchLeaf :=
  match candidates with
  | [] => None
  | [(idx, _)] => Some (Single idx)
  | _ => Some Multiple
  end.

(** *** Level 5: source port *)

Definition source_port_step
    (st : gmap Z (list Candidate) * list Candidate) (candidate : Candidate) :=
  let '(port_groups, wildcard) := st in
  match source_ports candidate.2 with
  | [] => (port_groups, wildcard ++ [candidate])
  | ports =>
    (fold_left (fun g port => entry_update port (fun l => push_unique_candidate l candidate) g)
       ports port_groups, wildcard)
  end.

Definition SourcePortMatcher_build (candidates : list Candidate) : option SourcePortMatcher :=
  if bool_decide (candidates = []) then None
  else if negb (existsb (fun c => negb (bool_decide (source_ports c.2 = []))) candidates)
  then SrcPortWildcardOnly <$> from_candidates candidates
  else
    let '(port_groups, wildcard) := fold_left source_port_step candidates (∅, []) in
    Some (SrcPortWithExact (build_group_map port_groups from_candidates) (from_candidates wildcard)).

Definition source_port_select_next (m : SourcePortMatcher) (src_port : Z) : option MatchLeaf :=
  match m with
  | SrcPortWildcardOnly leaf => Some leaf
  | SrcPortWithExact exact wildcard =>
    match exact !! src_port with Some leaf => Some leaf | None => wildcard end
  end.

(** *** Levels 2 and 4: addresses *)

Definition add_range (candidate : Candidate)
    (st : gmap Z (gmap Z (list Candidate)) * gmap Z (gmap Z (list Candidate))) (range : IpNet) :=
  let '(v4_groups, v6_groups) := st in
  match net_trunc range with
  | NetV4 net =>
    (entry_update (v4_prefix_len net)
       (entry_update (v4_network net) (fun l => push_unique_candidate l candidate)) v4_groups,
     v6_groups)
  | NetV6 net =>
    (v4_groups,
     entry_update (v6_prefix_len net)
       (entry_update (v6_network net) (fun l => push_unique_candidate l candidate)) v6_groups)
  end.

Definition ip_step (get_ranges : FilterChainMatch -> list IpNet)
    (st : gmap Z (gmap Z (list Candidate)) * gmap Z (gmap Z (list Candidate)) * list Candidate)
    (candidate : Candidate) :=
  let '(groups, wildcard) := st in
  match get_ranges candidate.2 with
  | [] => (groups, wildcard ++ [candidate])
  | ranges => (fold_left (add_range candidate) ranges groups, wildcard)
  end.

(** The prefix levels of one family, longest prefix first, without the empty ones. *)
Definition prefix_levels {Next} (mask : Z -> Z) (build_next : list Candidate -> option Next)
    (groups : gmap Z (gmap Z (list Candidate))) : list (IpPrefixLevel Next) :=
  omap (fun '(prefix_len, net_map) =>
    let prefixes := build_group_map net_map build_next in
    if bool_decide (prefixes = ∅) then None else Some (mk_level (mask prefix_len) prefixes))
    (btree_rev groups).

Definition IpMatcher_build {Next} (candidates : list Candidate)
    (get_ranges : FilterChainMatch -> list IpNet) (build_next : list Candidate -> option Next)
    : option (IpMatcher Next) :=
  if bool_decide (candidates = []) then None
  else if negb (existsb (fun c => negb (bool_decide (get_ranges c.2 = []))) candidates)
  then IpWildcardOnly <$> build_next candidates
  else
    let '(v4_groups, v6_groups, wildcard) :=
      fold_left (ip_step get_ranges) candidates (∅, ∅, []) in
    Some (IpWithPrefixes (prefix_levels ipv4_mask build_next v4_groups)
            (prefix_levels ipv6_mask build_next v6_groups) (build_next wildcard)).

Definition ip_select_next {Next} (m : IpMatcher Next) (ip : IpAddr) : option Next :=
  match m with
  | IpWildcardOnly next => Some next
  | IpWithPrefixes v4 v6 wildcard =>
    let found :=
      match ip with
      | V4 bits => find_map (fun level => level_prefixes level !! Z.land bits (level_mask level)) v4
      | V6 bits => find_map (fun level => level_prefixes level !! Z.land bits (level_mask level)) v6
      end in
    match found with Some next => Some next | None => wildcard end
  end.

Definition build_source (candidates : list Candidate) : option SourceIpMatcher :=
  IpMatcher_build candidates source_prefix_ranges SourcePortMatcher_build.

(** *** Level 3: server name *)

Definition add_name (candidate : Candidate)
    (st : gmap str (list Candidate) * gmap str (list Candidate)) (sn : ServerNameMatch) :=
  let '(exact_groups, wildcard_groups) := st in
  if sn_match_subdomains sn
  then (exact_groups,
        entry_update (sn_name sn) (fun l => push_unique_candidate l candidate) wildcard_groups)
  else (entry_update (sn_name sn) (fun l => push_unique_candidate l candidate) exact_groups,
        wildcard_groups).

Definition name_step
    (st : gmap str (list Candidate) * gmap str (list Candidate) * list Candidate)
    (candidate : Candidate) :=
  let '(groups, fallback) := st in
  match server_names candidate.2 with
  | [] => (groups, fallback ++ [candidate])
  | names => (fold_left (add_name candidate) names groups, fallback)
  end.

Definition ServerNameMatcher_build (candidates : list Candidate) : option ServerNameMatcher :=
  if bool_decide (candidates = []) then None
  else if negb (existsb (fun c => negb (bool_decide (server_names c.2 = []))) candidates)
  then NameWildcardOnly <$> build_source candidates
  else
    let '(exact_groups, wildcard_groups, fallback) :=
      fold_left name_step candidates (∅, ∅, []) in
    Some (NameWithRules (build_group_map exact_groups build_source)
            (build_group_map wildcard_groups build_source) (build_source fallback)).

Definition name_select_next (m : ServerNameMatcher) (server_name : str) : option SourceIpMatcher :=
  match m with
  | NameWildcardOnly next => Some next
  | NameWithRules exact wildcard_suffixes fallback =>
    match exact !! server_name with
    | Some next => Some next
    | None =>
      let found :=
        if bool_decide (wildcard_suffixes = ∅) then None
        else find_map (fun idx => suffix ← Str.get_from server_name idx; wildcard_suffixes !! suffix)
               (Str.match_indices_char server_name Str.dot) in
      match found with Some next => Some next | None => fallback end
    end
  end.

Definition build_dest (candidates : list Candidate) : option DestIpMatcher :=
  IpMatcher_build candidates destination_prefix_ranges ServerNameMatcher_build.

(** *** Level 1: destination port *)

Definition dest_port_step
    (st : gmap Z (list Candidate) * list Candidate) (candidate : Candidate) :=
  let '(port_groups, wildcard) := st in
  match destination_port candidate.2 with
  | Some port => (entry_update port (fun l => l ++ [candidate]) port_groups, wildcard)
  | None => (port_groups, wildcard ++ [candidate])
  end.

Definition DestPortMatcher_build (candidates : list Candidate) : option DestPortMatcher :=
  if bool_decide (candidates = []) then None
  else if negb (existsb (fun c => bool_decide (is_Some (destination_port c.2))) candidates)
  then DstPortWildcardOnly <$> build_dest candidates
  else
    let '(port_groups, wildcard) := fold_left dest_port_step candidates (∅, []) in
    Some (DstPortWithExact (build_group_map port_groups build_dest) (build_dest wildcard)).

Definition dest_port_select_next (m : DestPortMatcher) (dst_port : Z) : option DestIpMatcher :=
  match m with
  | DstPortWildcardOnly next => Some next
  | DstPortWithExact exact wildcard =>
    match exact !! dst_port with Some next => Some next | None => wildcard end
  end.

(** *** The tree *)

Definition matcher_empty : FilterChainMatcher := mk_matcher None false.

Definition matcher_new (match_rules : list FilterChainMatch) : FilterChainMatcher :=
  mk_matcher (DestPortMatcher_build (imap pair match_rules))
    (existsb (fun m => negb (bool_decide (server_names m = []))) match_rules).

Definition matcher_select {Protocol} (m : FilterChainMatcher)
    (meta : DownstreamConnectionMetadata Protocol) (server_name : option str) : option MatchLeaf :=
  let source_addr := peer_address meta in
  let destination_addr := local_address meta in
  level1 ← root m;
  level2 ← dest_port_select_next level1 (sock_port destination_addr);
  level3 ← ip_select_next level2 (sock_ip destination_addr);
  level4 ← name_select_next level3 (default [] server_name);
  level5 ← ip_select_next level4 (sock_ip source_addr);
  source_port_select_next level5 (sock_port source_addr).

Definition chains_default {T} : FilterChains T := mk_chains matcher_empty [].

(** [impl FromIterator for FilterChains]. *)
Definition chains_from_iter {T} (entries : list (FilterChainMatch * T)) : FilterChains T :=
  mk_chains (matcher_new entries.*1) entries.*2.

Definition select {Protocol T} (c : FilterChains T)
    (meta : DownstreamConnectionMetadata Protocol) (server_name : option str)
    : result SelectError (option T) :=
  match matcher_select (matcher c) meta server_name with
  | Some (Single idx) => Ok (chains c !! idx)
  | Some Multiple => Err MultipleFilterChains
  | None => Ok None
  end.

(** [Iterator::collect] into a [Result<Vec<_>, _>]: stop at the first error. *)
Fixpoint collect_results {E U} (l : list (result E U)) : result E (list U) :=
  match l with
  | [] => Ok []
  | r :: l => u ← r; us ← collect_results l; Ok (u :: us)
  end.

Definition try_map {E T U} (c : FilterChains T) (f : T -> result E U) : result E (FilterChains U) :=
  us ← collect_results (f <$> chains c); Ok (mk_chains (matcher c) us).
End matcher.
End FilterChain.
