(* ===== verification/FilterChainRef.v ===== *)
(** The linear oracle, level by level: each [match_subitem] keeps, among the
    filters still possible, those with the best score. *)

From S2P Require Import Prelude RustStr Net Metadata ListenerConfig FilterChain.
Import Net Metadata ListenerConfig FilterChain.
Local Open Scope Z_scope.

Module FilterChainRef.

Create HintDb scores.

(** ** The order on scores *)

Definition mr_le (a b : MatchResult) : Prop := mr_gt a b = false.

Lemma mr_le_refl a : mr_le a a.
Proof. destruct a; unfold mr_le, mr_gt; simpl; [done|done|]. by rewrite Z.compare_refl. Qed.

Lemma mr_le_trans a b c : mr_le a b -> mr_le b c -> mr_le a c.
Proof.
  destruct a as [| |x], b as [| |y], c as [| |z]; unfold mr_le, mr_gt; simpl; try done.
  destruct (Z.compare_spec x y), (Z.compare_spec y z), (Z.compare_spec x z);
    simpl; intros; done || lia.
Qed.

Lemma mr_gt_le a b : mr_gt a b = true -> mr_le b a.
Proof.
  destruct a as [| |x], b as [| |y]; unfold mr_le, mr_gt; simpl; try done.
  destruct (Z.compare_spec x y), (Z.compare_spec y x); simpl; intros; done || lia.
Qed.

Lemma mr_le_antisym a b : mr_le a b -> mr_le b a -> a = b.
Proof.
  destruct a as [| |x], b as [| |y]; unfold mr_le, mr_gt; simpl; try done.
  destruct (Z.compare_spec x y), (Z.compare_spec y x); simpl; intros; subst; done || lia.
Qed.

Lemma mr_le_matched x y : mr_le (Matched x) (Matched y) <-> y <= x.
Proof.
  unfold mr_le, mr_gt; simpl. destruct (Z.compare_spec x y); simpl; split; intros; done || lia.
Qed.

Lemma mr_le_norule_matched x : mr_le NoRule (Matched x).
Proof. done. Qed.
Lemma mr_le_failed a : mr_le FailedMatch a.
Proof. by destruct a. Qed.
#[export] Hint Resolve mr_le_refl mr_le_failed mr_le_norule_matched mr_gt_le : scores.
#[export] Hint Extern 1 (mr_le _ _) => eapply mr_le_trans; eassumption : scores.

Lemma mr_max_spec l b :
  mr_max l = Some b -> b ∈ l /\ forall x, x ∈ l -> mr_le x b.
Proof.
  destruct l as [|x l]; [done|]. intros [= <-]. revert x.
  induction l as [|y l IH]; intros x; simpl.
  { split; [set_solver|]. intros z ->%list_elem_of_singleton. auto with scores. }
  destruct (mr_gt x y) eqn:E.
  - destruct (IH x) as [Hin Hle]. split; [set_solver|].
    assert (mr_le y x) by auto with scores.
    intros z. rewrite !elem_of_cons. intros [->|[->|?]];
      eauto using mr_le_trans, list_elem_of_here, list_elem_of_further.
  - destruct (IH y) as [Hin Hle]. split; [set_solver|].
    intros z. rewrite !elem_of_cons. intros [->|[->|?]];
      eauto using mr_le_trans, list_elem_of_here, list_elem_of_further.
Qed.

Lemma mr_max_None l : mr_max l = None <-> l = [].
Proof. by destruct l. Qed.

(** ** Pruning *)

Section prune.
Context `{IpNetLib}.
Notation Candidate := (nat * FilterChainMatch)%type.
Implicit Types (cs : list Candidate) (score : FilterChainMatch -> MatchResult).

Definition best_from score (b : MatchResult) cs : MatchResult :=
  fold_left (fun b c => if mr_gt (score c.2) b then score c.2 else b) cs b.

Definition best score cs : MatchResult := best_from score FailedMatch cs.

(** The candidates with the best score, none if every score is a failure. *)
Definition prune score cs : list Candidate :=
  filter (fun c => score c.2 = best score cs /\ score c.2 <> FailedMatch) cs.

Lemma best_from_spec score b cs :
  mr_le b (best_from score b cs) /\
  (forall c, c ∈ cs -> mr_le (score c.2) (best_from score b cs)) /\
  (best_from score b cs = b \/ exists c, c ∈ cs /\ score c.2 = best_from score b cs).
Proof.
  revert b. induction cs as [|c cs IH]; intros b; simpl.
  { split_and!; [auto with scores|set_solver|auto]. }
  destruct (IH (if mr_gt (score c.2) b then score c.2 else b)) as (H1 & H2 & H3).
  destruct (mr_gt (score c.2) b) eqn:E; split_and!.
  - eauto using mr_le_trans with scores.
  - intros c'. rewrite elem_of_cons. intros [->|?]; auto.
  - destruct H3 as [->|(c' & ? & ?)]; right; [exists c|exists c']; set_solver.
  - done.
  - intros c'. rewrite elem_of_cons. intros [->|?]; eauto using mr_le_trans.
  - destruct H3 as [?|(c' & ? & ?)]; [by left|right; exists c'; set_solver].
Qed.

(** A score that is reached and is an upper bound is the best one. *)
Lemma best_eq score cs c s :
  c ∈ cs -> score c.2 = s -> (forall c', c' ∈ cs -> mr_le (score c'.2) s) ->
  best score cs = s.
Proof.
  intros Hc <- Hub. destruct (best_from_spec score FailedMatch cs) as (H1 & H2 & H3).
  fold (best score cs) in *. apply mr_le_antisym; [|by apply H2].
  destruct H3 as [->|(c' & Hc' & <-)]; auto with scores.
Qed.

Lemma prune_hit score cs c s :
  c ∈ cs -> score c.2 = s -> s <> FailedMatch ->
  (forall c', c' ∈ cs -> mr_le (score c'.2) s) ->
  prune score cs = filter (fun c => score c.2 = s) cs.
Proof.
  intros Hc Hs Hne Hub. unfold prune. rewrite (best_eq _ _ _ _ Hc Hs Hub).
  apply list_filter_iff. intros c'. split; [by intros [? _]|].
  intros Hs'. split; congruence.
Qed.

Lemma prune_all_failed score cs :
  (forall c, c ∈ cs -> score c.2 = FailedMatch) -> prune score cs = [].
Proof.
  intros Hf. unfold prune. apply filter_none. intros c Hc. rewrite (Hf c Hc). tauto.
Qed.

(** ** The oracle as five prunings *)

(** The elements of [l] whose flag is set. *)
Definition flagged {A} (possible : list bool) (l : list A) : list A :=
  (filter (fun p : bool * A => p.1 = true) (zip possible l)).*2.

Lemma flagged_cons {A} p possible (x : A) l :
  flagged (p :: possible) (x :: l) = if p then x :: flagged possible l else flagged possible l.
Proof. unfold flagged. simpl. rewrite filter_cons. by destruct p. Qed.

Lemma flagged_fmap {A B} (f : A -> B) possible l :
  flagged possible (f <$> l) = f <$> flagged possible l.
Proof.
  revert possible. induction l as [|x l IH]; intros [|p possible]; [done..|].
  rewrite fmap_cons, !flagged_cons, IH. by destruct p.
Qed.

Lemma flagged_all {A B} (l : list A) (k : list B) :
  length k = length l -> flagged ((fun _ => true) <$> k) l = l.
Proof.
  revert k. induction l as [|x l IH]; intros [|y k] [=]; [done|].
  rewrite fmap_cons, flagged_cons. by rewrite IH.
Qed.

Lemma score_possible_best score cs scratchpad possible b :
  length scratchpad = length cs -> length possible = length cs ->
  (score_possible score cs.*2 scratchpad possible b).2 = best_from score b (flagged possible cs).
Proof.
  revert scratchpad possible b.
  induction cs as [|c cs IH]; intros [|s sc] [|p po] b [=] [=]; [done|].
  rewrite flagged_cons. simpl. destruct p; simpl.
  - specialize (IH sc po (if mr_gt (score c.2) b then score c.2 else b)).
    destruct (score_possible _ _ _ _ _). simpl in *. by rewrite IH.
  - specialize (IH sc po b). destruct (score_possible _ _ _ _ _). simpl in *. by rewrite IH.
Qed.

Lemma length_score_possible score l scratchpad possible b :
  length (score_possible score l scratchpad possible b).1 = length scratchpad.
Proof.
  revert scratchpad possible b.
  induction l as [|m l IH]; intros [|s sc] [|p po] b; simpl; try done.
  destruct p.
  - specialize (IH sc po (if mr_gt (score m) b then score m else b)).
    destruct (score_possible _ _ _ _ _). simpl in *. by rewrite IH.
  - specialize (IH sc po b). destruct (score_possible _ _ _ _ _). simpl in *. by rewrite IH.
Qed.

Lemma flagged_keep_best score cs scratchpad possible b b' :
  length scratchpad = length cs -> length possible = length cs ->
  flagged (keep_best b (score_possible score cs.*2 scratchpad possible b').1 possible) cs =
  filter (fun c => score c.2 = b /\ score c.2 <> FailedMatch) (flagged possible cs).
Proof.
  revert scratchpad possible b'.
  induction cs as [|c cs IH]; intros [|s sc] [|p po] b' [=] [=]; [done|].
  rewrite flagged_cons. simpl. destruct p; simpl.
  - specialize (IH sc po (if mr_gt (score c.2) b' then score c.2 else b')).
    destruct (score_possible _ _ _ _ _) as [sc' b'']. simpl in *.
    rewrite flagged_cons, IH, filter_cons by done.
    repeat case_bool_decide; simpl; case_decide; done || tauto.
  - specialize (IH sc po b'). destruct (score_possible _ _ _ _ _) as [sc' b''].
    simpl in *. rewrite flagged_cons, IH by done. by destruct (_ || _).
Qed.

Lemma match_subitem_prune score cs st :
  length st.1 = length cs -> length st.2 = length cs ->
  let st' := match_subitem score cs.*2 st in
  length st'.1 = length cs /\ length st'.2 = length cs /\
  flagged st'.2 cs = prune score (flagged st.2 cs).
Proof.
  destruct st as [sc po]; simpl; intros Hsc Hpo.
  pose proof (score_possible_best score cs sc po FailedMatch Hsc Hpo) as Hb.
  pose proof (length_score_possible score cs.*2 sc po FailedMatch) as Hl.
  pose proof (flagged_keep_best score cs sc po (best score (flagged po cs)) FailedMatch Hsc Hpo) as Hk.
  destruct (score_possible _ _ _ _ _) as [sc' b]. simpl in *. subst b.
  split_and!; [congruence| |exact Hk].
  unfold keep_best. rewrite length_zip_with. lia.
Qed.

(** What the oracle returns for the candidates that survive all levels. *)
Definition pick {T} (values : list T) (cs : list Candidate) : result SelectError (option T) :=
  match cs with
  | [] => Ok None
  | [(idx, _)] => Ok (values !! idx)
  | _ => Err MultipleFilterChains
  end.

Definition prune_all {Protocol} (meta : DownstreamConnectionMetadata Protocol)
    (server_name : option str) (cs : list Candidate) : list Candidate :=
  let source_addr := peer_address meta in
  let destination_addr := local_address meta in
  prune (fun m => matches_source_port m (sock_port source_addr))
  (prune (fun m => matches_source_ip m (sock_ip source_addr))
  (prune (fun m => matches_server_name m (default [] server_name))
  (prune (fun m => matches_destination_ip m (sock_ip destination_addr))
  (prune (fun m => matches_destination_port m (sock_port destination_addr)) cs)))).

Lemma pick_flagged {T} (values : list T) (cs : list Candidate) po :
  length cs = length values ->
  (forall i c, cs !! i = Some c -> c.1 = i) ->
  match flagged po values with
  | [] => Ok None
  | [value] => Ok (Some value)
  | _ => Err MultipleFilterChains
  end = pick values (flagged po cs).
Proof.
  intros Hlen Hidx. set (z := zip cs values).
  assert (cs = z.*1) as Hc by (symmetry; apply fst_zip; lia).
  assert (values = z.*2) as Hv by (symmetry; apply snd_zip; lia).
  assert (forall c v, (c, v) ∈ flagged po z -> values !! c.1 = Some v) as Hz.
  { intros c v (q & [=] & Hq)%list_elem_of_fmap. apply list_elem_of_filter in Hq as [_ Hq].
    destruct q as [p [c' v']]; simplify_eq/=.
    apply list_elem_of_lookup in Hq as [i Hi].
    apply lookup_zip_with_Some in Hi as (? & ? & [= -> <-] & _ & Hi).
    apply lookup_zip_with_Some in Hi as (? & ? & [= <- <-] & Hci & Hvi).
    by rewrite (Hidx _ _ Hci). }
  rewrite Hc, !flagged_fmap. rewrite Hv at 1. rewrite flagged_fmap.
  destruct (flagged po z) as [|[[i m] v] [|[[]] ?]]; simpl; [done| |done].
  specialize (Hz (i, m) v ltac:(set_solver)). simpl in Hz. by rewrite Hz.
Qed.

(** [reference_select] prunes on the five criteria in turn. *)
Lemma reference_select_prune {Protocol T} (entries : list (FilterChainMatch * T))
    (meta : DownstreamConnectionMetadata Protocol) server_name :
  reference_select entries meta server_name =
  pick entries.*2 (prune_all meta server_name (imap pair entries.*1)).
Proof.
  unfold reference_select, prune_all. set (cs := imap pair entries.*1).
  assert (entries.*1 = cs.*2) as Hcs.
  { unfold cs. rewrite fmap_imap. symmetry.
    etrans; [apply (imap_const id)|apply list_fmap_id]. }
  set (st0 := (_ <$> _, _ <$> _)).
  assert (length st0.1 = length cs /\ length st0.2 = length cs /\ flagged st0.2 cs = cs)
    as (H1 & H2 & H3).
  { unfold st0, cs. simpl. rewrite !length_fmap, length_imap, length_fmap. split_and!; [done..|].
    apply flagged_all. by rewrite length_imap. }
  clearbody st0. rewrite Hcs.
  do 5 (match goal with |- context [match_subitem ?f _ st0] =>
    destruct (match_subitem_prune f cs st0 H1 H2) as (?H1 & ?H2 & ?H3);
    revert H3; generalize dependent (match_subitem f cs.*2 st0); clear H1 H2;
    intros st1 H1 H2 H3' H3; rewrite H3 in H3'; clear H3 st0; rename st1 into st0, H3' into H3
  end).
  rewrite <-H3. apply pick_flagged.
  - unfold cs. by rewrite length_imap, !length_fmap.
  - intros i c Hi. unfold cs in Hi. rewrite list_lookup_imap, fmap_Some in Hi.
    by destruct Hi as (? & _ & ->).
Qed.
End prune.
End FilterChainRef.
