(* ===== verification/FilterChainTree.v ===== *)
(** The compiled matcher, level by level: building a level from a list of
    candidates and selecting in it is building the next level from the pruned
    candidates.  Composing the five levels gives the equivalence with the
    oracle. *)

From S2P Require Import Prelude RustStr Net Metadata ListenerConfig FilterChain FilterChainRef.
Import Net Metadata ListenerConfig FilterChain FilterChainRef.
Local Open Scope Z_scope.

Module FilterChainTree.

(** ** Grouping candidates by key *)

Section grouping.
Context `{IpNetLib}.
Notation Candidate := (nat * FilterChainMatch)%type.
Context {K M : Type} `{EqDecision K}.
Context (look : M -> K -> option (list Candidate)).
Context (push : list Candidate -> Candidate -> list Candidate).
Context (upd : K -> Candidate -> M -> M).
Context (keys : FilterChainMatch -> list K).

Hypothesis look_upd : forall m k c k',
  look (upd k c m) k' =
  if decide (k = k') then Some (push (default [] (look m k)) c) else look m k'.
Hypothesis push_new : forall l c, fst <$> last l <> Some c.1 -> push l c = l ++ [c].
Hypothesis push_again : forall c, NoDup (keys c.2) \/ forall l, push (push l c) c = push l c.

Definition group_one (m : M) (c : Candidate) : M :=
  fold_left (fun m k => upd k c m) (keys c.2) m.

Lemma look_fold (ks : list K) m c k :
  NoDup ks \/ (forall l, push (push l c) c = push l c) ->
  look (fold_left (fun m k => upd k c m) ks m) k =
  if decide (k ∈ ks) then Some (push (default [] (look m k)) c) else look m k.
Proof.
  revert m. induction ks as [|k0 ks IH]; intros m Hks; cbn [fold_left].
  { destruct (decide (k ∈ [])); [set_solver|done]. }
  rewrite IH by (rewrite NoDup_cons in Hks; tauto). rewrite look_upd.
  destruct (decide (k0 = k)) as [->|Hne].
  - destruct (decide (k ∈ k :: ks)); [|set_solver].
    destruct (decide (k ∈ ks)) as [Hin|]; [|done]. simpl.
    destruct Hks as [Hnd|Hp]; [by apply NoDup_cons in Hnd as [? _]|]. by rewrite Hp.
  - destruct (decide (k ∈ ks)), (decide (k ∈ k0 :: ks)); done || set_solver.
Qed.

(** Every key holds the candidates that have it, in order. *)
Lemma look_group (m0 : M) (cs : list Candidate) k :
  (forall k, look m0 k = None) -> NoDup cs.*1 ->
  look (fold_left group_one cs m0) k = nonempty (filter (fun c => k ∈ keys c.2) cs).
Proof.
  intros Hm0. induction cs as [|c cs IH] using rev_ind; intros Hnd; simpl; [by rewrite Hm0|].
  rewrite fmap_app, NoDup_app in Hnd. destruct Hnd as (Hnd & Hfresh & _).
  rewrite fold_left_app. simpl. unfold group_one at 1.
  rewrite look_fold, IH by done. rewrite filter_app, filter_cons, filter_nil.
  case_decide; [|by rewrite app_nil_r].
  rewrite default_nonempty, push_new; [by destruct (filter _ cs)|].
  destruct (last _) as [c'|] eqn:Hl; [|done]. simpl. intros [= Hc].
  apply last_Some_elem_of in Hl. apply list_elem_of_filter in Hl as [_ Hl].
  apply (Hfresh c'.1); [by apply list_elem_of_fmap_2|]. rewrite Hc. set_solver.
Qed.
End grouping.

Section push.
Context `{IpNetLib}.
Notation Candidate := (nat * FilterChainMatch)%type.

Lemma push_unique_new (l : list Candidate) c :
  fst <$> last l <> Some c.1 -> push_unique_candidate l c = l ++ [c].
Proof. intros Hl. unfold push_unique_candidate. by rewrite bool_decide_true. Qed.

Lemma push_unique_again (l : list Candidate) c :
  push_unique_candidate (push_unique_candidate l c) c = push_unique_candidate l c.
Proof.
  unfold push_unique_candidate at 1. rewrite bool_decide_false; [done|].
  intros Hlast. apply Hlast. unfold push_unique_candidate.
  case_bool_decide as Hl; [by rewrite last_snoc|done].
Qed.

Lemma lookup_entry_update {K V} `{Countable K, Inhabited V} (k k' : K) (f : V -> V) (m : gmap K V) :
  entry_update k f m !! k' =
  if decide (k = k') then Some (f (default inhabitant (m !! k))) else m !! k'.
Proof. unfold entry_update. rewrite lookup_insert. by case_decide. Qed.
End push.

(** ** Pruning when the best score is known *)

Section levels.
Context `{IpNetLib}.
Notation Candidate := (nat * FilterChainMatch)%type.
Implicit Types (cs : list Candidate) (score : FilterChainMatch -> MatchResult).

Lemma prune_matched score cs (P : Candidate -> Prop) `{!forall c, Decision (P c)} s :
  filter P cs <> [] ->
  (forall c, c ∈ cs -> P c <-> score c.2 = Matched s) ->
  (forall c t, c ∈ cs -> score c.2 = Matched t -> s <= t) ->
  prune score cs = filter P cs.
Proof.
  intros (c & Hc & HP)%filter_nonempty Hiff Hmin.
  rewrite (prune_hit score cs c (Matched s)); [|done|by apply Hiff|done|].
  - apply filter_ext_in. intros c' Hc'. symmetry. by apply Hiff.
  - intros c' Hc'. destruct (score c'.2) as [| |t] eqn:E; auto with scores.
    apply mr_le_matched. eauto.
Qed.

Lemma prune_unmatched score cs :
  (forall c t, c ∈ cs -> score c.2 <> Matched t) ->
  prune score cs = filter (fun c => score c.2 = NoRule) cs.
Proof.
  intros Hno. destruct (decide (filter (fun c => score c.2 = NoRule) cs = [])) as [E|E].
  - rewrite E. apply prune_all_failed. intros c Hc.
    destruct (score c.2) as [| |t] eqn:Es; [done| |by apply Hno in Es].
    assert (c ∈ filter (fun c => score c.2 = NoRule) cs) as Hin by (by apply list_elem_of_filter).
    rewrite E in Hin. set_solver.
  - apply filter_nonempty in E as (c & Hc & Es). apply (prune_hit _ _ c); [done..|].
    intros c' Hc'. destruct (score c'.2) as [| |t] eqn:Es'; auto with scores.
    by apply Hno in Es'.
Qed.

Lemma prune_no_rules score cs :
  (forall c, c ∈ cs -> score c.2 = NoRule) -> prune score cs = cs.
Proof.
  intros Hn. rewrite prune_unmatched by (intros c t Hc; rewrite Hn; done).
  by apply filter_all.
Qed.

Lemma prune_nil score : prune score [] = [].
Proof. done. Qed.

(** What a level asks of the constructor of the next one: nothing is built
    from no candidates, and only then. *)
Definition builds {N} (build : list Candidate -> option N) : Prop :=
  forall cs, build cs = None <-> cs = [].

Lemma builds_nonempty {N} (build : list Candidate -> option N) cs :
  builds build -> nonempty cs ≫= build = build cs.
Proof. intros Hb. destruct cs; [|done]. symmetry. by apply Hb. Qed.

(** A hit in a group, or the fallback. *)
Lemma select_group {N} (build : list Candidate -> option N) (hit miss : list Candidate) :
  builds build ->
  match nonempty hit ≫= build with Some n => Some n | None => build miss end =
  build (if decide (hit = []) then miss else hit).
Proof.
  intros Hb. rewrite builds_nonempty by done. case_decide as E.
  - assert (build hit = None) as -> by (by apply Hb). done.
  - destruct (build hit) eqn:E'; [done|]. by apply Hb in E'.
Qed.

(** A level that tries the keys [ids] in order of their scores: the first
    group that has candidates, or the candidates without a rule. *)
Lemma ordered_level {X N} (build : list Candidate -> option N) score cs (ids : list X)
    (P : X -> Candidate -> Prop) (R : Candidate -> Prop) (rank : X -> Z)
    `{!forall x c, Decision (P x c), !forall c, Decision (R c)} :
  builds build ->
  StronglySorted (fun x y => rank x < rank y) ids ->
  (forall c t, c ∈ cs -> score c.2 = Matched t <->
    (exists x, x ∈ ids /\ P x c /\ t = rank x) /\ (forall x, x ∈ ids -> P x c -> t <= rank x)) ->
  (forall c, c ∈ cs -> score c.2 = NoRule <-> R c) ->
  match find_map (fun x => nonempty (filter (P x) cs) ≫= build) ids with
  | Some n => Some n
  | None => build (filter R cs)
  end = build (prune score cs).
Proof.
  intros Hb Hsort HP HR.
  assert (forall x, nonempty (filter (P x) cs) ≫= build = None -> forall c, c ∈ cs -> ~ P x c) as Hempty.
  { intros x Hx c Hc Hxc. rewrite builds_nonempty in Hx by done. apply Hb in Hx.
    apply (filter_nonempty (P x) cs); eauto. }
  destruct (find_map _ ids) as [n|] eqn:Hfind.
  - apply find_map_Some in Hfind as (l1 & x & l2 & -> & Hx & Hl1).
    rewrite Forall_forall in Hl1.
    assert (forall y, y ∈ l2 -> rank x < rank y) as Hl2.
    { apply StronglySorted_app in Hsort as (_ & _ & Hsort).
      apply StronglySorted_cons in Hsort as [Hsort _]. by rewrite Forall_forall in Hsort. }
    assert (forall y c, y ∈ l1 ++ x :: l2 -> c ∈ cs -> P y c -> y = x \/ rank x < rank y) as Hcases.
    { intros y c [Hy|[->|Hy]%elem_of_cons]%elem_of_app Hc Hyc; [|by left|right; auto].
      exfalso. by apply (Hempty y (Hl1 y Hy) c). }
    rewrite builds_nonempty in Hx by done. rewrite <-Hx. f_equal. symmetry.
    apply (prune_matched _ _ (P x) (rank x)).
    + intros Hnil. apply Hb in Hnil. congruence.
    + intros c Hc. rewrite HP by done. split.
      * intros Hxc. split; [exists x; set_solver|]. intros y Hy Hyc.
        destruct (Hcases y c) as [->|]; [done..|lia|lia].
      * intros [(y & Hy & Hyc & Hr) _]. destruct (Hcases y c) as [->|]; [done..|lia].
    + intros c t Hc [(y & Hy & Hyc & ->) _]%HP; [|done].
      destruct (Hcases y c) as [->|]; [done..|lia|lia].
  - f_equal. rewrite prune_unmatched.
    + apply filter_ext_in. intros c Hc. symmetry. auto.
    + rewrite find_map_None, Forall_forall in Hfind.
      intros c t Hc [(x & Hx & Hxc & _) _]%HP; [|done]. by apply (Hempty x (Hfind x Hx) c).
Qed.

(** A level with exact keys: the group of the key, or the candidates without
    a rule. *)
Lemma exact_level {N} (build : list Candidate -> option N) score cs
    (P R : Candidate -> Prop) `{!forall c, Decision (P c), !forall c, Decision (R c)} :
  builds build ->
  (forall c t, c ∈ cs -> score c.2 = Matched t <-> P c /\ t = 0) ->
  (forall c, c ∈ cs -> score c.2 = NoRule <-> R c) ->
  match nonempty (filter P cs) ≫= build with
  | Some n => Some n
  | None => build (filter R cs)
  end = build (prune score cs).
Proof.
  intros Hb HP HR. rewrite <-(ordered_level build score cs [tt] (fun _ => P) R (fun _ => 0)); [|done|..].
  - simpl. by destruct (nonempty _ ≫= _).
  - repeat constructor.
  - intros c t Hc. rewrite HP by done. split.
    + intros [? ->]. split; [exists tt; set_solver|done].
    + intros [(_ & _ & ?) _]. done.
  - done.
Qed.

Lemma existsb_false_iff {A} (f : A -> bool) l : negb (existsb f l) = true <-> forall x, x ∈ l -> f x = false.
Proof.
  induction l as [|x l IH]; simpl; [set_solver|].
  destruct (f x) eqn:E; simpl; [set_solver|]. rewrite IH. set_solver.
Qed.

(** *** The port levels *)

Definition port_upd (push : list Candidate -> Candidate -> list Candidate) (port : Z) (c : Candidate)
    (g : gmap Z (list Candidate)) : gmap Z (list Candidate) :=
  entry_update port (fun l => push l c) g.

Lemma from_candidates_builds : builds from_candidates.
Proof. intros [|[i m] [|c cs]]; naive_solver. Qed.

Lemma source_port_groups cs :
  fold_left source_port_step cs (∅, []) =
  (fold_left (group_one (port_upd push_unique_candidate) source_ports) cs ∅,
   filter (fun c : Candidate => source_ports c.2 = []) cs).
Proof.
  apply (fold_left_collect source_port_step). intros g w c. unfold source_port_step, group_one.
  destruct (source_ports c.2); by case_decide.
Qed.

Lemma lookup_source_port_groups cs port :
  NoDup cs.*1 ->
  fold_left (group_one (port_upd push_unique_candidate) source_ports) cs ∅ !! port =
  nonempty (filter (fun c : Candidate => port ∈ source_ports c.2) cs).
Proof.
  intros Hnd. apply (look_group (fun g k => g !! k) push_unique_candidate).
  - intros m k c k'. exact (lookup_entry_update k k' (fun l => push_unique_candidate l c) m).
  - apply push_unique_new.
  - intros c. right. intros l. apply push_unique_again.
  - intros. apply lookup_empty.
  - done.
Qed.

Lemma source_port_norule m port : matches_source_port m port = NoRule <-> source_ports m = [].
Proof. unfold matches_source_port. repeat case_bool_decide; split; congruence. Qed.

Lemma source_port_matched m port t :
  matches_source_port m port = Matched t <-> port ∈ source_ports m /\ t = 0.
Proof.
  unfold matches_source_port. case_bool_decide as Hnil; [rewrite Hnil; set_solver|].
  case_bool_decide; split; intros Hm; simplify_eq; intuition congruence.
Qed.

Lemma source_port_level cs port :
  NoDup cs.*1 ->
  SourcePortMatcher_build cs ≫= (fun m => source_port_select_next m port) =
  from_candidates (prune (fun m => matches_source_port m port) cs).
Proof.
  intros Hnd. unfold SourcePortMatcher_build. case_bool_decide as Hnil; [by subst|].
  destruct (negb _) eqn:Hany.
  - rewrite existsb_false_iff in Hany. rewrite prune_no_rules; [by destruct (from_candidates cs)|].
    intros c Hc. apply source_port_norule. specialize (Hany c Hc). simpl in Hany.
    by case_bool_decide.
  - rewrite source_port_groups. simpl. unfold build_group_map.
    rewrite lookup_omap, lookup_source_port_groups by done.
    apply exact_level.
    + apply from_candidates_builds.
    + intros c t _. apply source_port_matched.
    + intros c _. apply source_port_norule.
Qed.

Lemma SourcePortMatcher_builds : builds SourcePortMatcher_build.
Proof.
  intros cs. unfold SourcePortMatcher_build. case_bool_decide as Hnil; [naive_solver|].
  destruct (negb _).
  - rewrite fmap_None. by rewrite (from_candidates_builds cs).
  - by destruct (fold_left _ _ _).
Qed.

Lemma dest_port_groups cs :
  fold_left dest_port_step cs (∅, []) =
  (fold_left (group_one (port_upd (fun l c => l ++ [c])) (fun m => option_list (destination_port m)))
     cs ∅,
   filter (fun c : Candidate => destination_port c.2 = None) cs).
Proof.
  apply (fold_left_collect dest_port_step). intros g w c. unfold dest_port_step, group_one.
  destruct (destination_port c.2); by case_decide.
Qed.

Lemma lookup_dest_port_groups cs port :
  NoDup cs.*1 ->
  fold_left (group_one (port_upd (fun l c => l ++ [c])) (fun m => option_list (destination_port m)))
    cs ∅ !! port =
  nonempty (filter (fun c : Candidate => port ∈ option_list (destination_port c.2)) cs).
Proof.
  intros Hnd. apply (look_group (fun g k => g !! k) (fun l c => l ++ [c]) _ (fun m => option_list (destination_port m))).
  - intros m k c k'. exact (lookup_entry_update k k' (fun l => l ++ [c]) m).
  - done.
  - intros c. left. destruct (destination_port c.2); simpl; [apply NoDup_singleton|constructor].
  - intros. apply lookup_empty.
  - done.
Qed.

Lemma dest_port_level cs port :
  builds build_dest -> NoDup cs.*1 ->
  DestPortMatcher_build cs ≫= (fun m => dest_port_select_next m port) =
  build_dest (prune (fun m => matches_destination_port m port) cs).
Proof.
  intros Hb Hnd. unfold DestPortMatcher_build. case_bool_decide as Hnil.
  { subst. symmetry. by apply Hb. }
  destruct (negb _) eqn:Hany.
  - rewrite existsb_false_iff in Hany. rewrite prune_no_rules; [by destruct (build_dest cs)|].
    intros c Hc. specialize (Hany c Hc). simpl in Hany. unfold matches_destination_port.
    by destruct (destination_port c.2).
  - rewrite dest_port_groups. simpl. unfold build_group_map.
    rewrite lookup_omap, lookup_dest_port_groups by done. apply exact_level; [done|..].
    + intros c t _. unfold matches_destination_port.
      destruct (destination_port c.2) as [p|]; simpl; [|set_solver].
      rewrite list_elem_of_singleton. destruct (Z.eqb_spec port p); naive_solver.
    + intros c _. unfold matches_destination_port.
      destruct (destination_port c.2) as [p|]; [|done]. by destruct (port =? p).
Qed.
End levels.
End FilterChainTree.
