(* ===== verification/FilterChainAddr.v ===== *)
(** The address levels of the compiled matcher: trying the prefix lengths from
    the longest finds the candidates with the most specific range. *)

From S2P Require Import Prelude RustStr Net Metadata ListenerConfig FilterChain FilterChainRef.
From S2P Require Import FilterChainTree.
Import Net Metadata ListenerConfig FilterChain FilterChainRef FilterChainTree.
Local Open Scope Z_scope.

Module FilterChainAddr.

(** The best of scores that are never [NoRule]. *)
Section best_of.
Context {A : Type} (f : A -> MatchResult).
Hypothesis f_rule : forall x, f x <> NoRule.

Lemma best_of_norule l : default NoRule (mr_max (f <$> l)) = NoRule <-> l = [].
Proof.
  destruct (mr_max (f <$> l)) as [b|] eqn:Hmax; simpl.
  - apply mr_max_spec in Hmax as [(x & -> & Hx)%list_elem_of_fmap _].
    split; [by intros ?%f_rule|set_solver].
  - apply mr_max_None in Hmax. by destruct l.
Qed.

Lemma best_of_matched l s :
  default NoRule (mr_max (f <$> l)) = Matched s <->
  (exists x, x ∈ l /\ f x = Matched s) /\ (forall x t, x ∈ l -> f x = Matched t -> s <= t).
Proof.
  destruct (mr_max (f <$> l)) as [b|] eqn:Hmax; simpl.
  - apply mr_max_spec in Hmax as [(x & Hb & Hx)%list_elem_of_fmap Hub]. split.
    + intros ->. split; [by exists x|]. intros y t Hy Ht. apply mr_le_matched.
      rewrite <-Ht. apply Hub. by apply list_elem_of_fmap_2.
    + intros [(y & Hy & Hs) Hmin]. apply mr_le_antisym.
      * rewrite Hb. destruct (f x) as [| |t] eqn:Et; auto with scores.
        apply mr_le_matched. by apply (Hmin x).
      * rewrite <-Hs. apply Hub. by apply list_elem_of_fmap_2.
  - apply mr_max_None, fmap_nil_inv in Hmax as ->. set_solver.
Qed.
End best_of.

Section addr.
Context `{IpNetSpec}.
Notation Candidate := (nat * FilterChainMatch)%type.
Implicit Types (cs : list Candidate).

(** ** Groups by prefix length and network address *)

Definition keys_v4 (ranges : list IpNet) : list (Z * Z) :=
  omap (fun range => match net_trunc range with
                     | NetV4 n => Some (v4_prefix_len n, v4_network n)
                     | NetV6 _ => None
                     end) ranges.

Definition keys_v6 (ranges : list IpNet) : list (Z * Z) :=
  omap (fun range => match net_trunc range with
                     | NetV6 n => Some (v6_prefix_len n, v6_network n)
                     | NetV4 _ => None
                     end) ranges.

Definition net_upd (k : Z * Z) (c : Candidate) (g : gmap Z (gmap Z (list Candidate))) :=
  entry_update k.1 (entry_update k.2 (fun l => push_unique_candidate l c)) g.

Definition net_look (g : gmap Z (gmap Z (list Candidate))) (k : Z * Z) : option (list Candidate) :=
  g !! k.1 ≫= (fun nets => nets !! k.2).

Lemma net_look_upd g k c k' :
  net_look (net_upd k c g) k' =
  if decide (k = k') then Some (push_unique_candidate (default [] (net_look g k)) c)
  else net_look g k'.
Proof.
  destruct k as [len net], k' as [len' net']. unfold net_look, net_upd. simpl.
  rewrite lookup_entry_update. destruct (decide (len = len')) as [<-|Hlen].
  - simpl. rewrite lookup_entry_update. destruct (decide (net = net')) as [<-|Hnet].
    + rewrite decide_True by done. by destruct (g !! len).
    + rewrite decide_False by congruence. by destruct (g !! len).
  - by rewrite decide_False by congruence.
Qed.

Lemma add_ranges (c : Candidate) ranges g4 g6 :
  fold_left (add_range c) ranges (g4, g6) =
  (fold_left (fun g k => net_upd k c g) (keys_v4 ranges) g4,
   fold_left (fun g k => net_upd k c g) (keys_v6 ranges) g6).
Proof.
  revert g4 g6. induction ranges as [|[n|n] ranges IH]; intros g4 g6; [done|apply IH|apply IH].
Qed.

Definition group_ranges (get_ranges : FilterChainMatch -> list IpNet)
    (keys : list IpNet -> list (Z * Z)) cs : gmap Z (gmap Z (list Candidate)) :=
  fold_left (group_one net_upd (fun m => keys (get_ranges m))) cs ∅.

Lemma ip_groups get_ranges cs :
  fold_left (ip_step get_ranges) cs (∅, ∅, []) =
  (group_ranges get_ranges keys_v4 cs, group_ranges get_ranges keys_v6 cs,
   filter (fun c : Candidate => get_ranges c.2 = []) cs).
Proof.
  rewrite (fold_left_collect (ip_step get_ranges) (fun g c =>
    (group_one net_upd (fun m => keys_v4 (get_ranges m)) g.1 c,
     group_one net_upd (fun m => keys_v6 (get_ranges m)) g.2 c))
    (fun c : Candidate => get_ranges c.2 = [])).
  - f_equal. unfold group_ranges. generalize (∅ : gmap Z (gmap Z (list Candidate))) at 1 3.
    generalize (∅ : gmap Z (gmap Z (list Candidate))).
    induction cs as [|c cs IH]; intros g6 g4; [done|]. apply IH.
  - intros [g4 g6] w c. unfold ip_step, group_one.
    destruct (get_ranges c.2) eqn:E; case_decide; try done. by rewrite add_ranges.
Qed.

Lemma look_group_ranges get_ranges keys cs k :
  NoDup cs.*1 ->
  net_look (group_ranges get_ranges keys cs) k =
  nonempty (filter (fun c : Candidate => k ∈ keys (get_ranges c.2)) cs).
Proof.
  intros Hnd. apply (look_group net_look push_unique_candidate _ (fun m => keys (get_ranges m))).
  - apply net_look_upd.
  - apply push_unique_new.
  - intros c. right. intros l. apply push_unique_again.
  - done.
  - done.
Qed.

(** ** The walk over the prefix levels *)

Lemma prefix_levels_walk {N} (mask : Z -> Z) (build : list Candidate -> option N) groups bits :
  find_map (fun level => level_prefixes level !! Z.land bits (level_mask level))
    (prefix_levels mask build groups) =
  find_map (fun len => net_look groups (len, Z.land bits (mask len)) ≫= build) (btree_rev groups).*1.
Proof.
  unfold prefix_levels. rewrite find_map_omap.
  assert (forall kv, kv ∈ btree_rev groups -> groups !! kv.1 = Some kv.2) as Hin.
  { intros [len nets]. unfold btree_rev. by rewrite elem_of_reverse, elem_of_btree_iter. }
  induction (btree_rev groups) as [|[len nets] l IH]; [done|]. simpl.
  rewrite IH by set_solver. unfold net_look at 2. simpl.
  specialize (Hin (len, nets) (list_elem_of_here _ _)). simpl in Hin. rewrite Hin. simpl.
  rewrite <-lookup_omap. fold (build_group_map nets build).
  case_bool_decide as E; [|done]. by rewrite E, lookup_empty.
Qed.

Lemma btree_rev_sorted {V} (m : gmap Z V) :
  StronglySorted (fun x y => y < x) (btree_rev m).*1.
Proof.
  unfold btree_rev. rewrite fmap_reverse. apply (StronglySorted_reverse Z.lt).
  pose proof (StronglySorted_btree_iter Z.le m) as Hs.
  pose proof (NoDup_fst_btree_iter Z.le m) as Hnd.
  induction Hs as [|[k v] l Hl IH Hk]; [constructor|]. simpl in *.
  apply NoDup_cons in Hnd as [Hk' Hnd]. constructor; [auto|].
  rewrite Forall_forall in Hk. apply Forall_forall. intros k' Hin.
  pose proof Hin as ([k1 v1] & -> & Hin')%list_elem_of_fmap. specialize (Hk _ Hin').
  unfold key_le in Hk. simpl in *. assert (k <> k1) by (intros ->; done). lia.
Qed.

Lemma elem_of_prefix_lens get_ranges keys cs c len net :
  NoDup cs.*1 -> c ∈ cs -> (len, net) ∈ keys (get_ranges c.2) ->
  len ∈ (btree_rev (group_ranges get_ranges keys cs)).*1.
Proof.
  intros Hnd Hc Hk. pose proof (look_group_ranges get_ranges keys cs (len, net) Hnd) as Hlook.
  unfold net_look in Hlook. simpl in Hlook.
  destruct (group_ranges get_ranges keys cs !! len) as [nets|] eqn:E; simpl in Hlook.
  - apply list_elem_of_fmap. exists (len, nets). split; [done|].
    unfold btree_rev. by rewrite elem_of_reverse, elem_of_btree_iter.
  - symmetry in Hlook. apply nonempty_None in Hlook. exfalso.
    apply (filter_nonempty (fun c : Candidate => (len, net) ∈ keys (get_ranges c.2)) cs); eauto.
Qed.

(** ** Scores *)

Lemma ranges_norule ranges a : matches_ranges ranges a = NoRule <-> ranges = [].
Proof. apply best_of_norule. intros r. by destruct (net_contains r a). Qed.

Lemma ranges_matched ranges a t :
  matches_ranges ranges a = Matched t <->
  (exists r, r ∈ ranges /\ net_contains r a = true /\ t = ip_width a - net_prefix_len r) /\
  (forall r, r ∈ ranges -> net_contains r a = true -> t <= ip_width a - net_prefix_len r).
Proof.
  unfold matches_ranges. rewrite best_of_matched by (intros r; by destruct (net_contains r a)).
  f_equiv.
  - f_equiv. intros r. destruct (net_contains r a); naive_solver.
  - split; intros Hmin r.
    + intros Hr Hc. apply (Hmin r); [done|]. by rewrite Hc.
    + intros t' Hr. specialize (Hmin r Hr). destruct (net_contains r a); [|done]. naive_solver.
Qed.

Lemma elem_of_keys_v4 ranges bits len :
  0 <= bits < 2 ^ 32 ->
  (len, Z.land bits (ipv4_mask len)) ∈ keys_v4 ranges <->
  exists r, r ∈ ranges /\ net_contains r (V4 bits) = true /\ net_prefix_len r = len.
Proof.
  intros Hb. unfold keys_v4. rewrite list_elem_of_omap. split.
  - intros ([n|n] & Hr & [= <- Hn]). exists (NetV4 n). simpl.
    rewrite v4_trunc_len, v4_trunc_network in *. split_and!; [done| |done].
    by apply (cidr_masked _ _ _ _ bits (v4_cidr n)).
  - intros ([n|n] & Hr & Hc & <-); [|done]. exists (NetV4 n). split; [done|]. simpl.
    apply (cidr_masked _ _ _ _ bits (v4_cidr n)) in Hc; [|done].
    rewrite v4_trunc_len, v4_trunc_network. unfold ipv4_mask. by rewrite Hc.
Qed.

Lemma elem_of_keys_v6 ranges bits len :
  0 <= bits < 2 ^ 128 ->
  (len, Z.land bits (ipv6_mask len)) ∈ keys_v6 ranges <->
  exists r, r ∈ ranges /\ net_contains r (V6 bits) = true /\ net_prefix_len r = len.
Proof.
  intros Hb. unfold keys_v6. rewrite list_elem_of_omap. split.
  - intros ([n|n] & Hr & [= <- Hn]). exists (NetV6 n). simpl.
    rewrite v6_trunc_len, v6_trunc_network in *. split_and!; [done| |done].
    by apply (cidr_masked _ _ _ _ bits (v6_cidr n)).
  - intros ([n|n] & Hr & Hc & <-); [done|]. exists (NetV6 n). split; [done|]. simpl.
    apply (cidr_masked _ _ _ _ bits (v6_cidr n)) in Hc; [|done].
    rewrite v6_trunc_len, v6_trunc_network. unfold ipv6_mask. by rewrite Hc.
Qed.

(** ** The level *)

Lemma family_level {N} (build : list Candidate -> option N) get_ranges keys mask a bits cs :
  builds build -> NoDup cs.*1 ->
  (forall ranges len, (len, Z.land bits (mask len)) ∈ keys ranges <->
     exists r, r ∈ ranges /\ net_contains r a = true /\ net_prefix_len r = len) ->
  match find_map (fun level => level_prefixes level !! Z.land bits (level_mask level))
          (prefix_levels mask build (group_ranges get_ranges keys cs)) with
  | Some n => Some n
  | None => build (filter (fun c : Candidate => get_ranges c.2 = []) cs)
  end = build (prune (fun m => matches_ranges (get_ranges m) a) cs).
Proof.
  intros Hb Hnd Hkeys. rewrite prefix_levels_walk.
  rewrite (find_map_ext _ (fun len => nonempty (filter (fun c : Candidate =>
    (len, Z.land bits (mask len)) ∈ keys (get_ranges c.2)) cs) ≫= build))
    by (intros len _; by rewrite look_group_ranges).
  apply (ordered_level build _ cs _ (fun len c => (len, Z.land bits (mask len)) ∈ keys (get_ranges c.2))
    _ (fun len => ip_width a - len)); [done|..].
  - eapply StronglySorted_impl; [|apply btree_rev_sorted]. simpl. lia.
  - intros c t Hc. rewrite ranges_matched. f_equiv.
    + split.
      * intros (r & Hr & Hin & ->). exists (net_prefix_len r).
        assert ((net_prefix_len r, Z.land bits (mask (net_prefix_len r))) ∈ keys (get_ranges c.2)) as Hk
          by (apply Hkeys; eauto).
        eauto using elem_of_prefix_lens.
      * intros (len & _ & (r & Hr & Hin & <-)%Hkeys & ->). eauto.
    + split.
      * intros Hmin len _ (r & Hr & Hin & <-)%Hkeys. auto.
      * intros Hmin r Hr Hin.
        assert ((net_prefix_len r, Z.land bits (mask (net_prefix_len r))) ∈ keys (get_ranges c.2)) as Hk
          by (apply Hkeys; eauto).
        eauto using elem_of_prefix_lens.
  - intros c _. apply ranges_norule.
Qed.

Lemma ip_level {N} (build : list Candidate -> option N) get_ranges cs a :
  builds build -> NoDup cs.*1 -> wf_ip a ->
  IpMatcher_build cs get_ranges build ≫= (fun m => ip_select_next m a) =
  build (prune (fun m => matches_ranges (get_ranges m) a) cs).
Proof.
  intros Hb Hnd Ha. unfold IpMatcher_build. case_bool_decide as Hnil.
  { subst. symmetry. by apply Hb. }
  destruct (negb _) eqn:Hany.
  - rewrite existsb_false_iff in Hany. rewrite prune_no_rules; [by destruct (build cs)|].
    intros c Hc. apply ranges_norule. specialize (Hany c Hc). simpl in Hany. by case_bool_decide.
  - rewrite ip_groups. simpl. destruct a as [bits|bits]; simpl in Ha.
    + apply family_level; [done..|]. intros. by apply elem_of_keys_v4.
    + apply family_level; [done..|]. intros. by apply elem_of_keys_v6.
Qed.

Lemma IpMatcher_builds {N} (build : list Candidate -> option N) get_ranges :
  builds build -> builds (fun cs => IpMatcher_build cs get_ranges build).
Proof.
  intros Hb cs. unfold IpMatcher_build. case_bool_decide as Hnil; [naive_solver|].
  destruct (negb _).
  - rewrite fmap_None. by rewrite (Hb cs).
  - by destruct (fold_left _ _ _) as [[? ?] ?].
Qed.
End addr.
End FilterChainAddr.
