(* ===== verification/FilterChainName.v ===== *)
(** The server-name level of the compiled matcher: an exact name, then the
    wildcard suffixes from the longest, is the order of the scores. *)

From S2P Require Import Prelude RustStr Net Metadata ListenerConfig FilterChain FilterChainRef.
From S2P Require Import FilterChainTree FilterChainAddr.
Import Net Metadata ListenerConfig FilterChain FilterChainRef FilterChainTree FilterChainAddr.
Local Open Scope Z_scope.

Module FilterChainName.

(** A wildcard rule keeps the dot of [*.example.com]. *)
Definition wf_server_name (n : ServerNameMatch) : Prop :=
  sn_match_subdomains n = true -> exists rest, sn_name n = Str.dot :: rest.

Definition wf_names `{IpNetLib} (m : FilterChainMatch) : Prop :=
  Forall wf_server_name (server_names m).

(** ** Dots *)

Definition dots (s : str) (k : nat) : Z := Z.of_nat (length (filter (fun b => b = Str.dot) (take k s))).

Lemma dots_dot s i : s !! i = Some Str.dot -> dots s (S i) = dots s i + 1.
Proof.
  intros Hi. unfold dots. rewrite (take_S_r _ _ _ Hi), filter_app, length_app.
  rewrite filter_cons_True by done. simpl. lia.
Qed.

Lemma dots_mono s i j : (i <= j)%nat -> dots s i <= dots s j.
Proof.
  intros Hij. unfold dots. apply Nat2Z.inj_le.
  rewrite <-(firstn_skipn i (take j s)). rewrite filter_app, length_app, firstn_firstn.
  rewrite Nat.min_l by done. lia.
Qed.

Lemma dots_bound s k : 0 <= dots s k <= Z.of_nat (length s).
Proof.
  unfold dots. pose proof (length_filter (fun b => b = Str.dot) (take k s)).
  rewrite length_take in *. lia.
Qed.

(** ** Keys of a name *)

(** [None] is the exact name, [Some i] the suffix from offset [i]. *)
Definition name_ids (s : str) : list (option nat) := None :: (Some <$> Str.match_indices_char s Str.dot).

Definition name_rank (s : str) (x : option nat) : Z :=
  match x with None => 0 | Some i => dots s (S i) end.

Definition has_key (s : str) (x : option nat) (n : ServerNameMatch) : Prop :=
  match x with
  | None => sn_match_subdomains n = false /\ sn_name n = s
  | Some i => sn_match_subdomains n = true /\ sn_name n = drop i s
  end.

#[export] Instance has_key_dec s x n : Decision (has_key s x n).
Proof. destruct x; apply _. Defined.

Lemma name_ids_sorted s : StronglySorted (fun x y => name_rank s x < name_rank s y) (name_ids s).
Proof.
  assert (StronglySorted lt (Str.match_indices_char s Str.dot)) as Hs
    by apply StronglySorted_filter, StronglySorted_seq.
  assert (forall i, i ∈ Str.match_indices_char s Str.dot -> s !! i = Some Str.dot) as Hin
    by (intros i; apply Str.elem_of_match_indices).
  unfold name_ids. constructor.
  - induction Hs as [|i l Hl IH Hi]; [constructor|]. simpl. constructor; [apply IH; set_solver|].
    rewrite Forall_forall in Hi. apply Forall_forall. intros x (j & -> & Hj)%list_elem_of_fmap.
    specialize (Hi j Hj). simpl. rewrite (dots_dot s j) by set_solver.
    pose proof (dots_mono s (S i) j). lia.
  - apply Forall_forall. intros x (j & -> & Hj)%list_elem_of_fmap. simpl.
    rewrite dots_dot by auto. pose proof (dots_bound s j). lia.
Qed.

Lemma wildcard_score_dots s i :
  Z.of_nat (length s) <= Int.u32_max -> (i < length s)%nat ->
  wildcard_score s (drop i s) = dots s (S i).
Proof.
  intros Hlen Hi. unfold wildcard_score. rewrite length_drop.
  replace (length s - (length s - i))%nat with i by lia. rewrite bool_decide_true by done.
  pose proof (dots_bound s (S i)). unfold dots in *. by rewrite (proj2 (Z.leb_le _ _)) by lia.
Qed.

Lemma one_name_matched s n t :
  Z.of_nat (length s) <= Int.u32_max -> wf_server_name n ->
  matches_one_name s n = Matched t <->
  exists x, x ∈ name_ids s /\ has_key s x n /\ t = name_rank s x.
Proof.
  intros Hlen Hwf. unfold matches_one_name, wf_server_name in *. destruct n as [name [|]]; simpl in *.
  - destruct Hwf as [rest ->]; [done|]. split.
    + destruct (Str.ends_with _ _) eqn:E; [|done]. intros [= <-].
      apply Str.ends_with_true in E as [pre ->].
      exists (Some (length pre)). split_and!; [|simpl; by rewrite drop_app_length|].
      2: { simpl. rewrite <-wildcard_score_dots; [by rewrite drop_app_length|done|].
           rewrite length_app. simpl. lia. }
      apply elem_of_cons. right. apply list_elem_of_fmap_2, Str.elem_of_match_indices.
      by rewrite list_lookup_middle.
    + intros ([i|] & Hi & Hk & ->); [|by destruct Hk]. simpl in Hk. destruct Hk as [_ Hk].
      assert (i < length s)%nat.
      { apply (f_equal length) in Hk. rewrite length_drop in Hk. simpl in Hk. lia. }
      rewrite Hk, wildcard_score_dots by done.
      assert (Str.ends_with s (drop i s) = true) as ->; [|done].
      apply Str.ends_with_true. exists (take i s). by rewrite take_drop.
  - split.
    + case_bool_decide as E; [|done]. intros [= <-]. exists None. set_solver.
    + intros ([i|] & Hi & Hk & ->); simpl in Hk; [by destruct Hk|]. by rewrite bool_decide_true by naive_solver.
Qed.

Section name.
Context `{IpNetLib}.
Notation Candidate := (nat * FilterChainMatch)%type.
Implicit Types (cs : list Candidate).

(** ** Groups by name *)

Definition keys_exact (names : list ServerNameMatch) : list str :=
  omap (fun n => if sn_match_subdomains n then None else Some (sn_name n)) names.

Definition keys_wildcard (names : list ServerNameMatch) : list str :=
  omap (fun n => if sn_match_subdomains n then Some (sn_name n) else None) names.

Definition name_upd (k : str) (c : Candidate) (g : gmap str (list Candidate)) :=
  entry_update k (fun l => push_unique_candidate l c) g.

Lemma add_names (c : Candidate) names ge gw :
  fold_left (add_name c) names (ge, gw) =
  (fold_left (fun g k => name_upd k c g) (keys_exact names) ge,
   fold_left (fun g k => name_upd k c g) (keys_wildcard names) gw).
Proof.
  revert ge gw. induction names as [|[n [|]] names IH]; intros ge gw; [done|apply IH|apply IH].
Qed.

Definition group_names (keys : list ServerNameMatch -> list str) cs : gmap str (list Candidate) :=
  fold_left (group_one name_upd (fun m => keys (server_names m))) cs ∅.

Lemma name_groups cs :
  fold_left name_step cs (∅, ∅, []) =
  (group_names keys_exact cs, group_names keys_wildcard cs,
   filter (fun c : Candidate => server_names c.2 = []) cs).
Proof.
  rewrite (fold_left_collect name_step (fun g c =>
    (group_one name_upd (fun m => keys_exact (server_names m)) g.1 c,
     group_one name_upd (fun m => keys_wildcard (server_names m)) g.2 c))
    (fun c : Candidate => server_names c.2 = [])).
  - f_equal. unfold group_names. generalize (∅ : gmap str (list Candidate)) at 1 3.
    generalize (∅ : gmap str (list Candidate)).
    induction cs as [|c cs IH]; intros gw ge; [done|]. apply IH.
  - intros [ge gw] w c. unfold name_step, group_one.
    destruct (server_names c.2) eqn:E; case_decide; try done. by rewrite add_names.
Qed.

Lemma lookup_group_names keys cs k :
  NoDup cs.*1 ->
  group_names keys cs !! k = nonempty (filter (fun c : Candidate => k ∈ keys (server_names c.2)) cs).
Proof.
  intros Hnd. apply (look_group (fun g k => g !! k) push_unique_candidate _
    (fun m => keys (server_names m))).
  - intros m k0 c k'. exact (lookup_entry_update k0 k' (fun l => push_unique_candidate l c) m).
  - apply push_unique_new.
  - intros c. right. intros l. apply push_unique_again.
  - intros. apply lookup_empty.
  - done.
Qed.

(** ** The level *)

Definition name_key (s : str) (x : option nat) (c : Candidate) : Prop :=
  Exists (has_key s x) (server_names c.2).

Lemma name_key_exact s c : s ∈ keys_exact (server_names c.2) <-> name_key s None c.
Proof.
  unfold keys_exact, name_key. rewrite list_elem_of_omap, Exists_exists. f_equiv. intros [n b].
  simpl. destruct b; naive_solver.
Qed.

Lemma name_key_wildcard s i c : drop i s ∈ keys_wildcard (server_names c.2) <-> name_key s (Some i) c.
Proof.
  unfold keys_wildcard, name_key. rewrite list_elem_of_omap, Exists_exists. f_equiv. intros [n b].
  simpl. destruct b; naive_solver.
Qed.

Lemma names_norule m s : matches_server_name m s = NoRule <-> server_names m = [].
Proof.
  apply best_of_norule. intros [n b]. unfold matches_one_name. simpl.
  destruct b; [by destruct (Str.ends_with _ _)|by case_bool_decide].
Qed.

Lemma names_matched (c : Candidate) s t :
  Z.of_nat (length s) <= Int.u32_max -> wf_names c.2 ->
  matches_server_name c.2 s = Matched t <->
  (exists x, x ∈ name_ids s /\ name_key s x c /\ t = name_rank s x) /\
  (forall x, x ∈ name_ids s -> name_key s x c -> t <= name_rank s x).
Proof.
  intros Hlen Hwf. unfold matches_server_name. rewrite best_of_matched.
  2: { intros [n b]. unfold matches_one_name. simpl.
       destruct b; [by destruct (Str.ends_with _ _)|by case_bool_decide]. }
  unfold wf_names in Hwf. rewrite Forall_forall in Hwf.
  unfold name_key. setoid_rewrite Exists_exists. f_equiv.
  - split.
    + intros (n & Hn & (x & ? & ? & ->)%one_name_matched); [eauto 10|done|auto].
    + intros (x & ? & (n & Hn & ?) & ->). exists n. split; [done|].
      apply one_name_matched; eauto.
  - split.
    + intros Hmin x Hx (n & Hn & Hk). apply (Hmin n); [done|]. apply one_name_matched; eauto.
    + intros Hmin n t' Hn (x & ? & ? & ->)%one_name_matched; eauto.
Qed.

Lemma build_source_builds : builds build_source.
Proof. apply IpMatcher_builds, SourcePortMatcher_builds. Qed.

Lemma suffix_walk cs s :
  NoDup cs.*1 ->
  (if bool_decide (build_group_map (group_names keys_wildcard cs) build_source = ∅) then None
   else find_map (fun idx => suffix ← Str.get_from s idx;
          build_group_map (group_names keys_wildcard cs) build_source !! suffix)
          (Str.match_indices_char s Str.dot)) =
  find_map (fun x => nonempty (filter (name_key s x) cs) ≫= build_source)
    (Some <$> Str.match_indices_char s Str.dot).
Proof.
  intros Hnd. rewrite find_map_fmap. set (m := build_group_map _ _).
  trans (find_map (fun idx => suffix ← Str.get_from s idx; m !! suffix) (Str.match_indices_char s Str.dot)).
  - case_bool_decide as Hm; [|done]. rewrite Hm. symmetry. apply find_map_None, Forall_forall.
    intros i _. destruct (Str.get_from s i); [apply lookup_empty|done].
  - apply find_map_ext. intros i Hi%Str.elem_of_match_indices. unfold Str.get_from, Str.is_char_boundary.
    rewrite Hi, orb_true_r. simpl. unfold m, build_group_map.
    rewrite lookup_omap, lookup_group_names by done.
    by rewrite (list_filter_iff _ (name_key s (Some i))) by (intros c; apply name_key_wildcard).
Qed.

Lemma name_level cs s :
  NoDup cs.*1 -> Z.of_nat (length s) <= Int.u32_max -> (forall c, c ∈ cs -> wf_names c.2) ->
  ServerNameMatcher_build cs ≫= (fun m => name_select_next m s) =
  build_source (prune (fun m => matches_server_name m s) cs).
Proof.
  intros Hnd Hlen Hwf. pose proof build_source_builds as Hb. unfold ServerNameMatcher_build.
  case_bool_decide as Hnil. { subst. symmetry. by apply Hb. }
  destruct (negb _) eqn:Hany.
  - rewrite existsb_false_iff in Hany. rewrite prune_no_rules; [by destruct (build_source cs)|].
    intros c Hc. apply names_norule. specialize (Hany c Hc). simpl in Hany. by case_bool_decide.
  - rewrite name_groups. cbn [mbind option_bind name_select_next]. rewrite suffix_walk by done.
    unfold build_group_map at 1. rewrite lookup_omap, lookup_group_names by done.
    rewrite (list_filter_iff _ (name_key s None)) by (intros c; apply name_key_exact).
    rewrite <-(ordered_level build_source _ cs (name_ids s) (name_key s) (fun c => server_names c.2 = [])
      (name_rank s)); [|done|apply name_ids_sorted|..].
    + unfold name_ids. simpl. by destruct (nonempty _ ≫= _).
    + intros c t Hc. apply names_matched; auto.
    + intros c _. apply names_norule.
Qed.

Lemma ServerNameMatcher_builds : builds ServerNameMatcher_build.
Proof.
  intros cs. unfold ServerNameMatcher_build. case_bool_decide as Hnil; [naive_solver|].
  destruct (negb _).
  - rewrite fmap_None. by rewrite (build_source_builds cs).
  - by destruct (fold_left _ _ _) as [[? ?] ?].
Qed.
End name.
End FilterChainName.
