(* ===== verification/FilterChainSpec.v ===== *)
(** What [FilterChains::select] promises: it agrees with the linear oracle, and
    the filter chain it returns accepts the connection and is the most specific
    one that does. *)

From S2P Require Import Prelude RustStr Net Metadata ListenerConfig FilterChain FilterChainRef.
From S2P Require Import FilterChainTree FilterChainAddr FilterChainName.
Import Net Metadata ListenerConfig FilterChain FilterChainRef FilterChainTree FilterChainAddr
  FilterChainName.
Local Open Scope Z_scope.

Module FilterChainSpec.

(** ** A concrete ipnet: an address and a prefix length *)
Section concrete.
Definition clamp (w len : Z) : Z := Z.max 0 (Z.min w len).
Definition pair_network (w : Z) (n : Z * Z) : Z := Z.land (n.1 mod 2 ^ w) (prefix_mask w (clamp w n.2)).
Definition pair_contains (w : Z) (n : Z * Z) (b : Z) : bool :=
  b / 2 ^ (w - clamp w n.2) =? pair_network w n / 2 ^ (w - clamp w n.2).

Lemma pair_cidr w n :
  0 <= w -> cidr_spec w (clamp w n.2) (pair_network w n) (pair_contains w n).
Proof.
  intros Hw. assert (0 < 2 ^ w) by (apply Z.pow_pos_nonneg; lia).
  assert (0 <= clamp w n.2 <= w) as Hc by (unfold clamp; lia).
  assert (0 < 2 ^ (w - clamp w n.2)) by (apply Z.pow_pos_nonneg; lia).
  pose proof (Z.mod_pos_bound n.1 (2 ^ w) ltac:(done)) as Hm.
  assert (pair_network w n = n.1 mod 2 ^ w / 2 ^ (w - clamp w n.2) * 2 ^ (w - clamp w n.2)) as Hn.
  { unfold pair_network. by rewrite land_prefix_mask. }
  split; [done|]. split; [|split; [|done]].
  - rewrite Hn. pose proof (Z.mul_div_le (n.1 mod 2 ^ w) (2 ^ (w - clamp w n.2)) ltac:(done)).
    pose proof (Z.div_pos (n.1 mod 2 ^ w) (2 ^ (w - clamp w n.2)) ltac:(lia) ltac:(done)). nia.
  - rewrite Hn. by apply Z.mod_mul; lia.
Qed.
End concrete.

#[export] Instance pair_ipnet : IpNetLib := {|
  Ipv4Net := Z * Z; Ipv6Net := Z * Z;
  v4_prefix_len n := clamp 32 n.2; v6_prefix_len n := clamp 128 n.2;
  v4_network := pair_network 32; v6_network := pair_network 128;
  v4_trunc n := n; v6_trunc n := n;
  v4_contains := pair_contains 32; v6_contains := pair_contains 128;
|}.

#[export] Instance pair_ipnet_spec : IpNetSpec.
Proof. split; simpl; try done; intros n; by apply pair_cidr. Qed.

Section spec.
Context `{IpNetSpec}.
Notation Candidate := (nat * FilterChainMatch)%type.

(** ** The tree as five prunings *)

Lemma NoDup_prune score (cs : list Candidate) : NoDup cs.*1 -> NoDup (prune score cs).*1.
Proof. intros Hnd. eapply sublist_NoDup; [exact Hnd|]. apply fmap_sublist, sublist_filter. Qed.

Lemma elem_of_prune score (cs : list Candidate) c : c ∈ prune score cs -> c ∈ cs.
Proof. intros [_ ?]%list_elem_of_filter. done. Qed.

Lemma build_dest_builds : builds build_dest.
Proof. apply IpMatcher_builds, ServerNameMatcher_builds. Qed.

Lemma source_ip_level cs a :
  NoDup cs.*1 -> wf_ip a ->
  build_source cs ≫= (fun m => ip_select_next m a) =
  SourcePortMatcher_build (prune (fun m => matches_source_ip m a) cs).
Proof. apply ip_level, SourcePortMatcher_builds. Qed.

Lemma dest_ip_level cs a :
  NoDup cs.*1 -> wf_ip a ->
  build_dest cs ≫= (fun m => ip_select_next m a) =
  ServerNameMatcher_build (prune (fun m => matches_destination_ip m a) cs).
Proof. apply ip_level, ServerNameMatcher_builds. Qed.

Lemma imap_pair_keys (rules : list FilterChainMatch) : (imap pair rules).*1 = seq 0 (length rules).
Proof.
  apply list_eq. intros i. rewrite list_lookup_fmap, list_lookup_imap.
  destruct (rules !! i) eqn:E; simpl.
  - symmetry. apply lookup_seq. apply lookup_lt_Some in E. lia.
  - symmetry. apply lookup_seq_ge. by apply lookup_ge_None in E.
Qed.

Context {Protocol : Type} (meta : DownstreamConnectionMetadata Protocol) (server_name : option str).

Definition wf_connection : Prop :=
  wf_ip (sock_ip (peer_address meta)) /\ wf_ip (sock_ip (local_address meta)) /\
  Z.of_nat (length (default [] server_name)) <= Int.u32_max.

Lemma matcher_select_prune rules :
  wf_connection -> Forall wf_names rules ->
  matcher_select (matcher_new rules) meta server_name =
  from_candidates (prune_all meta server_name (imap pair rules)).
Proof.
  intros (Hpeer & Hlocal & Hlen) Hwf. unfold matcher_select, matcher_new. simpl.
  set (cs := imap pair rules).
  assert (NoDup cs.*1) as Hnd by (unfold cs; rewrite imap_pair_keys; apply NoDup_seq).
  assert (forall c, c ∈ cs -> wf_names c.2) as Hwf'.
  { intros c (i & m & -> & Hm)%elem_of_lookup_imap.
    by apply (Forall_lookup_1 _ _ _ _ Hwf Hm). }
  unfold prune_all.
  rewrite <-source_port_level by auto using NoDup_prune.
  rewrite <-source_ip_level by auto using NoDup_prune.
  rewrite <-name_level by eauto using NoDup_prune, elem_of_prune.
  rewrite <-dest_ip_level by auto using NoDup_prune.
  rewrite <-dest_port_level by auto using build_dest_builds.
  by rewrite !option_bind_assoc.
Qed.

Lemma select_prune {T} (entries : list (FilterChainMatch * T)) :
  wf_connection -> Forall wf_names entries.*1 ->
  select (chains_from_iter entries) meta server_name =
  pick entries.*2 (prune_all meta server_name (imap pair entries.*1)).
Proof.
  intros Hc Hwf. unfold select, chains_from_iter. simpl. rewrite matcher_select_prune by done.
  by destruct (prune_all _ _ _) as [|[i m] [|]].
Qed.

(** ** Acceptance and specificity *)

(** The five criteria of a rule, read as conditions on the connection. *)
Definition accepts (m : FilterChainMatch) : Prop :=
  from_option (fun port => port = sock_port (local_address meta)) True (destination_port m) /\
  (destination_prefix_ranges m = [] \/
   exists r, r ∈ destination_prefix_ranges m /\ net_contains r (sock_ip (local_address meta)) = true) /\
  (server_names m = [] \/
   exists n, n ∈ server_names m /\
     if sn_match_subdomains n then sn_name n `suffix_of` default [] server_name
     else sn_name n = default [] server_name) /\
  (source_prefix_ranges m = [] \/
   exists r, r ∈ source_prefix_ranges m /\ net_contains r (sock_ip (peer_address meta)) = true) /\
  (source_ports m = [] \/ sock_port (peer_address meta) ∈ source_ports m).

(** The criteria in the order of precedence. *)
Definition criteria : list (FilterChainMatch -> MatchResult) :=
  [fun m => matches_destination_port m (sock_port (local_address meta));
   fun m => matches_destination_ip m (sock_ip (local_address meta));
   fun m => matches_server_name m (default [] server_name);
   fun m => matches_source_ip m (sock_ip (peer_address meta));
   fun m => matches_source_port m (sock_port (peer_address meta))].

Definition scores (m : FilterChainMatch) : list MatchResult := (fun f => f m) <$> criteria.

Fixpoint less_specific (a b : list MatchResult) : Prop :=
  match a, b with
  | x :: a, y :: b => mr_gt y x = true \/ x = y /\ less_specific a b
  | _, _ => False
  end.

Lemma less_specific_asym a b : less_specific a b -> less_specific b a -> False.
Proof.
  revert b. induction a as [|x a IH]; intros [|y b]; simpl; [done..|].
  intros [H1|[-> H1]] [H2|[H2 H3]]; [..|eauto].
  - assert (x = y) as -> by (apply mr_le_antisym; auto with scores).
    pose proof (mr_le_refl y) as Hr. unfold mr_le in Hr. congruence.
  - subst. pose proof (mr_le_refl x) as Hr. unfold mr_le in Hr. congruence.
  - pose proof (mr_le_refl y) as Hr. unfold mr_le in Hr. congruence.
Qed.

Lemma not_failed_best_of {A} (f : A -> MatchResult) l :
  (forall x, f x <> NoRule) ->
  default NoRule (mr_max (f <$> l)) <> FailedMatch <-> l = [] \/ exists x, x ∈ l /\ f x <> FailedMatch.
Proof.
  intros Hf. destruct (mr_max (f <$> l)) as [b|] eqn:Hmax; simpl.
  - apply mr_max_spec in Hmax as [(x & -> & Hx)%list_elem_of_fmap Hub]. split; [eauto|].
    intros [->|(y & Hy & Hne)] Hfail; [set_solver|].
    specialize (Hub (f y) (list_elem_of_fmap_2 _ _ _ Hy)). rewrite Hfail in Hub.
    by destruct (f y).
  - apply mr_max_None, fmap_nil_inv in Hmax. split; [by left|done].
Qed.

Lemma not_failed_ranges ranges a :
  matches_ranges ranges a <> FailedMatch <->
  ranges = [] \/ exists r, r ∈ ranges /\ net_contains r a = true.
Proof.
  unfold matches_ranges. rewrite not_failed_best_of by (intros r; by destruct (net_contains r a)).
  f_equiv. f_equiv. intros r. by destruct (net_contains r a); intuition.
Qed.

Lemma not_failed_names names s :
  default NoRule (mr_max (matches_one_name s <$> names)) <> FailedMatch <->
  names = [] \/ exists n, n ∈ names /\
    if sn_match_subdomains n then sn_name n `suffix_of` s else sn_name n = s.
Proof.
  rewrite not_failed_best_of.
  - f_equiv. f_equiv. intros [n [|]]; unfold matches_one_name; simpl.
    + unfold Str.ends_with. case_bool_decide; intuition congruence.
    + case_bool_decide; intuition congruence.
  - intros [n [|]]; unfold matches_one_name; simpl; [by destruct (Str.ends_with _ _)|by case_bool_decide].
Qed.

Lemma accepts_scores m : accepts m <-> Forall (fun s => s <> FailedMatch) (scores m).
Proof.
  unfold scores, criteria, accepts. simpl. rewrite !Forall_cons, Forall_nil.
  unfold matches_destination_ip, matches_source_ip, matches_server_name.
  rewrite !not_failed_ranges, not_failed_names.
  assert (matches_destination_port m (sock_port (local_address meta)) <> FailedMatch <->
    from_option (fun port => port = sock_port (local_address meta)) True (destination_port m)) as ->.
  { unfold matches_destination_port. destruct (destination_port m) as [p|]; simpl; [|intuition congruence].
    destruct (Z.eqb_spec (sock_port (local_address meta)) p); intuition congruence. }
  assert (matches_source_port m (sock_port (peer_address meta)) <> FailedMatch <->
    source_ports m = [] \/ sock_port (peer_address meta) ∈ source_ports m) as ->; [|tauto].
  unfold matches_source_port. repeat case_bool_decide; intuition congruence.
Qed.

Definition prune_in_turn (fs : list (FilterChainMatch -> MatchResult)) (cs : list Candidate) :=
  fold_left (fun cs f => prune f cs) fs cs.

Lemma elem_of_prune_iff f (cs : list Candidate) c :
  c ∈ prune f cs <-> c ∈ cs /\ f c.2 = best f cs /\ f c.2 <> FailedMatch.
Proof. unfold prune. rewrite list_elem_of_filter. tauto. Qed.

(** A survivor passes every criterion, and every other candidate that does is
    a survivor with the same scores or less specific. *)
Lemma prune_in_turn_spec fs (cs : list Candidate) c :
  c ∈ prune_in_turn fs cs ->
  c ∈ cs /\ Forall (fun f => f c.2 <> FailedMatch) fs /\
  forall c', c' ∈ cs -> Forall (fun f => f c'.2 <> FailedMatch) fs ->
    (c' ∈ prune_in_turn fs cs /\ ((fun f => f c'.2) <$> fs) = ((fun f => f c.2) <$> fs)) \/
    less_specific ((fun f => f c'.2) <$> fs) ((fun f => f c.2) <$> fs).
Proof.
  revert cs. induction fs as [|f fs IH]; intros cs.
  { intros Hc. split_and!; [done|constructor|]. intros c' Hc' _. by left. }
  change (prune_in_turn (f :: fs) cs) with (prune_in_turn fs (prune f cs)).
  intros Hc. destruct (IH _ Hc) as (Hc1 & Hpass & Hothers).
  apply elem_of_prune_iff in Hc1 as (Hc1 & Hbest & Hne). split_and!; [done|by constructor|].
  intros c' Hc' [Hne' Hpass']%Forall_cons. rewrite !fmap_cons.
  destruct (decide (f c'.2 = f c.2)) as [E|E].
  - destruct (Hothers c') as [[? ->]|?]; [apply elem_of_prune_iff; split_and!; congruence|done|..].
    + left. split; [done|]. by rewrite E.
    + right. by right.
  - right. left. destruct (best_from_spec f FailedMatch cs) as (_ & Hub & _).
    fold (best f cs) in Hub. specialize (Hub c' Hc'). rewrite <-Hbest in Hub.
    destruct (mr_gt (f c.2) (f c'.2)) eqn:Hgt; [done|]. by destruct (E (mr_le_antisym _ _ Hub Hgt)).
Qed.

Lemma criteria_scores (m : FilterChainMatch) :
  Forall (fun f => f m <> FailedMatch) criteria <-> accepts m.
Proof. rewrite accepts_scores. unfold scores. by rewrite Forall_fmap. Qed.

Context {T : Type} (entries : list (FilterChainMatch * T)).

Lemma elem_of_rules i m : (i, m) ∈ imap pair entries.*1 <-> exists v, entries !! i = Some (m, v).
Proof.
  rewrite elem_of_lookup_imap. split.
  - intros (j & m' & [= -> ->] & Hm). rewrite list_lookup_fmap, fmap_Some in Hm.
    destruct Hm as ([m1 v] & Hm & ->). eauto.
  - intros [v Hv]. exists i, m. by rewrite list_lookup_fmap, Hv.
Qed.

Notation survivors := (prune_all meta server_name (imap pair entries.*1)).

Lemma survivor_spec i m :
  (i, m) ∈ survivors ->
  (exists v, entries !! i = Some (m, v)) /\ accepts m /\
  forall j m' v', entries !! j = Some (m', v') -> accepts m' ->
    ((j, m') ∈ survivors /\ scores m' = scores m) \/ less_specific (scores m') (scores m).
Proof.
  change survivors with (prune_in_turn criteria (imap pair entries.*1)).
  intros (Hi%elem_of_rules & Hacc%criteria_scores & Hothers)%prune_in_turn_spec.
  split_and!; [done..|]. intros j m' v' Hj Hacc'. apply (Hothers (j, m')).
  - apply elem_of_rules. eauto.
  - by apply criteria_scores.
Qed.

Lemma NoDup_survivors : NoDup survivors.*1.
Proof. unfold prune_all. repeat apply NoDup_prune. rewrite imap_pair_keys. apply NoDup_seq. Qed.

(** C1: The compiled matcher is equivalent to the linear selection: for every
    list of filter chains and every connection, [FilterChains::select] returns
    what scoring all the rules criterion by criterion returns, ambiguity errors
    included.  Wildcard names must keep their leading dot, as
    [ServerNameMatch::from_str] makes them. *)
Theorem select_is_reference_select :
  wf_connection -> Forall wf_names entries.*1 ->
  select (chains_from_iter entries) meta server_name = reference_select entries meta server_name.
Proof. intros Hc Hwf. rewrite reference_select_prune. by apply select_prune. Qed.


(** [FilterChains::select] reports an ambiguity only if two different rules
    accept the connection with the same scores, and no rule that accepts it is
    more specific than they are. *)
Theorem ambiguous_rules_tie :
  wf_connection -> Forall wf_names entries.*1 ->
  select (chains_from_iter entries) meta server_name = Err MultipleFilterChains ->
  exists i j e e', i <> j /\ entries !! i = Some e /\ entries !! j = Some e' /\
    accepts e.1 /\ accepts e'.1 /\ scores e.1 = scores e'.1 /\
    forall e'', e'' ∈ entries -> accepts e''.1 ->
      scores e''.1 = scores e.1 \/ less_specific (scores e''.1) (scores e.1).
Proof.
  intros Hc Hwf. rewrite select_prune by done.
  pose proof survivor_spec as Hspec. pose proof NoDup_survivors as Hnd.
  destruct survivors as [|[i m] [|[j m'] cs]]; cbn [pick]; [done..|]. intros _.
  destruct (Hspec i m) as ([v Hi] & Hacc & Hothers); [set_solver|].
  destruct (Hspec j m') as ([v' Hj] & Hacc' & Hothers'); [set_solver|].
  exists i, j, (m, v), (m', v'). apply NoDup_cons in Hnd as [Hnin _].
  split_and!; [set_solver|done..| |].
  - destruct (Hothers j m' v' Hj Hacc') as [[_ ?]|Hl]; [done|].
    destruct (Hothers' i m v Hi Hacc) as [[_ ?]|Hl']; [done|].
    by destruct (less_specific_asym _ _ Hl Hl').
  - intros [m'' v''] [k Hk]%list_elem_of_lookup Hacc''.
    destruct (Hothers k m'' v'' Hk Hacc'') as [[_ ?]|?]; [by left|by right].
Qed.
End spec.

Section listener.
Context `{IpNetLib} {Protocol : Type}.

Lemma collect_results_lookup {E U} (l : list (result E U)) us i r :
  collect_results l = Ok us -> l !! i = Some r -> exists u, r = Ok u /\ us !! i = Some u.
Proof.
  revert us i. induction l as [|[u|e] l IH]; intros us i Hl Hi; [done| |done].
  simpl in Hl. destruct (collect_results l) as [us'|e]; [|done]. injection Hl as <-.
  destruct i as [|i]; simplify_eq/=; eauto.
Qed.

Lemma collect_results_length {E U} (l : list (result E U)) us :
  collect_results l = Ok us -> length us = length l.
Proof.
  revert us. induction l as [|[u|e] l IH]; intros us Hl; [by simplify_eq/=| |done].
  simpl in Hl. destruct (collect_results l) as [us'|e]; [|done]. injection Hl as <-.
  simpl. by rewrite (IH us').
Qed.

(** Mapping the filter chains with a fallible function keeps the
    selection: the mapped chains select the image of the chain the originals
    select, nothing where they select nothing, and the same error. *)
Theorem try_map_select {E T U} (c : FilterChains T) (f : T -> result E U) c'
    (meta : DownstreamConnectionMetadata Protocol) server_name :
  try_map c f = Ok c' ->
  match select c meta server_name with
  | Ok (Some t) => exists u, f t = Ok u /\ select c' meta server_name = Ok (Some u)
  | Ok None => select c' meta server_name = Ok None
  | Err e => select c' meta server_name = Err e
  end.
Proof.
  unfold try_map, select. destruct (collect_results _) as [us|e] eqn:Hus; [|done]. intros [= <-]. simpl.
  destruct (matcher_select _ _ _) as [[idx|]|]; [|done..].
  destruct (chains c !! idx) as [t|] eqn:Ht.
  - destruct (collect_results_lookup _ _ idx (f t) Hus) as (u & Hu & ->); [|by exists u].
    by rewrite list_lookup_fmap, Ht.
  - apply collect_results_length in Hus. rewrite length_fmap in Hus.
    rewrite lookup_ge_None in Ht. by rewrite lookup_ge_None_2 by lia.
Qed.
End listener.

(** A server name parsed by [ServerNameMatch::from_str] has no wildcard
    left in it, and it matches subdomains exactly when it was written
    [*.suffix], in which case it keeps the dot that the compiled matcher relies
    on.  [str::to_lowercase] maps a leading dot to itself. *)
Theorem from_str_keeps_dot (to_lowercase : str -> str) s n :
  (forall t, to_lowercase (Str.dot :: t) = Str.dot :: to_lowercase t) ->
  ServerNameMatch_from_str to_lowercase s = Ok n ->
  wf_server_name n /\
  (sn_match_subdomains n = true <-> exists rest, s = Str.star :: Str.dot :: rest) /\
  exists t, Str.star ∉ t /\ sn_name n = to_lowercase t /\
    s = if sn_match_subdomains n then Str.star :: t else t.
Proof.
  intros Hlow. unfold ServerNameMatch_from_str.
  assert (forall m t, (if Str.contains_char t Str.star then Err InternalWildcard
    else Ok (mk_sn (to_lowercase t) m)) = Ok n -> Str.star ∉ t /\ n = mk_sn (to_lowercase t) m) as Hok.
  { intros m t. unfold Str.contains_char. by case_bool_decide; intros [= <-]. }
  destruct (Str.strip_prefix_char s Str.star) as [rest|] eqn:Hs.
  - apply Str.strip_prefix_char_Some in Hs as ->.
    destruct (Str.starts_with rest [Str.dot]) eqn:Hd; intros [Hnin ->]%Hok; simpl.
    + apply Str.starts_with_true in Hd as [rest' ->]. split_and!.
      * intros _. exists (to_lowercase rest'). apply Hlow.
      * naive_solver.
      * eauto.
    + set_solver.
  - intros [Hnin ->]%Hok. simpl. split_and!; [done| |by exists s]. split; [done|].
    intros [rest ->]. set_solver.
Qed.

(** ** Witnesses *)

(** Three rules: two server names below example.com, one for a wildcard of
    which asks for a source network, and a fallback. *)
Definition ex_rules : list (FilterChainMatch * nat) :=
  [(mk_fcm (Some 443) [NetV4 (167772160, 8)] [mk_sn (lit "www.example.com") false] [] [], 0%nat);
   (mk_fcm (Some 443) [NetV4 (167772160, 8)] [mk_sn (lit ".example.com") true]
      [NetV4 (3232235520, 16)] [1000; 2000], 1%nat);
   (mk_fcm None [] [] [] [], 2%nat)].

(** From 192.168.0.1, port 2000, to 10.0.0.1, port 443. *)
Definition ex_meta : DownstreamConnectionMetadata unit :=
  FromSocket (mk_sock (V4 3232235521) 2000) (mk_sock (V4 167772161) 443).

Lemma ex_rules_wf : Forall wf_names ex_rules.*1.
Proof.
  repeat constructor; intros Hm; simpl in *; try done. by eexists.
Qed.

Lemma ex_connection_wf : wf_connection ex_meta (Some (lit "api.example.com")).
Proof. by repeat split. Qed.

Lemma select_is_reference_select_witness :
  select (chains_from_iter ex_rules) ex_meta (Some (lit "api.example.com")) =
    reference_select ex_rules ex_meta (Some (lit "api.example.com")) /\
  reference_select ex_rules ex_meta (Some (lit "api.example.com")) = Ok (Some 1%nat).
Proof.
  split; [|by vm_compute].
  apply (select_is_reference_select ex_meta (Some (lit "api.example.com")) ex_rules
    ex_connection_wf ex_rules_wf).
Defined.


(** The same rule twice. *)
Definition ex_tied : list (FilterChainMatch * nat) :=
  [(mk_fcm (Some 443) [] [] [] [], 0%nat); (mk_fcm (Some 443) [] [] [] [], 1%nat)].

Lemma ambiguous_rules_tie_witness :
  exists i j e e', i <> j /\ ex_tied !! i = Some e /\ ex_tied !! j = Some e' /\
    accepts ex_meta None e.1 /\ accepts ex_meta None e'.1 /\
    scores ex_meta None e.1 = scores ex_meta None e'.1 /\
    forall e'', e'' ∈ ex_tied -> accepts ex_meta None e''.1 ->
      scores ex_meta None e''.1 = scores ex_meta None e.1 \/
      less_specific (scores ex_meta None e''.1) (scores ex_meta None e.1).
Proof.
  apply (ambiguous_rules_tie ex_meta None ex_tied).
  - by repeat split.
  - by repeat constructor.
  - by vm_compute.
Defined.

Lemma try_map_select_witness :
  exists u, (Ok 2%nat : result unit nat) = Ok u /\
    select (mk_chains (matcher_new ex_rules.*1) [1; 2; 3]%nat) ex_meta (Some (lit "api.example.com"))
      = Ok (Some u).
Proof.
  exact (try_map_select (E := unit) (chains_from_iter ex_rules) (fun n => Ok (S n))
    (mk_chains (matcher_new ex_rules.*1) [1; 2; 3]%nat) ex_meta (Some (lit "api.example.com")) eq_refl).
Defined.

Lemma from_str_keeps_dot_witness :
  wf_server_name (mk_sn (lit ".example.com") true) /\
  (true = true <-> exists rest, lit "*.Example.com" = Str.star :: Str.dot :: rest) /\
  exists t, Str.star ∉ t /\ lit ".example.com" = Str.to_ascii_lowercase <$> t /\
    lit "*.Example.com" = Str.star :: t.
Proof.
  apply (from_str_keeps_dot (fmap Str.to_ascii_lowercase) (lit "*.Example.com")
    (mk_sn (lit ".example.com") true)); [done|by vm_compute].
Defined.

(** A wildcard rule without its dot, which a configuration file can hold, is
    dead in the compiled matcher, whereas [matches_server_name] accepts it. *)
Example undotted_wildcard :
  let entries := [(mk_fcm None [] [mk_sn (lit "example.com") true] [] [], 0%nat)] in
  select (chains_from_iter entries) ex_meta (Some (lit "api.example.com")) = Ok None /\
  reference_select entries ex_meta (Some (lit "api.example.com")) = Ok (Some 0%nat) /\
  reference_select entries ex_meta (Some (lit "anythingexample.com")) = Ok (Some 0%nat).
Proof. by vm_compute. Qed.
End FilterChainSpec.
