(* ===== verification/Balancer.v ===== *)
(** The interface of the load balancers (arion-lib/src/clusters/balancers/mod.rs
    and default_balancer.rs): the operations as classes, and what the balancers
    that wrap another one rely on, as a class of laws. *)

From S2P Require Import Prelude.

Module Balancer.

(** [trait WeightedEndpoint]. *)
Class WeightedEndpoint (E : Type) : Type := endpoint_weight : E → Z.

(** [trait EndpointWithLoad]. *)
Class EndpointWithLoad (E : Type) : Type := http_load : E → Z.

(** [trait EndpointWithAuthority]: the authority as its text. *)
Class EndpointWithAuthority (E : Type) : Type := authority : E → str.

(** [LbItem] of the balancers that keep no counter. *)
Record WeightedItem (E : Type) : Type := mk_weighted {
  w_item : E;
  w_weight : Z;
}.
Arguments mk_weighted {E} _ _.
Arguments w_item {E} _.
Arguments w_weight {E} _.

Definition weighted_new {E} (w : Z) (e : E) : WeightedItem E := mk_weighted e w.

(** [collect_checked] of the same balancers: the items up to the first whose
    weight makes the total overflow a [u32], and the total. *)
Fixpoint take_checked {E} (l : list (WeightedItem E)) (total : Z) : list (WeightedItem E) * Z :=
  match l with
  | [] => ([], total)
  | it :: l =>
    match Int.checked_add_u32 total (w_weight it) with
    | Some new_total => let '(l, total) := take_checked l new_total in (it :: l, total)
    | None => ([], total)
    end
  end.

(** [PartialEq] of an endpoint: a test, which need not be equality. *)
Class PartialEqTest (E : Type) : Type := same_endpoint : E → E → bool.

(** [trait Balancer<E>]: the state is passed; the hash is a [u64]. *)
Class Balancer (B E : Type) : Type := next_item : B → option Z → option E * B.

(** [FromIterator<Arc<E>>] and [Default]. *)
Class BalancerBuild (B E : Type) : Type := {
  balancer_default : B;
  balancer_from_iter : list E → B;
}.

(** What a balancer promises of the endpoints it was built from: it only
    returns one of them, however often it is used.  [serves b l] says that [b]
    was built from [l] and used some number of times. *)
Class BalancerLaws (B E : Type) `{Balancer B E, BalancerBuild B E} : Type := {
  serves : B → list E → Prop;
  serves_from_iter : ∀ l, serves (balancer_from_iter l) l;
  serves_default : serves balancer_default [];
  serves_next : ∀ b l h, serves b l → serves (next_item b h).2 l;
  next_item_elem : ∀ b l h e, serves b l → (next_item b h).1 = Some e → e ∈ l;
}.

(** A balancer that always has an answer when it has endpoints.  Endpoint
    weights are [u32]. *)
Class BalancerAnswers (B E : Type) `{BalancerLaws B E, WeightedEndpoint E} : Prop :=
  next_item_answers : ∀ b l h, serves b l → l ≠ [] →
    Forall (λ e, Int.is_u32 (endpoint_weight e)) l → is_Some (next_item b h).1.

(** [k] requests in a row, without a hash: the answers and the final state. *)
Fixpoint requests {B E} `{Balancer B E} (k : nat) (b : B) : list (option E) * B :=
  match k with
  | O => ([], b)
  | S k =>
    let '(answer, b) := next_item b None in
    let '(answers, b) := requests k b in
    (answer :: answers, b)
  end.

(** How often an endpoint was the answer. *)
Definition times {E} `{EqDecision E} (e : E) (answers : list (option E)) : nat :=
  length (filter (λ a, a = Some e) answers).

Section take_checked.
Context {E : Type}.
Local Open Scope Z_scope.

Lemma take_checked_spec (l : list (WeightedItem E)) total :
  Forall (λ it, Int.is_u32 (w_weight it)) l → Int.is_u32 total →
  let '(l', total') := take_checked l total in
  l' `prefix_of` l ∧ total' = total + zsum (w_weight <$> l') ∧ Int.is_u32 total'.
Proof.
  intros Hl. revert total. induction Hl as [|it l Hit Hl IH]; intros total Ht; simpl.
  { split_and!; [done|lia|done]. }
  destruct (Int.checked_add_u32 total (w_weight it)) as [t|] eqn:E1.
  - apply Int.checked_add_Some in E1 as [-> Hmax].
    specialize (IH (total + w_weight it) ltac:(unfold Int.is_u32 in *; lia)).
    destruct (take_checked l _) as [l' t']. destruct IH as (Hp & -> & Hu).
    split_and!; [by apply prefix_cons|rewrite fmap_cons; cbn [zsum foldr]; unfold zsum; lia|done].
  - split_and!; [apply prefix_nil|simpl; lia|done].
Qed.

Lemma take_checked_sub (l : list (WeightedItem E)) total it : it ∈ (take_checked l total).1 -> it ∈ l.
Proof.
  revert total. induction l as [|x l IH]; intros total; simpl; [done|].
  destruct (Int.checked_add_u32 _ _) as [t|]; simpl; [|set_solver]. specialize (IH t).
  destruct (take_checked l t). simpl in *. set_solver.
Qed.
End take_checked.

Section requests.
Context {B E : Type} `{Balancer B E, EqDecision E}.

Lemma requests_app k j (b : B) :
  requests (k + j) b =
  ((requests k b).1 ++ (requests j (requests k b).2).1, (requests j (requests k b).2).2).
Proof.
  revert b. induction k as [|k IH]; intros b; simpl; [by destruct (requests j b)|].
  destruct (next_item b None) as [a b1]. rewrite IH. by destruct (requests k b1).
Qed.

Lemma requests_S k (b : B) :
  requests (S k) b =
  let '(answers, b1) := requests k b in
  let '(a, b2) := next_item b1 None in (answers ++ [a], b2).
Proof.
  rewrite <-Nat.add_1_r, requests_app. destruct (requests k b) as [answers b1]. simpl.
  by destruct (next_item b1 None).
Qed.

Lemma times_snoc (e : E) answers a :
  times e (answers ++ [a]) = times e answers + (if decide (a = Some e) then 1 else 0).
Proof.
  unfold times. rewrite filter_app, length_app, filter_cons. by case_decide.
Qed.
End requests.
End Balancer.
