(* ===== verification/Wrr.v ===== *)
(** Smooth weighted round robin (arion-lib/src/clusters/balancers/wrr.rs). *)

From S2P Require Import Prelude Balancer.
Import Balancer.
Local Open Scope Z_scope.

Module Wrr.

Record LbItem (E : Type) : Type := mk_item {
  weight : Z;
  current_weight : Z;
  item : E;
}.
Arguments mk_item {E} _ _ _.
Arguments weight {E} _.
Arguments current_weight {E} _.
Arguments item {E} _.

Record WeightedRoundRobinBalancer (E : Type) : Type := mk_wrr {
  items : list (LbItem E);
  total_weight : Z;
  equal_weight : bool;
  current_index : nat;
}.
Arguments mk_wrr {E} _ _ _ _.
Arguments items {E} _.
Arguments total_weight {E} _.
Arguments equal_weight {E} _.
Arguments current_index {E} _.

Section wrr.
Context {E : Type}.
Implicit Types (b : WeightedRoundRobinBalancer E) (it : LbItem E).

Definition LbItem_new (w : Z) (e : E) : LbItem E := mk_item w 0 e.

(** [i32::try_from(x).unwrap_or(i32::MAX)]. *)
Definition to_i32 (x : Z) : Z := default Int.i32_max (Int.i32_try_from x).

Definition adjust_current_weight it (value : Z) : LbItem E :=
  mk_item (weight it) (Int.saturating_add_i32 (current_weight it) value) (item it).

Definition increase_current_weight it : LbItem E :=
  adjust_current_weight it (to_i32 (weight it)).

(** The [take_while] of [collect_checked], with the variables its closure
    captures. *)
Fixpoint collect_checked (l : list (LbItem E)) (total : Z) (first_weight : option Z)
    (equal : bool) : list (LbItem E) * Z * bool :=
  match l with
  | [] => ([], total, equal)
  | it :: l =>
    let '(first_weight, equal) :=
      match first_weight with
      | Some first => (Some first, if equal && negb (first =? weight it) then false else equal)
      | None => (Some (weight it), equal)
      end in
    match Int.checked_add_u32 total (weight it) with
    | Some new_total =>
      let '(l, total, equal) := collect_checked l new_total first_weight equal in
      (it :: l, total, equal)
    | None => ([], total, equal)
    end
  end.

Definition wrr_new (l : list (LbItem E)) : WeightedRoundRobinBalancer E :=
  let '(l, total, equal) := collect_checked l 0 None true in
  mk_wrr l (to_i32 total) equal 0.

(** The loop of [next_item]: increase every item, remember the first maximum. *)
Fixpoint increase_and_pick (l : list (LbItem E)) (idx best_index : nat) (best_weight : Z)
    : list (LbItem E) * nat :=
  match l with
  | [] => ([], best_index)
  | it :: l =>
    let it := increase_current_weight it in
    let '(best_index, best_weight) :=
      if best_weight <? current_weight it then (idx, current_weight it)
      else (best_index, best_weight) in
    let '(l, best_index) := increase_and_pick l (S idx) best_index best_weight in
    (it :: l, best_index)
  end.

Definition wrr_next_item b : option E * WeightedRoundRobinBalancer E :=
  if equal_weight b then
    if bool_decide (length (items b) <= 1)%nat then (item <$> head (items b), b)
    else
      (item <$> items b !! current_index b,
       mk_wrr (items b) (total_weight b) (equal_weight b)
         ((current_index b + 1) mod length (items b))%nat)
  else if bool_decide (length (items b) <= 1)%nat then (item <$> head (items b), b)
  else
    let '(l, best_index) := increase_and_pick (items b) 0 0 Int.i32_min in
    match l !! best_index with
    | None => (None, mk_wrr l (total_weight b) (equal_weight b) (current_index b))
    | Some it =>
      (Some (item it),
       mk_wrr (<[best_index := adjust_current_weight it (- total_weight b)]> l)
         (total_weight b) (equal_weight b) (current_index b))
    end.

Definition wrr_from_iter `{WeightedEndpoint E} (l : list E) : WeightedRoundRobinBalancer E :=
  wrr_new ((fun e => LbItem_new (endpoint_weight e) e) <$> l).

Definition wrr_default `{WeightedEndpoint E} : WeightedRoundRobinBalancer E := wrr_from_iter [].
End wrr.

#[global] Instance wrr_balancer {E} : Balancer (WeightedRoundRobinBalancer E) E :=
  fun b _ => wrr_next_item b.
#[global] Instance wrr_build {E} `{WeightedEndpoint E} :
  BalancerBuild (WeightedRoundRobinBalancer E) E :=
  {| balancer_default := wrr_default; balancer_from_iter := wrr_from_iter |}.

(** ** Construction *)
Section build.
Context {E : Type}.
Implicit Types (b : WeightedRoundRobinBalancer E) (l : list (LbItem E)).

Definition sum_weights l : Z := zsum (weight <$> l).

Lemma sum_weights_cons it l : sum_weights (it :: l) = weight it + sum_weights l.
Proof. done. Qed.
Lemma sum_weights_nil : sum_weights [] = 0.
Proof. done. Qed.

(** What is collected is a prefix, with its total weight. *)
Lemma collect_checked_prefix l total first equal :
  let '(l', total', _) := collect_checked l total first equal in
  l' `prefix_of` l /\ total' = total + sum_weights l' /\
  (total <= Int.u32_max -> total' <= Int.u32_max) /\
  (forall it rest, l = l' ++ it :: rest -> Int.u32_max < total' + weight it).
Proof.
  revert total first equal. induction l as [|it l IH]; intros total first equal; simpl.
  { split_and!; [done|rewrite sum_weights_nil; lia|done|]. intros it rest. by destruct it. }
  destruct (match first with Some _ => _ | None => _ end) as [first' equal'].
  destruct (Int.checked_add_u32 total (weight it)) as [t|] eqn:Ht.
  - apply Int.checked_add_Some in Ht as [-> Ht].
    specialize (IH (total + weight it) first' equal').
    destruct (collect_checked l _ _ _) as [[l' total'] equal'']. destruct IH as (Hp & -> & Hle & Hmax).
    split_and!; [by apply prefix_cons|rewrite sum_weights_cons; lia|auto|].
    intros it' rest [= Heq]. apply (Hmax _ _ Heq).
  - split_and!; [apply prefix_nil|rewrite sum_weights_nil; lia|done|].
    intros it' rest [= <- _]. destruct (Int.checked_add_u32 total (weight it)) eqn:E2; [done|].
    unfold Int.checked_add_u32 in E2. destruct (Z.leb_spec (total + weight it) Int.u32_max); done || lia.
Qed.

Definition all_weights (w : Z) l : bool := forallb (fun it => w =? weight it) l.

Lemma sum_weights_nonneg l : Forall (fun it => 0 <= weight it) l -> 0 <= sum_weights l.
Proof.
  intros Hl. pose proof (zsum_lower (weight <$> l) 0) as Hz. rewrite Forall_fmap in Hz.
  specialize (Hz Hl). unfold sum_weights. lia.
Qed.

(** If the total fits, everything is collected, and the flag says whether the
    weights are all the same. *)
Lemma collect_checked_all l total w equal :
  Forall (fun it => 0 <= weight it) l -> total + sum_weights l <= Int.u32_max ->
  collect_checked l total (Some w) equal = (l, total + sum_weights l, equal && all_weights w l).
Proof.
  intros Hl. revert total equal.
  induction Hl as [|it l Hit Hl IH]; intros total equal; [intros _|rewrite sum_weights_cons; intros Hsum].
  { simpl. by rewrite sum_weights_nil, Z.add_0_r, andb_true_r. }
  pose proof (sum_weights_nonneg l Hl). simpl. unfold Int.checked_add_u32.
  rewrite (proj2 (Z.leb_le _ _)) by lia. rewrite IH by lia. f_equal; [f_equal; lia|].
  by destruct equal, (w =? weight it).
Qed.

Lemma collect_checked_first it l :
  Forall (fun it => 0 <= weight it) (it :: l) -> sum_weights (it :: l) <= Int.u32_max ->
  collect_checked (it :: l) 0 None true =
  (it :: l, sum_weights (it :: l), all_weights (weight it) l).
Proof.
  rewrite sum_weights_cons. intros [Hit Hl]%Forall_cons Hsum.
  pose proof (sum_weights_nonneg l Hl). cbn [collect_checked]. unfold Int.checked_add_u32.
  rewrite (proj2 (Z.leb_le _ _)) by lia. rewrite collect_checked_all by (done || lia).
  f_equal.
Qed.
End build.

(** ** Fairness *)
Section fair.
Context {E : Type} `{EqDecision E}.
Implicit Types (l : list (LbItem E)) (cs : list Z).

Lemma increase_and_pick_spec l idx bi bw :
  let '(l', b) := increase_and_pick l idx bi bw in
  l' = increase_current_weight <$> l /\
  (b = bi /\ Forall (fun it => current_weight it <= bw) l' \/
   exists it, (idx <= b)%nat /\ l' !! (b - idx)%nat = Some it /\ bw < current_weight it /\
     Forall (fun it' => current_weight it' <= current_weight it) l').
Proof.
  revert idx bi bw. induction l as [|it l IH]; intros idx bi bw.
  { split; [done|]. left. by split. }
  cbn [increase_and_pick]. rewrite fmap_cons. set (it' := increase_current_weight it).
  destruct (Z.ltb_spec bw (current_weight it')) as [Hlt|Hge].
  - specialize (IH (S idx) idx (current_weight it')).
    destruct (increase_and_pick l _ _ _) as [l' b]. destruct IH as [-> IH].
    split; [done|]. right.
    destruct IH as [[-> Hall]|(it1 & Hb & Hl & Hbest & Hall)].
    + exists it'. rewrite Nat.sub_diag. split_and!; [lia|done|done|]. constructor; [lia|done].
    + exists it1. replace (b - idx)%nat with (S (b - S idx))%nat by lia.
      split_and!; [lia|done|lia|]. constructor; [lia|done].
  - specialize (IH (S idx) bi bw).
    destruct (increase_and_pick l _ _ _) as [l' b]. destruct IH as [-> IH].
    split; [done|].
    destruct IH as [[-> Hall]|(it1 & Hb & Hl & Hbest & Hall)]; [left|right].
    + split; [done|]. by constructor.
    + exists it1. replace (b - idx)%nat with (S (b - S idx))%nat by lia.
      split_and!; [lia|done|lia|]. constructor; [lia|done].
Qed.

(** The state after [k] picks of which [cs] were of each item. *)
Definition at_counts (k W : Z) l cs : list (LbItem E) :=
  zip_with (fun it c => mk_item (weight it) (k * weight it - W * c) (item it)) l cs.

Context (l0 : list (LbItem E)).
Let W : Z := sum_weights l0.
Hypothesis weights_nonneg : Forall (fun it => 0 <= weight it) l0.
Hypothesis weights_pos : 0 < W.
Hypothesis no_saturation : Z.of_nat (length l0) * W <= Int.i32_max.

Record counts_ok (k : Z) cs : Prop := {
  counts_length : length cs = length l0;
  counts_sum : zsum cs = k;
  counts_lower : Forall (fun it => - W < current_weight it) (at_counts k W l0 cs);
}.

Lemma sum_at_counts k cs :
  length cs = length l0 -> zsum (current_weight <$> at_counts k W l0 cs) = k * W - W * zsum cs.
Proof.
  intros Hlen. unfold at_counts.
  rewrite (zsum_zip_with _ _ (fun it => k * weight it) (fun c => W * c)) by done.
  rewrite !zsum_scale. unfold W, sum_weights. by rewrite list_fmap_id.
Qed.

Lemma length_at_counts k cs : length cs = length l0 -> length (at_counts k W l0 cs) = length l0.
Proof. intros Hlen. unfold at_counts. rewrite length_zip_with. lia. Qed.

Lemma weight_le_total it : it ∈ l0 -> 0 <= weight it <= W.
Proof.
  intros [i Hi]%list_elem_of_lookup.
  pose proof (Forall_lookup_1 _ _ _ _ weights_nonneg Hi) as Hw. simpl in Hw.
  pose proof (zsum_elem_upper (weight <$> l0) 0 i (weight it)) as Hub.
  rewrite Forall_fmap, list_lookup_fmap, Hi in Hub. specialize (Hub weights_nonneg eq_refl).
  fold W in Hub. unfold W, sum_weights. lia.
Qed.

Lemma lookup_at_counts k cs i it' :
  at_counts k W l0 cs !! i = Some it' <->
  exists it c, l0 !! i = Some it /\ cs !! i = Some c /\
    it' = mk_item (weight it) (k * weight it - W * c) (item it).
Proof. unfold at_counts. rewrite lookup_zip_with_Some. naive_solver. Qed.

Lemma counts_upper k cs it :
  counts_ok k cs -> it ∈ at_counts k W l0 cs ->
  - W < current_weight it <= (Z.of_nat (length l0) - 1) * W.
Proof.
  intros [Hlen Hsum Hlow] [i Hi]%list_elem_of_lookup.
  split; [by apply (Forall_lookup_1 _ _ _ _ Hlow Hi)|].
  pose proof (zsum_elem_upper (current_weight <$> at_counts k W l0 cs) (1 - W) i (current_weight it)) as Hub.
  rewrite sum_at_counts, length_fmap, length_at_counts, list_lookup_fmap, Hi, Hsum in Hub by done.
  assert (1 <= Z.of_nat (length l0)).
  { apply lookup_lt_Some in Hi. rewrite length_at_counts in Hi by done. lia. }
  enough (current_weight it + (Z.of_nat (length l0) - 1) * (1 - W) <= k * W - W * k) by nia.
  apply Hub; [|done]. apply Forall_fmap. eapply Forall_impl; [exact Hlow|]. simpl. lia.
Qed.

Lemma to_i32_small x : x <= Int.i32_max -> to_i32 x = x.
Proof. intros Hx. unfold to_i32, Int.i32_try_from. by rewrite (proj2 (Z.leb_le _ _) Hx). Qed.

Lemma increase_at_counts k cs :
  counts_ok k cs -> increase_current_weight <$> at_counts k W l0 cs = at_counts (k + 1) W l0 cs.
Proof.
  intros Hok. apply list_eq_same_length with (n := length l0);
    [rewrite ?length_fmap, length_at_counts; by destruct Hok..|].
  intros i x y _ Hx (it & c & Hit & Hc & ->)%lookup_at_counts.
  rewrite list_lookup_fmap, fmap_Some in Hx. destruct Hx as (it' & Hit' & ->).
  pose proof (counts_upper _ _ it' Hok (list_elem_of_lookup_2 _ _ _ Hit')) as Hb.
  apply lookup_at_counts in Hit' as (it2 & c2 & Hit2 & Hc2 & ->).
  assert (it2 = it) as -> by congruence. assert (c2 = c) as -> by congruence. simpl in Hb.
  pose proof (weight_le_total it (list_elem_of_lookup_2 _ _ _ Hit)).
  assert (1 <= Z.of_nat (length l0)) by (apply lookup_lt_Some in Hit; lia).
  unfold increase_current_weight, adjust_current_weight. simpl. f_equal.
  unfold Int.i32_max in *. rewrite to_i32_small by (unfold Int.i32_max; nia).
  rewrite Int.saturating_add_id; [lia|]. unfold Int.i32_min, Int.i32_max. nia.
Qed.

Lemma counts_ok_pick k cs b it c :
  counts_ok k cs -> l0 !! b = Some it -> cs !! b = Some c ->
  0 < (k + 1) * weight it - W * c -> counts_ok (k + 1) (<[b := c + 1]> cs).
Proof.
  intros [Hlen Hsum Hlow] Hit Hc Hpos. split.
  - by rewrite length_insert.
  - rewrite (zsum_insert _ _ _ _ Hc). lia.
  - apply Forall_lookup. intros i x (it' & c' & Hit' & Hc' & ->)%lookup_at_counts. simpl.
    pose proof (weight_le_total it' (list_elem_of_lookup_2 _ _ _ Hit')).
    apply list_lookup_insert_Some in Hc' as [(<- & <- & _)|(Hne & Hc')].
    + assert (it' = it) as -> by congruence. lia.
    + assert (at_counts k W l0 cs !! i =
        Some (mk_item (weight it') (k * weight it' - W * c') (item it'))) as Hi
        by (apply lookup_at_counts; eauto).
      pose proof (Forall_lookup_1 _ _ _ _ Hlow Hi) as Hlo. simpl in Hlo. lia.
Qed.

Lemma wrr_step k cs ci :
  (2 <= length l0)%nat -> counts_ok k cs ->
  exists b it c, l0 !! b = Some it /\ cs !! b = Some c /\
    wrr_next_item (mk_wrr (at_counts k W l0 cs) W false ci) =
      (Some (item it), mk_wrr (at_counts (k + 1) W l0 (<[b := c + 1]> cs)) W false ci) /\
    counts_ok (k + 1) (<[b := c + 1]> cs).
Proof.
  intros H2 Hok. unfold wrr_next_item. cbn [equal_weight items total_weight current_index].
  rewrite bool_decide_false by (rewrite length_at_counts; [lia|by destruct Hok]).
  pose proof (increase_and_pick_spec (at_counts k W l0 cs) 0 0 Int.i32_min) as Hpick.
  destruct (increase_and_pick _ _ _ _) as [l b].
  destruct Hpick as [-> Hpick]. rewrite increase_at_counts in * by done.
  pose proof Hok as [Hlen Hsum Hlow].
  assert (zsum (current_weight <$> at_counts (k + 1) W l0 cs) = W) as Hs
    by (rewrite sum_at_counts by done; lia).
  assert (forall hi, Forall (fun it => current_weight it <= hi) (at_counts (k + 1) W l0 cs) -> 0 < hi) as Hpos.
  { intros hi Hall. pose proof (zsum_upper (current_weight <$> at_counts (k + 1) W l0 cs) hi) as Hub.
    rewrite Forall_fmap, length_fmap, length_at_counts in Hub by done. specialize (Hub Hall). nia. }
  destruct Hpick as [[_ Hall]|(it' & _ & Hb & _ & Hall)].
  { apply Hpos in Hall. unfold Int.i32_min in Hall. lia. }
  apply Hpos in Hall. rewrite Nat.sub_0_r in Hb.
  pose proof Hb as (it & c & Hit & Hc & ->)%lookup_at_counts. simpl in Hall.
  exists b, it, c. rewrite Hb.
  pose proof (weight_le_total it (list_elem_of_lookup_2 _ _ _ Hit)).
  split_and!; [done|done| |by eapply counts_ok_pick].
  do 2 f_equal. unfold adjust_current_weight. simpl.
  unfold at_counts. rewrite <-(list_insert_id l0 b it) at 2 by done. rewrite <-insert_zip_with. do 2 f_equal.
  assert (at_counts k W l0 cs !! b = Some (mk_item (weight it) (k * weight it - W * c) (item it))) as Hold
    by (apply lookup_at_counts; eauto).
  pose proof (counts_upper _ _ _ Hok (list_elem_of_lookup_2 _ _ _ Hold)) as Hup. simpl in Hup.
  rewrite Int.saturating_add_id; [lia|]. unfold Int.i32_min, Int.i32_max in *. nia.
Qed.

Hypothesis items_distinct : NoDup (item <$> l0).
Hypothesis items_fresh : Forall (fun it => current_weight it = 0) l0.
Hypothesis two_items : (2 <= length l0)%nat.

Lemma at_counts_start : at_counts 0 W l0 (replicate (length l0) 0) = l0.
Proof.
  apply list_eq_same_length with (n := length l0);
    [done|by rewrite length_at_counts; rewrite ?length_replicate|].
  intros i x y _ (it & c & Hit & Hc & ->)%lookup_at_counts Hy.
  apply lookup_replicate in Hc as [-> _]. rewrite Hit in Hy. injection Hy as <-.
  pose proof (Forall_lookup_1 _ _ _ _ items_fresh Hit) as Hf. destruct it. simpl in *. f_equal. lia.
Qed.

Lemma zsum_replicate n x : zsum (replicate n x) = Z.of_nat n * x.
Proof. induction n as [|n IH]; simpl; lia. Qed.

Lemma counts_ok_start : counts_ok 0 (replicate (length l0) 0).
Proof.
  split.
  - by rewrite length_replicate.
  - rewrite zsum_replicate. lia.
  - rewrite at_counts_start. eapply Forall_impl; [exact items_fresh|]. simpl. lia.
Qed.

(** After any number of requests the state is given by how often each item was
    the answer. *)
Lemma wrr_run (k : nat) :
  exists cs, counts_ok (Z.of_nat k) cs /\
    (requests k (mk_wrr l0 W false 0)).2 = mk_wrr (at_counts (Z.of_nat k) W l0 cs) W false 0 /\
    forall i it c, l0 !! i = Some it -> cs !! i = Some c ->
      Z.of_nat (times (item it) (requests k (mk_wrr l0 W false 0)).1) = c.
Proof.
  induction k as [|k (cs & Hok & Hstate & Htimes)].
  - exists (replicate (length l0) 0). split_and!; [apply counts_ok_start|..].
    { cbn [requests snd]. change (Z.of_nat 0) with 0. by rewrite at_counts_start. }
    intros i it c _ [-> _]%lookup_replicate. done.
  - destruct (wrr_step (Z.of_nat k) cs 0 two_items Hok) as (b & it & c & Hit & Hc & Hnext & Hok').
    exists (<[b := c + 1]> cs). rewrite requests_S.
    destruct (requests k _) as [answers b1]. simpl in Hstate, Htimes. subst b1.
    unfold next_item, wrr_balancer. rewrite Hnext. cbn [fst snd].
    replace (Z.of_nat (S k)) with (Z.of_nat k + 1) by lia. split_and!; [done..|].
    intros i it' c' Hit' Hc'. rewrite times_snoc.
    apply list_lookup_insert_Some in Hc' as [(<- & <- & _)|(Hne & Hc')].
    + assert (it' = it) as -> by congruence. rewrite decide_True by done.
      specialize (Htimes b it c Hit Hc). lia.
    + rewrite decide_False; [rewrite Nat.add_0_r; eauto|]. intros [= Heq]. apply Hne.
      apply (NoDup_lookup _ _ _ (item it) items_distinct); rewrite list_lookup_fmap, ?Hit, ?Hit'; simpl; congruence.
Qed.

(** After a whole period every item has been the answer as often as its weight
    says, and the state is the initial one. *)
Lemma wrr_period :
  (requests (Z.to_nat W) (mk_wrr l0 W false 0)).2 = mk_wrr l0 W false 0 /\
  forall it, it ∈ l0 ->
    Z.of_nat (times (item it) (requests (Z.to_nat W) (mk_wrr l0 W false 0)).1) = weight it.
Proof.
  destruct (wrr_run (Z.to_nat W)) as (cs & [Hlen Hsum Hlow] & -> & Htimes).
  rewrite Z2Nat.id in * by lia.
  assert (cs = weight <$> l0) as ->.
  { apply zsum_le_eq; [|done]. apply Forall2_same_length_lookup_2; [by rewrite length_fmap|].
    intros i c w Hc Hw. rewrite list_lookup_fmap, fmap_Some in Hw. destruct Hw as (it & Hit & ->).
    assert (at_counts W W l0 cs !! i = Some (mk_item (weight it) (W * weight it - W * c) (item it))) as Hi
      by (apply lookup_at_counts; eauto).
    pose proof (Forall_lookup_1 _ _ _ _ Hlow Hi) as Hlo. simpl in Hlo. nia. }
  split.
  - f_equal. apply list_eq_same_length with (n := length l0);
      [done|by rewrite length_at_counts|].
    intros i x y _ (it & c & Hit & Hc & ->)%lookup_at_counts Hy.
    rewrite list_lookup_fmap, Hit in Hc. injection Hc as <-. rewrite Hit in Hy. injection Hy as <-.
    pose proof (Forall_lookup_1 _ _ _ _ items_fresh Hit) as Hf. destruct it. simpl in *. f_equal. lia.
  - intros it [i Hi]%list_elem_of_lookup. apply (Htimes i); [done|]. by rewrite list_lookup_fmap, Hi.
Qed.
End fair.

(** ** The balancer interface *)
Section laws.
Context {E : Type} `{WeightedEndpoint E}.
Implicit Types (b : WeightedRoundRobinBalancer E).

Lemma items_increase_and_pick (l : list (LbItem E)) idx bi bw :
  item <$> (increase_and_pick l idx bi bw).1 = item <$> l.
Proof.
  pose proof (increase_and_pick_spec l idx bi bw) as Hp.
  destruct (increase_and_pick l idx bi bw) as [l' b]. destruct Hp as [-> _]. simpl.
  by rewrite <-list_fmap_compose.
Qed.

(** A request changes neither the items nor the bound on the index. *)
Lemma wrr_next_item_items b :
  item <$> items (wrr_next_item b).2 = item <$> items b /\
  ((current_index b < length (items b))%nat ->
   (current_index (wrr_next_item b).2 < length (items b))%nat).
Proof.
  unfold wrr_next_item. destruct (equal_weight b).
  { case_bool_decide; simpl; [done|]. split; [done|]. intros _. apply Nat.mod_upper_bound. lia. }
  case_bool_decide; simpl; [done|].
  pose proof (items_increase_and_pick (items b) 0 0 Int.i32_min) as Hi.
  destruct (increase_and_pick _ _ _ _) as [l best]. simpl in Hi.
  destruct (l !! best) as [it|] eqn:Hb; simpl; [|done]. split; [|done].
  rewrite list_fmap_insert. simpl. rewrite list_insert_id; [done|]. by rewrite list_lookup_fmap, Hb.
Qed.

Lemma wrr_next_item_elem b e :
  (wrr_next_item b).1 = Some e -> e ∈ item <$> items b.
Proof.
  assert (item <$> head (items b) = Some e -> e ∈ item <$> items b) as Hhead.
  { destruct (items b); intros [= <-]. set_solver. }
  unfold wrr_next_item. destruct (equal_weight b); case_bool_decide; simpl; auto.
  - intros (it & Hit & ->)%fmap_Some. apply list_elem_of_lookup_2 in Hit. by apply list_elem_of_fmap_2.
  - pose proof (items_increase_and_pick (items b) 0 0 Int.i32_min) as Hi.
    destruct (increase_and_pick _ _ _ _) as [l best]. simpl in Hi.
    destruct (l !! best) as [it|] eqn:Hb; simpl; [|done]. intros [= <-].
    rewrite <-Hi. apply list_elem_of_fmap_2. by apply list_elem_of_lookup_2 in Hb.
Qed.

Lemma wrr_next_item_is_Some b :
  items b <> [] -> (current_index b < length (items b))%nat -> is_Some (wrr_next_item b).1.
Proof.
  intros Hne Hci.
  assert (is_Some (item <$> head (items b))) as Hhead by (destruct (items b); [done|by eexists]).
  unfold wrr_next_item. destruct (equal_weight b); case_bool_decide as Hlen; simpl; [done| |done|].
  - apply lookup_lt_is_Some_2 in Hci as [it ->]. by eexists.
  - pose proof (increase_and_pick_spec (items b) 0 0 Int.i32_min) as Hp.
    destruct (increase_and_pick _ _ _ _) as [l best]. destruct Hp as [-> Hp].
    assert (is_Some ((increase_current_weight <$> items b) !! best)) as [it ->]; [|by eexists].
    destruct Hp as [[-> _]|(it & _ & Hb & _)].
    + apply lookup_lt_is_Some_2. rewrite length_fmap. lia.
    + rewrite Nat.sub_0_r in Hb. by eexists.
Qed.

Definition wrr_serves b (l : list E) : Prop :=
  (item <$> items b) `prefix_of` l /\
  (items b <> [] -> (current_index b < length (items b))%nat) /\
  (l <> [] -> Forall (fun e => Int.is_u32 (endpoint_weight e)) l -> items b <> []).

Lemma wrr_serves_from_iter l : wrr_serves (wrr_from_iter l) l.
Proof.
  unfold wrr_serves, wrr_from_iter, wrr_new.
  set (its := (fun e => LbItem_new (endpoint_weight e) e) <$> l).
  pose proof (collect_checked_prefix its 0 None true) as Hc.
  destruct (collect_checked its 0 None true) as [[l' total] equal] eqn:Hcol.
  destruct Hc as (Hp & -> & _ & _). simpl. split_and!.
  - destruct Hp as [rest Hp]. exists (item <$> rest). rewrite <-fmap_app, <-Hp. unfold its.
    rewrite <-list_fmap_compose. symmetry. apply list_fmap_id.
  - intros Hne. destruct l'; [done|]. simpl. lia.
  - destruct l as [|e l]; [done|]. intros _ [Hw _]%Forall_cons ->. simpl in Hcol.
    unfold Int.checked_add_u32 in Hcol. unfold Int.is_u32 in Hw.
    rewrite (proj2 (Z.leb_le _ _)) in Hcol by lia. by destruct (collect_checked _ _ _ _) as [[? ?] ?].
Qed.

Lemma wrr_serves_next b l : wrr_serves b l -> wrr_serves (wrr_next_item b).2 l.
Proof.
  destruct (wrr_next_item_items b) as [Hit Hci]. intros (Hp & Hidx & Hne). unfold wrr_serves.
  rewrite Hit. assert (length (items (wrr_next_item b).2) = length (items b)) as Hlen.
  { rewrite <-(length_fmap item), Hit. by rewrite length_fmap. }
  assert (items (wrr_next_item b).2 = [] <-> items b = []) as Hnil.
  { rewrite <-!length_zero_iff_nil. by rewrite Hlen. }
  rewrite Hlen. split_and!; [done| |].
  - rewrite Hnil. auto.
  - rewrite Hnil. auto.
Qed.
End laws.

#[global] Program Instance wrr_laws {E} `{WeightedEndpoint E} :
  BalancerLaws (WeightedRoundRobinBalancer E) E := {| serves := wrr_serves |}.
Next Obligation. intros E ? l. apply wrr_serves_from_iter. Qed.
Next Obligation. intros E ?. apply wrr_serves_from_iter. Qed.
Next Obligation. intros E ? b l h. apply wrr_serves_next. Qed.
Next Obligation.
  intros E ? b l h e (Hp & _) He. apply wrr_next_item_elem in He.
  destruct Hp as [rest ->]. set_solver.
Qed.

#[global] Instance wrr_answers {E} `{WeightedEndpoint E} :
  BalancerAnswers (WeightedRoundRobinBalancer E) E.
Proof. intros b l h (_ & Hidx & Hne) Hl Hw. apply wrr_next_item_is_Some; auto. Qed.

(** ** The promises of the balancer *)
Section spec.
Context {E : Type} `{WeightedEndpoint E, EqDecision E}.

Definition total_endpoint_weight (l : list E) : Z := zsum (endpoint_weight <$> l).

Notation fresh_items l := ((fun e => LbItem_new (endpoint_weight e) e) <$> l).

Lemma sum_fresh_items (l : list E) : sum_weights (fresh_items l) = total_endpoint_weight l.
Proof. unfold sum_weights, total_endpoint_weight. by rewrite <-list_fmap_compose. Qed.

Lemma item_fresh_items (l : list E) : item <$> fresh_items l = l.
Proof. rewrite <-list_fmap_compose. apply list_fmap_id. Qed.

Lemma elem_of_fresh (l : list E) e : e ∈ l -> LbItem_new (endpoint_weight e) e ∈ fresh_items l.
Proof. exact (list_elem_of_fmap_2 (fun e => LbItem_new (endpoint_weight e) e) l e). Qed.

Lemma wrr_from_iter_fits e (l : list E) :
  Forall (fun e => 0 <= endpoint_weight e) (e :: l) ->
  total_endpoint_weight (e :: l) <= Int.u32_max ->
  wrr_from_iter (e :: l) =
  mk_wrr (fresh_items (e :: l)) (to_i32 (total_endpoint_weight (e :: l)))
    (all_weights (endpoint_weight e) (fresh_items l)) 0.
Proof.
  intros Hw Hsum. unfold wrr_from_iter, wrr_new.
  pose proof (collect_checked_first (LbItem_new (endpoint_weight e) e) (fresh_items l)) as Hc.
  change (LbItem_new (endpoint_weight e) e :: fresh_items l) with (fresh_items (e :: l)) in Hc.
  rewrite sum_fresh_items in Hc. rewrite Hc; [done|by rewrite Forall_fmap|done].
Qed.

(** C5: Weighted round robin is fair and periodic.  If the weights are not all
    the same, then over as many requests as the total weight every endpoint is
    the answer exactly as often as its weight says, and the balancer is back in
    its initial state.  The product of the number of endpoints and the total
    weight must fit in an [i32], so that no counter saturates. *)
Theorem wrr_fair (l : list E) e1 e2 :
  NoDup l -> Forall (fun e => 0 <= endpoint_weight e) l ->
  e1 ∈ l -> e2 ∈ l -> endpoint_weight e1 <> endpoint_weight e2 ->
  Z.of_nat (length l) * total_endpoint_weight l <= Int.i32_max ->
  let '(answers, b) := requests (Z.to_nat (total_endpoint_weight l)) (wrr_from_iter l) in
  b = wrr_from_iter l /\
  forall e, e ∈ l -> Z.of_nat (times e answers) = endpoint_weight e.
Proof.
  intros Hnd Hw He1 He2 Hne Hsat.
  destruct l as [|e0 l]; [set_solver|].
  assert (Forall (fun it => 0 <= weight it) (fresh_items (e0 :: l))) as Hw' by (by rewrite Forall_fmap).
  assert (0 < total_endpoint_weight (e0 :: l)) as Hpos.
  { pose proof (fun e He => weight_le_total (fresh_items (e0 :: l)) Hw' _
      (elem_of_fresh _ e He)) as Hle. simpl in Hle. rewrite <-sum_fresh_items.
    pose proof (Hle e1 He1). pose proof (Hle e2 He2). simpl in *. lia. }
  assert (total_endpoint_weight (e0 :: l) <= Int.i32_max) as Hi32 by (simpl in Hsat; nia).
  rewrite wrr_from_iter_fits by (done || unfold Int.i32_max, Int.u32_max in *; lia).
  rewrite to_i32_small by done.
  assert (all_weights (endpoint_weight e0) (fresh_items l) = false) as ->.
  { apply not_true_iff_false. intros Hall. unfold all_weights in Hall. rewrite forallb_forall in Hall.
    assert (forall e, e ∈ e0 :: l -> endpoint_weight e = endpoint_weight e0) as Hsame.
    { intros e [->|He]%elem_of_cons; [done|].
      specialize (Hall (LbItem_new (endpoint_weight e) e)). rewrite <-list_elem_of_In, Z.eqb_eq in Hall.
      symmetry. apply Hall. by apply elem_of_fresh. }
    apply Hne. rewrite (Hsame e1), (Hsame e2); done. }
  destruct l as [|e l]; [set_solver|].
  destruct (wrr_period (fresh_items (e0 :: e :: l))) as [Hstate Htimes];
    rewrite ?sum_fresh_items, ?length_fmap, ?item_fresh_items in *;
    [done..|by apply Forall_fmap, Forall_true|simpl; lia|].
  destruct (requests _ _) as [answers b]. split; [done|].
  intros e' He'. exact (Htimes _ (elem_of_fresh _ e' He')).
Qed.

Lemma wrr_equal_run (its : list (LbItem E)) W k :
  (2 <= length its)%nat -> (k <= length its)%nat ->
  requests k (mk_wrr its W true 0) =
  (Some <$> take k (item <$> its), mk_wrr its W true (k mod length its)%nat).
Proof.
  intros H2. induction k as [|k IH]; intros Hk.
  { simpl. by rewrite Nat.mod_0_l by lia. }
  rewrite requests_S, IH by lia. unfold next_item, wrr_balancer, wrr_next_item. simpl.
  rewrite bool_decide_false by lia. rewrite (Nat.mod_small k) by lia.
  destruct (lookup_lt_is_Some_2 its k) as [it Hit]; [lia|]. rewrite Hit. simpl.
  rewrite (take_S_r _ k (item it)) by (by rewrite list_lookup_fmap, Hit).
  by rewrite fmap_app, Nat.add_1_r.
Qed.

(** With equal weights the answers of one round are the endpoints in their
    order, each once, and the balancer is back in its initial state. *)
Theorem wrr_round_robin (l : list E) w :
  Forall (fun e => endpoint_weight e = w) l -> 0 <= w ->
  Z.of_nat (length l) * w <= Int.u32_max ->
  requests (length l) (wrr_from_iter l) = (Some <$> l, wrr_from_iter l).
Proof.
  intros Hall Hw Hfit. destruct l as [|e l]; [done|].
  assert (total_endpoint_weight (e :: l) = Z.of_nat (length (e :: l)) * w) as Htotal.
  { clear Hfit. induction Hall as [|x l' Hx Hl IH]; [done|].
    change (endpoint_weight x + total_endpoint_weight l' = Z.of_nat (S (length l')) * w). lia. }
  rewrite wrr_from_iter_fits.
  2: { eapply Forall_impl; [exact Hall|]. simpl. lia. }
  2: { by rewrite Htotal. }
  assert (all_weights (endpoint_weight e) (fresh_items l) = true) as ->.
  { apply forallb_forall. intros it Hit%list_elem_of_In.
    apply list_elem_of_fmap in Hit as (e' & -> & He'). apply Z.eqb_eq. simpl.
    rewrite Forall_forall in Hall. by rewrite (Hall e), (Hall e') by set_solver. }
  destruct l as [|e' l]; [done|].
  pose proof (wrr_equal_run (fresh_items (e :: e' :: l)) (to_i32 (total_endpoint_weight (e :: e' :: l)))
    (length (e :: e' :: l))) as Hrun.
  rewrite item_fresh_items, length_fmap, Nat.Div0.mod_same in Hrun.
  rewrite Hrun by (simpl; lia). by rewrite take_ge by done.
Qed.
End spec.

(** ** Witnesses *)
Definition ex_weight : WeightedEndpoint Z := fun e => e.

(** Endpoints of weights 5, 1 and 2: eight requests. *)
Lemma wrr_fair_witness :
  let '(answers, b) := requests 8 (wrr_from_iter (H := ex_weight) [5; 1; 2]) in
  b = wrr_from_iter (H := ex_weight) [5; 1; 2] /\
  forall e, e ∈ [5; 1; 2] -> Z.of_nat (times e answers) = e.
Proof.
  apply (wrr_fair (H := ex_weight) [5; 1; 2] 5 1).
  - by apply (bool_decide_unpack _).
  - by repeat constructor.
  - set_solver.
  - set_solver.
  - done.
  - done.
Defined.

Definition ex_unit_weight : WeightedEndpoint Z := fun _ => 1.

Lemma wrr_round_robin_witness :
  requests 3 (wrr_from_iter (H := ex_unit_weight) [7; 8; 9]) =
  ([Some 7; Some 8; Some 9], wrr_from_iter (H := ex_unit_weight) [7; 8; 9]).
Proof.
  apply (wrr_round_robin (H := ex_unit_weight) [7; 8; 9] 1); [by repeat constructor|done|done].
Defined.
End Wrr.
