(* ===== verification/Health.v ===== *)
(** Health of endpoints (arion-lib/src/clusters/health): the status and its
    updates, the counter that applies the thresholds, the protocol checkers'
    verdicts and the loop that runs the checks. *)

From S2P Require Import Prelude.
Local Open Scope Z_scope.

Module Health.

(** ** Status *)

Inductive HealthStatus : Type := Healthy | Unhealthy.

#[export] Instance HealthStatus_eq_dec : EqDecision HealthStatus.
Proof. solve_decision. Defined.

(** [#[default] Healthy]. *)
#[export] Instance HealthStatus_default : Inhabited HealthStatus := populate Healthy.

Inductive ValueUpdated : Type := Updated | NotUpdated.

#[export] Instance ValueUpdated_eq_dec : EqDecision ValueUpdated.
Proof. solve_decision. Defined.

Definition is_healthy (s : HealthStatus) : bool := bool_decide (s = Healthy).

(** [impl EndpointHealth for HealthStatus]: the new status and whether it changed. *)
Definition update_health (self health : HealthStatus) : HealthStatus * ValueUpdated :=
  if bool_decide (self = health) then (self, NotUpdated) else (health, Updated).

(** ** The counter *)

Record HealthStatusCounter : Type := mk_counter {
  status : option HealthStatus;
  checks : Z;
  healthy_threshold : Z;
  unhealthy_threshold : Z;
}.

(** The thresholds are [u16]; the unhealthy one is kept negated. *)
Definition counter_new (healthy unhealthy : Z) : HealthStatusCounter :=
  mk_counter None 0 healthy (- unhealthy).

Definition set_checks (c : HealthStatusCounter) (n : Z) : HealthStatusCounter :=
  mk_counter (status c) n (healthy_threshold c) (unhealthy_threshold c).

Definition counter_update (c : HealthStatusCounter) (new_status : HealthStatus)
    : HealthStatusCounter * option HealthStatus :=
  let c := if bool_decide (Some new_status <> status c)
           then mk_counter (Some new_status) (checks c) (healthy_threshold c) (unhealthy_threshold c)
           else c in
  (c, status c).

Definition add_success (c : HealthStatusCounter) : HealthStatusCounter * option HealthStatus :=
  let c := if checks c <? 0 then set_checks c 0 else c in
  let c := if checks c <? healthy_threshold c then set_checks c (checks c + 1) else c in
  match status c with
  | None => counter_update c Healthy
  | Some Healthy => (c, None)
  | Some Unhealthy =>
    if healthy_threshold c <=? checks c then counter_update c Healthy else (c, None)
  end.

Definition add_failure_impl (ignore_threshold : bool) (c : HealthStatusCounter)
    : HealthStatusCounter * option HealthStatus :=
  let c := if 0 <? checks c then set_checks c 0 else c in
  let c := if unhealthy_threshold c <? checks c then set_checks c (checks c - 1) else c in
  match status c with
  | None => counter_update c Unhealthy
  | Some Unhealthy => (c, None)
  | Some Healthy =>
    if ignore_threshold || (checks c <=? unhealthy_threshold c)
    then counter_update c Unhealthy else (c, None)
  end.

Definition add_failure : HealthStatusCounter -> HealthStatusCounter * option HealthStatus :=
  add_failure_impl false.
Definition add_failure_ignore_threshold : HealthStatusCounter -> HealthStatusCounter * option HealthStatus :=
  add_failure_impl true.

(** ** Verdicts of the protocol checkers *)

(** A range of [u16], its end excluded. *)
Definition status_in_ranges (ranges : list (Z * Z)) (code : Z) : bool :=
  existsb (fun '(lo, hi) => (lo <=? code) && (code <? hi)) ranges.

Record HttpChecker : Type := mk_http_checker {
  expected_statuses : list (Z * Z);
  retriable_statuses : list (Z * Z);
}.

Definition http_process_response (checker : HttpChecker) (c : HealthStatusCounter) (status_code : Z)
    : HealthStatusCounter * option HealthStatus :=
  let default_expectation := bool_decide (expected_statuses checker = []) && (status_code =? 200) in
  if default_expectation || status_in_ranges (expected_statuses checker) status_code then add_success c
  else if status_in_ranges (retriable_statuses checker) status_code then add_failure c
  else add_failure_ignore_threshold c.

Definition tcp_process_response (c : HealthStatusCounter) (response : unit)
    : HealthStatusCounter * option HealthStatus := add_success c.

Inductive ServingStatus : Type := Unknown | Serving | NotServing | ServiceUnknown.

Definition grpc_process_response (c : HealthStatusCounter) (s : ServingStatus)
    : HealthStatusCounter * option HealthStatus :=
  match s with
  | Unknown | NotServing | ServiceUnknown => add_failure c
  | Serving => add_success c
  end.

(** ** The loop *)

(** [HealthCheckResult]; an error carries a message. *)
Inductive HealthCheckResult (Response : Type) : Type :=
  | CheckResponse (response : result str Response)
  | Timeout
  | Cancelled.
Arguments CheckResponse {Response} _.
Arguments Timeout {Response}.
Arguments Cancelled {Response}.

(** [EndpointHealthUpdate], without the endpoint, which the loop never changes. *)
Record EndpointHealthUpdate : Type := mk_update {
  update_status : HealthStatus;
  changed : bool;
}.

Inductive CurrentHealthStatus : Type :=
  | Unchanged (s : option HealthStatus)
  | Edge (s : HealthStatus).

Section loop.
Context {Response : Type}.
Context (process_response : HealthStatusCounter -> Response -> HealthStatusCounter * option HealthStatus).

(** One turn of the loop of [HealthCheckerLoop::run] up to the wait: the
    counter, the update sent and what the wait is told; [None] if the check was
    cancelled. *)
Definition check_turn (c : HealthStatusCounter) (check_result : HealthCheckResult Response)
    : option (HealthStatusCounter * EndpointHealthUpdate * CurrentHealthStatus) :=
  let send '(c, change) :=
    Some (c, mk_update (default Healthy (status c)) (bool_decide (is_Some change)),
          match change with Some s => Edge s | None => Unchanged (status c) end) in
  match check_result with
  | Timeout => send (add_failure c)
  | CheckResponse (Err _) => send (add_failure c)
  | CheckResponse (Ok response) => send (process_response c response)
  | Cancelled => None
  end.

(** The loop against the results of the checks and, for each, whether the wait
    that follows is cancelled: the updates sent. *)
Fixpoint run_checks (c : HealthStatusCounter) (script : list (HealthCheckResult Response * bool))
    : list EndpointHealthUpdate :=
  match script with
  | [] => []
  | (check_result, wait_cancelled) :: script =>
    match check_turn c check_result with
    | None => []
    | Some (c, update, _) => update :: (if wait_cancelled then [] else run_checks c script)
    end
  end.

(** [HealthCheckerLoop::run]. *)
Definition run (healthy unhealthy : Z) (jitter_cancelled : bool)
    (script : list (HealthCheckResult Response * bool)) : list EndpointHealthUpdate :=
  if jitter_cancelled then [] else run_checks (counter_new healthy unhealthy) script.
End loop.

(** ** Intervals *)

(** Durations in nanoseconds; the jitter percentage is an [f32]. *)
Record ClusterHealthCheck (F32 : Type) : Type := mk_health_check {
  interval : Z;
  interval_jitter : option Z;
  interval_jitter_percent : F32;
  unhealthy_interval : option Z;
  unhealthy_edge_interval : option Z;
  healthy_edge_interval : option Z;
}.
Arguments interval {F32} _.
Arguments interval_jitter {F32} _.
Arguments interval_jitter_percent {F32} _.
Arguments unhealthy_interval {F32} _.
Arguments unhealthy_edge_interval {F32} _.
Arguments healthy_edge_interval {F32} _.

(** The wait of [IntervalWaiter]; [mul_f32] is [Duration::mul_f32]. *)
Definition wait_interval {F32} (mul_f32 : Z -> F32 -> Z) (config : ClusterHealthCheck F32)
    (s : CurrentHealthStatus) : Z :=
  let base :=
    match s with
    | Edge Healthy => default (interval config) (healthy_edge_interval config)
    | Edge Unhealthy => default (interval config) (unhealthy_edge_interval config)
    | Unchanged (Some Unhealthy) => default (interval config) (unhealthy_interval config)
    | Unchanged _ => interval config
    end in
  let base := base + default 0 (interval_jitter config) in
  base + mul_f32 base (interval_jitter_percent config).
End Health.
