(* ===== verification/HealthSpec.v ===== *)
(** What the health counter and the check loop promise: the status follows
    from the lengths of the runs of successes and failures, and the updates flag
    exactly the changes. *)

From S2P Require Import Prelude Health.
Import Health.
Local Open Scope Z_scope.

Module HealthSpec.

Inductive check : Type := Success | Failure | FatalFailure.

#[export] Instance check_eq_dec : EqDecision check.
Proof. solve_decision. Defined.

Definition apply_check (c : HealthStatusCounter) (k : check) : HealthStatusCounter * option HealthStatus :=
  match k with
  | Success => add_success c
  | Failure => add_failure c
  | FatalFailure => add_failure_ignore_threshold c
  end.

(** The counter after a history, the latest check first. *)
Definition counter_after (healthy unhealthy : Z) (history : list check) : HealthStatusCounter :=
  foldr (fun k c => (apply_check c k).1) (counter_new healthy unhealthy) history.

Definition failed (k : check) : bool := negb (bool_decide (k = Success)).

(** The length of the latest run of checks that failed, or did not. *)
Fixpoint latest_run (f : bool) (history : list check) : Z :=
  match history with
  | [] => 0
  | k :: history => if Bool.eqb (failed k) f then 1 + latest_run f history else 0
  end.

(** The status after one more check, from the runs. *)
Definition next_status (healthy unhealthy : Z) (before : option HealthStatus) (k : check)
    (history : list check) : HealthStatus :=
  match before with
  | None => if failed k then Unhealthy else Healthy
  | Some Healthy =>
    match k with
    | Success => Healthy
    | Failure => if unhealthy <=? latest_run true (k :: history) then Unhealthy else Healthy
    | FatalFailure => Unhealthy
    end
  | Some Unhealthy =>
    match k with
    | Success => if healthy <=? latest_run false (k :: history) then Healthy else Unhealthy
    | _ => Unhealthy
    end
  end.

Section counter.
Context (healthy unhealthy : Z).
Hypothesis healthy_u16 : Int.is_u16 healthy.
Hypothesis unhealthy_u16 : Int.is_u16 unhealthy.

Lemma latest_run_nonneg f history : 0 <= latest_run f history.
Proof. induction history as [|k h IH]; simpl; [lia|]. destruct (Bool.eqb _ _); lia. Qed.

(** The counter holds the latest run, capped at its threshold, failures
    negated. *)
Definition capped_run (history : list check) : Z :=
  Z.min healthy (latest_run false history) - Z.min unhealthy (latest_run true history).

Record counter_inv (history : list check) (c : HealthStatusCounter) : Prop := {
  inv_healthy : healthy_threshold c = healthy;
  inv_unhealthy : unhealthy_threshold c = - unhealthy;
  inv_checks : checks c = capped_run history;
}.

Lemma one_run_only history : latest_run false history = 0 \/ latest_run true history = 0.
Proof. destruct history as [|k h]; [by left|]. simpl. destruct (failed k); simpl; auto. Qed.

(** How a check moves the counter. *)
Definition counted (k : check) (c : HealthStatusCounter) : HealthStatusCounter :=
  if failed k then
    let c := if 0 <? checks c then set_checks c 0 else c in
    if unhealthy_threshold c <? checks c then set_checks c (checks c - 1) else c
  else
    let c := if checks c <? 0 then set_checks c 0 else c in
    if checks c <? healthy_threshold c then set_checks c (checks c + 1) else c.

Lemma counted_inv history k c :
  counter_inv history c -> counter_inv (k :: history) (counted k c) /\ status (counted k c) = status c.
Proof.
  intros [Hh Hu Hc]. pose proof (latest_run_nonneg false history). pose proof (latest_run_nonneg true history).
  pose proof (one_run_only history). unfold Int.is_u16 in *. unfold counted, capped_run in *.
  destruct c as [st n h u]. simpl in *. subst h u.
  destruct (failed k) eqn:Hk; simpl.
  - destruct (Z.ltb_spec 0 n); simpl; (case_match eqn:Hlt; simpl; rewrite ?Z.ltb_lt, ?Z.ltb_ge in Hlt);
      (split; [split; simpl|]; try done; unfold capped_run; simpl; rewrite Hk; simpl; lia).
  - destruct (Z.ltb_spec n 0); simpl; (case_match eqn:Hlt; simpl; rewrite ?Z.ltb_lt, ?Z.ltb_ge in Hlt);
      (split; [split; simpl|]; try done; unfold capped_run; simpl; rewrite Hk; simpl; lia).
Qed.

(** Only the status can differ from the moved counter. *)
Lemma apply_check_counted c k :
  let c' := counted k c in
  let st := match status c' with
            | None => if failed k then Unhealthy else Healthy
            | Some Healthy =>
              match k with
              | Success => Healthy
              | Failure => if checks c' <=? unhealthy_threshold c' then Unhealthy else Healthy
              | FatalFailure => Unhealthy
              end
            | Some Unhealthy =>
              match k with
              | Success => if healthy_threshold c' <=? checks c' then Healthy else Unhealthy
              | _ => Unhealthy
              end
            end in
  apply_check c k =
  (mk_counter (Some st) (checks c') (healthy_threshold c') (unhealthy_threshold c'),
   if decide (status c' = Some st) then None else Some st).
Proof.
  destruct k; simpl; unfold add_success, add_failure, add_failure_ignore_threshold, add_failure_impl, counted; simpl;
    [destruct (checks c <? 0)|destruct (0 <? checks c)..]; simpl;
    [destruct (_ <? healthy_threshold c)|destruct (_ <? healthy_threshold c)
    |destruct (unhealthy_threshold c <? _)..]; destruct c as [[[]|] n h u]; simpl;
    unfold counter_update; simpl; try (destruct (_ <=? _)); simpl; done.
Qed.

Lemma apply_check_inv history c k :
  counter_inv history c ->
  counter_inv (k :: history) (apply_check c k).1 /\
  status (apply_check c k).1 = Some (next_status healthy unhealthy (status c) k history) /\
  (apply_check c k).2 =
    if decide (status c = status (apply_check c k).1) then None else status (apply_check c k).1.
Proof.
  intros Hinv. destruct (counted_inv history k c Hinv) as [[Hh Hu Hc] Hst].
  pose proof (latest_run_nonneg false history). pose proof (latest_run_nonneg true history).
  pose proof (apply_check_counted c k) as ->. simpl. rewrite Hst, Hh, Hu, Hc.
  unfold Int.is_u16 in *. split_and!; [by split| |done]. f_equal. unfold next_status, capped_run. 
  destruct (status c) as [[]|]; [|..|done]; destruct k; try done; simpl;
    repeat match goal with |- context [?a <=? ?b] => destruct (Z.leb_spec a b) end; done || lia.
Qed.

Lemma counter_after_inv history : counter_inv history (counter_after healthy unhealthy history).
Proof.
  induction history as [|k history IH]; simpl.
  - split; [done..|]. unfold capped_run, Int.is_u16 in *. simpl. lia.
  - by apply apply_check_inv.
Qed.

(** C9: The status of an endpoint follows from its history: the first check
    decides it at once; a healthy endpoint becomes unhealthy exactly at a fatal
    failure or when the latest failures in a row reach the unhealthy threshold,
    and an unhealthy one becomes healthy exactly when the latest successes in a
    row reach the healthy threshold.  The counter stays between the thresholds. *)
Theorem status_follows_history k history :
  let before := counter_after healthy unhealthy history in
  let after := counter_after healthy unhealthy (k :: history) in
  status after = Some (next_status healthy unhealthy (status before) k history) /\
  - unhealthy <= checks after <= healthy.
Proof.
  simpl. pose proof (counter_after_inv history) as Hinv.
  destruct (apply_check_inv history _ k Hinv) as ([_ _ Hc] & -> & _). split; [done|].
  rewrite Hc. unfold capped_run, Int.is_u16 in *.
  pose proof (latest_run_nonneg false (k :: history)). pose proof (latest_run_nonneg true (k :: history)).
  lia.
Qed.

(** ** The loop *)
Context {Response : Type}.
Context (process_response : HealthStatusCounter -> Response -> HealthStatusCounter * option HealthStatus).
Context (verdict : Response -> check).
Hypothesis process_verdict : forall c r, process_response c r = apply_check c (verdict r).

(** Each update of a run, given the status before it. *)
Fixpoint flags_changes (before : option HealthStatus) (updates : list EndpointHealthUpdate) : Prop :=
  match updates with
  | [] => True
  | u :: updates =>
    (changed u = true <-> before <> Some (update_status u)) /\
    flags_changes (Some (update_status u)) updates
  end.

Lemma check_turn_update history c r :
  counter_inv history c ->
  match check_turn process_response c r with
  | None => r = Cancelled
  | Some (c', u, s) =>
    exists k, c' = (apply_check c k).1 /\ counter_inv (k :: history) c' /\
      status c' = Some (update_status u) /\ (changed u = true <-> status c <> status c') /\
      s = if changed u then Edge (update_status u) else Unchanged (status c')
  end.
Proof.
  intros Hinv.
  assert (forall k, let '(c', change) := apply_check c k in
    c' = (apply_check c k).1 /\ counter_inv (k :: history) c' /\
    status c' = Some (default Healthy (status c')) /\
    (bool_decide (is_Some change) = true <-> status c <> status c') /\
    match change with Some s => Edge s | None => Unchanged (status c') end =
    if bool_decide (is_Some change) then Edge (default Healthy (status c')) else Unchanged (status c')) as Hk.
  { intros k. destruct (apply_check_inv history c k Hinv) as (Hinv' & Hst & Hch).
    destruct (apply_check c k) as [c' change]. simpl in *. rewrite Hst in *. subst change.
    split_and!; [done..| |]; case_decide; simpl; naive_solver. }
  destruct r as [[r|e]| |]; simpl; [|..|done].
  - rewrite process_verdict. specialize (Hk (verdict r)). destruct (apply_check c _) as [c' ch] eqn:E.
    exists (verdict r). by rewrite E.
  - specialize (Hk Failure). simpl in Hk. destruct (add_failure c) as [c' ch] eqn:E.
    exists Failure. simpl. by rewrite E.
  - specialize (Hk Failure). simpl in Hk. destruct (add_failure c) as [c' ch] eqn:E.
    exists Failure. simpl. by rewrite E.
Qed.

Lemma run_checks_flags history c script :
  counter_inv history c -> flags_changes (status c) (run_checks process_response c script).
Proof.
  revert history c. induction script as [|[r w] script IH]; intros history c Hinv; [done|]. simpl.
  pose proof (check_turn_update history c r Hinv) as Hturn.
  destruct (check_turn _ c r) as [[[c' u] s]|]; [|done].
  destruct Hturn as (k & -> & Hinv' & Hst & Hch & _). rewrite Hst in Hch. split; [done|].
  destruct w; [done|]. rewrite <-Hst. eauto.
Qed.

(** The check loop reports the status after every check and flags an
    update as a change exactly when the status differs from that of the update
    before it; the first update is a change.  This holds for every sequence of
    responses, errors, timeouts and cancellations, so a consumer that only
    looks at the changes has the current status. *)
Theorem run_flags_changes jitter_cancelled script :
  flags_changes None (run process_response healthy unhealthy jitter_cancelled script).
Proof.
  unfold run. destruct jitter_cancelled; [done|].
  apply (run_checks_flags [] (counter_new healthy unhealthy)). apply (counter_after_inv []).
Qed.
End counter.

(** The verdicts of the three protocols. *)
Definition http_verdict (checker : HttpChecker) (code : Z) : check :=
  if (bool_decide (expected_statuses checker = []) && (code =? 200)) ||
     status_in_ranges (expected_statuses checker) code then Success
  else if status_in_ranges (retriable_statuses checker) code then Failure
  else FatalFailure.

Lemma http_process_verdict checker c code :
  http_process_response checker c code = apply_check c (http_verdict checker code).
Proof. unfold http_process_response, http_verdict. by repeat case_match. Qed.

(** ** Witnesses *)

(** Two failures in a row with threshold two, after a success. *)
Lemma status_follows_history_witness :
  status (counter_after 3 2 [Failure; Failure; Success]) = Some Unhealthy /\
  -2 <= checks (counter_after 3 2 [Failure; Failure; Success]) <= 3.
Proof.
  apply (status_follows_history 3 2 ltac:(done) ltac:(done) Failure [Failure; Success]).
Defined.

Definition ex_checker : HttpChecker := mk_http_checker [(200, 300)] [(500, 504)].

Lemma run_flags_changes_witness :
  flags_changes None (run (http_process_response ex_checker) 3 2 false
    [(CheckResponse (Ok 200), false); (CheckResponse (Ok 503), false); (Timeout, false); (CheckResponse (Ok 200), true)])
  /\ run (http_process_response ex_checker) 3 2 false
    [(CheckResponse (Ok 200), false); (CheckResponse (Ok 503), false); (Timeout, false); (CheckResponse (Ok 200), true)]
  = [mk_update Healthy true; mk_update Healthy false; mk_update Unhealthy true; mk_update Unhealthy false].
Proof.
  split; [|by vm_compute].
  apply (run_flags_changes 3 2 ltac:(done) ltac:(done) (http_process_response ex_checker)
    (http_verdict ex_checker)). intros c r. apply http_process_verdict.
Defined.
End HealthSpec.
