(* ===== verification/TcpPayload.v ===== *)
(** The payload matcher of the TCP health checker
    (arion-lib/src/clusters/health/checkers/tcp/mod.rs). *)

From S2P Require Import Prelude.

Module TcpPayload.

Notation bytes := (list Ascii.ascii).

(** A stream is what its reads will deliver: a read of [n] bytes returns at
    most the first chunk, and nothing at the end. *)
Definition stream : Type := list bytes.

Definition stream_read (n : nat) (s : stream) : bytes * stream :=
  match s with
  | [] => ([], [])
  | c :: s => (take n c, if bool_decide (length c <= n) then s else drop n c :: s)
  end.

(** [AsyncReadExt::read_exact]: reads until the buffer is full, fails at the
    end of the stream. *)
Fixpoint stream_read_exact (n : nat) (s : stream) : option (bytes * stream) :=
  match s with
  | [] => if bool_decide (n = 0) then Some ([], []) else None
  | c :: s' =>
    if bool_decide (n = 0) then Some ([], s)
    else if bool_decide (c = []) then None
    else if bool_decide (n <= length c) then Some (stream_read n s)
    else '(rest, s') ← stream_read_exact (n - length c) s'; Some (c ++ rest, s')
  end.

Inductive PayloadError : Type :=
  | BufferTooBig
  | EndOfStream.

Section matcher.
Context (MAX_PAYLOAD_BUFFER_SIZE : nat).
Context (payloads : list bytes).

(** The state of [PayloadMatcher]. *)
Record PayloadMatcher : Type := mk_matcher {
  buffer : bytes;
  source : stream;
}.

Definition payload_size : nat := foldr plus 0 (length <$> payloads).

(** [windows(len).position(|window| window == payload)]. *)
Definition position (payload buf : bytes) : option nat :=
  find (λ i, bool_decide (take (length payload) (drop i buf) = payload))
    (seq 0 (S (length buf) - length payload)).

(** The loop of [matches]. *)
Fixpoint matches_from (buf : bytes) (index : nat) (ps : list bytes) : bool :=
  match ps with
  | [] => true
  | [] :: ps => matches_from buf index ps
  | payload :: ps =>
    if bool_decide (index <= length buf) then
      match position payload (drop index buf) with
      | None => false
      | Some payload_index => matches_from buf (index + payload_index) ps
      end
    else false
  end.

Definition matches (m : PayloadMatcher) : bool := matches_from (buffer m) 0 payloads.

Definition recv_at_most (m : PayloadMatcher) (bytes_to_read : Z) : result PayloadError PayloadMatcher :=
  let prev_size := length (buffer m) in
  if bool_decide (MAX_PAYLOAD_BUFFER_SIZE <= prev_size) || (bytes_to_read =? 0)%Z
  then Err BufferTooBig
  else
    let available_space := MAX_PAYLOAD_BUFFER_SIZE - prev_size in
    let to_read := Z.to_nat (Z.min bytes_to_read (Z.of_nat available_space)) in
    let '(received, s) := stream_read to_read (source m) in
    if bool_decide (length received = 0) then Err EndOfStream
    else Ok (mk_matcher (buffer m ++ received) s).

Definition recv_exact (m : PayloadMatcher) (bytes_to_read : nat) : result PayloadError PayloadMatcher :=
  if bool_decide (bytes_to_read = 0) then Ok m
  else
    match stream_read_exact bytes_to_read (source m) with
    | Some (received, s) => Ok (mk_matcher (buffer m ++ received) s)
    | None => Err EndOfStream
    end.

(** The loop of [try_match]; the doubling of [more_bytes] saturates. *)
Fixpoint match_loop (fuel : nat) (m : PayloadMatcher) (more_bytes : Z)
    : option (result PayloadError PayloadMatcher) :=
  match fuel with
  | O => None
  | S fuel =>
    if matches m then Some (Ok m)
    else
      match recv_at_most m more_bytes with
      | Err e => Some (Err e)
      | Ok m => match_loop fuel m (Z.min Int.u64_max (2 * more_bytes))
      end
  end.

Definition try_match (fuel : nat) (s : stream) : option (result PayloadError PayloadMatcher) :=
  let m := mk_matcher [] s in
  if bool_decide (payload_size = 0) then Some (Ok m)
  else
    match recv_exact m payload_size with
    | Err e => Some (Err e)
    | Ok m => match_loop fuel m 1024
    end.

(** ** What a match means *)

Definition occurs_at (buf payload : bytes) (i : nat) : Prop :=
  take (length payload) (drop i buf) = payload.

(** The payloads occur at offsets that do not decrease, from [index] on; empty
    payloads are ignored. *)
Inductive in_order (buf : bytes) : nat → list bytes → Prop :=
  | in_order_nil index : in_order buf index []
  | in_order_empty index ps : in_order buf index ps → in_order buf index ([] :: ps)
  | in_order_cons index i payload ps :
      payload ≠ [] → index <= i → occurs_at buf payload i → in_order buf i ps →
      in_order buf index (payload :: ps).

Lemma in_order_weaken buf i j ps : i <= j → in_order buf j ps → in_order buf i ps.
Proof.
  intros Hij Ho. revert i Hij.
  induction Ho as [|index ps Ho IH|index k payload ps Hne Hle Hocc Ho IH]; intros i Hij.
  - constructor.
  - constructor. auto.
  - apply (in_order_cons _ _ k); [done|lia|done|done].
Qed.

Lemma occurs_at_bound buf payload i :
  payload ≠ [] → occurs_at buf payload i → i + length payload <= length buf.
Proof.
  intros Hne Ho. apply (f_equal length) in Ho. rewrite length_take, length_drop in Ho.
  assert (0 < length payload) by (destruct payload; [done|simpl; lia]). lia.
Qed.

Lemma position_Some payload buf i :
  position payload buf = Some i →
  occurs_at buf payload i ∧ ∀ j, j < i → ¬ occurs_at buf payload j.
Proof.
  unfold position. intros (l1 & l2 & Hl & Hi & Hl1)%find_Some.
  apply bool_decide_eq_true in Hi. split; [done|]. intros j Hj Ho.
  rewrite Forall_forall in Hl1. specialize (Hl1 j). rewrite bool_decide_eq_false in Hl1.
  apply Hl1; [|done]. clear -Hl Hj.
  assert (length l1 = i) as Hlen.
  { assert (seq 0 (S (length buf) - length payload) !! length l1 = Some i) as Hi
      by (rewrite Hl; by apply list_lookup_middle).
    apply lookup_seq in Hi. lia. }
  assert (seq 0 (S (length buf) - length payload) !! j = Some j) as Hsj.
  { apply lookup_seq. split; [lia|]. apply (f_equal length) in Hl.
    rewrite length_seq, length_app in Hl. simpl in Hl. lia. }
  rewrite Hl, lookup_app_l in Hsj by lia. by apply list_elem_of_lookup_2 in Hsj.
Qed.

Lemma position_None payload buf i :
  payload ≠ [] → position payload buf = None → ¬ occurs_at buf payload i.
Proof.
  unfold position. rewrite find_None, Forall_forall. intros Hne Hnone Ho.
  pose proof (occurs_at_bound _ _ _ Hne Ho) as Hb.
  specialize (Hnone i). rewrite bool_decide_eq_false in Hnone. apply Hnone; [|done].
  apply elem_of_seq. lia.
Qed.

(** Taking the first position is the right choice. *)
Lemma matches_from_in_order buf index ps :
  matches_from buf index ps = true ↔ in_order buf index ps.
Proof.
  assert (∀ index i payload, occurs_at (drop index buf) payload i ↔ occurs_at buf payload (index + i)) as Hdrop.
  { intros ???. unfold occurs_at. by rewrite drop_drop. }
  revert index. induction ps as [|[|b p] ps IH]; intros index.
  - split; [constructor|done].
  - simpl. rewrite IH. split; [by constructor|]. inversion 1; [done|]. done.
  - set (payload := b :: p). change (matches_from buf index (payload :: ps)) with
      (if bool_decide (index <= length buf) then
         match position payload (drop index buf) with
         | None => false
         | Some payload_index => matches_from buf (index + payload_index) ps
         end
       else false).
    assert (payload ≠ []) as Hne by done.
    case_bool_decide as Hidx.
    2: { split; [done|]. inversion 1 as [| |? i' ? ? _ Hle Ho' Hps]; simplify_eq.
         pose proof (occurs_at_bound _ _ _ Hne Ho'). lia. }
    destruct (position payload (drop index buf)) as [i|] eqn:Hpos.
    + apply position_Some in Hpos as [Ho Hmin]. rewrite IH. split.
      * intros Hps. apply (in_order_cons _ _ (index + i)); [done|lia|by apply Hdrop|done].
      * inversion 1 as [| |? i' ? ? _ Hle Ho' Hps]; simplify_eq.
        apply (in_order_weaken _ _ i'); [|done].
        destruct (decide (index + i <= i')) as [|Hlt]; [done|]. exfalso.
        apply (Hmin (i' - index)); [lia|]. apply Hdrop. by replace (index + (i' - index)) with i' by lia.
    + split; [done|]. inversion 1 as [| |? i' ? ? _ Hle Ho' Hps]; simplify_eq. exfalso.
      apply (position_None payload (drop index buf) (i' - index) Hne Hpos).
      apply Hdrop. by replace (index + (i' - index)) with i' by lia.
Qed.

(** ** The loop *)

Lemma stream_read_concat n s :
  (stream_read n s).1 ++ concat (stream_read n s).2 = concat s ∧ length (stream_read n s).1 <= n.
Proof.
  destruct s as [|c s]; simpl; [split; [done|lia]|]. rewrite length_take. split; [|lia].
  case_bool_decide; [by rewrite take_ge|]. simpl. by rewrite (assoc_L (++)), take_drop.
Qed.

Lemma stream_read_exact_concat n s bs s' :
  stream_read_exact n s = Some (bs, s') → bs ++ concat s' = concat s ∧ length bs = n.
Proof.
  revert n bs s'. induction s as [|c s IH]; intros n bs s'; simpl.
  { case_bool_decide; [|done]. by intros [= <- <-]. }
  case_bool_decide as Hn; [by intros [= <- <-]; subst|].
  case_bool_decide as Hc; [done|]. case_bool_decide as Hle.
  - pose proof (stream_read_concat n (c :: s)) as [Hcat _]. simpl in Hcat. intros [= <- <-].
    split; [done|]. rewrite length_take. lia.
  - destruct (stream_read_exact (n - length c) s) as [[rest s1]|] eqn:E; [|done].
    intros [= <- <-]. destruct (IH _ _ _ E) as [Hcat Hlen].
    rewrite <-Hcat, length_app. split; [by rewrite (assoc_L (++))|lia].
Qed.

Lemma recv_at_most_grows m n m' :
  recv_at_most m n = Ok m' →
  buffer m' ++ concat (source m') = buffer m ++ concat (source m) ∧
  length (buffer m) < length (buffer m') <= MAX_PAYLOAD_BUFFER_SIZE.
Proof.
  unfold recv_at_most. destruct (_ || _) eqn:Hfull; [done|].
  apply orb_false_elim in Hfull as [Hmax%bool_decide_eq_false _].
  set (to_read := Z.to_nat _). pose proof (stream_read_concat to_read (source m)) as [Hcat Hlen].
  destruct (stream_read to_read (source m)) as [received s]. simpl in *.
  case_bool_decide; [done|]. intros [= <-]. simpl. rewrite <-(assoc_L (++)), Hcat, length_app.
  split; [done|]. unfold to_read in Hlen. lia.
Qed.

Lemma match_loop_total fuel m n :
  MAX_PAYLOAD_BUFFER_SIZE - length (buffer m) < fuel →
  ∃ r, match_loop fuel m n = Some r ∧
    ∀ m', r = Ok m' → matches m' = true ∧
      buffer m' ++ concat (source m') = buffer m ++ concat (source m) ∧
      length (buffer m') <= length (buffer m) `max` MAX_PAYLOAD_BUFFER_SIZE.
Proof.
  revert m n. induction fuel as [|fuel IH]; intros m n Hfuel; [lia|]. simpl.
  destruct (matches m) eqn:Hm.
  { eexists. split; [done|]. intros m' [= <-]. split_and!; [done|done|lia]. }
  destruct (recv_at_most m n) as [m1|e] eqn:Hr.
  - apply recv_at_most_grows in Hr as [Hcat Hlen].
    destruct (IH m1 (Z.min Int.u64_max (2 * n))) as (r & -> & Hok); [lia|].
    exists r. split; [done|]. intros m' Hm'. destruct (Hok m' Hm') as (? & Hcat' & ?).
    split_and!; [done|by rewrite Hcat'|lia].
  - eexists. split; [done|]. done.
Qed.

(** Waiting for the payloads of a TCP health check always ends, whatever
    the peer sends and in whatever pieces, after at most one turn per byte of the
    buffer.  On success the bytes received so far, of which none is lost, hold
    all the payloads at offsets that do not decrease; on an error the stream
    ended or the buffer is full. *)
Theorem try_match_total s :
  ∃ r, try_match (S MAX_PAYLOAD_BUFFER_SIZE) s = Some r ∧
    ∀ m, r = Ok m →
      in_order (buffer m) 0 payloads ∧
      buffer m ++ concat (source m) = concat s ∧
      length (buffer m) <= payload_size `max` MAX_PAYLOAD_BUFFER_SIZE.
Proof.
  unfold try_match. case_bool_decide as Hsize.
  { eexists. split; [done|]. intros m [= <-]. simpl. split_and!; [|done|lia].
    revert Hsize. unfold payload_size. clear. induction payloads as [|[|b p] ps IH]; simpl; intros; [constructor| |lia].
    constructor. auto. }
  unfold recv_exact. rewrite bool_decide_false by done. cbn [source buffer].
  destruct (stream_read_exact payload_size s) as [[bs s']|] eqn:Hr.
  - apply stream_read_exact_concat in Hr as [Hcat Hlen]. change ([] ++ bs) with bs.
    destruct (match_loop_total (S MAX_PAYLOAD_BUFFER_SIZE) (mk_matcher bs s') 1024) as (r & -> & Hok);
      [simpl; lia|].
    exists r. split; [done|]. intros m Hm. destruct (Hok m Hm) as (Hmatch & Hcat' & Hlen'). simpl in *.
    split_and!; [by apply matches_from_in_order|by rewrite Hcat'|lia].
  - eexists. by split.
Qed.
End matcher.

(** The payloads need not follow one another: a second copy of a payload is
    found in the bytes of the first one, because the search goes on from the
    start of a match and not from its end. *)
Theorem payload_matched_twice :
  let payloads := [lit "PONG"; lit "PONG"] in
  try_match 2048 payloads 1 [lit "PONG...."] = Some (Ok (mk_matcher (lit "PONG....") [])).
Proof. by vm_compute. Qed.
End TcpPayload.
