(* ===== verification/F64.v ===== *)
(** Rust's [f64] on the Standard Library's executable specification of IEEE 754
    arithmetic, and the conversions the proxy uses. *)

From Stdlib Require Export Floats.SpecFloat.
From S2P Require Import Prelude.
Local Open Scope Z_scope.

Module F64.

Definition f64 : Type := spec_float.

(** [f64::from(u32)], exact. *)
Definition of_Z (z : Z) : f64 := binary_normalize 53 1024 z 0 false.

Definition add : f64 -> f64 -> f64 := SFadd 53 1024.
Definition sub : f64 -> f64 -> f64 := SFsub 53 1024.
Definition mul : f64 -> f64 -> f64 := SFmul 53 1024.
Definition div : f64 -> f64 -> f64 := SFdiv 53 1024.
Definition ltb : f64 -> f64 -> bool := SFltb.

(** The operator [>=], false on a NaN. *)
Definition geb (x y : f64) : bool := SFleb y x.

Definition is_nan (x : f64) : bool := match x with S754_nan => true | _ => false end.

(** [f64::min]: a number is preferred to a NaN. *)
Definition min (x y : f64) : f64 :=
  if is_nan x then y else if is_nan y then x else if ltb y x then y else x.

(** [f64::max]. *)
Definition max (x y : f64) : f64 :=
  if is_nan x then y else if is_nan y then x else if ltb x y then y else x.

(** The literal 1.4: the double nearest to 14/10. *)
Definition lit_1_4 : f64 := div (of_Z 14) (of_Z 10).

(** [Iterator::sum]. *)
Definition sum (l : list f64) : f64 := fold_left add l (S754_zero true).

(** [f64::round]: to the nearest integer, ties away from zero. *)
Definition round (x : f64) : f64 :=
  match x with
  | S754_finite s m e =>
    if 0 <=? e then x
    else
      let q := (Z.pos m + 2 ^ (- e - 1)) / 2 ^ (- e) in
      if q =? 0 then S754_zero s else binary_normalize 53 1024 (if s then - q else q) 0 s
  | _ => x
  end.

(** [x as u32]: truncates, saturates, and maps NaN to zero. *)
Definition as_u32 (x : f64) : Z :=
  match x with
  | S754_zero _ | S754_nan => 0
  | S754_infinity s => if s then 0 else Int.u32_max
  | S754_finite s m e =>
    let t := if 0 <=? e then Z.pos m * 2 ^ e else Z.pos m / 2 ^ (- e) in
    if s then 0 else Z.min Int.u32_max t
  end.
End F64.

(** Facts on [f64]: conversion and division of small integers give normal
    numbers, and doubling a normal number is exact. *)



Module F64Spec.
Import F64.

Lemma digits2_log2 p : Zpos (digits2_pos p) = Z.log2 (Zpos p) + 1.
Proof.
  induction p as [p IH|p IH|]; [| |done]; simpl digits2_pos; rewrite Pos2Z.inj_succ, IH.
  - rewrite (Pos2Z.inj_xI p), Z.log2_succ_double by lia. lia.
  - rewrite (Pos2Z.inj_xO p), Z.log2_double by lia. lia.
Qed.

Lemma digits2_range p n : 0 < n -> (Zpos (digits2_pos p) = n <-> 2 ^ (n - 1) <= Zpos p < 2 ^ n).
Proof.
  intros Hn. rewrite digits2_log2. split.
  - intros <-. pose proof (Z.log2_spec (Zpos p) ltac:(lia)) as [H1 H2].
    by replace (Z.log2 (Zpos p) + 1 - 1) with (Z.log2 (Zpos p)) by lia.
  - intros H. rewrite (Z.log2_unique (Zpos p) (n - 1)); [lia|lia|].
    by replace (Z.succ (n - 1)) with n by lia.
Qed.

(** A positive number with a full mantissa and a moderate exponent. *)
Definition normal (lo hi : Z) (x : f64) : Prop :=
  exists m e, x = S754_finite false m e /\ 2 ^ 52 <= Zpos m < 2 ^ 53 /\ lo <= e <= hi.

Lemma fexp_53 e : -1000 <= e -> fexp 53 1024 (53 + e) = e.
Proof. intros. unfold fexp, emin. lia. Qed.

Lemma digits_53 m : 2 ^ 52 <= Zpos m < 2 ^ 53 -> Zpos (digits2_pos m) = 53.
Proof. intros. by apply digits2_range. Qed.

Lemma digits_54 m : 2 ^ 53 <= Zpos m < 2 ^ 54 -> Zpos (digits2_pos m) = 54.
Proof. intros. by apply digits2_range. Qed.

(** Rounding keeps a full mantissa. *)
Lemma shr_fexp_53 m e l :
  2 ^ 52 <= Zpos m < 2 ^ 53 -> -1000 <= e ->
  shr_fexp 53 1024 (Zpos m) e l = (shr_record_of_loc (Zpos m) l, e).
Proof.
  intros Hm He. unfold shr_fexp. simpl Zdigits2. rewrite digits_53, fexp_53 by done.
  by rewrite Z.sub_diag.
Qed.

Lemma shr_fexp_54 m e l :
  2 ^ 53 <= Zpos m < 2 ^ 54 -> -1000 <= e ->
  shr_fexp 53 1024 (Zpos m) e l = (shr_1 (shr_record_of_loc (Zpos m) l), e + 1).
Proof.
  intros Hm He. unfold shr_fexp. simpl Zdigits2. rewrite digits_54 by done.
  replace (54 + e) with (53 + (e + 1)) by lia. rewrite fexp_53 by lia.
  by replace (e + 1 - e) with 1 by lia.
Qed.

(** The last step of rounding, on a full mantissa or the next power of two. *)
Lemma finish_rounding (n e : Z) :
  2 ^ 52 <= n <= 2 ^ 53 -> -1000 <= e <= 900 ->
  exists m e', (let '(mrs, e'') := shr_fexp 53 1024 n e loc_Exact in
      match shr_m mrs with
      | Z0 => S754_zero false
      | Zpos m => if Z.leb e'' (1024 - 53) then S754_finite false m e'' else S754_infinity false
      | _ => S754_nan
      end) = S754_finite false m e' /\ 2 ^ 52 <= Zpos m < 2 ^ 53 /\ e <= e' <= e + 1.
Proof.
  intros Hn He. destruct n as [|m|m]; [lia| |lia].
  destruct (decide (Zpos m < 2 ^ 53)) as [Hlt|Hge].
  - rewrite shr_fexp_53 by lia. cbn [shr_record_of_loc shr_m].
    rewrite (proj2 (Z.leb_le e (1024 - 53))) by lia.
    exists m, e. split; [done|]. lia.
  - rewrite shr_fexp_54 by lia. assert (Zpos m = 2 ^ 53) as Hm by lia.
    injection Hm as ->. cbn [shr_record_of_loc shr_1 shr_m].
    rewrite (proj2 (Z.leb_le (e + 1) (1024 - 53))) by lia.
    eexists _, _. split; [done|]. lia.
Qed.

Lemma round_even_range m l : m <= round_nearest_even m l <= m + 1.
Proof. destruct l as [|[]]; simpl; try destruct (Z.even m); lia. Qed.

Lemma binary_round_aux_normal q e l :
  2 ^ 52 <= q < 2 ^ 54 -> -1000 <= e <= 800 ->
  normal e (e + 2) (binary_round_aux 53 1024 false q e l).
Proof.
  intros Hq He. destruct q as [|q|q]; [lia| |lia]. unfold binary_round_aux.
  destruct (decide (Zpos q < 2 ^ 53)) as [Hlt|Hge].
  - rewrite shr_fexp_53 by lia.
    replace (shr_m (shr_record_of_loc (Zpos q) l)) with (Zpos q) by by destruct l as [|[]].
    pose proof (round_even_range (Zpos q) (loc_of_shr_record (shr_record_of_loc (Zpos q) l))) as Hr.
    destruct (finish_rounding (round_nearest_even (Zpos q)
      (loc_of_shr_record (shr_record_of_loc (Zpos q) l))) e) as (m & e' & Heq & Hm & He'); [lia..|].
    exists m, e'. split; [exact Heq|]. lia.
  - rewrite shr_fexp_54 by lia. set (mrs := shr_1 _).
    assert (shr_m mrs = Zpos q / 2) as Hhalf.
    { unfold mrs. rewrite <-Z.div2_div. destruct l as [|[]], q; done. }
    pose proof (round_even_range (shr_m mrs) (loc_of_shr_record mrs)) as Hr.
    destruct (finish_rounding (round_nearest_even (shr_m mrs) (loc_of_shr_record mrs)) (e + 1))
      as (m & e' & Heq & Hm & He'); [rewrite Hhalf in Hr |- *|lia|].
    { assert (2 ^ 52 <= Zpos q / 2 < 2 ^ 53) by (split; [apply Z.div_le_lower_bound|apply Z.div_lt_upper_bound]; lia).
      lia. }
    exists m, e'. split; [exact Heq|]. lia.
Qed.

Lemma binary_round_53 m e :
  2 ^ 52 <= Zpos m < 2 ^ 53 -> -1000 <= e <= 900 ->
  binary_round_aux 53 1024 false (Zpos m) e loc_Exact = S754_finite false m e.
Proof.
  intros Hm He. unfold binary_round_aux. rewrite shr_fexp_53 by lia.
  cbn [shr_record_of_loc shr_m loc_of_shr_record round_nearest_even].
  rewrite shr_fexp_53 by lia. cbn [shr_record_of_loc shr_m].
  by rewrite (proj2 (Z.leb_le e (1024 - 53))) by lia.
Qed.

Lemma iter_xO m n : Zpos (Pos.iter xO m n) = Zpos m * 2 ^ Zpos n.
Proof.
  revert n. apply Pos.peano_ind; [simpl; lia|]. intros n IH.
  rewrite Pos.iter_succ, Pos2Z.inj_xO, IH, Pos2Z.inj_succ, Z.pow_succ_r by lia. lia.
Qed.

(** A small integer converts to a normal number. *)
Lemma of_Z_normal z : 1 <= z < 2 ^ 53 -> normal (-52) 0 (of_Z z).
Proof.
  intros Hz. destruct z as [|p|p]; [lia| |lia]. unfold of_Z, binary_normalize, binary_round.
  pose proof (proj1 (digits2_range p _ (Pos2Z.is_pos (digits2_pos p))) eq_refl) as Hp.
  set (d := Zpos (digits2_pos p)) in *.
  assert (1 <= d <= 53) as Hd.
  { split; [unfold d; lia|]. destruct (Z.le_gt_cases d 53); [done|].
    assert (2 ^ 53 <= 2 ^ (d - 1)) by (apply Z.pow_le_mono_r; lia). lia. }
  unfold shl_align. replace (fexp 53 1024 (d + 0) - 0) with (d - 53) by (unfold fexp, emin; lia).
  destruct (decide (d = 53)) as [E|E].
  - replace (d - 53) with 0 by lia. rewrite E in Hp. rewrite binary_round_53 by lia.
    exists p, 0. split; [done|]. lia.
  - destruct (d - 53) as [|n|n] eqn:En; [lia..|].
    replace (fexp 53 1024 (d + 0)) with (d - 53) by (unfold fexp, emin; lia).
    assert (2 ^ 52 <= Zpos (Pos.iter xO p n) < 2 ^ 53) as Hm.
    { rewrite iter_xO. replace (2 ^ 52) with (2 ^ (d - 1) * 2 ^ Zpos n)
        by (rewrite <-Z.pow_add_r by lia; f_equal; lia).
      replace (2 ^ 53) with (2 ^ d * 2 ^ Zpos n) by (rewrite <-Z.pow_add_r by lia; f_equal; lia).
      assert (0 < 2 ^ Zpos n) by (apply Z.pow_pos_nonneg; lia). nia. }
    rewrite binary_round_53 by lia. eexists _, _. split; [done|]. lia.
Qed.

Lemma div_normal x y :
  normal (-52) 0 x -> normal (-52) 0 y -> normal (-105) 1 (div x y).
Proof.
  intros (m1 & e1 & -> & Hm1 & He1) (m2 & e2 & -> & Hm2 & He2).
  unfold div, SFdiv, SFdiv_core_binary. cbn [Zdigits2]. rewrite !digits_53 by done.
  replace (Z.min _ _) with (e1 - e2 - 53) by (unfold fexp, emin; lia).
  replace (e1 - e2 - (e1 - e2 - 53)) with 53 by lia. cbv iota.
  rewrite Z.shiftl_mul_pow2 by lia.
  pose proof (Z_div_mod (Zpos m1 * 2 ^ 53) (Zpos m2) ltac:(lia)) as Hdiv.
  destruct (Z.div_eucl (Zpos m1 * 2 ^ 53) (Zpos m2)) as [q r]. destruct Hdiv as [Hq Hr]. cbn [xorb].
  destruct (binary_round_aux_normal q (e1 - e2 - 53) (new_location (Zpos m2) r)) as (m & e & -> & Hm & He);
    [nia|lia|].
  exists m, e. split; [done|]. lia.
Qed.

(** Doubling is exact, and so is taking the number away again. *)
Lemma double_exact x :
  normal (-105) 1 x -> geb (add x x) x = true /\ sub (add x x) x = x.
Proof.
  intros (m & e & -> & Hm & He).
  assert (add (S754_finite false m e) (S754_finite false m e) = S754_finite false m (e + 1)) as Hadd.
  { unfold add, SFadd. rewrite Z.min_id. unfold shl_align. rewrite Z.sub_diag. cbn [fst cond_Zopp].
    rewrite Z.add_diag. change (2 * Zpos m) with (Zpos m~0). cbn [binary_normalize]. unfold binary_round.
    rewrite digits_54 by lia. replace (54 + e) with (53 + (e + 1)) by lia. rewrite fexp_53 by lia.
    unfold shl_align. replace (e + 1 - e) with 1 by lia. unfold binary_round_aux.
    rewrite shr_fexp_54 by lia. cbn [shr_record_of_loc shr_1 orb shr_m loc_of_shr_record round_nearest_even].
    rewrite shr_fexp_53 by lia. cbn [shr_record_of_loc shr_m].
    by rewrite (proj2 (Z.leb_le (e + 1) (1024 - 53))) by lia. }
  rewrite Hadd. split.
  - unfold geb, SFleb, SFcompare. by rewrite (proj2 (Z.compare_lt_iff e (e + 1))) by lia.
  - unfold sub, SFsub. replace (Z.min (e + 1) e) with e by lia. unfold shl_align.
    replace (e - (e + 1)) with (-1) by lia. rewrite Z.sub_diag. cbn [fst cond_Zopp Pos.iter].
    change (Zpos m~0) with (2 * Zpos m). replace (2 * Zpos m - Zpos m) with (Zpos m) by lia.
    cbn [binary_normalize]. unfold binary_round. rewrite digits_53, fexp_53 by lia.
    unfold shl_align. rewrite Z.sub_diag. by apply binary_round_53; [|lia].
Qed.

(** The share of a weight in a total: adding it to itself and taking it away
    again loses nothing. *)
Lemma share_exact w total :
  0 <= w < 2 ^ 53 -> 1 <= total < 2 ^ 53 ->
  let x := div (of_Z w) (of_Z total) in geb (add x x) x = true /\ sub (add x x) x = x.
Proof.
  intros Hw Ht. simpl. destruct (decide (w = 0)) as [->|Hpos].
  - destruct (of_Z_normal total Ht) as (m & e & -> & _ & _). done.
  - apply double_exact, div_normal; apply of_Z_normal; lia.
Qed.
End F64Spec.
