(* ===== verification/Priority.v ===== *)
(** Priority levels (arion-lib/src/clusters/balancers/priority.rs): the share of
    the traffic each level gets, from the health of the levels. *)

From S2P Require Import Prelude F64.
Local Open Scope Z_scope.

Module Priority.

Record PriorityInfo (B : Type) : Type := mk_info {
  info_balancer : B;
  info_healthy : Z;
  info_total : Z;
}.
Arguments mk_info {B} _ _ _.
Arguments info_balancer {B} _.
Arguments info_healthy {B} _.
Arguments info_total {B} _.

(** The product is a [u32], which wraps; the division panics on zero. *)
Definition calculate_priority_health (healthy total : Z) : outcome F64.f64 :=
  if total =? 0 then Panic
  else
    let x := F64.of_Z ((100 * healthy) mod 2 ^ 32 / total) in
    Return (F64.min (F64.of_Z 100) (F64.mul F64.lit_1_4 x)).

(** The loop that fills [priority_health]. *)
Fixpoint collect_health {B} (l : list (Z * PriorityInfo B)) : outcome (list (Z * F64.f64)) :=
  match l with
  | [] => Return []
  | (k, v) :: l =>
    h ← calculate_priority_health (info_healthy v) (info_total v);
    hs ← collect_health l;
    Return ((k, h) :: hs)
  end.

(** The loop over the levels after the first. *)
Fixpoint remaining_loads (normalized_total_health : F64.f64) (rest : list (Z * F64.f64))
    (p_load : list (Z * F64.f64)) : list (Z * F64.f64) :=
  match rest with
  | [] => p_load
  | (k, x) :: rest =>
    let load := F64.sub (F64.of_Z 100) (F64.sum p_load.*2) in
    let normalized_p_x_health := F64.div (F64.mul x (F64.of_Z 100)) normalized_total_health in
    let p_x_load := F64.min load normalized_p_x_health in
    remaining_loads normalized_total_health rest (p_load ++ [(k, p_x_load)])
  end.

(** From the health of the sorted levels; [remove(0)] panics on no level. *)
Definition loads_from_health (priority_health : list (Z * F64.f64)) : outcome (list (Z * Z)) :=
  let normalized_total_health := F64.min (F64.of_Z 100) (F64.sum priority_health.*2) in
  match priority_health with
  | [] => Panic
  | (p0_k, p) :: rest =>
    let p_0_load := F64.div (F64.mul p (F64.of_Z 100)) normalized_total_health in
    let p_load := remaining_loads normalized_total_health rest [(p0_k, p_0_load)] in
    Return ((fun '(k, f) => (k, F64.as_u32 (F64.round f))) <$> p_load)
  end.

Definition calculate_priority_loads {B} (endpoints : gmap Z (PriorityInfo B)) : outcome (list (Z * Z)) :=
  priority_health ← collect_health (btree_iter Z.le endpoints);
  loads_from_health priority_health.

(** ** When it panics *)

Lemma collect_health_spec {B} (l : list (Z * PriorityInfo B)) :
  match collect_health l with
  | Return hs => hs.*1 = l.*1 /\ Forall (fun kv => info_total kv.2 <> 0) l
  | Panic => Exists (fun kv => info_total kv.2 = 0) l
  end.
Proof.
  induction l as [|[k v] l IH]; simpl; [by split|].
  unfold calculate_priority_health. destruct (Z.eqb_spec (info_total v) 0) as [E|E]; simpl; [by left|].
  destruct (collect_health l) as [hs|]; simpl; [|by right]. destruct IH as [IH1 IH2].
  split; [by f_equal|by constructor].
Qed.

Lemma remaining_loads_keys n rest p : (remaining_loads n rest p).*1 = p.*1 ++ rest.*1.
Proof.
  revert p. induction rest as [|[k x] rest IH]; intros p; simpl; [by rewrite app_nil_r|].
  rewrite IH, fmap_app. by rewrite <-(assoc_L (++)).
Qed.

(** Computing the loads panics exactly when there is no priority level or
    one of them has no endpoint; otherwise the result has the levels in
    ascending order. *)
Theorem priority_loads_panic {B} (endpoints : gmap Z (PriorityInfo B)) :
  match calculate_priority_loads endpoints with
  | Panic => endpoints = ∅ \/ exists k v, endpoints !! k = Some v /\ info_total v = 0
  | Return loads =>
    endpoints <> ∅ /\ (forall k v, endpoints !! k = Some v -> info_total v <> 0) /\
    loads.*1 = (btree_iter Z.le endpoints).*1
  end.
Proof.
  unfold calculate_priority_loads. pose proof (collect_health_spec (btree_iter Z.le endpoints)) as Hc.
  assert (btree_iter Z.le endpoints = [] <-> endpoints = ∅) as Hempty.
  { split; intros E.
    - apply map_empty. intros k. destruct (endpoints !! k) as [v|] eqn:Hk; [|done].
      apply (elem_of_btree_iter Z.le) in Hk. rewrite E in Hk. set_solver.
    - rewrite E. unfold btree_iter. by rewrite map_to_list_empty. }
  destruct (collect_health _) as [hs|]; simpl.
  - destruct Hc as [Hk Ht]. unfold loads_from_health. destruct hs as [|[p0 h] hs].
    { left. apply Hempty. by destruct (btree_iter Z.le endpoints). }
    split_and!.
    + rewrite <-Hempty. intros E. by rewrite E in Hk.
    + intros k v Hv%(elem_of_btree_iter Z.le). rewrite Forall_forall in Ht. by apply (Ht (k, v)).
    + rewrite <-Hk, <-list_fmap_compose. set (p_load := remaining_loads _ _ _).
      assert (p_load.*1 = ((p0, h) :: hs).*1) as <- by (apply remaining_loads_keys).
      apply list_fmap_ext. by intros i [k f] _.
  - right. apply Exists_exists in Hc as ([k v] & Hin & Ht). exists k, v. split; [|done].
    by apply (elem_of_btree_iter Z.le).
Qed.

(** ** Two levels *)

(** The health of a level with [x] percent of healthy endpoints. *)
Definition health_of (x : Z) : F64.f64 := F64.min (F64.of_Z 100) (F64.mul F64.lit_1_4 (F64.of_Z x)).

Definition two_loads (h0 h1 : F64.f64) : Z * Z :=
  let total := F64.min (F64.of_Z 100) (F64.sum [h0; h1]) in
  let l0 := F64.div (F64.mul h0 (F64.of_Z 100)) total in
  let l1 := F64.min (F64.sub (F64.of_Z 100) (F64.sum [l0])) (F64.div (F64.mul h1 (F64.of_Z 100)) total) in
  (F64.as_u32 (F64.round l0), F64.as_u32 (F64.round l1)).

Lemma loads_from_two_levels k0 k1 h0 h1 :
  loads_from_health [(k0, h0); (k1, h1)] =
  Return [(k0, (two_loads h0 h1).1); (k1, (two_loads h0 h1).2)].
Proof. reflexivity. Qed.

(** What the two loads must be, as a test on the percentages and their
    health; from 72 percent on the health is 100. *)
Definition two_loads_ok (l0 l1 : Z * F64.f64) : bool :=
  let '(x0, h0) := l0 in
  let '(x1, h1) := l1 in
  let '(l0, l1) := two_loads h0 h1 in
  (0 <=? l0) && (0 <=? l1) &&
  (if (x0 =? 0) && (x1 =? 0) then (l0 =? 0) && (l1 =? 0)
   else (100 <=? l0 + l1) && (l0 + l1 <=? 101)) &&
  implb (72 <=? x0) ((l0 =? 100) && (l1 =? 0)) &&
  implb ((x0 =? 0) && (0 <? x1)) ((l0 =? 0) && (l1 =? 100)).

Definition levels : list (Z * F64.f64) := (fun x => (x, health_of x)) <$> (Z.of_nat <$> seq 0 73).

Lemma elem_of_levels x : 0 <= x <= 72 -> (x, health_of x) ∈ levels.
Proof.
  intros Hx. unfold levels. apply list_elem_of_fmap. exists x. split; [done|].
  apply list_elem_of_fmap. exists (Z.to_nat x). rewrite elem_of_seq. lia.
Qed.

Lemma two_loads_all_ok : forallb (fun l0 => forallb (two_loads_ok l0) levels) levels = true.
Proof. vm_compute. reflexivity. Qed.

Lemma health_of_capped x : 72 <= x <= 100 -> health_of x = health_of 72.
Proof.
  intros Hx. assert (x ∈ Z.of_nat <$> seq 72 29) as Hin.
  { apply list_elem_of_fmap. exists (Z.to_nat x). rewrite elem_of_seq. lia. }
  revert x Hx Hin. assert (Forall (fun x => health_of x = health_of 72) (Z.of_nat <$> seq 72 29)) as Hall.
  { simpl. repeat constructor; vm_compute; reflexivity. }
  rewrite Forall_forall in Hall. auto.
Qed.

Lemma two_loads_spec x0 x1 :
  0 <= x0 <= 100 -> 0 <= x1 <= 100 ->
  two_loads_ok (Z.min x0 72, health_of x0) (Z.min x1 72, health_of x1) = true.
Proof.
  assert (forall x, 0 <= x <= 100 -> (Z.min x 72, health_of x) ∈ levels) as Hin.
  { intros x Hx. destruct (decide (x <= 72)).
    - rewrite Z.min_l by lia. apply elem_of_levels. lia.
    - rewrite Z.min_r, health_of_capped by lia. apply elem_of_levels. lia. }
  intros H0%Hin H1%Hin. pose proof two_loads_all_ok as Hall.
  rewrite forallb_forall in Hall. specialize (Hall _ (proj1 (list_elem_of_In _ _) H0)).
  rewrite forallb_forall in Hall. exact (Hall _ (proj1 (list_elem_of_In _ _) H1)).
Qed.

Lemma percentage_range healthy total :
  0 <= healthy <= total -> 0 < total -> 100 * total < 2 ^ 32 ->
  0 <= (100 * healthy) mod 2 ^ 32 / total <= 100.
Proof.
  intros Hh Ht Hfit. rewrite Z.mod_small by lia. split; [apply Z.div_pos; lia|].
  apply Z.div_le_upper_bound; lia.
Qed.

Lemma btree_iter_two {V} (k0 k1 : Z) (v0 v1 : V) :
  k0 < k1 -> btree_iter Z.le (<[k0 := v0]> (<[k1 := v1]> ∅)) = [(k0, v0); (k1, v1)].
Proof.
  intros Hk. apply (StronglySorted_unique_strong (key_le Z.le)).
  - intros [a va] [b vb] Ha Hb. unfold key_le. simpl. intros Hab Hba. assert (a = b) as -> by lia.
    apply elem_of_btree_iter in Ha. f_equal.
    assert ((<[k0 := v0]> (<[k1 := v1]> ∅) : gmap Z V) !! b = Some vb) as Hb'; [|congruence].
    apply elem_of_cons in Hb as [[= -> ->]|[= -> ->]%list_elem_of_singleton].
    + by rewrite lookup_insert_eq.
    + rewrite lookup_insert_ne by lia. by rewrite lookup_insert_eq.
  - apply StronglySorted_btree_iter; apply _.
  - repeat constructor. unfold key_le. simpl. lia.
  - unfold btree_iter. rewrite merge_sort_Permutation.
    rewrite map_to_list_insert by (rewrite lookup_insert_ne by lia; apply lookup_empty).
    rewrite map_to_list_insert by apply lookup_empty. by rewrite map_to_list_empty.
Qed.

(** With two priority levels the loads add up to 100, or to 101 when both
    are rounded up, unless no level has one percent of healthy endpoints, in
    which case both are zero; the first level keeps all the traffic as long as
    72 percent of its endpoints are healthy, and hands it all over when none
    is. *)
Theorem two_priority_loads {B} k0 k1 (i0 i1 : PriorityInfo B) :
  k0 < k1 ->
  0 <= info_healthy i0 <= info_total i0 -> 0 < info_total i0 -> 100 * info_total i0 < 2 ^ 32 ->
  0 <= info_healthy i1 <= info_total i1 -> 0 < info_total i1 -> 100 * info_total i1 < 2 ^ 32 ->
  let x0 := 100 * info_healthy i0 / info_total i0 in
  let x1 := 100 * info_healthy i1 / info_total i1 in
  exists l0 l1,
    calculate_priority_loads (<[k0 := i0]> (<[k1 := i1]> ∅)) = Return [(k0, l0); (k1, l1)] /\
    0 <= l0 /\ 0 <= l1 /\
    (x0 = 0 -> x1 = 0 -> l0 = 0 /\ l1 = 0) /\
    (0 < x0 \/ 0 < x1 -> 100 <= l0 + l1 <= 101) /\
    (72 <= x0 -> l0 = 100 /\ l1 = 0) /\
    (x0 = 0 -> 0 < x1 -> l0 = 0 /\ l1 = 100).
Proof.
  intros Hk H0 T0 F0 H1 T1 F1 x0 x1.
  pose proof (percentage_range _ _ H0 T0 F0) as R0. pose proof (percentage_range _ _ H1 T1 F1) as R1.
  pose proof (two_loads_spec _ _ R0 R1) as Hok.
  unfold calculate_priority_loads. rewrite btree_iter_two by done.
  cbn [collect_health]. unfold calculate_priority_health.
  rewrite (proj2 (Z.eqb_neq (info_total i0) 0)), (proj2 (Z.eqb_neq (info_total i1) 0)) by lia.
  cbn [mbind outcome_bind].
  rewrite loads_from_two_levels. fold (health_of ((100 * info_healthy i0) mod 2 ^ 32 / info_total i0)).
  fold (health_of ((100 * info_healthy i1) mod 2 ^ 32 / info_total i1)).
  rewrite !Z.mod_small in * by lia.
  change (100 * info_healthy i0 / info_total i0) with x0 in Hok, R0 |- *.
  change (100 * info_healthy i1 / info_total i1) with x1 in Hok, R1 |- *. clearbody x0 x1.
  unfold two_loads_ok in Hok.
  destruct (two_loads (health_of x0) (health_of x1)) as [l0 l1]. exists l0, l1. split; [done|].
  destruct (Z.eqb_spec (Z.min x0 72) 0), (Z.eqb_spec (Z.min x1 72) 0), (Z.leb_spec 72 (Z.min x0 72)),
    (Z.ltb_spec 0 (Z.min x1 72)); simpl in Hok;
    rewrite ?andb_true_r, ?andb_true_iff, ?Z.leb_le, ?Z.eqb_eq in Hok; lia.
Qed.

(** Three of four endpoints healthy in the first level, all in the second. *)
Lemma two_priority_loads_witness :
  exists l0 l1 : Z,
    calculate_priority_loads (<[0 := mk_info tt 3 4]> (<[1 := mk_info tt 5 5]> ∅)) =
      Return [(0, l0); (1, l1)] /\
    0 <= l0 /\ 0 <= l1 /\
    (75 = 0 -> 100 = 0 -> l0 = 0 /\ l1 = 0) /\
    (0 < 75 \/ 0 < 100 -> 100 <= l0 + l1 <= 101) /\
    (72 <= 75 -> l0 = 100 /\ l1 = 0) /\
    (75 = 0 -> 0 < 100 -> l0 = 0 /\ l1 = 100).
Proof. apply (two_priority_loads 0 1 (mk_info tt 3 4) (mk_info tt 5 5)); simpl; lia. Defined.
End Priority.
