(* ===== verification/HealthyLb.v ===== *)
(** The balancer over the healthy endpoints
    (arion-lib/src/clusters/balancers/healthy.rs), around any balancer that
    keeps the promises of the interface. *)

From S2P Require Import Prelude Balancer Health Wrr.
Import Balancer Health.

Module HealthyLb.

(** [trait EndpointHealth], the reading part. *)
Class EndpointHealth (E : Type) : Type := endpoint_health : E → HealthStatus.

Record LbItem (E : Type) : Type := mk_item {
  item : E;
  health : HealthStatus;
}.
Arguments mk_item {E} _ _.
Arguments item {E} _.
Arguments health {E} _.

Record HealthyBalancer (B E : Type) : Type := mk_healthy {
  items : list (LbItem E);
  balancer : B;
}.
Arguments mk_healthy {B E} _ _.
Arguments items {B E} _.
Arguments balancer {B E} _.

Section healthy.
Context {B E : Type} `{Balancer B E, !BalancerBuild B E}.
Implicit Types (hb : HealthyBalancer B E) (l : list (LbItem E)).

Definition healthy_items l : list E :=
  omap (λ it, if is_healthy (health it) then Some (item it) else None) l.

Definition reload hb : HealthyBalancer B E :=
  mk_healthy (items hb) (balancer_from_iter (healthy_items (items hb))).

Definition healthy_new l : HealthyBalancer B E :=
  reload (mk_healthy l balancer_default).

Definition healthy_next_item hb (hash : option Z) : option E * HealthyBalancer B E :=
  let '(answer, b) := next_item (balancer hb) hash in
  (answer, mk_healthy (items hb) b).

(** The error carries the endpoint that was not found. *)
Inductive UpdateError : Type := CannotFindEndpoint (id : E).

(** [iter_mut().find(..)] and the update of what it found. *)
Fixpoint update_first `{PartialEqTest E} (id : E) (s : HealthStatus) l
    : option (list (LbItem E) * ValueUpdated) :=
  match l with
  | [] => None
  | it :: l =>
    if same_endpoint id (item it) then
      let '(s, updated) := update_health (health it) s in
      Some (mk_item (item it) s :: l, updated)
    else '(l, updated) ← update_first id s l; Some (it :: l, updated)
  end.

Definition healthy_update_health `{PartialEqTest E} hb (id : E) (s : HealthStatus)
    : result UpdateError ValueUpdated * HealthyBalancer B E :=
  match update_first id s (items hb) with
  | Some (l, updated) =>
    let hb := mk_healthy l (balancer hb) in
    let hb := if bool_decide (updated = Updated) then reload hb else hb in
    (Ok updated, hb)
  | None => (Err (CannotFindEndpoint id), hb)
  end.

Definition healthy_extend `{EndpointHealth E} hb (new : list E) : HealthyBalancer B E :=
  reload (mk_healthy (items hb ++ ((λ e, mk_item e (endpoint_health e)) <$> new)) (balancer hb)).

Definition healthy_from_iter `{EndpointHealth E} (l : list E) : HealthyBalancer B E :=
  healthy_new ((λ e, mk_item e (endpoint_health e)) <$> l).
End healthy.

#[export] Instance healthy_balancer {B E} `{Balancer B E} : Balancer (HealthyBalancer B E) E :=
  healthy_next_item.

(** ** The invariant *)
Section inv.
Context {B E : Type} `{BalancerLaws B E, PartialEqTest E, EndpointHealth E}.
Implicit Types (hb : HealthyBalancer B E) (l : list (LbItem E)).

(** The inner balancer was built from the endpoints that are healthy now. *)
Definition healthy_inv hb : Prop := serves (balancer hb) (healthy_items (items hb)).

(** What a cluster does with a balancer. *)
Inductive operation : Type :=
  | Next (hash : option Z)
  | UpdateHealth (id : E) (s : HealthStatus)
  | Extend (new : list E).

Definition operate hb (op : operation) : HealthyBalancer B E :=
  match op with
  | Next hash => (healthy_next_item hb hash).2
  | UpdateHealth id s => (healthy_update_health hb id s).2
  | Extend new => healthy_extend hb new
  end.

Lemma elem_of_healthy_items l e :
  e ∈ healthy_items l ↔ ∃ it, it ∈ l ∧ item it = e ∧ health it = Healthy.
Proof.
  unfold healthy_items, is_healthy. rewrite list_elem_of_omap. f_equiv. intros it.
  case_bool_decide; naive_solver.
Qed.

Lemma reload_inv hb : healthy_inv (reload hb).
Proof. apply serves_from_iter. Qed.

Lemma update_first_spec id s l l' updated :
  update_first id s l = Some (l', updated) →
  ∃ l1 it l2, l = l1 ++ it :: l2 ∧ same_endpoint id (item it) = true ∧
    Forall (λ it, same_endpoint id (item it) = false) l1 ∧
    l' = l1 ++ mk_item (item it) s :: l2 ∧
    (updated = if decide (health it = s) then NotUpdated else Updated).
Proof.
  revert l'. induction l as [|it l IH]; intros l'; simpl; [done|].
  destruct (same_endpoint id (item it)) eqn:Heq.
  - unfold update_health. case_bool_decide as Hs; intros [= <- <-]; exists [], it, l; simpl.
    + subst. by rewrite decide_True.
    + by rewrite decide_False.
  - destruct (update_first id s l) as [[l1 u]|]; [|done]. intros [= <- <-].
    destruct (IH l1) as (k1 & it' & k2 & -> & ? & ? & -> & ?); [done|].
    exists (it :: k1), it', k2. auto.
Qed.

Lemma update_first_None id s l :
  update_first id s l = None ↔ Forall (λ it, same_endpoint id (item it) = false) l.
Proof.
  induction l as [|it l IH]; simpl; [by split|]. rewrite Forall_cons.
  destruct (same_endpoint id (item it)) eqn:Heq.
  - destruct (update_health _ _). split; [done|]. intros [? _]. congruence.
  - destruct (update_first id s l) as [[? ?]|]; naive_solver.
Qed.

Lemma operate_inv hb op : healthy_inv hb → healthy_inv (operate hb op).
Proof.
  intros Hinv. destruct op as [hash|id s|new]; simpl.
  - unfold healthy_next_item, healthy_inv in *. pose proof (serves_next _ _ hash Hinv) as Hn.
    by destruct (next_item (balancer hb) hash).
  - unfold healthy_update_health. destruct (update_first id s (items hb)) as [[l u]|] eqn:Hu; [|done].
    apply update_first_spec in Hu as (l1 & it & l2 & Hl & _ & _ & -> & ->). case_decide as Hs; simpl.
    + unfold healthy_inv in *. simpl. rewrite Hl in Hinv.
      replace (mk_item (item it) s) with it by (destruct it; simpl in *; congruence). done.
    + apply reload_inv.
  - apply reload_inv.
Qed.

Lemma operations_inv (l : list (LbItem E)) ops :
  healthy_inv (fold_left operate ops (healthy_new l)).
Proof.
  assert (healthy_inv (healthy_new (B := B) l)) as Hstart by apply reload_inv.
  revert Hstart. generalize (healthy_new (B := B) l).
  induction ops as [|op ops IH]; intros hb Hhb; simpl; auto using operate_inv.
Qed.

(** Whatever requests, health updates and extensions a healthy balancer
    has seen, a request is only ever answered with an endpoint whose status is
    healthy at that moment. *)
Theorem only_healthy_answers l ops hash e :
  let hb := fold_left operate ops (healthy_new l) in
  (healthy_next_item hb hash).1 = Some e →
  ∃ it, it ∈ items hb ∧ item it = e ∧ health it = Healthy.
Proof.
  simpl. pose proof (operations_inv l ops) as Hinv.
  unfold healthy_next_item. destruct (next_item _ hash) as [a b] eqn:Hn. simpl. intros ->.
  apply elem_of_healthy_items. eapply next_item_elem; [exact Hinv|]. by rewrite Hn.
Qed.

(** A health update changes the status of the first endpoint that equals
    the given one and nothing else, reports whether that was a change, and fails
    exactly when there is no such endpoint, leaving the balancer as it is. *)
Theorem update_health_effect hb id s :
  match healthy_update_health hb id s with
  | (Ok updated, hb') =>
    ∃ l1 it l2, items hb = l1 ++ it :: l2 ∧ same_endpoint id (item it) = true ∧
      Forall (λ it, same_endpoint id (item it) = false) l1 ∧
      items hb' = l1 ++ mk_item (item it) s :: l2 ∧
      (updated = Updated ↔ health it ≠ s)
  | (Err e, hb') => hb' = hb ∧ Forall (λ it, same_endpoint id (item it) = false) (items hb)
  end.
Proof.
  unfold healthy_update_health. destruct (update_first id s (items hb)) as [[l u]|] eqn:Hu.
  - apply update_first_spec in Hu as (l1 & it & l2 & Hl & Hit & Hl1 & -> & ->).
    exists l1, it, l2. split_and!; [done..| |].
    + by case_bool_decide.
    + by case_decide; split.
  - split; [done|]. by apply (update_first_None id s).
Qed.
End inv.

Section answers.
Context {B E : Type} `{BalancerAnswers B E, PartialEqTest E, EndpointHealth E}.

(** If the inner balancer always has an answer, the healthy balancer has
    one as long as some endpoint is healthy. *)
Theorem healthy_answers (l : list (LbItem E)) ops hash :
  let hb := fold_left operate ops (healthy_new l) in
  Forall (λ it, Int.is_u32 (endpoint_weight (item it))) (items hb) →
  Exists (λ it, health it = Healthy) (items hb) →
  is_Some (healthy_next_item hb hash).1.
Proof.
  simpl. pose proof (operations_inv (B := B) l ops) as Hinv.
  intros Hw (it & Hit & Hh)%Exists_exists.
  unfold healthy_next_item. destruct (next_item _ hash) as [a b] eqn:Hn. simpl.
  replace a with (next_item (balancer (fold_left operate ops (healthy_new l))) hash).1 by (by rewrite Hn).
  eapply next_item_answers; [exact Hinv|..].
  - assert (item it ∈ healthy_items (items (fold_left operate ops (healthy_new (B := B) l)))) as Hin
      by (apply elem_of_healthy_items; eauto). intros E0. rewrite E0 in Hin. set_solver.
  - rewrite Forall_forall in Hw. apply Forall_forall.
    intros e (it' & Hit' & <- & _)%elem_of_healthy_items. auto.
Qed.
End answers.

(** ** Witnesses: three endpoints, numbered, of equal weight *)
Section witness.
#[local] Instance ex_weights : WeightedEndpoint nat := λ _, 1%Z.
#[local] Instance ex_test : PartialEqTest nat := Nat.eqb.
#[local] Instance ex_healths : EndpointHealth nat := λ _, Healthy.

Definition ex_items : list (LbItem nat) := [mk_item 1 Healthy; mk_item 2 Healthy; mk_item 3 Unhealthy].
Definition ex_operations : list (operation (E := nat)) :=
  [Next None; UpdateHealth 1 Unhealthy; Next None].
Definition ex_healthy : HealthyBalancer (Wrr.WeightedRoundRobinBalancer nat) nat :=
  fold_left operate ex_operations (healthy_new ex_items).

Lemma only_healthy_answers_witness :
  (healthy_next_item ex_healthy None).1 = Some 2 ∧
  ∃ it, it ∈ items ex_healthy ∧ item it = 2 ∧ health it = Healthy.
Proof.
  split; [by vm_compute|]. apply (only_healthy_answers ex_items ex_operations None 2). by vm_compute.
Defined.

Lemma healthy_answers_witness : is_Some (healthy_next_item ex_healthy None).1.
Proof.
  apply (healthy_answers ex_items ex_operations None).
  - by repeat constructor.
  - apply Exists_exists. exists (mk_item 2 Healthy). split; [|done].
    apply (list_elem_of_lookup_2 _ 1). by vm_compute.
Defined.
End witness.
End HealthyLb.
