(* ===== verification/DefaultLb.v ===== *)
(** The balancer of a cluster (arion-lib/src/clusters/balancers/default_balancer.rs
    and the localities of arion-lib/src/clusters/load_assignment.rs): a weighted
    round robin over the priority levels, and a healthy balancer in each. *)

From S2P Require Import Prelude Balancer Health Wrr Priority HealthyLb.
Import Balancer Health Priority HealthyLb.
Local Open Scope Z_scope.

Module DefaultLb.

(** [LocalityLbEndpoints], as far as the balancer reads it. *)
Record LocalityLbEndpoints (E : Type) : Type := mk_locality {
  endpoints : list E;
  priority : Z;
  healthy_endpoints : Z;
  total_endpoints : Z;
}.
Arguments mk_locality {E} _ _ _ _.
Arguments endpoints {E} _.
Arguments priority {E} _.
Arguments healthy_endpoints {E} _.
Arguments total_endpoints {E} _.

Inductive LocalityError : Type := TooManyEndpoints.

(** The end of [LocalityLbEndpointsBuilder::build]: the endpoints are counted. *)
Definition locality_build {E} `{EndpointHealth E} (eps : list E) (prio : Z)
    : result LocalityError (LocalityLbEndpoints E) :=
  let total := Z.of_nat (length eps) in
  let healthy := Z.of_nat (length (filter (fun e => is_healthy (endpoint_health e) = true) eps)) in
  if negb ((total <=? Int.u32_max) && (healthy <=? Int.u32_max)) then Err TooManyEndpoints
  else if Int.u32_max / 100 <? healthy then Err TooManyEndpoints
  else Ok (mk_locality eps prio healthy total).

Record DefaultBalancer (B E : Type) : Type := mk_default {
  priority_level_lb : Wrr.WeightedRoundRobinBalancer Z;
  priorities : gmap Z (PriorityInfo (HealthyBalancer B E));
}.
Arguments mk_default {B E} _ _.
Arguments priority_level_lb {B E} _.
Arguments priorities {B E} _.

Section default.
Context {B E : Type} `{Balancer B E, !BalancerBuild B E, PartialEqTest E, EndpointHealth E}.
Notation levels := (gmap Z (PriorityInfo (HealthyBalancer B E))).
Implicit Types (db : DefaultBalancer B E).

Definition recalculate_priority_load_factors (m : levels) : outcome (Wrr.WeightedRoundRobinBalancer Z) :=
  loads ← calculate_priority_loads m;
  Return (Wrr.wrr_new ((fun f => Wrr.LbItem_new f.2 f.1) <$> loads)).

(** The loop of [update_health] over [values_mut()], whose order is the map's;
    [None] if no level has the endpoint. *)
Fixpoint update_in_order (order : list Z) (m : levels) (id : E) (s : HealthStatus)
    : option (ValueUpdated * levels) :=
  match order with
  | [] => None
  | k :: order =>
    match m !! k with
    | None => update_in_order order m id s
    | Some info =>
      match healthy_update_health (info_balancer info) id s with
      | (Ok NotUpdated, hb) =>
        Some (NotUpdated, <[k := mk_info hb (info_healthy info) (info_total info)]> m)
      | (Ok Updated, hb) =>
        let healthy := if is_healthy s then Int.wrapping_incr 32 (info_healthy info)
                       else Int.wrapping_decr 32 (info_healthy info) in
        Some (Updated, <[k := mk_info hb healthy (info_total info)]> m)
      | (Err _, hb) => update_in_order order m id s
      end
    end
  end.

Definition default_update_health (order : list Z) db (id : E) (s : HealthStatus)
    : outcome (result (UpdateError (E := E)) ValueUpdated * DefaultBalancer B E) :=
  match update_in_order order (priorities db) id s with
  | None => Return (Err (CannotFindEndpoint id), db)
  | Some (NotUpdated, m) => Return (Ok NotUpdated, mk_default (priority_level_lb db) m)
  | Some (Updated, m) =>
    lb ← recalculate_priority_load_factors m;
    Return (Ok Updated, mk_default lb m)
  end.

Definition default_next_item db (hash : option Z) : option E * DefaultBalancer B E :=
  let '(chosen, lb) := Wrr.wrr_next_item (priority_level_lb db) in
  match chosen with
  | None => (None, mk_default lb (priorities db))
  | Some prio =>
    match priorities db !! prio with
    | None => (None, mk_default lb (priorities db))
    | Some info =>
      let '(endpoint, hb) := healthy_next_item (info_balancer info) hash in
      (endpoint, mk_default lb
         (<[prio := mk_info hb (info_healthy info) (info_total info)]> (priorities db)))
    end
  end.

(** [entry(priority).and_modify(..).or_insert(..)]; the counts are [u32]. *)
Definition add_locality (m : levels) (loc : LocalityLbEndpoints E) : levels :=
  match m !! priority loc with
  | Some info =>
    <[priority loc :=
        mk_info (healthy_extend (info_balancer info) (endpoints loc))
          ((info_healthy info + healthy_endpoints loc) mod 2 ^ 32)
          ((info_total info + total_endpoints loc) mod 2 ^ 32)]> m
  | None =>
    <[priority loc :=
        mk_info (healthy_from_iter (endpoints loc)) (healthy_endpoints loc) (total_endpoints loc)]> m
  end.

Definition from_slice (localities : list (LocalityLbEndpoints E)) : outcome (DefaultBalancer B E) :=
  let m := fold_left add_locality localities ∅ in
  lb ← recalculate_priority_load_factors m;
  Return (mk_default lb m).

(** ** What a cluster does with it *)
Inductive request : Type :=
  | NextItem (hash : option Z)
  | SetHealth (order : list Z) (id : E) (s : HealthStatus).

Definition serve db (r : request) : outcome (DefaultBalancer B E) :=
  match r with
  | NextItem hash => Return (default_next_item db hash).2
  | SetHealth order id s => snd <$> default_update_health order db id s
  end.

Fixpoint serve_all db (rs : list request) : outcome (DefaultBalancer B E) :=
  match rs with
  | [] => Return db
  | r :: rs => db ← serve db r; serve_all db rs
  end.
End default.
End DefaultLb.

(** What the cluster's balancer promises: its counts of healthy endpoints are
    right after any sequence of requests and health updates, it never panics on
    the localities of a cluster that all have endpoints, and it answers with
    healthy endpoints only. *)

Import Balancer Health Priority HealthyLb DefaultLb.

Module DefaultLbSpec.

Section spec.
Context {B E : Type} `{BalancerLaws B E, PartialEqTest E, EndpointHealth E}.
Notation levels := (gmap Z (PriorityInfo (HealthyBalancer B E))).
Implicit Types (db : DefaultBalancer B E) (hb : HealthyBalancer B E).

Definition count_healthy (l : list (LbItem E)) : Z := Z.of_nat (length (healthy_items l)).

Record info_ok (info : PriorityInfo (HealthyBalancer B E)) : Prop := {
  info_inv : healthy_inv (info_balancer info);
  info_healthy_ok : info_healthy info = count_healthy (items (info_balancer info));
  info_total_ok : info_total info = Z.of_nat (length (items (info_balancer info)));
  info_nonempty : items (info_balancer info) <> [];
  info_bound : Z.of_nat (length (items (info_balancer info))) <= Int.u32_max;
}.

Definition levels_ok (m : levels) : Prop := m <> ∅ /\ map_Forall (fun _ => info_ok) m.

(** ** Counting *)

Lemma healthy_items_app (l k : list (LbItem E)) :
  healthy_items (l ++ k) = healthy_items l ++ healthy_items k.
Proof. apply omap_app. Qed.

Lemma healthy_items_cons it (l : list (LbItem E)) :
  healthy_items (it :: l) = (if is_healthy (health it) then [item it] else []) ++ healthy_items l.
Proof. unfold healthy_items. simpl. by destruct (is_healthy (health it)). Qed.

Lemma count_healthy_bound (l : list (LbItem E)) : 0 <= count_healthy l <= Z.of_nat (length l).
Proof.
  unfold count_healthy. split; [lia|]. apply Nat2Z.inj_le.
  induction l as [|it l IH]; [done|]. rewrite healthy_items_cons, length_app.
  destruct (is_healthy _); simpl; lia.
Qed.

Lemma count_healthy_replace l1 it s (l2 : list (LbItem E)) :
  health it <> s ->
  count_healthy (l1 ++ mk_item (item it) s :: l2) =
  count_healthy (l1 ++ it :: l2) + (if is_healthy s then 1 else -1).
Proof.
  intros Hne. unfold count_healthy. rewrite !healthy_items_app, !healthy_items_cons, !length_app.
  unfold is_healthy. simpl. destruct (health it), s; simpl; done || lia.
Qed.

(** ** Preservation *)

Lemma next_item_items hb hash : items (healthy_next_item hb hash).2 = items hb.
Proof. unfold healthy_next_item. by destruct (next_item _ _). Qed.

Lemma info_ok_next info hash :
  info_ok info ->
  info_ok (mk_info (healthy_next_item (info_balancer info) hash).2 (info_healthy info) (info_total info)).
Proof.
  intros [Hinv Hh Ht Hne Hb]. split; simpl; rewrite ?next_item_items; [|done..].
  exact (operate_inv _ (Next hash) Hinv).
Qed.

Lemma info_ok_update info id s updated hb :
  info_ok info -> healthy_update_health (info_balancer info) id s = (Ok updated, hb) ->
  info_ok (mk_info hb
    (match updated with
     | NotUpdated => info_healthy info
     | Updated => if is_healthy s then Int.wrapping_incr 32 (info_healthy info)
                  else Int.wrapping_decr 32 (info_healthy info)
     end) (info_total info)).
Proof.
  intros [Hinv Hh Ht Hne Hb] Hup.
  pose proof (operate_inv _ (UpdateHealth id s) Hinv) as Hinv'. simpl in Hinv'. rewrite Hup in Hinv'.
  unfold healthy_update_health in Hup.
  destruct (update_first id s (items (info_balancer info))) as [[l u]|] eqn:Hu; [|done].
  injection Hup as <- <-.
  apply update_first_spec in Hu as (l1 & it & l2 & Hl & _ & _ & -> & Hup).
  assert (forall hb : HealthyBalancer B E, items (if bool_decide (u = Updated) then reload hb else hb) = items hb)
    as Hreload by (intros hb; by case_bool_decide).
  assert (length (l1 ++ mk_item (item it) s :: l2) = length (l1 ++ it :: l2)) as Hlen
    by (rewrite !length_app; done).
  pose proof (count_healthy_bound (l1 ++ it :: l2)) as Hcount.
  pose proof (count_healthy_bound (l1 ++ mk_item (item it) s :: l2)) as Hcount'.
  split; cbn [info_balancer info_healthy info_total]; rewrite ?Hreload; cbn [items];
    rewrite ?Hlen, <-?Hl; [done| |done|by destruct l1|done].
  rewrite Hl in *. rewrite Hh. unfold Int.u32_max in *. subst u. destruct (decide (health it = s)) as [E0|E0].
  - replace (mk_item (item it) s) with it by (destruct it; simpl in *; congruence). done.
  - rewrite count_healthy_replace in * by done. destruct (is_healthy s).
    + apply Int.wrapping_incr_small; lia.
    + apply Int.wrapping_decr_small; lia.
Qed.

Lemma levels_ok_insert (m : levels) k info :
  levels_ok m -> info_ok info -> levels_ok (<[k := info]> m).
Proof.
  intros [Hne Hm] Hi. split; [apply insert_non_empty|]. by apply map_Forall_insert_2.
Qed.

Lemma update_in_order_ok order (m : levels) id s updated m' :
  levels_ok m -> update_in_order order m id s = Some (updated, m') -> levels_ok m'.
Proof.
  intros Hm. induction order as [|k order IH]; simpl; [done|].
  destruct (m !! k) as [info|] eqn:Hk; [|done].
  destruct (healthy_update_health (info_balancer info) id s) as [[u|e] hb] eqn:Hu; [|done].
  assert (info_ok info) as Hi by (destruct Hm as [_ Hm]; by apply (Hm k)).
  pose proof (info_ok_update _ _ _ _ _ Hi Hu) as Hi'.
  destruct u; intros [= <- <-]; by apply levels_ok_insert.
Qed.

(** With endpoints in every level the loads can be computed. *)
Lemma recalculate_returns (m : levels) :
  levels_ok m -> exists lb, recalculate_priority_load_factors m = Return lb.
Proof.
  intros [Hne Hm]. unfold recalculate_priority_load_factors.
  pose proof (collect_health_spec (btree_iter Z.le m)) as Hc. unfold calculate_priority_loads.
  destruct (collect_health _) as [hs|]; simpl.
  - destruct Hc as [Hkeys _]. destruct hs as [|[k h] hs]; [|by eexists]. exfalso. apply Hne.
    apply map_empty. intros k. destruct (m !! k) as [v|] eqn:Hk; [|done].
    apply (elem_of_btree_iter Z.le) in Hk. destruct (btree_iter Z.le m); [set_solver|done].
  - apply Exists_exists in Hc as ([k v] & Hin & Ht). apply elem_of_btree_iter in Hin.
    destruct (Hm k v Hin) as [_ _ Htot Hni _]. exfalso. apply Hni.
    apply length_zero_iff_nil. simpl in Ht. lia.
Qed.

Lemma serve_ok db r :
  levels_ok (priorities db) -> exists db', serve db r = Return db' /\ levels_ok (priorities db').
Proof.
  intros Hm. destruct r as [hash|order id s]; simpl.
  - eexists. split; [done|]. unfold default_next_item.
    destruct (Wrr.wrr_next_item _) as [[prio|] lb]; [|done].
    destruct (priorities db !! prio) as [info|] eqn:Hp; [|done].
    assert (info_ok info) as Hi by (destruct Hm as [_ Hall]; by apply (Hall prio)).
    pose proof (info_ok_next info hash Hi) as Hi'.
    destruct (healthy_next_item _ _) as [e hb]. simpl in *. by apply levels_ok_insert.
  - unfold default_update_health.
    destruct (update_in_order order (priorities db) id s) as [[u m]|] eqn:Hu; [|by eexists].
    pose proof (update_in_order_ok _ _ _ _ _ _ Hm Hu) as Hm'.
    destruct u; [|by eexists]. destruct (recalculate_returns m Hm') as [lb ->]. by eexists.
Qed.

(** ** Construction *)

Notation as_items := (fmap (fun e => mk_item e (endpoint_health e))).

Lemma locality_build_counts eps prio (loc : LocalityLbEndpoints E) :
  locality_build eps prio = Ok loc ->
  endpoints loc = eps /\ priority loc = prio /\
  healthy_endpoints loc = count_healthy (as_items eps) /\ total_endpoints loc = Z.of_nat (length eps).
Proof.
  unfold locality_build. destruct (negb _); [done|]. destruct (_ <? _); [done|].
  intros [= <-]. simpl. split_and!; [done..| |done]. unfold count_healthy. f_equal.
  induction eps as [|e eps IH]; [done|]. rewrite filter_cons, fmap_cons, healthy_items_cons. simpl.
  destruct (is_healthy (endpoint_health e)); simpl; by rewrite IH.
Qed.

Definition built (loc : LocalityLbEndpoints E) : Prop :=
  endpoints loc <> [] /\ locality_build (endpoints loc) (priority loc) = Ok loc.

Lemma items_from_iter (l : list E) : items (healthy_from_iter (B := B) l) = as_items l.
Proof. done. Qed.

Lemma items_extend hb (l : list E) : items (healthy_extend hb l) = items hb ++ as_items l.
Proof. done. Qed.

(** The levels hold at most [n] endpoints each. *)
Definition levels_upto (n : Z) (m : levels) : Prop :=
  map_Forall (fun _ info => info_ok info /\ Z.of_nat (length (items (info_balancer info))) <= n) m.

Lemma add_locality_ok n (m : levels) loc :
  levels_upto n m -> built loc -> 0 <= n -> n + Z.of_nat (length (endpoints loc)) <= Int.u32_max ->
  levels_upto (n + Z.of_nat (length (endpoints loc))) (add_locality m loc).
Proof.
  intros Hm [Hne Hb] Hn Hbound. apply locality_build_counts in Hb as (_ & _ & Hh & Ht).
  assert (levels_upto (n + Z.of_nat (length (endpoints loc))) m) as Hm'.
  { intros k info Hk. destruct (Hm k info Hk). split; [done|lia]. }
  pose proof (count_healthy_bound (as_items (endpoints loc))) as Hcb. rewrite length_fmap in Hcb.
  unfold add_locality. destruct (m !! priority loc) as [info|] eqn:Hp.
  - destruct (Hm _ _ Hp) as [[Hinv Hih Hit Hine Hib] Hlen].
    pose proof (count_healthy_bound (items (info_balancer info))) as Hci.
    apply map_Forall_insert_2; [|done].
    rewrite Hh, Ht, Hih, Hit. unfold Int.u32_max in *. rewrite !Z.mod_small by lia.
    split; [split|]; simpl; rewrite ?items_extend.
    + apply reload_inv.
    + unfold count_healthy. rewrite healthy_items_app, length_app. lia.
    + rewrite length_app, length_fmap. lia.
    + by destruct (items (info_balancer info)).
    + rewrite length_app, length_fmap. unfold Int.u32_max. lia.
    + rewrite length_app, length_fmap. lia.
  - apply map_Forall_insert_2; [|done].
    split; [split|]; simpl; rewrite ?items_from_iter, ?length_fmap; [|done|done|..|lia].
    + apply reload_inv.
    + by destruct (endpoints loc).
    + lia.
Qed.

Definition total_of (locs : list (LocalityLbEndpoints E)) : Z :=
  zsum ((fun loc => Z.of_nat (length (endpoints loc))) <$> locs).

Lemma total_of_nonneg locs : 0 <= total_of locs.
Proof.
  unfold total_of. induction locs as [|loc locs IH]; [done|]. rewrite fmap_cons. simpl. lia.
Qed.

Lemma add_localities_ok n (m : levels) locs :
  levels_upto n m -> Forall built locs -> 0 <= n -> n + total_of locs <= Int.u32_max ->
  levels_upto (n + total_of locs) (fold_left add_locality locs m).
Proof.
  revert n m. induction locs as [|loc locs IH]; intros n m Hm Hlocs Hn Hbound.
  { unfold total_of. simpl. by rewrite Z.add_0_r. }
  apply Forall_cons in Hlocs as [Hloc Hlocs].
  assert (total_of (loc :: locs) = Z.of_nat (length (endpoints loc)) + total_of locs) as Htotal by done.
  pose proof (total_of_nonneg locs). rewrite Htotal in *. simpl.
  rewrite Z.add_assoc. apply IH; [|done|lia|lia]. apply add_locality_ok; [done..|lia].
Qed.

Lemma add_localities_nonempty locs (m : levels) :
  m <> ∅ \/ locs <> [] -> fold_left add_locality locs m <> ∅.
Proof.
  revert m. induction locs as [|loc locs IH]; intros m Hne; simpl; [tauto|].
  apply IH. left. unfold add_locality. destruct (m !! priority loc); apply insert_non_empty.
Qed.

Lemma from_slice_ok locs :
  locs <> [] -> Forall built locs -> total_of locs <= Int.u32_max ->
  exists db, from_slice (B := B) locs = Return db /\ levels_ok (priorities db).
Proof.
  intros Hne Hlocs Hbound. unfold from_slice.
  assert (levels_ok (fold_left add_locality locs ∅)) as Hok.
  { split; [apply add_localities_nonempty; by right|].
    pose proof (add_localities_ok 0 ∅ locs (map_Forall_empty _) Hlocs) as Hupto.
    eapply map_Forall_impl; [apply Hupto; lia|]. by intros k info [? _]. }
  destruct (recalculate_returns _ Hok) as [lb ->]. by eexists.
Qed.

Lemma serve_all_ok db rs :
  levels_ok (priorities db) -> exists db', serve_all db rs = Return db' /\ levels_ok (priorities db').
Proof.
  revert db. induction rs as [|r rs IH]; intros db Hdb; simpl; [by eexists|].
  destruct (serve_ok db r Hdb) as (db' & -> & Hdb'). simpl. auto.
Qed.

(** C21: A cluster whose localities all have endpoints gets a balancer, and no
    sequence of requests and health updates makes it panic; at any time the
    counts that the load of a priority level is computed from are the numbers
    of its healthy endpoints and of all its endpoints. *)
Theorem level_counts_right locs rs :
  locs <> [] -> Forall built locs -> total_of locs <= Int.u32_max ->
  exists db db', from_slice (B := B) locs = Return db /\ serve_all db rs = Return db' /\
    forall k info, priorities db' !! k = Some info ->
      info_healthy info = count_healthy (items (info_balancer info)) /\
      info_total info = Z.of_nat (length (items (info_balancer info))) /\
      info_total info <> 0.
Proof.
  intros Hne Hlocs Hbound. destruct (from_slice_ok locs Hne Hlocs Hbound) as (db & Hdb & Hok).
  destruct (serve_all_ok db rs Hok) as (db' & Hdb' & Hne' & Hok'). exists db, db'. split_and!; [done..|].
  intros k info Hk. destruct (Hok' k info Hk) as [_ Hh Ht Hni _]. split_and!; [done..|].
  rewrite Ht. intros Hz. apply Hni, length_zero_iff_nil. lia.
Qed.

(** Whatever happened before, the balancer of a cluster answers a request
    with an endpoint that is healthy at that moment, of the priority level its
    weighted round robin chose. *)
Theorem default_answers_healthy locs rs db db' hash e :
  from_slice (B := B) locs = Return db -> serve_all db rs = Return db' ->
  locs <> [] -> Forall built locs -> total_of locs <= Int.u32_max ->
  (default_next_item db' hash).1 = Some e ->
  exists k info it, (Wrr.wrr_next_item (priority_level_lb db')).1 = Some k /\
    priorities db' !! k = Some info /\ it ∈ items (info_balancer info) /\
    item it = e /\ health it = Healthy.
Proof.
  intros Hdb Hrs Hne Hlocs Hbound.
  destruct (from_slice_ok locs Hne Hlocs Hbound) as (db0 & Hdb0 & Hok).
  rewrite Hdb in Hdb0. injection Hdb0 as <-.
  destruct (serve_all_ok db rs Hok) as (db1 & Hdb1 & _ & Hok').
  rewrite Hrs in Hdb1. injection Hdb1 as <-.
  unfold default_next_item. destruct (Wrr.wrr_next_item _) as [[k|] lb]; [|done].
  destruct (priorities db' !! k) as [info|] eqn:Hk; [|done].
  destruct (Hok' k info Hk) as [Hinv _ _ _ _].
  unfold healthy_next_item. destruct (next_item _ hash) as [a b] eqn:Hn. simpl. intros ->.
  exists k, info. assert (e ∈ healthy_items (items (info_balancer info))) as Hin.
  { eapply next_item_elem; [exact Hinv|]. by rewrite Hn. }
  apply elem_of_healthy_items in Hin as (it & ? & ? & ?). eauto 10.
Qed.
End spec.

(** ** Witnesses: endpoints with a number, a weight and a status *)
Record endpoint : Type := mk_endpoint { ep_id : Z; ep_weight : Z; ep_health : HealthStatus }.

#[export] Instance endpoint_has_weight : WeightedEndpoint endpoint := ep_weight.
#[export] Instance endpoint_has_test : PartialEqTest endpoint := fun a b => ep_id a =? ep_id b.
#[export] Instance endpoint_has_health : EndpointHealth endpoint := ep_health.

Definition ex_localities : list (LocalityLbEndpoints endpoint) :=
  [mk_locality [mk_endpoint 1 1 Healthy; mk_endpoint 2 3 Healthy] 0 2 2;
   mk_locality [mk_endpoint 3 1 Healthy] 1 1 1].

Definition ex_requests : list (request (E := endpoint)) :=
  [NextItem None; SetHealth [0; 1] (mk_endpoint 1 1 Healthy) Unhealthy;
   SetHealth [0; 1] (mk_endpoint 2 3 Healthy) Unhealthy; NextItem None].

Notation wrr_of := (Wrr.WeightedRoundRobinBalancer endpoint).

Definition ex_db : DefaultBalancer wrr_of endpoint :=
  match from_slice ex_localities with Return db => db | Panic => mk_default (Wrr.wrr_new []) ∅ end.
Definition ex_db' : DefaultBalancer wrr_of endpoint :=
  match serve_all ex_db ex_requests with Return db => db | Panic => ex_db end.

Lemma ex_localities_built : Forall built ex_localities.
Proof. repeat constructor; done. Qed.

Lemma level_counts_right_witness :
  exists db db' : DefaultBalancer wrr_of endpoint,
    from_slice ex_localities = Return db /\ serve_all db ex_requests = Return db' /\
    forall k info, priorities db' !! k = Some info ->
      info_healthy info = count_healthy (items (info_balancer info)) /\
      info_total info = Z.of_nat (length (items (info_balancer info))) /\
      info_total info <> 0.
Proof.
  apply (level_counts_right ex_localities ex_requests); [done|apply ex_localities_built|done].
Defined.

(** With both endpoints of the first level unhealthy, the second level answers. *)
Lemma default_answers_healthy_witness :
  exists k info it, (Wrr.wrr_next_item (priority_level_lb ex_db')).1 = Some k /\
    priorities ex_db' !! k = Some info /\ it ∈ items (info_balancer info) /\
    item it = mk_endpoint 3 1 Healthy /\ health it = Healthy.
Proof.
  apply (default_answers_healthy ex_localities ex_requests ex_db ex_db' None).
  - by vm_compute.
  - by vm_compute.
  - done.
  - apply ex_localities_built.
  - done.
  - by vm_compute.
Defined.
End DefaultLbSpec.
