(* ===== verification/Maglev.v ===== *)
(** The Maglev consistent-hash balancer
    (arion-lib/src/clusters/balancers/maglev.rs). *)

From S2P Require Import Prelude RustStr F64 Balancer.
Import Balancer.
Local Open Scope Z_scope.

Module Maglev.

(** ** The primality test of the table size *)

(** The [while] loop of [is_prime], for at most [fuel] turns. *)
Fixpoint is_prime_loop (fuel : nat) (n upper_bound current incr : Z) : option bool :=
  match fuel with
  | O => None
  | S fuel =>
    if current <=? upper_bound then
      if n mod current =? 0 then Some false
      else is_prime_loop fuel n upper_bound (current + incr) (Z.lxor incr 6)
    else Some true
  end.

(** [next_power_of_two().trailing_zeros()] is the logarithm rounded up. *)
Definition is_prime (n : Z) : option bool :=
  if n <=? 1 then Some false
  else if n <=? 3 then Some true
  else
    let next_square := Z.log2_up n + 1 in
    let upper_bound := Z.shiftl 1 (next_square / 2) in
    let incr := 2 in
    if (n mod 2 =? 0) || (n mod 3 =? 0) then Some false
    else is_prime_loop (Z.to_nat upper_bound) n upper_bound 5 incr.

(** ** The table *)

Record TableBuilder : Type := mk_builder {
  slots : list (option nat);
  size : Z;
}.

Definition builder_new (table_size : Z) : TableBuilder :=
  mk_builder (replicate (Z.to_nat table_size) None) 0.

Definition try_update (tb : TableBuilder) (index : Z) (value : nat) : option TableBuilder :=
  match slots tb !! Z.to_nat index with
  | Some None => Some (mk_builder (<[Z.to_nat index := Some value]> (slots tb)) (size tb + 1))
  | Some (Some _) | None => None
  end.

Definition is_full (table_size : Z) (tb : TableBuilder) : bool := table_size <=? size tb.

Definition build_table (tb : TableBuilder) : list nat := default 0%nat <$> slots tb.

Record Permutation : Type := mk_permutation {
  offset : Z;
  skip : Z;
  weight : F64.f64;
  current_weight : F64.f64;
  target_weight : F64.f64;
  next : Z;
}.

Definition has_enough_weight_after_iterating (p : Permutation) : bool * Permutation :=
  let current := F64.add (current_weight p) (weight p) in
  let has_reached_target := F64.geb current (target_weight p) in
  let current := if has_reached_target then F64.sub current (target_weight p) else current in
  (has_reached_target,
   mk_permutation (offset p) (skip p) (weight p) current (target_weight p) (next p)).

(** [usize] arithmetic wraps at 64 bits. *)
Definition permutation_next (table_size : Z) (p : Permutation) : Z * Permutation :=
  let index := ((offset p + skip p * next p) mod 2 ^ 64) mod table_size in
  (index,
   mk_permutation (offset p) (skip p) (weight p) (current_weight p) (target_weight p)
     ((next p + 1) mod 2 ^ 64)).

(** The innermost loop: at most [n] attempts to find a free slot. *)
Fixpoint place (n : nat) (table_size : Z) (item_index : nat) (p : Permutation) (tb : TableBuilder)
    : Permutation * TableBuilder :=
  match n with
  | O => (p, tb)
  | S n =>
    let '(index, p) := permutation_next table_size p in
    match try_update tb index item_index with
    | Some tb => (p, tb)
    | None => place n table_size item_index p tb
    end
  end.

(** ['item_loop]; the flag says whether it broke out of ['table_loop]. *)
Fixpoint item_loop (table_size : Z) (item_index : nat) (ps : list Permutation) (tb : TableBuilder)
    : list Permutation * TableBuilder * bool :=
  match ps with
  | [] => ([], tb, false)
  | p :: ps =>
    if is_full table_size tb then (p :: ps, tb, true)
    else
      let '(enough, p) := has_enough_weight_after_iterating p in
      let '(p, tb) :=
        if enough then place (Z.to_nat table_size) table_size item_index p tb else (p, tb) in
      let '(ps, tb, broke) := item_loop table_size (S item_index) ps tb in
      (p :: ps, tb, broke)
  end.

Fixpoint table_loop (n : nat) (table_size : Z) (ps : list Permutation) (tb : TableBuilder) : TableBuilder :=
  match n with
  | O => tb
  | S n =>
    let '(ps, tb, broke) := item_loop table_size 0 ps tb in
    if broke then tb else table_loop n table_size ps tb
  end.

(** ** The balancer *)

(** The sorting key of an authority: its bytes in lower case. *)
Definition authority_sorting_key (a : str) : str := Str.to_ascii_lowercase <$> a.

Definition DEFAULT_TABLE_SIZE : Z := 65537.
Definition OFFSET_SEED : Z := 0.
Definition SKIP_SEED : Z := 1.

Record MaglevBalancer (E : Type) : Type := mk_maglev {
  items : list (WeightedItem E);
  table : list nat;
}.
Arguments mk_maglev {E} _ _.
Arguments items {E} _.
Arguments table {E} _.

Section maglev.
Context {E : Type} `{EndpointWithAuthority E}.
(** [DeterministicBuildHasher::hash_one_with_seed] of an authority: XxHash64. *)
Context (hash_one_with_seed : str → Z → Z).

Definition permutation_new (table_size : Z) (a : str) (w target : F64.f64) : Permutation :=
  let offset := hash_one_with_seed a OFFSET_SEED mod table_size in
  let skip := hash_one_with_seed a SKIP_SEED mod (table_size - 1) + 1 in
  mk_permutation offset skip w target target 0.

(** A stable sort by the sorting key. *)
Fixpoint insert_by_authority (x : WeightedItem E) (l : list (WeightedItem E)) : list (WeightedItem E) :=
  match l with
  | [] => [x]
  | y :: l =>
    if Str.bytes_le (authority_sorting_key (authority (w_item x))) (authority_sorting_key (authority (w_item y)))
    then x :: y :: l else y :: insert_by_authority x l
  end.

Definition sort_by_authority (l : list (WeightedItem E)) : list (WeightedItem E) :=
  foldr insert_by_authority [] l.

(** [Iterator::reduce]. *)
Definition reduce_max (l : list F64.f64) : option F64.f64 :=
  match l with [] => None | x :: l => Some (fold_left F64.max l x) end.

Definition normalized (total_weight : Z) (it : WeightedItem E) : F64.f64 :=
  F64.div (F64.of_Z (w_weight it)) (F64.of_Z total_weight).

(** The permutations and the loops that fill the table. *)
Definition fill_table (table_size total_weight : Z) (l : list (WeightedItem E))
    (max_normalized_weight : F64.f64) : TableBuilder :=
  let permutations :=
    (λ it, permutation_new table_size (authority (w_item it)) (normalized total_weight it)
       max_normalized_weight) <$> l in
  table_loop (Z.to_nat table_size) table_size permutations (builder_new table_size).

Definition with_size (table_size : Z) (l : list (WeightedItem E)) : MaglevBalancer E :=
  let '(l, total_weight) := take_checked l 0 in
  let l := sort_by_authority l in
  let table :=
    match reduce_max (normalized total_weight <$> l) with
    | None => []
    | Some max_normalized_weight =>
      if bool_decide (length l = 1%nat) then [0%nat]
      else build_table (fill_table table_size total_weight l max_normalized_weight)
    end in
  mk_maglev l table.

Definition maglev_new (l : list (WeightedItem E)) : MaglevBalancer E := with_size DEFAULT_TABLE_SIZE l.

Definition maglev_from_iter `{WeightedEndpoint E} (l : list E) : MaglevBalancer E :=
  maglev_new ((λ e, weighted_new (endpoint_weight e) e) <$> l).
End maglev.

(** [random] is what the thread's generator returns; the remainder by the
    length of an empty table would panic. *)
Definition maglev_next_item {E} (random : Z) (b : MaglevBalancer E) (hash : option Z) : outcome (option E) :=
  if bool_decide (length (items b) <= 1)%nat then Return (w_item <$> head (items b))
  else
    let hash := default random hash in
    if bool_decide (table b = []) then Panic
    else
      let table_index := hash mod Z.of_nat (length (table b)) in
      Return (index ← table b !! Z.to_nat table_index; w_item <$> items b !! index).
End Maglev.
