(* ===== verification/MaglevSpec.v ===== *)
(** Maglev: the primality test is right, a permutation walks the whole table,
    and the table is filled, so that every hash has an endpoint. *)

From Stdlib Require Import Znumtheory.
From S2P Require Import Prelude RustStr F64 Balancer Maglev.
Import Balancer Maglev.
Local Open Scope Z_scope.

Module MaglevSpec.

(** ** The primality test *)

Definition no_divisor_below (n k : Z) : Prop := forall d, 1 < d < k -> ~ (d | n).

Lemma mod_eqb_divide n d : 0 < d -> (n mod d =? 0) = true <-> (d | n).
Proof. intros Hd. rewrite Z.eqb_eq. by rewrite Z.mod_divide by lia. Qed.

Lemma not_prime_divisor n d : 1 < d < n -> (d | n) -> ~ prime n.
Proof.
  intros Hd Hdiv Hp. destruct (prime_divisors n Hp d Hdiv) as [?|[?|[?|?]]]; lia.
Qed.

(** Without a divisor up to its root a number is prime. *)
Lemma prime_by_root n k : 1 < n -> n <= k * k -> 0 <= k -> no_divisor_below n (k + 1) -> prime n.
Proof.
  intros Hn Hk Hk0 Hnd. apply prime_alt. split; [done|]. intros d Hd [c Hc].
  destruct (Z.le_gt_cases d k) as [Hdk|Hdk].
  - apply (Hnd d); [lia|]. by exists c.
  - apply (Hnd c); [nia|]. exists d. lia.
Qed.

(** The candidates leave out the multiples of two and of three. *)
Definition wheel (current incr : Z) : Prop :=
  current mod 6 = 5 /\ incr = 2 \/ current mod 6 = 1 /\ incr = 4.

Lemma wheel_next current incr :
  wheel current incr -> wheel (current + incr) (Z.lxor incr 6).
Proof.
  intros [[Hc ->]|[Hc ->]]; [right|left]; (split; [|done]).
  - rewrite <-Z.add_mod_idemp_l, Hc by lia. done.
  - rewrite <-Z.add_mod_idemp_l, Hc by lia. done.
Qed.

Lemma wheel_skips n current incr :
  wheel current incr -> 0 < current -> ~ (2 | n) -> ~ (3 | n) -> ~ (current | n) ->
  no_divisor_below n current -> no_divisor_below n (current + incr).
Proof.
  intros Hw Hpos H2 H3 Hc Hnd d Hd Hdiv.
  destruct (Z.lt_trichotomy d current) as [?|[->|?]]; [eapply (Hnd d); [lia|done]|done|].
  assert ((2 | d) \/ (3 | d)) as [Hd2|Hd3].
  { pose proof (Z.div_mod current 6 ltac:(lia)). unfold wheel in Hw.
    assert (d = 6 * (current / 6) + 6 \/ d = 6 * (current / 6) + 2 \/ d = 6 * (current / 6) + 3 \/
      d = 6 * (current / 6) + 4) as [->|[->|[->| ->]]] by lia.
    - left. exists (3 * (current / 6) + 3). lia.
    - left. exists (3 * (current / 6) + 1). lia.
    - right. exists (2 * (current / 6) + 1). lia.
    - left. exists (3 * (current / 6) + 2). lia. }
  - apply H2. by apply (Z.divide_trans _ d).
  - apply H3. by apply (Z.divide_trans _ d).
Qed.

Lemma is_prime_loop_spec fuel n upper current incr :
  3 < n -> n <= upper * upper -> 0 <= upper < n -> ~ (2 | n) -> ~ (3 | n) ->
  wheel current incr -> 5 <= current -> no_divisor_below n current ->
  upper - current + 2 <= Z.of_nat fuel -> 0 < Z.of_nat fuel ->
  exists b, is_prime_loop fuel n upper current incr = Some b /\ (b = true <-> prime n).
Proof.
  intros Hn Hsq Hup H2 H3. revert current incr.
  induction fuel as [|fuel IH]; intros current incr Hw Hc Hnd Hfuel Hpos; [lia|]. simpl.
  destruct (Z.leb_spec current upper) as [Hle|Hgt].
  - destruct (n mod current =? 0) eqn:Hmod.
    + apply mod_eqb_divide in Hmod; [|lia]. exists false. split; [done|]. split; [done|].
      intros Hp. exfalso. by apply (not_prime_divisor n current); [lia|..].
    + assert (~ (current | n)) by (rewrite <-mod_eqb_divide by lia; congruence).
      assert (2 <= incr) by (unfold wheel in Hw; lia).
      apply IH; [by apply wheel_next|lia|apply wheel_skips; auto; lia|lia|lia].
  - exists true. split; [done|]. split; [intros _|done].
    apply (prime_by_root n upper); [lia..|]. intros d Hd. apply Hnd. lia.
Qed.

Lemma upper_bound_root n :
  4 < n -> let upper := Z.shiftl 1 ((Z.log2_up n + 1) / 2) in n <= upper * upper /\ 0 < upper < n.
Proof.
  intros Hn. simpl. destruct (Z.log2_up_spec n ltac:(lia)) as [Hlo Hhi].
  pose proof (Z.log2_up_nonneg n) as Hk0. set (k := Z.log2_up n) in *. assert (3 <= k) as Hk.
  { destruct (Z.le_gt_cases 3 k); [done|]. assert (2 ^ k <= 2 ^ 2) by (apply Z.pow_le_mono_r; lia). lia. }
  pose proof (Z.div_mod (k + 1) 2 ltac:(lia)) as Hdiv.
  pose proof (Z.mod_pos_bound (k + 1) 2 ltac:(lia)) as Hmod.
  rewrite Z.shiftl_mul_pow2, Z.mul_1_l by lia.
  split.
  - rewrite <-Z.pow_add_r by lia. trans (2 ^ k); [done|]. apply Z.pow_le_mono_r; lia.
  - split; [apply Z.pow_pos_nonneg; lia|].
    assert (2 ^ ((k + 1) / 2) <= 2 ^ Z.pred k) by (apply Z.pow_le_mono_r; lia). lia.
Qed.

Lemma is_prime_spec n : exists b, is_prime n = Some b /\ (b = true <-> prime n).
Proof.
  unfold is_prime. destruct (Z.leb_spec n 1) as [H1|H1].
  { exists false. split; [done|]. split; [done|]. intros [? _]. lia. }
  destruct (Z.leb_spec n 3) as [H3|H3].
  { exists true. split; [done|]. split; [intros _|done].
    assert (n = 2 \/ n = 3) as [->| ->] by lia; [apply prime_2|apply prime_3]. }
  destruct (n mod 2 =? 0) eqn:E2; simpl.
  { apply mod_eqb_divide in E2; [|lia]. exists false. split; [done|]. split; [done|].
    intros Hp. exfalso. by apply (not_prime_divisor n 2); [lia|..]. }
  destruct (n mod 3 =? 0) eqn:E3; simpl.
  { apply mod_eqb_divide in E3; [|lia]. exists false. split; [done|]. split; [done|].
    intros Hp. exfalso. by apply (not_prime_divisor n 3); [lia|..]. }
  assert (~ (2 | n)) by (rewrite <-mod_eqb_divide by lia; congruence).
  assert (~ (3 | n)) by (rewrite <-mod_eqb_divide by lia; congruence).
  assert (n <> 4) by (intros ->; done).
  destruct (upper_bound_root n ltac:(lia)) as [Hsq Hup].
  apply is_prime_loop_spec; [lia..|done|done|by left|done| |lia|lia].
  intros d Hd. assert (d = 2 \/ d = 3 \/ d = 4) as [->|[->| ->]] by lia; [done..|].
  intros H4. apply (Z.divide_trans 2) in H4; [done|by exists 2].
Qed.

(** The primality test that guards the size of the table at compile time
    ends and is right for every number, and it accepts the default size. *)
Theorem is_prime_correct :
  (forall n, exists b, is_prime n = Some b /\ (b = true <-> prime n)) /\
  is_prime DEFAULT_TABLE_SIZE = Some true.
Proof. split; [exact is_prime_spec|by vm_compute]. Qed.

Lemma default_table_size_prime : prime DEFAULT_TABLE_SIZE.
Proof.
  destruct (is_prime_spec DEFAULT_TABLE_SIZE) as (b & Hb & Hp). apply Hp.
  assert (is_prime DEFAULT_TABLE_SIZE = Some true) as Ht by by vm_compute. congruence.
Qed.

(** ** Filling the table *)
Section table.
Context (T : Z).
Hypothesis T_prime : prime T.
(** The largest number of slots a permutation may have to try still fits. *)
Hypothesis T_small : T * (T * T + 1) <= 2 ^ 64.

Lemma T_ge_2 : 2 <= T.
Proof. destruct T_prime. lia. Qed.

Definition in_range (p : Permutation) : Prop := 0 <= offset p < T /\ 1 <= skip p < T.

(** The slot that a permutation tries at its step [k]. *)
Definition slot_at (p : Permutation) (k : Z) : Z := (offset p + skip p * k) mod T.

(** From any step on, the next [T] steps of a permutation visit every slot. *)
Lemma walk_visits p k j :
  in_range p -> 0 <= j < T -> exists i, 0 <= i < T /\ slot_at p (k + i) = j.
Proof.
  intros [Ho Hs] Hj. unfold slot_at.
  destruct (rel_prime_bezout _ _ (rel_prime_le_prime _ _ T_prime Hs)) as [u v Huv].
  exists ((u * (j - offset p) - k) mod T). split; [apply Z.mod_pos_bound; lia|].
  pose proof (Z.div_mod (u * (j - offset p) - k) T ltac:(lia)) as Hdm.
  set (q := (u * (j - offset p) - k) / T) in *. set (i := (u * (j - offset p) - k) mod T) in *.
  replace (offset p + skip p * (k + i)) with (j + (- v * (j - offset p) - skip p * q) * T).
  { rewrite Z.mod_add by lia. by apply Z.mod_small. }
  replace i with (u * (j - offset p) - k - T * q) by lia.
  transitivity (offset p + skip p * u * (j - offset p) - skip p * T * q); [|ring].
  replace (skip p * u) with (1 - v * T) by lia. ring.
Qed.

Definition same_walk (p p' : Permutation) : Prop :=
  offset p' = offset p /\ skip p' = skip p /\ weight p' = weight p /\
  current_weight p' = current_weight p /\ target_weight p' = target_weight p.

Lemma permutation_next_small p :
  in_range p -> 0 <= next p <= T * T ->
  exists p', permutation_next T p = (slot_at p (next p), p') /\
    same_walk p p' /\ next p' = next p + 1.
Proof.
  intros [Ho Hs] Hn. pose proof T_ge_2. unfold permutation_next, slot_at.
  rewrite (Z.mod_small (offset p + skip p * next p) (2 ^ 64)) by nia.
  rewrite (Z.mod_small (next p + 1) (2 ^ 64)) by nia.
  eexists. split; [done|]. by repeat split.
Qed.

(** If one of the next [n] slots is free, the item is put in a free slot. *)
Lemma place_finds n i p tb k :
  in_range p -> 0 <= next p -> next p + Z.of_nat n <= T * T ->
  0 <= k < Z.of_nat n -> slots tb !! Z.to_nat (slot_at p (next p + k)) = Some None ->
  exists p' j, place n T i p tb = (p', mk_builder (<[j := Some i]> (slots tb)) (size tb + 1)) /\
    slots tb !! j = Some None /\ same_walk p p' /\ next p <= next p' <= next p + Z.of_nat n.
Proof.
  revert p k. induction n as [|n IH]; intros p k Hr Hn0 Hn Hk Hfree; [lia|]. cbn [place].
  destruct (permutation_next_small p Hr ltac:(lia)) as (p1 & -> & Hw & Hn1).
  destruct (decide (slots tb !! Z.to_nat (slot_at p (next p)) = Some None)) as [Hslot|Hslot].
  { unfold try_update. rewrite Hslot. eexists _, _. split_and!; try done; lia. }
  assert (try_update tb (slot_at p (next p)) i = None) as ->.
  { unfold try_update. by repeat case_match. }
  destruct (decide (k = 0)) as [->|Hk0]; [by rewrite Z.add_0_r in Hfree|].
  unfold same_walk, in_range, slot_at in *.
  destruct (IH p1 (k - 1)) as (p' & j & -> & Hj & Hw' & Hn'); [intuition congruence|lia..| |].
  { rewrite Hn1. replace (next p + 1 + (k - 1)) with (next p + k) by lia. intuition congruence. }
  exists p', j. split_and!; try done; try lia; intuition congruence.
Qed.

(** *** One item *)

Definition filled (tb : TableBuilder) : nat := length (filter is_Some (slots tb)).
Definition entries (i : nat) (tb : TableBuilder) : nat := length (filter (.= Some i) (slots tb)).

Definition wf (tb : TableBuilder) : Prop :=
  length (slots tb) = Z.to_nat T /\ size tb = Z.of_nat (filled tb).

Lemma filled_le tb : wf tb -> size tb <= T.
Proof.
  intros [Hlen ->]. unfold filled. pose proof (length_filter is_Some (slots tb)).
  pose proof T_ge_2. lia.
Qed.

Lemma free_slot tb : wf tb -> size tb < T -> exists j, 0 <= j < T /\ slots tb !! Z.to_nat j = Some None.
Proof.
  intros [Hlen Hsize] Hlt.
  destruct (decide (Exists (λ s, s = None) (slots tb))) as [Hex|Hno].
  - apply Exists_exists in Hex as (s & Hin & ->). apply list_elem_of_lookup in Hin as [j Hj].
    exists (Z.of_nat j). rewrite Nat2Z.id. split; [|done]. apply lookup_lt_Some in Hj. lia.
  - exfalso. unfold filled in Hsize. rewrite filter_all in Hsize; [lia|].
    intros s Hs. apply not_eq_None_Some. intros ->. apply Hno, Exists_exists. eauto.
Qed.

Definition ready (b : Z) (p : Permutation) : Prop := in_range p /\ 0 <= next p <= b.

(** A permutation of the largest weight: it has enough weight at every turn. *)
Definition steady (p : Permutation) : Prop :=
  weight p = target_weight p /\ current_weight p = target_weight p /\
  F64.geb (F64.add (target_weight p) (target_weight p)) (target_weight p) = true /\
  F64.sub (F64.add (target_weight p) (target_weight p)) (target_weight p) = target_weight p.

Definition put (i j : nat) (tb : TableBuilder) : TableBuilder :=
  mk_builder (<[j := Some i]> (slots tb)) (size tb + 1).

Lemma put_wf i j tb : wf tb -> slots tb !! j = Some None -> wf (put i j tb).
Proof.
  intros [Hlen Hsize] Hj. unfold wf, filled, put. simpl. rewrite length_insert. split; [done|].
  pose proof (filter_length_insert is_Some (slots tb) j None (Some i) Hj) as Hc.
  rewrite decide_False in Hc by (by intros []). rewrite decide_True in Hc by done.
  rewrite Hsize. unfold filled. lia.
Qed.

Lemma put_entries i j tb i' :
  slots tb !! j = Some None ->
  entries i' (put i j tb) = (entries i' tb + if decide (i' = i) then 1 else 0)%nat.
Proof.
  intros Hj. unfold entries, put. simpl.
  pose proof (filter_length_insert (.= Some i') (slots tb) j None (Some i) Hj) as Hc.
  destruct (decide (i' = i)), (decide (None = Some i')), (decide (Some i = Some i')); simplify_eq;
    revert Hc; simpl; lia.
Qed.

Definition item_step (i : nat) (p : Permutation) (tb : TableBuilder) : Permutation * TableBuilder :=
  let '(enough, p) := has_enough_weight_after_iterating p in
  if enough then place (Z.to_nat T) T i p tb else (p, tb).

Lemma item_loop_cons i p ps tb :
  is_full T tb = false ->
  item_loop T i (p :: ps) tb =
  let '(p, tb) := item_step i p tb in
  let '(ps, tb, broke) := item_loop T (S i) ps tb in (p :: ps, tb, broke).
Proof.
  intros Hf. cbn [item_loop]. rewrite Hf. unfold item_step.
  by destruct (has_enough_weight_after_iterating p) as [[] ?].
Qed.

Lemma item_step_spec b i p tb :
  ready b p -> b + T <= T * T -> wf tb -> size tb < T ->
  exists p' tb', item_step i p tb = (p', tb') /\ ready (b + T) p' /\ wf tb' /\
    (steady p -> steady p') /\
    (tb' = tb /\ ~ steady p \/ exists j, slots tb !! j = Some None /\ tb' = put i j tb).
Proof.
  intros [Hr Hn] Hb Hwf Hsize. unfold item_step, has_enough_weight_after_iterating.
  pose proof T_ge_2. destruct (F64.geb _ _) eqn:Hgeb.
  - set (p1 := mk_permutation _ _ _ _ _ _).
    destruct (free_slot tb Hwf Hsize) as (j & Hj & Hfree).
    destruct (walk_visits p1 (next p1) j Hr Hj) as (k & Hk & Hslot).
    destruct (place_finds (Z.to_nat T) i p1 tb k) as (p' & j' & -> & Hj' & Hw & Hn').
    + done.
    + simpl. lia.
    + simpl. lia.
    + lia.
    + by rewrite Hslot.
    + exists p', (put i j' tb). split_and!; [done| |by apply put_wf| |by eauto].
      * unfold ready, in_range, same_walk in *. simpl in *. intuition (congruence || lia).
      * unfold steady, same_walk in *. simpl in Hw. intros (H1 & H2 & H3 & H4).
        destruct Hw as (_ & _ & -> & -> & ->). split_and!; try done. by rewrite H2, H1.
  - eexists _, _. split; [done|]. split_and!; [|done| |left; split; [done|]].
    + unfold ready, in_range in *. simpl. intuition lia.
    + unfold steady. simpl. intros (H1 & H2 & H3 & H4). rewrite H1, H2, H3 in Hgeb. done.
    + unfold steady. intros (H1 & H2 & H3 & H4). rewrite H1, H2, H3 in Hgeb. done.
Qed.

(** *** A turn of the outer loop *)

Definition below (n : nat) (tb : TableBuilder) : Prop :=
  Forall (λ s, forall v, s = Some v -> (v < n)%nat) (slots tb).

Lemma put_below n i j tb : below n tb -> (i < n)%nat -> below n (put i j tb).
Proof.
  intros Hb Hi. unfold below, put. simpl. apply Forall_insert; [done|]. by intros v [= <-].
Qed.

(** What a turn does: [k] items from [i] on were placed if all are steady. *)
Record turn_spec (b : Z) (n i : nat) (ps : list Permutation) (tb : TableBuilder)
    (ps' : list Permutation) (tb' : TableBuilder) (broke : bool) : Prop := {
  turn_ready : Forall (ready (b + T)) ps';
  turn_length : length ps' = length ps;
  turn_wf : wf tb';
  turn_below : below n tb';
  turn_grows : size tb <= size tb';
  turn_broke : broke = true -> T <= size tb';
  turn_progress : broke = false -> Exists steady ps -> size tb < size tb' /\ Exists steady ps';
  turn_even : Forall steady ps -> Forall steady ps' /\ exists k, (k <= length ps)%nat /\
    (broke = false -> k = length ps) /\
    forall i', entries i' tb' =
      (entries i' tb + if decide (i <= i' < i + k)%nat then 1 else 0)%nat;
}.

Lemma ready_mono b b' p : b <= b' -> ready b p -> ready b' p.
Proof. unfold ready. intuition lia. Qed.

Lemma turn_cons b n i p ps tb p1 tb1 ps' tb' broke :
  ready (b + T) p1 -> (steady p -> steady p1) ->
  (tb1 = tb /\ ~ steady p \/ exists j, slots tb !! j = Some None /\ tb1 = put i j tb) ->
  turn_spec b n (S i) ps tb1 ps' tb' broke ->
  turn_spec b n i (p :: ps) tb (p1 :: ps') tb' broke.
Proof.
  intros Hp1 Hst Hstep []. constructor; auto.
  - simpl. by f_equal.
  - destruct Hstep as [[-> _]|(j & _ & ->)]; simpl in *; lia.
  - intros Hb Hex. destruct Hstep as [[-> Hns]|(j & _ & ->)].
    + apply Exists_cons in Hex as [?|Hex]; [done|].
      destruct (turn_progress0 Hb Hex). split; [done|by right].
    + simpl in *. split; [lia|]. apply Exists_cons in Hex as [?|Hex]; [left; auto|].
      right. by apply turn_progress0.
  - intros [Hsp Hsps]%Forall_cons. destruct (turn_even0 Hsps) as (Hs' & k & Hk & Hkb & He).
    split; [by constructor; auto|]. exists (S k). simpl. split_and!; [lia|intros; f_equal; auto|].
    intros i'. rewrite He. destruct Hstep as [[_ ?]|(j & Hj & ->)]; [done|].
    rewrite put_entries by done. repeat case_decide; lia.
Qed.

Lemma item_loop_spec b n i ps tb :
  Forall (ready b) ps -> b + T <= T * T -> wf tb -> below n tb -> (i + length ps <= n)%nat ->
  exists ps' tb' broke, item_loop T i ps tb = (ps', tb', broke) /\
    turn_spec b n i ps tb ps' tb' broke.
Proof.
  intros Hps Hb. revert i tb. induction Hps as [|p ps Hp Hps IH]; intros i tb Hwf Hbe Hin.
  { exists [], tb, false. split; [done|]. constructor; try done.
    - intros _ Hex. by apply Exists_nil in Hex.
    - intros _. split; [done|]. exists 0%nat. split_and!; [done..|].
      intros i'. rewrite decide_False by lia. lia. }
  destruct (is_full T tb) eqn:Hfull.
  { exists (p :: ps), tb, true. split; [simpl; by rewrite Hfull|].
    apply Z.leb_le in Hfull. pose proof T_ge_2. constructor; try done.
    - apply (Forall_impl _ _ (p :: ps) (Forall_cons_2 _ _ _ Hp Hps)). intros q. apply ready_mono. lia.
    - intros Hst. split; [done|]. exists 0%nat. split_and!; [lia|done|].
      intros i'. rewrite decide_False by lia. lia. }
  rewrite item_loop_cons by done. apply Z.leb_gt in Hfull.
  destruct (item_step_spec b i p tb Hp Hb Hwf Hfull) as (p1 & tb1 & -> & Hp1 & Hwf1 & Hst & Hstep).
  simpl in Hin. destruct (IH (S i) tb1) as (ps' & tb' & broke & -> & Hturn); [done| |lia|].
  { destruct Hstep as [[-> _]|(j & _ & ->)]; [done|]. apply put_below; [done|lia]. }
  eexists _, _, _. split; [done|]. by apply (turn_cons b n i p ps tb p1 tb1).
Qed.

(** *** The whole loop *)

Lemma table_loop_fills m b n ps tb :
  Forall (ready b) ps -> b + Z.of_nat m * T <= T * T -> wf tb -> below n tb ->
  (length ps <= n)%nat ->
  wf (table_loop m T ps tb) /\ below n (table_loop m T ps tb) /\
  (Exists steady ps -> Z.min T (size tb + Z.of_nat m) <= size (table_loop m T ps tb)).
Proof.
  revert b ps tb. induction m as [|m IH]; intros b ps tb Hps Hb Hwf Hbe Hn; cbn [table_loop].
  { split_and!; [done..|]. lia. }
  destruct (item_loop_spec b n 0 ps tb) as (ps' & tb' & broke & -> & []); [done|pose proof T_ge_2; nia|done..|].
  destruct broke; [split_and!; [done..|]; intros _; specialize (turn_broke0 eq_refl); lia|].
  destruct (IH (b + T) ps' tb') as (H1 & H2 & H3); [done|nia|done|done|lia|].
  split_and!; [done..|]. intros Hex. destruct (turn_progress0 eq_refl Hex) as [? Hex'].
  specialize (H3 Hex'). lia.
Qed.

Lemma table_loop_even m b n ps tb r :
  Forall (ready b) ps -> b + Z.of_nat m * T <= T * T -> wf tb -> below n tb ->
  length ps = n -> Forall steady ps -> (forall i, (i < n)%nat -> entries i tb = r) ->
  exists r', forall i, (i < n)%nat ->
    (r' <= entries i (table_loop m T ps tb) <= r' + 1)%nat.
Proof.
  revert b ps tb r. induction m as [|m IH]; intros b ps tb r Hps Hb Hwf Hbe Hn Hst Hr; cbn [table_loop].
  { exists r. intros i Hi. rewrite Hr by done. lia. }
  destruct (item_loop_spec b n 0 ps tb) as (ps' & tb' & broke & -> & []); [done|pose proof T_ge_2; nia|done..|lia|].
  destruct (turn_even0 Hst) as (Hst' & k & Hk & Hkb & He). destruct broke.
  - exists r. intros i Hi. rewrite He, Hr by done. case_decide; lia.
  - apply (IH (b + T) ps' tb' (r + 1)%nat); [done|nia|done|done|lia|done|].
    intros i Hi. rewrite He, Hr, Hkb by done. rewrite decide_True by lia. done.
Qed.

(** *** From the items *)
Context {E : Type} `{EndpointWithAuthority E}.
Context (hash_one_with_seed : str → Z → Z).
Notation normalized := (normalized (E := E)).
Notation fill_table := (fill_table (E := E) hash_one_with_seed).

Lemma permutation_new_ready a w t : ready 0 (permutation_new hash_one_with_seed T a w t).
Proof.
  pose proof T_ge_2. unfold ready, in_range, permutation_new. simpl.
  pose proof (Z.mod_pos_bound (hash_one_with_seed a OFFSET_SEED) T ltac:(lia)).
  pose proof (Z.mod_pos_bound (hash_one_with_seed a SKIP_SEED) (T - 1) ltac:(lia)). lia.
Qed.

Lemma permutation_new_steady a w total :
  0 <= w < 2 ^ 53 -> 1 <= total < 2 ^ 53 ->
  let x := F64.div (F64.of_Z w) (F64.of_Z total) in
  steady (permutation_new hash_one_with_seed T a x x).
Proof. intros Hw Ht. simpl. destruct (F64Spec.share_exact w total Hw Ht). done. Qed.

Lemma builder_new_wf n : wf (builder_new T) /\ below n (builder_new T).
Proof.
  unfold wf, below, filled, builder_new. simpl. rewrite length_replicate. split; [split; [done|]|].
  - rewrite filter_none; [done|]. intros s [-> _]%elem_of_replicate. by intros [].
  - by apply Forall_replicate.
Qed.

Lemma entries_builder_new i : entries i (builder_new T) = 0%nat.
Proof.
  unfold entries, builder_new. simpl. rewrite filter_none; [done|].
  by intros s [-> _]%elem_of_replicate.
Qed.

Lemma fill_table_wf total l t :
  wf (fill_table T total l t) /\ below (length l) (fill_table T total l t).
Proof.
  destruct (builder_new_wf (length l)) as [Hwf Hbe]. unfold Maglev.fill_table. pose proof T_ge_2.
  destruct (table_loop_fills (Z.to_nat T) 0 (length l)
    ((λ it, permutation_new hash_one_with_seed T (authority (w_item it)) (normalized total it) t) <$> l)
    (builder_new T)) as (H1 & H2 & _); [|lia|done..|by rewrite length_fmap|done].
  apply Forall_fmap, Forall_true. intros it. apply permutation_new_ready.
Qed.

Definition u32_weights (l : list (WeightedItem E)) : Prop := Forall (λ it, Int.is_u32 (w_weight it)) l.

Lemma fill_table_full total l t :
  u32_weights l -> 1 <= total <= Int.u32_max -> t ∈ normalized total <$> l ->
  is_full T (fill_table T total l t) = true.
Proof.
  intros Hl Ht (it & -> & Hit)%list_elem_of_fmap. apply Z.leb_le. pose proof T_ge_2.
  destruct (builder_new_wf (length l)) as [Hwf Hbe]. unfold Maglev.fill_table.
  destruct (table_loop_fills (Z.to_nat T) 0 (length l)
    ((λ it', permutation_new hash_one_with_seed T (authority (w_item it')) (normalized total it')
       (normalized total it)) <$> l)
    (builder_new T)) as (_ & _ & H3); [|lia|done..|by rewrite length_fmap|].
  { apply Forall_fmap, Forall_true. intros it'. apply permutation_new_ready. }
  revert H3. rewrite Exists_fmap, Exists_exists. simpl (size (builder_new T)). intros H3.
  ospecialize (H3 _); [|lia]. exists it. split; [done|].
  unfold u32_weights in Hl. rewrite Forall_forall in Hl. specialize (Hl it Hit).
  apply permutation_new_steady; unfold Int.is_u32, Int.u32_max in *; lia.
Qed.

Lemma insert_by_authority_perm (x : WeightedItem E) l : insert_by_authority x l ≡ₚ x :: l.
Proof.
  induction l as [|y l IH]; simpl; [done|]. destruct (Str.bytes_le _ _); [done|]. rewrite IH. constructor.
Qed.

Lemma sort_by_authority_perm (l : list (WeightedItem E)) : sort_by_authority l ≡ₚ l.
Proof. induction l as [|x l IH]; simpl; [done|]. by rewrite insert_by_authority_perm, IH. Qed.

Lemma fold_max_elem l x : fold_left F64.max l x ∈ x :: l.
Proof.
  revert x. induction l as [|y l IH]; intros x; simpl; [set_solver|].
  assert (F64.max x y = x ∨ F64.max x y = y) as [-> | ->]; [|set_solver..].
  unfold F64.max. repeat case_match; auto.
Qed.

Lemma reduce_max_elem l t : reduce_max l = Some t → t ∈ l.
Proof. destruct l; simpl; [done|]. intros [= <-]. apply fold_max_elem. Qed.

(** What [with_size] keeps of the items. *)
Lemma with_size_items l :
  u32_weights l -> l <> [] ->
  let b := with_size hash_one_with_seed T l in
  let total := (take_checked l 0).2 in
  items b <> [] /\ u32_weights (items b) /\ (forall it, it ∈ items b -> it ∈ l) /\ Int.is_u32 total /\
  ((length (items b) = 1)%nat \/
   exists t, reduce_max (normalized total <$> items b) = Some t /\
     table b = build_table (fill_table T total (items b) t)).
Proof.
  intros Hl Hne. unfold with_size.
  pose proof (take_checked_spec l 0 Hl ltac:(unfold Int.is_u32, Int.u32_max; lia)) as Hspec.
  assert ((take_checked l 0).1 <> []) as Hne'.
  { destruct l as [|it l]; [done|]. simpl. apply Forall_cons in Hl as [Hit _].
    unfold Int.checked_add_u32. rewrite (proj2 (Z.leb_le _ _)) by (unfold Int.is_u32 in Hit; lia).
    by destruct (take_checked l _). }
  destruct (take_checked l 0) as [l' total]. destruct Hspec as (Hpre & _ & Htot). simpl in *.
  pose proof (sort_by_authority_perm l') as Hperm.
  split_and!; [|unfold u32_weights; rewrite Hperm| |done|].
  - intros E0. rewrite E0 in Hperm. by apply Permutation_nil_l in Hperm.
  - destruct Hpre as [k ->]. by apply Forall_app in Hl as [? _].
  - intros it. rewrite Hperm. destruct Hpre as [k ->]. set_solver.
  - destruct (sort_by_authority l') as [|x k] eqn:Es.
    { by apply Permutation_nil_l in Hperm. }
    case_bool_decide; [by left|]. right. rewrite fmap_cons. simpl. eauto.
Qed.

Lemma fill_table_lookup total l t k :
  (0 < length l)%nat ->
  exists i, build_table (fill_table T total l t) !! Z.to_nat (k mod T) = Some i /\ (i < length l)%nat.
Proof.
  intros Hl. destruct (fill_table_wf total l t) as [[Hlen _] Hbe]. pose proof T_ge_2.
  pose proof (Z.mod_pos_bound k T ltac:(lia)).
  destruct (lookup_lt_is_Some_2 (slots (fill_table T total l t)) (Z.to_nat (k mod T))) as [s Hs]; [lia|].
  unfold build_table. rewrite list_lookup_fmap, Hs. eexists. split; [done|].
  unfold below in Hbe. rewrite Forall_lookup in Hbe. specialize (Hbe _ _ Hs).
  destruct s; simpl; [auto|lia].
Qed.

Lemma maglev_next_some l random hash :
  u32_weights l -> l <> [] ->
  exists e, maglev_next_item random (with_size hash_one_with_seed T l) hash = Return (Some e) /\
    e ∈ w_item <$> l.
Proof.
  intros Hl Hne. destruct (with_size_items l Hl Hne) as (Hb & Hw & Hin & Htot & Hsize).
  set (b := with_size hash_one_with_seed T l) in *. unfold maglev_next_item.
  destruct (items b) as [|it k] eqn:Ei; [done|]. case_bool_decide as Hlen.
  { exists (w_item it). split; [done|]. apply list_elem_of_fmap_2, Hin. set_solver. }
  destruct Hsize as [?|(t & _ & Htable)]; [lia|]. pose proof T_ge_2.
  destruct (fill_table_wf (take_checked l 0).2 (it :: k) t) as [[Hslots _] _].
  assert (length (table b) = Z.to_nat T) as HT by (rewrite Htable; unfold build_table; by rewrite length_fmap).
  rewrite bool_decide_eq_false_2 by (intros E0; rewrite E0 in HT; simpl in HT; lia).
  rewrite HT, Z2Nat.id, Htable by lia.
  destruct (fill_table_lookup (take_checked l 0).2 (it :: k) t (default random hash)) as (i & -> & Hi);
    [simpl; lia|].
  destruct (lookup_lt_is_Some_2 (it :: k) i Hi) as [x Hx]. simpl. rewrite Hx. exists (w_item x).
  split; [done|]. apply list_elem_of_fmap_2, Hin. by apply list_elem_of_lookup_2 in Hx.
Qed.

(** C24: A Maglev table of prime size is filled completely by its construction
    unless all weights are zero, so the loops that look for a free slot never
    come back empty; and for every hash the balancer has an endpoint of those
    it was given. *)
Theorem maglev_fills l :
  u32_weights l -> l <> [] ->
  let b := with_size hash_one_with_seed T l in
  let total := (take_checked l 0).2 in
  (1 <= total -> forall t, reduce_max (normalized total <$> items b) = Some t ->
    is_full T (fill_table T total (items b) t) = true) /\
  forall random hash, exists e, maglev_next_item random b hash = Return (Some e) /\ e ∈ w_item <$> l.
Proof.
  intros Hl Hne b total. split; [|intros; by apply maglev_next_some].
  destruct (with_size_items l Hl Hne) as (_ & Hw & _ & Htot & _). fold b total in Hw, Htot.
  intros Ht t Hmax%reduce_max_elem. apply fill_table_full; [done| |done]. unfold Int.is_u32 in Htot. lia.
Qed.

Lemma full_slots tb : wf tb -> is_full T tb = true -> Forall is_Some (slots tb).
Proof.
  intros [Hlen Hsize] Hfull%Z.leb_le. rewrite Hsize in Hfull.
  assert (length (slots tb) <= filled tb)%nat as Hle by lia. clear -Hle. revert Hle. unfold filled.
  induction (slots tb) as [|s l IH]; [done|]. rewrite filter_cons.
  pose proof (length_filter is_Some l). case_decide; simpl; intros; [constructor; auto with lia|lia].
Qed.

Lemma full_entries tb i :
  wf tb -> is_full T tb = true -> length (filter (.= i) (build_table tb)) = entries i tb.
Proof.
  intros Hwf Hfull. pose proof (full_slots tb Hwf Hfull) as Hall. unfold build_table, entries.
  induction Hall as [|s l [v ->] Hall IH]; [done|]. rewrite fmap_cons, !filter_cons. simpl default.
  destruct (decide (v = i)) as [->|]; [rewrite decide_True by done; simpl; by f_equal|].
  by rewrite decide_False by congruence.
Qed.

Lemma fill_table_even total l x :
  u32_weights l -> 1 <= total <= Int.u32_max -> Forall (λ it, normalized total it = x) l -> l <> [] ->
  exists r, forall i, (i < length l)%nat ->
    (r <= length (filter (.= i) (build_table (fill_table T total l x))) <= r + 1)%nat.
Proof.
  intros Hl Ht Hx Hne. destruct (fill_table_wf total l x) as [Hwf _].
  assert (is_full T (fill_table T total l x) = true) as Hfull.
  { apply fill_table_full; [done..|]. destruct l as [|it l]; [done|].
    apply Forall_cons in Hx as [<- _]. rewrite fmap_cons. set_solver. }
  destruct (builder_new_wf (length l)) as [Hwf0 Hbe0].
  destruct (table_loop_even (Z.to_nat T) 0 (length l)
    ((λ it, permutation_new hash_one_with_seed T (authority (w_item it)) (normalized total it) x) <$> l)
    (builder_new T) 0) as [r Hr].
  - apply Forall_fmap, Forall_true. intros it. apply permutation_new_ready.
  - pose proof T_ge_2. lia.
  - done.
  - done.
  - by rewrite length_fmap.
  - apply Forall_fmap, Forall_forall. intros it Hit. unfold compose.
    unfold u32_weights in Hl. rewrite Forall_forall in Hl, Hx. specialize (Hl it Hit). rewrite <-(Hx it Hit).
    apply permutation_new_steady; unfold Int.is_u32, Int.u32_max in *; lia.
  - intros i _. apply entries_builder_new.
  - exists r. intros i Hi. rewrite full_entries by done. by apply Hr.
Qed.

Lemma total_positive (l : list (WeightedItem E)) w :
  Forall (λ it, w_weight it = w) l -> 1 <= w <= Int.u32_max -> l <> [] -> 1 <= (take_checked l 0).2.
Proof.
  intros Hl Hw Hne. assert (u32_weights l) as Hu.
  { eapply Forall_impl; [done|]. simpl. intros it ->. unfold Int.is_u32. lia. }
  pose proof (take_checked_spec l 0 Hu ltac:(unfold Int.is_u32, Int.u32_max; lia)) as Hspec.
  destruct l as [|it l]; [done|]. apply Forall_cons in Hl as [Hit Hl]. simpl in *.
  unfold Int.checked_add_u32 in *. rewrite Hit, (proj2 (Z.leb_le (0 + w) _)) in * by lia.
  destruct (take_checked l _) as [l' t]. destruct Hspec as (Hpre & -> & _).
  rewrite fmap_cons. simpl. enough (0 <= zsum (w_weight <$> l')) by (unfold zsum in *; lia).
  apply prefix_cons_inv_2 in Hpre as [k ->]. apply Forall_app in Hl as [Hl _].
  clear -Hl Hw. induction Hl; [done|]. rewrite fmap_cons. simpl. unfold zsum in *. lia.
Qed.

(** With equal weights no endpoint has two entries more in a Maglev table
    than another. *)
Theorem maglev_even l w i j :
  Forall (λ it, w_weight it = w) l -> 1 <= w <= Int.u32_max ->
  let b := with_size hash_one_with_seed T l in
  (i < length (items b))%nat -> (j < length (items b))%nat ->
  (length (filter (.= i) (table b)) <= length (filter (.= j) (table b)) + 1)%nat.
Proof.
  intros Hl Hw b Hi Hj. destruct (decide (l = [])) as [->|Hne]; [simpl in Hi; lia|].
  pose proof (total_positive l w Hl Hw Hne) as Hpos.
  destruct (with_size_items l) as (Hb & Hu & Hin & Htot & Hsize); [|done|].
  { eapply Forall_impl; [done|]. simpl. intros it ->. unfold Int.is_u32. lia. }
  fold b in Hb, Hu, Hin, Hsize. set (total := (take_checked l 0).2) in *.
  destruct Hsize as [?|(t & Hmax & Htable)]; [replace i with j by lia; lia|].
  assert (Forall (λ it, normalized total it = F64.div (F64.of_Z w) (F64.of_Z total)) (items b)) as Hx.
  { rewrite Forall_forall in Hl |- *. intros it Hit. unfold Maglev.normalized. by rewrite (Hl it) by auto. }
  assert (t = F64.div (F64.of_Z w) (F64.of_Z total)) as ->.
  { apply reduce_max_elem, list_elem_of_fmap in Hmax as (it & -> & Hit).
    rewrite Forall_forall in Hx. by apply Hx. }
  destruct (fill_table_even total (items b) _ Hu ltac:(unfold Int.is_u32 in Htot; lia) Hx Hb) as [r Hr].
  rewrite Htable. pose proof (Hr i Hi). pose proof (Hr j Hj). lia.
Qed.
End table.

(** ** The interface of the balancers *)
Section interface.
Context {E : Type} `{EndpointWithAuthority E, WeightedEndpoint E}.
Context (hash_one_with_seed : str → Z → Z) (random : Z).
Notation from_iter := (maglev_from_iter (E := E) hash_one_with_seed).

Definition maglev_balancer : Balancer (MaglevBalancer E) E := λ b h,
  (match maglev_next_item random b h with Return a => a | Panic => None end, b).
Definition maglev_build : BalancerBuild (MaglevBalancer E) E :=
  {| balancer_default := from_iter []; balancer_from_iter := from_iter |}.
#[local] Existing Instances maglev_balancer maglev_build.

Lemma with_size_sub T l it : it ∈ items (with_size (E := E) hash_one_with_seed T l) -> it ∈ l.
Proof.
  unfold with_size. pose proof (take_checked_sub l 0 it) as Hsub.
  destruct (take_checked l 0) as [l' total]. simpl in *. by rewrite sort_by_authority_perm.
Qed.

#[refine] Definition maglev_laws : BalancerLaws (MaglevBalancer E) E :=
  {| serves b l := b = from_iter l |}.
Proof.
  - done.
  - done.
  - by intros b l h ->.
  - intros b l h e ->. unfold next_item, maglev_balancer, maglev_next_item. simpl.
    assert (forall it, it ∈ items (from_iter l) -> w_item it ∈ l) as Hin.
    { intros it Hit%with_size_sub. apply list_elem_of_fmap in Hit as (e' & -> & ?). done. }
    case_bool_decide.
    + destruct (items (from_iter l)) as [|it k]; simpl; [done|]. intros [= <-]. apply Hin. set_solver.
    + case_bool_decide; [done|]. rewrite bind_Some. intros (i & _ & (it & Hit & ->)%fmap_Some).
      apply Hin. by apply list_elem_of_lookup_2 in Hit.
Defined.

Lemma maglev_answers : @BalancerAnswers _ _ _ _ maglev_laws _.
Proof.
  intros b l h -> Hne Hw. unfold next_item, maglev_balancer, maglev_from_iter, maglev_new.
  destruct (maglev_next_some DEFAULT_TABLE_SIZE default_table_size_prime
    ltac:(unfold DEFAULT_TABLE_SIZE; lia) hash_one_with_seed
    ((λ e, weighted_new (endpoint_weight e) e) <$> l) random h) as (e & -> & _); [..|by eexists].
  - unfold u32_weights. by apply Forall_fmap.
  - by destruct l.
Qed.
End interface.

(** ** Three endpoints *)

#[local] Instance name_authority : EndpointWithAuthority str := λ a, a.

(** A hash for the examples: the sum of the bytes, spread by the seed. *)
Definition sum_hash (a : str) (seed : Z) : Z :=
  zsum ((λ c, Z.of_N (Ascii.N_of_ascii c)) <$> a) * (31 + seed) + seed.

Definition three : list (WeightedItem str) :=
  [weighted_new 1 (lit "c:80"); weighted_new 1 (lit "A:80"); weighted_new 1 (lit "b:80")].

Lemma maglev_fills_witness :
  u32_weights three /\
  exists e, maglev_next_item 0 (with_size sum_hash DEFAULT_TABLE_SIZE three) (Some 42) = Return (Some e) /\
    e ∈ w_item <$> three.
Proof.
  assert (u32_weights three) as Hu by (repeat constructor; simpl; unfold Int.u32_max; lia).
  split; [exact Hu|].
  destruct (maglev_fills DEFAULT_TABLE_SIZE default_table_size_prime ltac:(unfold DEFAULT_TABLE_SIZE; lia)
    sum_hash three Hu ltac:(done)) as [_ H].
  apply H.
Defined.

Lemma maglev_even_witness :
  table (with_size sum_hash 7 three) = [1; 0; 0; 1; 0; 2; 2]%nat /\
  (length (filter (.= 0%nat) (table (with_size sum_hash 7 three))) <=
   length (filter (.= 1%nat) (table (with_size sum_hash 7 three))) + 1)%nat.
Proof.
  split; [vm_compute; reflexivity|].
  apply (maglev_even 7 ltac:(apply prime_alt; split; [lia|]; intros k Hk [c Hc];
      assert (k = 2 \/ k = 3 \/ k = 4 \/ k = 5 \/ k = 6) by lia; lia) ltac:(lia)
    sum_hash three 1 0 1).
  - by repeat constructor.
  - unfold Int.u32_max. lia.
  - vm_compute. lia.
  - vm_compute. lia.
Defined.
End MaglevSpec.
