(* ===== verification/TokenBucket.v ===== *)
(** The token bucket of the local rate limits
    (arion-lib/src/listeners/rate_limiter/token_bucket.rs and
    local_rate_limiter.rs): the operations, the bucket shared by threads, and
    the rate it enforces. *)

From stdpp Require Import relations.
From S2P Require Import Prelude.
Local Open Scope Z_scope.

Module TokenBucket.

(** ** Durations and instants

    A [Duration] and an [Instant] are numbers of nanoseconds; an instant is
    that of [CLOCK_MONOTONIC], whose seconds are an [i64]. *)

Definition nanos_per_sec : Z := 10 ^ 9.
Definition duration_max : Z := 2 ^ 64 * nanos_per_sec - 1.
Definition instant_min : Z := - 2 ^ 63 * nanos_per_sec.
Definition instant_max : Z := 2 ^ 63 * nanos_per_sec - 1.

Definition duration_checked_mul (d n : Z) : option Z := if d * n <=? duration_max then Some (d * n) else None.

(** [Duration * u32] and [Duration / u32] panic on an overflow and on zero. *)
Definition duration_mul (d n : Z) : outcome Z :=
  match duration_checked_mul d n with Some d => Return d | None => Panic end.
Definition duration_div (d n : Z) : outcome Z := if n =? 0 then Panic else Return (d / n).

Definition instant_checked_sub (t d : Z) : option Z := if instant_min <=? t - d then Some (t - d) else None.

(** [Instant + Duration] panics on an overflow. *)
Definition instant_add (t d : Z) : outcome Z := if t + d <=? instant_max then Return (t + d) else Panic.

(** ** The bucket *)

Record TokenBucket : Type := mk_bucket {
  time : Z;
  time_per_token : Z;
  time_per_bucket : Z;
  max_tokens : Z;
}.

Inductive TokenBucketError : Type := ZeroRate | ZeroCapacity.

(** [now] is the time at which the bucket is made. *)
Definition bucket_new (max_tokens tokens_per_fill fill_interval now : Z) : outcome TokenBucket :=
  total ← duration_mul fill_interval max_tokens;
  time_per_bucket ← duration_div total tokens_per_fill;
  twice ← duration_mul time_per_bucket 2;
  time_per_token ← duration_div fill_interval tokens_per_fill;
  Return (mk_bucket (default now (instant_checked_sub now twice)) time_per_token time_per_bucket max_tokens).

Definition with_rate_and_capacity (max_tokens events_per_second now : Z)
    : result TokenBucketError (outcome TokenBucket) :=
  if max_tokens =? 0 then Err ZeroCapacity
  else if events_per_second =? 0 then Err ZeroRate
  else
    Ok (fill_interval ← duration_div nanos_per_sec events_per_second;
        bucket_new max_tokens 1 fill_interval now).

(** The body of the loop of [consume] up to the exchange: the new time, or
    nothing if the bucket does not hold the tokens. *)
Definition attempt (old_time min_time req_fill_period now : Z) : outcome (option Z) :=
  let new_time := if old_time <? min_time then min_time else old_time in
  new_time ← instant_add new_time req_fill_period;
  Return (if now <? new_time then None else Some new_time).

Definition min_time (b : TokenBucket) (now : Z) : Z :=
  default now (instant_checked_sub now (time_per_bucket b)).

(** [consume] by a thread that is alone: the exchange can only fail
    spuriously, and is then repeated with the same values. *)
Definition consume (b : TokenBucket) (now tokens : Z) : outcome (bool * TokenBucket) :=
  req_fill_period ← duration_mul (time_per_token b) tokens;
  new_time ← attempt (time b) (min_time b now) req_fill_period now;
  Return (match new_time with
          | None => (false, b)
          | Some t => (true, mk_bucket t (time_per_token b) (time_per_bucket b) (max_tokens b))
          end).

Definition capacity (b : TokenBucket) : Z := max_tokens b.

(** [size] divides by the time per token, which panics if that is zero; the
    quotient is cast to [usize]. *)
Definition size (b : TokenBucket) (now : Z) : outcome Z :=
  if now <? time b then Return 0
  else if time_per_token b =? 0 then Panic
  else
    let n := ((now - time b) / time_per_token b) mod 2 ^ 64 in
    Return (if max_tokens b <? n then max_tokens b else n).

(** ** The rate limit filters *)

(** [num_runtimes] is that of the running configuration, an [u16]. *)
Definition build_token_bucket (num_runtimes max_tokens tokens_per_fill fill_interval now : Z)
    : outcome TokenBucket :=
  let fill_interval := default fill_interval (duration_checked_mul fill_interval num_runtimes) in
  bucket_new max_tokens tokens_per_fill fill_interval now.

Inductive FilterDecision : Type :=
  | Continue
  | DirectResponse (status : Z).

Record LocalRateLimit : Type := mk_limit {
  status : Z;
  token_bucket : option TokenBucket;
}.

Definition local_rate_limit_run (l : LocalRateLimit) (now : Z) : outcome (FilterDecision * LocalRateLimit) :=
  match token_bucket l with
  | Some b =>
    '(granted, b) ← consume b now 1;
    let l := mk_limit (status l) (Some b) in
    Return (if granted : bool then (Continue, l) else (DirectResponse (status l), l))
  | None => Return (Continue, l)
  end.

(** ** Threads

    A thread in [consume] has read the clock, or is in the loop with the time
    it loaded last.  One step is one access to the shared time; the clock
    advances between steps.  [granted] records the tokens given out. *)

Inductive thread : Type :=
  | Reading (tokens now : Z)
  | Looping (tokens req_fill_period now min_time old_time : Z).

Record machine : Type := mk_machine {
  bucket : TokenBucket;
  clock : Z;
  threads : gmap nat thread;
  granted : list Z;
}.

Definition set_time (b : TokenBucket) (t : Z) : TokenBucket :=
  mk_bucket t (time_per_token b) (time_per_bucket b) (max_tokens b).

Inductive step : machine → machine → Prop :=
  | Tick m c : clock m <= c → step m (mk_machine (bucket m) c (threads m) (granted m))
  | Call m i tokens :
      threads m !! i = None → 0 <= tokens →
      step m (mk_machine (bucket m) (clock m) (<[i := Reading tokens (clock m)]> (threads m)) (granted m))
  | Load m i tokens now req :
      threads m !! i = Some (Reading tokens now) →
      duration_mul (time_per_token (bucket m)) tokens = Return req →
      step m (mk_machine (bucket m) (clock m)
        (<[i := Looping tokens req now (min_time (bucket m) now) (time (bucket m))]> (threads m)) (granted m))
  | Deny m i tokens req now mt old :
      threads m !! i = Some (Looping tokens req now mt old) →
      attempt old mt req now = Return None →
      step m (mk_machine (bucket m) (clock m) (delete i (threads m)) (granted m))
  | ExchangeOk m i tokens req now mt new :
      threads m !! i = Some (Looping tokens req now mt (time (bucket m))) →
      attempt (time (bucket m)) mt req now = Return (Some new) →
      step m (mk_machine (set_time (bucket m) new) (clock m) (delete i (threads m)) (tokens :: granted m))
  | ExchangeFail m i tokens req now mt old new :
      threads m !! i = Some (Looping tokens req now mt old) →
      attempt old mt req now = Return (Some new) →
      step m (mk_machine (bucket m) (clock m)
        (<[i := Looping tokens req now mt (time (bucket m))]> (threads m)) (granted m))
  | Unwind m i t :
      threads m !! i = Some t →
      step m (mk_machine (bucket m) (clock m) (delete i (threads m)) (granted m)).
End TokenBucket.

(** The token bucket enforces its rate under any interleaving of the threads
    that share it, and without contention it is a bucket with a level. *)

Import TokenBucket.

Module TokenBucketSpec.

(** ** The rate *)

Lemma attempt_Some old mt req now new :
  attempt old mt req now = Return (Some new) -> new = Z.max old mt + req /\ new <= now.
Proof.
  unfold attempt, instant_add.
  destruct (Z.ltb_spec old mt); destruct (_ <=? instant_max); simpl; intros [= Hnew]; try done.
  all: match type of Hnew with context [Z.ltb ?a ?b] => destruct (Z.ltb_spec a b) end.
  all: simplify_eq; lia.
Qed.

Lemma duration_mul_Return d n r : duration_mul d n = Return r -> r = d * n.
Proof.
  unfold duration_mul, duration_checked_mul. destruct (_ <=? _); simpl; congruence.
Qed.

Section rate.
(** The machine at the start of an interval, with nobody in [consume]. *)
Context (m0 : machine).
Hypothesis idle : threads m0 = ∅.
Hypothesis fresh : granted m0 = [].
Hypothesis bucket_nonneg : 0 <= time_per_bucket (bucket m0).

Definition thread_ok (m : machine) (t : thread) : Prop :=
  match t with
  | Reading _ now => clock m0 <= now <= clock m
  | Looping tokens req now mt _ =>
    clock m0 <= now <= clock m /\ now - time_per_bucket (bucket m0) <= mt /\
    req = time_per_token (bucket m0) * tokens
  end.

Record rate_inv (m : machine) : Prop := {
  inv_per_token : time_per_token (bucket m) = time_per_token (bucket m0);
  inv_per_bucket : time_per_bucket (bucket m) = time_per_bucket (bucket m0);
  inv_clock : clock m0 <= clock m;
  inv_threads : map_Forall (λ _, thread_ok m) (threads m);
  inv_granted : granted m = [] \/
    clock m0 - time_per_bucket (bucket m0) + time_per_token (bucket m0) * zsum (granted m)
      <= time (bucket m) <= clock m;
}.

Lemma rate_inv_init : rate_inv m0.
Proof. constructor; try done; [rewrite idle; apply map_Forall_empty|by left]. Qed.

Lemma thread_ok_later m m' t : clock m <= clock m' -> thread_ok m t -> thread_ok m' t.
Proof. destruct t; simpl; lia. Qed.

(** A step that leaves the bucket alone keeps the invariant if the threads do. *)
Lemma rate_inv_threads m ts :
  rate_inv m -> map_Forall (λ _, thread_ok m) ts ->
  rate_inv (mk_machine (bucket m) (clock m) ts (granted m)).
Proof. intros [] Hts. by constructor. Qed.

Lemma min_time_lower m now :
  rate_inv m -> now - time_per_bucket (bucket m0) <= min_time (bucket m) now.
Proof.
  intros []. unfold min_time, instant_checked_sub. rewrite inv_per_bucket0.
  destruct (_ <=? _); simpl; lia.
Qed.

Lemma rate_inv_exchange m i tokens req now mt new :
  rate_inv m -> threads m !! i = Some (Looping tokens req now mt (time (bucket m))) ->
  attempt (time (bucket m)) mt req now = Return (Some new) ->
  rate_inv (mk_machine (set_time (bucket m) new) (clock m) (delete i (threads m)) (tokens :: granted m)).
Proof.
  intros [] Hi [-> Hnow]%attempt_Some. destruct (inv_threads0 i _ Hi) as (Hclock & Hmt & ->).
  constructor; simpl; try done; [by apply map_Forall_delete|].
  right. change (zsum (tokens :: granted m)) with (tokens + zsum (granted m)).
  destruct inv_granted0 as [->|Hg]; simpl; lia.
Qed.

Lemma rate_inv_step m m' : rate_inv m -> step m m' -> rate_inv m'.
Proof.
  intros Hinv Hstep. pose proof Hinv as [].
  destruct Hstep as [m c Hc|m i tokens Hi|m i tokens now req Hi Hreq|m i tokens req now mt old Hi Ha
    |m i tokens req now mt new Hi Ha|m i tokens req now mt old new Hi Ha|m i t Hi].
  - constructor; simpl; try done; [lia| |destruct inv_granted0; [by left|right; lia]].
    intros i t Hi. by apply (thread_ok_later m), (inv_threads0 i).
  - apply rate_inv_threads; [done|]. apply map_Forall_insert_2; [simpl; lia|done].
  - apply rate_inv_threads; [done|]. apply map_Forall_insert_2; [|done].
    specialize (inv_threads0 i _ Hi). apply duration_mul_Return in Hreq. simpl in *.
    pose proof (min_time_lower m now Hinv). rewrite Hreq, inv_per_token0. lia.
  - apply rate_inv_threads; [done|]. by apply map_Forall_delete.
  - by apply (rate_inv_exchange m i tokens req now mt).
  - apply rate_inv_threads; [done|]. apply map_Forall_insert_2; [|done].
    exact (inv_threads0 i _ Hi).
  - apply rate_inv_threads; [done|]. by apply map_Forall_delete.
Qed.

End rate.

Definition example_bucket : TokenBucket := mk_bucket 60 10 20 2.

Definition example_start : machine := mk_machine example_bucket 100 ∅ [].

(** One step of a concrete run, with the next machine evaluated. *)
Ltac run_step tac :=
  eapply rtc_l; [tac|];
  lazymatch goal with
  | |- rtc step ?m _ => let m' := eval vm_compute in m in replace m with m' by (vm_compute; reflexivity)
  end.

(** Two threads ask at once: one empties the bucket, the exchange of the other
    fails and it is then denied; later a third one gets the next token. *)
Lemma example_run :
  exists m, rtc step example_start m /\ granted m = [1; 2] /\ clock m = 110.
Proof.
  eexists. split_and!.
  { run_step ltac:(apply (Call _ 0%nat 2); [done|lia]).
    run_step ltac:(apply (Call _ 1%nat 1); [done|lia]).
    run_step ltac:(eapply (Load _ 0%nat); reflexivity).
    run_step ltac:(eapply (Load _ 1%nat); reflexivity).
    run_step ltac:(eapply (ExchangeOk _ 0%nat); reflexivity).
    run_step ltac:(eapply (ExchangeFail _ 1%nat); reflexivity).
    run_step ltac:(eapply (Deny _ 1%nat); reflexivity).
    run_step ltac:(apply (Tick _ 110); simpl; lia).
    run_step ltac:(apply (Call _ 2%nat 1); [done|lia]).
    run_step ltac:(eapply (Load _ 2%nat); reflexivity).
    run_step ltac:(eapply (ExchangeOk _ 2%nat); reflexivity).
    apply rtc_refl. }
  all: reflexivity.
Qed.


(** ** Without contention *)

(** A bucket with a level, in nanoseconds of credit. *)
Record level_bucket : Type := mk_level { level : Z; filled_at : Z }.

Definition pour (cap : Z) (a : level_bucket) (now : Z) : Z :=
  Z.min cap (level a + (now - filled_at a)).

Definition spend (cap per : Z) (a : level_bucket) (now tokens : Z) : bool * level_bucket :=
  let l := pour cap a now in
  if per * tokens <=? l then (true, mk_level (l - per * tokens) now) else (false, mk_level l now).

(** Calls in sequence, each at its time. *)
Fixpoint consume_all (b : TokenBucket) (calls : list (Z * Z)) : outcome (list bool) :=
  match calls with
  | [] => Return []
  | (now, tokens) :: calls =>
    '(r, b) ← consume b now tokens;
    rs ← consume_all b calls; Return (r :: rs)
  end.

Fixpoint spend_all (cap per : Z) (a : level_bucket) (calls : list (Z * Z)) : list bool :=
  match calls with
  | [] => []
  | (now, tokens) :: calls =>
    let '(r, a) := spend cap per a now tokens in r :: spend_all cap per a calls
  end.

(** The clock does not go back, and the times are far from the ends of the
    representable ones. *)
Definition call_ok (cap per : Z) (call : Z * Z) : Prop :=
  0 <= call.2 /\ per * call.2 <= duration_max /\
  instant_min + 2 * cap <= call.1 /\ call.1 + per * call.2 <= instant_max.

Fixpoint in_order (t : Z) (calls : list (Z * Z)) : Prop :=
  match calls with [] => True | (now, _) :: calls => t <= now /\ in_order now calls end.

Definition represents (b : TokenBucket) (a : level_bucket) : Prop :=
  level a = Z.min (time_per_bucket b) (filled_at a - time b) /\ time b <= filled_at a.

Lemma consume_spend b a now tokens :
  represents b a -> filled_at a <= now -> 0 <= time_per_bucket b -> 0 <= time_per_token b ->
  call_ok (time_per_bucket b) (time_per_token b) (now, tokens) ->
  let '(r, a') := spend (time_per_bucket b) (time_per_token b) a now tokens in
  exists b', consume b now tokens = Return (r, b') /\ represents b' a' /\ filled_at a' = now /\
    time_per_bucket b' = time_per_bucket b /\ time_per_token b' = time_per_token b.
Proof.
  intros [Hl Ht] Hnow Hcap Hper (Htok & Hdur & Hlo & Hhi). simpl in *.
  unfold spend, pour, consume, min_time, duration_mul, duration_checked_mul, instant_checked_sub.
  rewrite (proj2 (Z.leb_le (time_per_token b * tokens) duration_max)) by done.
  rewrite (proj2 (Z.leb_le instant_min (now - time_per_bucket b))) by lia. simpl.
  unfold attempt, instant_add. set (req := time_per_token b * tokens) in *.
  assert (0 <= req) by (unfold req; nia).
  set (new := if time b <? now - time_per_bucket b then now - time_per_bucket b else time b).
  assert (now - new = Z.min (time_per_bucket b) (level a + (now - filled_at a))) as Hnew.
  { unfold new. destruct (Z.ltb_spec (time b) (now - time_per_bucket b)); lia. }
  rewrite (proj2 (Z.leb_le (new + req) instant_max)) by lia. simpl.
  destruct (Z.leb_spec req (Z.min (time_per_bucket b) (level a + (now - filled_at a)))).
  - rewrite (proj2 (Z.ltb_ge now (new + req))) by lia. eexists. split; [done|].
    unfold represents. simpl. split_and!; try done; lia.
  - rewrite (proj2 (Z.ltb_lt now (new + req))) by lia. eexists. split; [done|].
    unfold represents. simpl. split_and!; try done; lia.
Qed.

Lemma consume_all_spend_all b a calls :
  represents b a -> 0 <= time_per_bucket b -> 0 <= time_per_token b ->
  in_order (filled_at a) calls -> Forall (call_ok (time_per_bucket b) (time_per_token b)) calls ->
  consume_all b calls = Return (spend_all (time_per_bucket b) (time_per_token b) a calls).
Proof.
  intros Hrep Hcap Hper Hord Hok. revert a b Hrep Hcap Hper Hord Hok.
  induction calls as [|[now tokens] calls IH]; intros a b Hrep Hcap Hper Hord Hok; [done|].
  destruct Hord as [Hnow Hord].
  apply Forall_cons in Hok as [Hc Hok]. cbn [consume_all spend_all].
  pose proof (consume_spend b a now tokens Hrep Hnow Hcap Hper Hc) as Hstep.
  destruct (spend _ _ a now tokens) as [r a'].
  destruct Hstep as (b' & -> & Hrep' & Hfill & Hb & Ht). simpl. rewrite <-Hb, <-Ht in Hok |- *.
  by rewrite (IH a') by (congruence || lia).
Qed.

Lemma bucket_new_Return max tpf fill now b :
  bucket_new max tpf fill now = Return b -> 0 <= max -> 0 <= fill -> 0 <= tpf ->
  0 < tpf /\ time_per_token b = fill / tpf /\ time_per_bucket b = fill * max / tpf /\
  max_tokens b = max /\ time b = default now (instant_checked_sub now (2 * time_per_bucket b)).
Proof.
  intros Hnew Hmax Hfill Htpf. unfold bucket_new in Hnew.
  destruct (duration_mul fill max) as [total|] eqn:E1; [|done]. apply duration_mul_Return in E1 as ->.
  unfold duration_div in Hnew. cbn [mbind outcome_bind] in Hnew.
  destruct (Z.eqb_spec tpf 0); [done|]. cbn [mbind outcome_bind] in Hnew.
  destruct (duration_mul (fill * max / tpf) 2) as [twice|] eqn:E2; [|done].
  apply duration_mul_Return in E2 as ->. cbn [mbind outcome_bind] in Hnew. injection Hnew as <-.
  cbn [time_per_token time_per_bucket max_tokens time].
  split_and!; [lia|done..|]. do 2 f_equal. lia.
Qed.

(** Called by one thread at a time, a bucket is a reservoir of credit: it
    starts full, fills with the passing time up to its capacity, and a request
    is granted exactly when the credit covers it, which it then uses up. *)
Theorem consume_refines max tpf fill now b calls :
  0 <= max -> 0 <= fill -> 0 <= tpf -> bucket_new max tpf fill now = Return b ->
  let cap := fill * max / tpf in
  let per := fill / tpf in
  instant_min + 2 * cap <= now -> in_order now calls -> Forall (call_ok cap per) calls ->
  consume_all b calls = Return (spend_all cap per (mk_level cap now) calls).
Proof.
  intros Hmax Hfill Htpf Hnew cap per Hnow Hord Hok.
  destruct (bucket_new_Return _ _ _ _ _ Hnew Hmax Hfill Htpf) as (Htpf' & Ht & Hb & _ & Htime).
  fold cap in Hb. fold per in Ht. assert (0 <= cap) by (apply Z.div_pos; [nia|lia]).
  assert (0 <= per) by (apply Z.div_pos; lia).
  rewrite <-Hb, <-Ht in *. apply consume_all_spend_all; [|done..].
  unfold represents, instant_checked_sub in *. rewrite Htime. simpl.
  rewrite (proj2 (Z.leb_le _ _)) by lia. simpl. lia.
Qed.

(** Two tokens per second, at most three: a burst, a refusal, a refill. *)
Definition example_calls : list (Z * Z) := [(0, 3); (0, 1); (500000000, 1); (10000000000, 4)].

Lemma consume_refines_witness :
  let b := mk_bucket (-3000000000) 500000000 1500000000 3 in
  let cap := nanos_per_sec * 3 / 2 in
  let per := nanos_per_sec / 2 in
  bucket_new 3 2 nanos_per_sec 0 = Return b /\
  consume_all b example_calls = Return (spend_all cap per (mk_level cap 0) example_calls) /\
  spend_all cap per (mk_level cap 0) example_calls = [true; false; true; false].
Proof.
  intros b cap per. split; [reflexivity|]. split; [|reflexivity].
  apply (consume_refines 3 2 nanos_per_sec 0 b example_calls).
  - lia.
  - unfold nanos_per_sec. lia.
  - lia.
  - reflexivity.
  - vm_compute. congruence.
  - simpl. lia.
  - repeat constructor; vm_compute; congruence.
Defined.
End TokenBucketSpec.
