(* ===== verification/CircuitBreaker.v ===== *)
(** Circuit breakers (arion-lib/src/clusters/circuit_breaker.rs), their use
    through the map of clusters (clusters_manager.rs), the permits
    (http_upstream.rs) and the connections (transport/tcp_channel.rs) that
    hold their slots. *)

From stdpp Require Import relations.
From S2P Require Import Prelude.
Local Open Scope Z_scope.

Module CircuitBreaker.

(** ** Counters and thresholds *)

Inductive RoutingPriority : Type := Default | High.

#[export] Instance RoutingPriority_eq_dec : EqDecision RoutingPriority.
Proof. solve_decision. Defined.

(** The three resources that a breaker counts; also the reason of a denial. *)
Inductive CircuitBreakerDenial : Type := MaxConnections | MaxRequests | MaxRetries.

#[export] Instance CircuitBreakerDenial_eq_dec : EqDecision CircuitBreakerDenial.
Proof. solve_decision. Defined.

Record CircuitBreakerThresholds : Type := mk_thresholds {
  priority : RoutingPriority;
  max_connections : Z;
  max_requests : Z;
  max_retries : Z;
}.

Definition thresholds_default : CircuitBreakerThresholds := mk_thresholds Default 1024 1024 3.

Definition max_of (t : CircuitBreakerThresholds) (k : CircuitBreakerDenial) : Z :=
  match k with
  | MaxConnections => max_connections t
  | MaxRequests => max_requests t
  | MaxRetries => max_retries t
  end.

Record CircuitBreakerCounters : Type := mk_counters {
  active_requests : Z;
  active_retries : Z;
  active_connections : Z;
}.

Definition counters_new : CircuitBreakerCounters := mk_counters 0 0 0.

Definition counter (c : CircuitBreakerCounters) (k : CircuitBreakerDenial) : Z :=
  match k with
  | MaxConnections => active_connections c
  | MaxRequests => active_requests c
  | MaxRetries => active_retries c
  end.

Definition set_counter (c : CircuitBreakerCounters) (k : CircuitBreakerDenial) (v : Z)
    : CircuitBreakerCounters :=
  match k with
  | MaxConnections => mk_counters (active_requests c) (active_retries c) v
  | MaxRequests => mk_counters v (active_retries c) (active_connections c)
  | MaxRetries => mk_counters (active_requests c) v (active_connections c)
  end.

(** [AtomicU32::fetch_add(1)] and [fetch_sub(1)]: the content before, and the
    counters after. *)
Definition fetch_add (c : CircuitBreakerCounters) (k : CircuitBreakerDenial) : Z * CircuitBreakerCounters :=
  (counter c k, set_counter c k (Int.wrapping_incr 32 (counter c k))).
Definition fetch_sub (c : CircuitBreakerCounters) (k : CircuitBreakerDenial) : CircuitBreakerCounters :=
  set_counter c k (Int.wrapping_decr 32 (counter c k)).

(** ** Breakers

    The counters are shared ([Arc]): a breaker has their addresses in a heap. *)

Notation heap := (gmap nat CircuitBreakerCounters).

Record PriorityCircuitBreakerState : Type := mk_state {
  thresholds : CircuitBreakerThresholds;
  counters : nat;
}.

Record ClusterCircuitBreaker : Type := mk_breaker {
  default_priority : PriorityCircuitBreakerState;
  high_priority : PriorityCircuitBreakerState;
}.

Definition get_state (cb : ClusterCircuitBreaker) (p : RoutingPriority) : PriorityCircuitBreakerState :=
  match p with Default => default_priority cb | High => high_priority cb end.

(** [try_increment_connections], [try_increment_requests] and
    [try_increment_retries], without another thread in between. *)
Definition try_increment (h : heap) (cb : ClusterCircuitBreaker) (p : RoutingPriority)
    (k : CircuitBreakerDenial) : result CircuitBreakerDenial () * heap :=
  let state := get_state cb p in
  let c := default counters_new (h !! counters state) in
  let '(prev, c) := fetch_add c k in
  if max_of (thresholds state) k <=? prev
  then (Err k, <[counters state := fetch_sub c k]> h)
  else (Ok (), <[counters state := c]> h).

(** [decrement_connections], [decrement_requests] and [decrement_retries]. *)
Definition decrement (h : heap) (cb : ClusterCircuitBreaker) (p : RoutingPriority)
    (k : CircuitBreakerDenial) : heap :=
  let state := get_state cb p in
  <[counters state := fetch_sub (default counters_new (h !! counters state)) k]> h.

(** [iter().rfind(..).cloned().unwrap_or_default()]. *)
Definition find_thresholds (config : list CircuitBreakerThresholds) (p : RoutingPriority)
    : CircuitBreakerThresholds :=
  default thresholds_default (find (λ t, bool_decide (priority t = p)) (reverse config)).

(** ** The map of clusters *)

(** A cluster is its circuit breaker, if it has one; [fresh] is the next free
    address of the heap. *)
Record manager : Type := mk_manager {
  cells : heap;
  fresh : nat;
  clusters : gmap str (option ClusterCircuitBreaker);
}.

(** [From<&CircuitBreakers>] followed by [with_counters]: the counters of the
    cluster that is replaced are kept, and are new without one. *)
Definition build_breaker (m : manager) (config : list CircuitBreakerThresholds)
    (shared : option (nat * nat)) : manager * ClusterCircuitBreaker :=
  match shared with
  | Some (d, h) =>
    (m, mk_breaker (mk_state (find_thresholds config Default) d) (mk_state (find_thresholds config High) h))
  | None =>
    let d := fresh m in
    let h := S (fresh m) in
    (mk_manager (<[h := counters_new]> (<[d := counters_new]> (cells m))) (S (S (fresh m))) (clusters m),
     mk_breaker (mk_state (find_thresholds config Default) d) (mk_state (find_thresholds config High) h))
  end.

Definition add_cluster (m : manager) (name : str) (config : option (list CircuitBreakerThresholds)) : manager :=
  let shared :=
    cb ← (clusters m !! name) ≫= id;
    Some (counters (default_priority cb), counters (high_priority cb)) in
  match config with
  | None => mk_manager (cells m) (fresh m) (<[name := None]> (clusters m))
  | Some config =>
    let '(m, cb) := build_breaker m config shared in
    mk_manager (cells m) (fresh m) (<[name := Some cb]> (clusters m))
  end.

Definition remove_cluster (m : manager) (name : str) : option manager :=
  match clusters m !! name with
  | None => None
  | Some _ => Some (mk_manager (cells m) (fresh m) (delete name (clusters m)))
  end.

Definition manager_try_increment (m : manager) (name : str) (p : RoutingPriority) (k : CircuitBreakerDenial)
    : result CircuitBreakerDenial () * manager :=
  match (clusters m !! name) ≫= id with
  | Some cb => let '(r, h) := try_increment (cells m) cb p k in (r, mk_manager h (fresh m) (clusters m))
  | None => (Ok (), m)
  end.

Definition manager_decrement (m : manager) (name : str) (p : RoutingPriority) (k : CircuitBreakerDenial)
    : manager :=
  match (clusters m !! name) ≫= id with
  | Some cb => mk_manager (decrement (cells m) cb p k) (fresh m) (clusters m)
  | None => m
  end.

(** ** Who holds the slots *)

(** [RequestPermit] and [RetryCircuitBreakerPermit]: acquired with
    [manager_try_increment], released when dropped. *)
Record permit : Type := mk_permit {
  cluster_id : str;
  permit_priority : RoutingPriority;
  permit_kind : CircuitBreakerDenial;
}.

Definition acquire (m : manager) (name : str) (p : RoutingPriority) (k : CircuitBreakerDenial)
    : result CircuitBreakerDenial permit * manager :=
  let '(r, m) := manager_try_increment m name p k in
  ((λ _, mk_permit name p k) <$> r, m).

Definition drop_permit (m : manager) (p : permit) : manager :=
  manager_decrement m (cluster_id p) (permit_priority p) (permit_kind p).

(** How an attempt to connect to a TCP upstream ends: the socket fails, or the
    proxy header or the TLS handshake on the open stream, or neither. *)
Inductive connect_end : Type := SocketFails | SetupFails | Connected.

(** [TcpChannelConnector::connect] on a socket.  Once the stream is there its
    drop function gives the slot back, also when the setup fails and the
    stream is dropped; the error path then decrements as well. *)
Definition tcp_connect (m : manager) (name : str) (e : connect_end)
    : result CircuitBreakerDenial bool * manager :=
  match manager_try_increment m name Default MaxConnections with
  | (Err d, m) => (Err d, m)
  | (Ok _, m) =>
    let decrement_connections m := manager_decrement m name Default MaxConnections in
    match e with
    | SocketFails => (Ok false, decrement_connections m)
    | SetupFails => (Ok false, decrement_connections (decrement_connections m))
    | Connected => (Ok true, m)
    end
  end.

(** ** Threads on one breaker

    One step is one access to an atomic counter.  A thread that was admitted
    holds a slot; one that was not is about to take its increment back. *)

Inductive slot : Type := Holding | Backing.

#[export] Instance slot_eq_dec : EqDecision slot.
Proof. solve_decision. Defined.

Record breaker_machine : Type := mk_breaker_machine {
  cell : RoutingPriority → CircuitBreakerCounters;
  threads : gmap nat (RoutingPriority * CircuitBreakerDenial * slot);
}.

Definition set_cell (f : RoutingPriority → CircuitBreakerCounters) (p : RoutingPriority)
    (c : CircuitBreakerCounters) : RoutingPriority → CircuitBreakerCounters :=
  λ q, if decide (q = p) then c else f q.

Inductive breaker_step (limits : RoutingPriority → CircuitBreakerThresholds)
    : breaker_machine → breaker_machine → Prop :=
  | Increment m i p k prev c :
      threads m !! i = None →
      fetch_add (cell m p) k = (prev, c) →
      breaker_step limits m (mk_breaker_machine (set_cell (cell m) p c)
        (<[i := (p, k, if max_of (limits p) k <=? prev then Backing else Holding)]> (threads m)))
  | Decrement m i p k s :
      threads m !! i = Some (p, k, s) →
      breaker_step limits m (mk_breaker_machine (set_cell (cell m) p (fetch_sub (cell m p) k))
        (delete i (threads m))).
End CircuitBreaker.

(** Circuit breakers: the limits hold under any interleaving, permits are
    balanced as long as the cluster keeps a breaker, and two ways in which the
    counters lose their meaning. *)

Import CircuitBreaker.

Module CircuitBreakerSpec.

Lemma counter_set c k v k' : counter (set_counter c k v) k' = if decide (k' = k) then v else counter c k'.
Proof. by destruct k, k'. Qed.

Definition in_flight (m : breaker_machine) (p : RoutingPriority) (k : CircuitBreakerDenial) : nat :=
  number (λ x, x.1 = (p, k)) (threads m).

Definition holding (m : breaker_machine) (p : RoutingPriority) (k : CircuitBreakerDenial) : nat :=
  number (.= (p, k, Holding)) (threads m).

(** Fewer threads than an [u32] can count. *)
Definition bounded_step limits (m m' : breaker_machine) : Prop :=
  breaker_step limits m m' /\ Z.of_nat (size (threads m')) < 2 ^ 32.

Section bound.
Context (limits : RoutingPriority → CircuitBreakerThresholds).

Record breaker_inv (m : breaker_machine) : Prop := {
  inv_counter : forall p k, counter (cell m p) k = Z.of_nat (in_flight m p k);
  inv_limit : forall p k, Z.of_nat (holding m p k) <= Z.max 0 (max_of (limits p) k);
  inv_size : Z.of_nat (size (threads m)) < 2 ^ 32;
}.

Lemma holding_le_in_flight m p k : (holding m p k <= in_flight m p k)%nat.
Proof.
  unfold holding, in_flight, number. apply map_subseteq_size, map_filter_subseteq_ext.
  intros i x _. simpl. by intros ->.
Qed.

Lemma breaker_inv_step m m' : breaker_inv m -> bounded_step limits m m' -> breaker_inv m'.
Proof.
  intros [Hc Hl Hs] [Hstep Hs']. destruct Hstep as [m i p k prev c Hi Hadd|m i p k s Hi].
  - injection Hadd as <- <-. split; [| |done]; intros p' k'.
    + unfold in_flight, set_cell. simpl. rewrite number_insert by done. simpl.
      destruct (decide (p' = p)) as [->|Hp].
      * rewrite counter_set. destruct (decide (k' = k)) as [->|Hk].
        -- rewrite decide_True by done. rewrite Hc, Int.wrapping_incr_small; [unfold in_flight; lia|lia|].
           assert (in_flight m p k <= size (threads m))%nat by apply number_le. simpl in Hs'.
           rewrite map_size_insert_None in Hs' by done. lia.
        -- rewrite decide_False by congruence. apply Hc.
      * rewrite decide_False by congruence. apply Hc.
    + unfold holding. simpl. rewrite number_insert by done. simpl. specialize (Hl p' k').
      case_decide as Heq; [|exact Hl]. unfold holding in Hl. simplify_eq.
      destruct (Z.leb_spec (max_of (limits p') k') (counter (cell m p') k')) as [|Hlt]; [done|].
      rewrite Hc in Hlt. pose proof (holding_le_in_flight m p' k') as Hle. unfold holding in Hle. lia.
  - split; [| |done]; intros p' k'.
    + unfold in_flight, set_cell, fetch_sub. simpl. specialize (Hc p' k').
      unfold in_flight in Hc. rewrite (number_delete _ (threads m) i (p, k, s) Hi) in Hc. simpl in Hc.
      destruct (decide (p' = p)) as [->|Hp]; [|by rewrite decide_False in Hc by congruence].
      rewrite counter_set. destruct (decide (k' = k)) as [->|Hk].
      * rewrite decide_True in Hc by done. rewrite Hc, Int.wrapping_decr_small; [lia|lia|].
        pose proof (number_le (λ x, x.1 = (p, k)) (delete i (threads m))) as Hle.
        rewrite map_size_delete_Some in Hle by eauto.
        assert (size (threads m) ≠ 0)%nat by (apply map_size_ne_0_lookup; eauto). lia.
      * by rewrite decide_False in Hc by congruence.
    + unfold holding. simpl. specialize (Hl p' k'). unfold holding in Hl.
      rewrite (number_delete _ (threads m) i (p, k, s) Hi) in Hl. lia.
Qed.

End bound.


(** ** Permits

    Permits of a cluster that always has a breaker. *)

Inductive op : Type :=
  | Acquire (p : RoutingPriority) (k : CircuitBreakerDenial)
  | Release (i : nat)
  | Reconfigure (config : list CircuitBreakerThresholds).

Definition perform (name : str) (s : manager * list permit) (o : op) : manager * list permit :=
  let '(m, held) := s in
  match o with
  | Acquire p k =>
    match acquire m name p k with
    | (Ok permit, m) => (m, permit :: held)
    | (Err _, m) => (m, held)
    end
  | Release i =>
    match held !! i with Some permit => (drop_permit m permit, delete i held) | None => (m, held) end
  | Reconfigure config => (add_cluster m name (Some config), held)
  end.

Definition held_of (held : list permit) (p : RoutingPriority) (k : CircuitBreakerDenial) : nat :=
  length (filter (λ x, permit_priority x = p ∧ permit_kind x = k) held).

Definition config_ok (config : list CircuitBreakerThresholds) : Prop :=
  Forall (λ t, forall k, max_of t k <= Int.u32_max) config.

Section permits.
Context (name : str).

Record balanced (s : manager * list permit) (cb : ClusterCircuitBreaker) : Prop := {
  bal_cluster : clusters s.1 !! name = Some (Some cb);
  bal_distinct : counters (default_priority cb) <> counters (high_priority cb);
  bal_limits : forall p k, max_of (thresholds (get_state cb p)) k <= Int.u32_max;
  bal_count : forall p, exists c, cells s.1 !! counters (get_state cb p) = Some c /\
    forall k, counter c k = Z.of_nat (held_of s.2 p k);
  bal_u32 : forall p k, Z.of_nat (held_of s.2 p k) <= Int.u32_max;
  bal_name : Forall (λ x, cluster_id x = name) s.2;
}.

Lemma find_thresholds_ok config p k : config_ok config -> max_of (find_thresholds config p) k <= Int.u32_max.
Proof.
  intros Hc. unfold find_thresholds. destruct (find _ (reverse config)) as [t|] eqn:Ef.
  - apply find_Some in Ef as (l1 & l2 & Hrev & _). unfold config_ok in Hc. rewrite Forall_forall in Hc.
    apply Hc. rewrite <-(reverse_involutive config), Hrev, elem_of_reverse. set_solver.
  - unfold Int.u32_max. destruct k; simpl; lia.
Qed.

Lemma get_state_other cb p q :
  counters (default_priority cb) <> counters (high_priority cb) -> p <> q ->
  counters (get_state cb p) <> counters (get_state cb q).
Proof. by destruct p, q; simpl; auto. Qed.

Lemma balanced_update m held held' cb p c :
  balanced (m, held) cb -> Forall (λ x, cluster_id x = name) held' ->
  (forall k, counter c k = Z.of_nat (held_of held' p k)) ->
  (forall q k, q <> p -> held_of held' q k = held_of held q k) ->
  (forall k, Z.of_nat (held_of held' p k) <= Int.u32_max) ->
  balanced (mk_manager (<[counters (get_state cb p) := c]> (cells m)) (fresh m) (clusters m), held') cb.
Proof.
  intros [Hcl Hd Hlim Hcnt Hu _] Hname Hc Hother Hu'. split; try done; simpl in *.
  - intros q. destruct (decide (q = p)) as [->|Hq].
    + exists c. by rewrite lookup_insert_eq.
    + destruct (Hcnt q) as (c' & Hc' & Hk). exists c'.
      rewrite lookup_insert_ne by (apply get_state_other; auto). split; [done|].
      intros k. by rewrite Hother.
  - intros q k. destruct (decide (q = p)) as [->|Hq]; [done|]. by rewrite Hother.
Qed.

Lemma held_of_cons x held p k :
  held_of (x :: held) p k =
  ((if decide (permit_priority x = p ∧ permit_kind x = k) then 1 else 0) + held_of held p k)%nat.
Proof. unfold held_of. rewrite filter_cons. by case_decide. Qed.

Lemma held_of_delete held i x p k :
  held !! i = Some x -> held_of held p k =
  ((if decide (permit_priority x = p ∧ permit_kind x = k) then 1 else 0) + held_of (delete i held) p k)%nat.
Proof.
  intros Hi. rewrite <-held_of_cons. unfold held_of. rewrite (delete_Permutation held i x Hi) at 1. done.
Qed.

Lemma wrapping_there_and_back n :
  0 <= n <= Int.u32_max -> Int.wrapping_decr 32 (Int.wrapping_incr 32 n) = n.
Proof.
  intros Hn. unfold Int.wrapping_decr, Int.wrapping_incr. rewrite Zminus_mod_idemp_l.
  replace (n + 1 - 1) with n by lia. apply Z.mod_small. unfold Int.u32_max in Hn. lia.
Qed.

(** A slot is given exactly when the permits that are held are fewer than the
    limit, and the balance is kept. *)
Lemma acquire_balanced m held cb p k :
  balanced (m, held) cb ->
  if Z.of_nat (held_of held p k) <? max_of (thresholds (get_state cb p)) k
  then exists m', acquire m name p k = (Ok (mk_permit name p k), m') /\
    balanced (m', mk_permit name p k :: held) cb
  else exists m', acquire m name p k = (Err k, m') /\ balanced (m', held) cb.
Proof.
  intros Hbal. pose proof Hbal as [Hcl Hd Hlim Hcnt Hu Hname]. simpl in *.
  destruct (Hcnt p) as (c & Hc & Hk).
  unfold acquire, manager_try_increment, try_increment. rewrite Hcl. simpl. rewrite Hc. simpl.
  rewrite Hk. specialize (Hlim p k).
  destruct (Z.ltb_spec (Z.of_nat (held_of held p k)) (max_of (thresholds (get_state cb p)) k)) as [Hlt|Hge].
  - rewrite (proj2 (Z.leb_gt _ _)) by done. eexists. split; [done|].
    apply (balanced_update _ held); [done|by constructor|..].
    + intros k'. rewrite counter_set, held_of_cons, Hk. simpl. destruct (decide (k' = k)) as [->|Hne].
      * rewrite decide_True by done. rewrite Int.wrapping_incr_small; unfold Int.u32_max in *; lia.
      * rewrite decide_False by (intros []; congruence). done.
    + intros q k' Hq. rewrite held_of_cons. simpl. by rewrite decide_False by (intros []; congruence).
    + intros k'. rewrite held_of_cons. simpl. specialize (Hu p k'). case_decide as Heq; [|done].
      destruct Heq as [_ ->]. lia.
  - rewrite (proj2 (Z.leb_le _ _)) by done. eexists. split; [done|].
    apply (balanced_update _ held); [done|done| |done|exact (Hu p)].
    intros k'. unfold fetch_sub. rewrite !counter_set.
    destruct (decide (k' = k)) as [->|Hne]; [rewrite decide_True by done|apply Hk].
    apply wrapping_there_and_back. specialize (Hu p k). lia.
Qed.

Lemma release_balanced m held cb i x :
  balanced (m, held) cb -> held !! i = Some x -> balanced (drop_permit m x, delete i held) cb.
Proof.
  intros Hbal Hi. pose proof Hbal as [Hcl Hd Hlim Hcnt Hu Hname]. simpl in *.
  assert (cluster_id x = name) as Hx by (rewrite Forall_lookup in Hname; eauto).
  unfold drop_permit, manager_decrement, decrement. rewrite Hx, Hcl. simpl.
  destruct (Hcnt (permit_priority x)) as (c & Hc & Hk). rewrite Hc. simpl.
  apply (balanced_update _ held); [done|by apply Forall_delete|..].
  - intros k'. unfold fetch_sub. rewrite counter_set. specialize (Hu (permit_priority x)).
    rewrite !Hk. rewrite (held_of_delete held i x) by done.
    destruct (decide (k' = permit_kind x)) as [->|Hne].
    + specialize (Hu (permit_kind x)). rewrite (held_of_delete held i x) in Hu by done.
      rewrite decide_True in * by done. rewrite Int.wrapping_decr_small; unfold Int.u32_max in *; lia.
    + rewrite (held_of_delete held i x _ k') by done. by rewrite decide_False by (intros []; congruence).
  - intros q k' Hq. rewrite (held_of_delete held i x q k') by done.
    by rewrite decide_False by (intros []; congruence).
  - intros k'. specialize (Hu (permit_priority x) k'). rewrite (held_of_delete held i x) in Hu by done. lia.
Qed.

Definition op_ok (o : op) : Prop := match o with Reconfigure config => config_ok config | _ => True end.

Lemma reconfigure_balanced m held cb config :
  balanced (m, held) cb -> config_ok config ->
  exists cb', balanced (add_cluster m name (Some config), held) cb'.
Proof.
  intros [Hcl Hd Hlim Hcnt Hu Hname] Hc. simpl in *. unfold add_cluster. rewrite Hcl. simpl.
  eexists. split; simpl; [by rewrite lookup_insert_eq|done| | |done|done].
  - intros p k. destruct p; apply (find_thresholds_ok config _ k Hc).
  - intros p. specialize (Hcnt p). by destruct p.
Qed.

Lemma add_cluster_balanced m config :
  clusters m !! name = None -> config_ok config ->
  exists cb, balanced (add_cluster m name (Some config), []) cb.
Proof.
  intros Hcl Hc. unfold add_cluster. rewrite Hcl. simpl.
  eexists. split; simpl; [by rewrite lookup_insert_eq|simpl; lia| | |done|done].
  - intros p k. destruct p; apply (find_thresholds_ok config _ k Hc).
  - intros p. exists counters_new. split; [|by intros []].
    destruct p; simpl; [rewrite lookup_insert_ne by lia|]; by rewrite lookup_insert_eq.
Qed.

Lemma perform_balanced s cb o :
  balanced s cb -> op_ok o -> exists cb', balanced (perform name s o) cb'.
Proof.
  destruct s as [m held]. intros Hbal Ho. destruct o as [p k|i|config]; simpl.
  - pose proof (acquire_balanced m held cb p k Hbal) as Ha.
    destruct (_ <? _); destruct Ha as (m' & -> & ?); eauto.
  - destruct (held !! i) as [x|] eqn:Hi; [|by eauto]. exists cb. by apply release_balanced.
  - by apply (reconfigure_balanced m held cb).
Qed.

Lemma run_balanced ops s cb :
  balanced s cb -> Forall op_ok ops -> exists cb', balanced (fold_left (perform name) ops s) cb'.
Proof.
  intros Hbal Hops. revert s cb Hbal. induction Hops as [|o ops Ho Hops IH]; intros s cb Hbal; [by eauto|].
  simpl. destruct (perform_balanced s cb o Hbal Ho) as [cb' Hbal']. by apply (IH _ cb').
Qed.

(** For a cluster that has a circuit breaker from the start, and through
    any sequence of acquisitions, releases and replacements of the cluster by
    one with a breaker, a slot is given exactly when the permits that are held
    are fewer than the current limit. *)
Theorem permits_balanced m0 config ops :
  clusters m0 !! name = None -> config_ok config -> Forall op_ok ops ->
  let '(m, held) := fold_left (perform name) ops (add_cluster m0 name (Some config), []) in
  exists cb, clusters m !! name = Some (Some cb) /\ forall p k,
    (acquire m name p k).1 =
    if Z.of_nat (held_of held p k) <? max_of (thresholds (get_state cb p)) k
    then Ok (mk_permit name p k) else Err k.
Proof.
  intros Hm0 Hc Hops. destruct (add_cluster_balanced m0 config Hm0 Hc) as [cb0 Hbal0].
  destruct (run_balanced ops _ cb0 Hbal0 Hops) as [cb Hbal].
  destruct (fold_left (perform name) ops _) as [m held]. exists cb. split; [apply Hbal|].
  intros p k. pose proof (acquire_balanced m held cb p k Hbal) as Ha.
  destruct (_ <? _); by destruct Ha as (m' & -> & _).
Qed.
End permits.

Definition no_clusters : manager := mk_manager ∅ 0 ∅.
Definition one_request : list CircuitBreakerThresholds := [mk_thresholds Default 1 1 1].

Definition example_ops : list op :=
  [Acquire Default MaxRequests; Reconfigure one_request; Acquire Default MaxRequests].

Lemma permits_balanced_witness :
  let s := fold_left (perform (lit "a")) example_ops
    (add_cluster no_clusters (lit "a") (Some one_request), []) in
  length s.2 = 1%nat /\
  exists cb, clusters s.1 !! lit "a" = Some (Some cb) /\ forall p k,
    (acquire s.1 (lit "a") p k).1 =
    if Z.of_nat (held_of s.2 p k) <? max_of (thresholds (get_state cb p)) k
    then Ok (mk_permit (lit "a") p k) else Err k.
Proof.
  assert (config_ok one_request) as Hok.
  { repeat constructor. intros []; unfold Int.u32_max; simpl; lia. }
  assert (Forall op_ok example_ops) as Hops.
  { unfold example_ops. rewrite !Forall_cons, Forall_nil. by split_and!. }
  intros s. split; [vm_compute; reflexivity|].
  pose proof (permits_balanced (lit "a") no_clusters one_request example_ops eq_refl Hok Hops) as H.
  fold s in H. by destruct s as [m held].
Defined.

(** What a counter of a cluster reads. *)
Definition reading (m : manager) (name : str) (p : RoutingPriority) (k : CircuitBreakerDenial) : option Z :=
  cb ← (clusters m !! name) ≫= id;
  c ← cells m !! counters (get_state cb p); Some (counter c k).

(** A request that is under way while its cluster is replaced by one with
    a circuit breaker gives back a slot that it never had: the counter wraps
    around, and from then on requests are denied, which leaves it as it is. *)
Theorem breaker_added_in_flight :
  let name := lit "a" in
  let before := add_cluster no_clusters name None in
  let permit := mk_permit name Default MaxRequests in
  let after := drop_permit (add_cluster before name (Some one_request)) permit in
  (acquire before name Default MaxRequests).1 = Ok permit /\
  reading after name Default MaxRequests = Some Int.u32_max /\
  (acquire after name Default MaxRequests).1 = Err MaxRequests /\
  reading (acquire after name Default MaxRequests).2 name Default MaxRequests = Some Int.u32_max.
Proof. split_and!; vm_compute; reflexivity. Qed.

(** A TCP connection whose TLS handshake or proxy header fails gives its
    slot back twice: the counter of connections wraps around, and from then on
    connections are denied, which leaves it as it is. *)
Theorem setup_failure_releases_twice :
  let name := lit "a" in
  let before := add_cluster no_clusters name (Some one_request) in
  let after := (tcp_connect before name SetupFails).2 in
  (tcp_connect before name SetupFails).1 = Ok false /\
  reading after name Default MaxConnections = Some Int.u32_max /\
  (tcp_connect after name Connected).1 = Err MaxConnections /\
  reading (tcp_connect after name Connected).2 name Default MaxConnections = Some Int.u32_max.
Proof. split_and!; vm_compute; reflexivity. Qed.
End CircuitBreakerSpec.
