(* ===== verification/ConnectionLimit.v ===== *)
(** The connection limit of a filter chain
    (arion-lib/src/listeners/rate_limiter/connection_limit.rs). *)

From stdpp Require Import relations.
From S2P Require Import Prelude.
Local Open Scope Z_scope.

Module ConnectionLimit.

(** The counts of all filter chains, by listener and filter chain; limits of
    one filter chain share one. *)
Notation counts := (gmap (str * Z) Z).

Record NetworkConnectionLimit : Type := mk_limit {
  key : str * Z;
  max_connections : Z;
  delay : option Z;
}.

(** [From<(InternedStr, u64, ConnectionLimitConfig)>]: [get_or_insert_with]. *)
Definition limit_new (c : counts) (listener_name : str) (filterchain_id max_connections : Z) (delay : option Z)
    : NetworkConnectionLimit * counts :=
  let key := (listener_name, filterchain_id) in
  (mk_limit key max_connections delay, match c !! key with Some _ => c | None => <[key := 0]> c end).

(** [check] by a task that is alone: a guard, or nothing after the delay. *)
Definition check (l : NetworkConnectionLimit) (c : counts) : bool * counts :=
  let current := default 0 (c !! key l) in
  if max_connections l <=? current then (false, c)
  else (true, <[key l := Int.wrapping_incr 64 current]> c).

(** [Drop for ConnectionGuard]. *)
Definition drop_guard (l : NetworkConnectionLimit) (c : counts) : counts :=
  <[key l := Int.wrapping_decr 64 (default 0 (c !! key l))]> c.

(** ** Tasks

    [check] loads the count and adds to it later.  A task is past the load, or
    has a guard; a task that is rejected ends. *)

Inductive task : Type := Passed | Guarded.

#[export] Instance task_eq_dec : EqDecision task.
Proof. solve_decision. Defined.

Record limit_machine : Type := mk_limit_machine {
  active : Z;
  tasks : gmap nat task;
}.

Inductive limit_step (max : Z) : limit_machine → limit_machine → Prop :=
  | LoadBelow m i :
      tasks m !! i = None → active m < max →
      limit_step max m (mk_limit_machine (active m) (<[i := Passed]> (tasks m)))
  | LoadReject m : max <= active m → limit_step max m m
  | Add m i :
      tasks m !! i = Some Passed →
      limit_step max m (mk_limit_machine (Int.wrapping_incr 64 (active m)) (<[i := Guarded]> (tasks m)))
  | Close m i :
      tasks m !! i = Some Guarded →
      limit_step max m (mk_limit_machine (Int.wrapping_decr 64 (active m)) (delete i (tasks m))).

Definition passed (m : limit_machine) : nat := number (.= Passed) (tasks m).
Definition guarded (m : limit_machine) : nat := number (.= Guarded) (tasks m).

(** At most [k] tasks are between the load and the addition. *)
Definition limited_step (max k : Z) (m m' : limit_machine) : Prop :=
  limit_step max m m' /\ Z.of_nat (passed m') <= k.

Section limit.
Context (max k : Z).
Hypothesis max_pos : 0 <= max.
Hypothesis k_pos : 1 <= k.
Hypothesis small : max + k <= 2 ^ 64.

Record limit_inv (m : limit_machine) : Prop := {
  inv_active : active m = Z.of_nat (guarded m);
  inv_sum : active m + Z.of_nat (passed m) <= Z.max 0 (max + k - 1);
}.

Lemma limit_inv_step m m' : limit_inv m -> limited_step max k m m' -> limit_inv m'.
Proof.
  intros [Ha Hs] [Hstep Hk]. unfold passed, guarded in *.
  destruct Hstep as [m i Hi Hlt|m Hge|m i Hi|m i Hi]; simpl in *.
  - rewrite number_insert in Hk by done. split; simpl; unfold passed, guarded; simpl;
      rewrite !number_insert by done; simpl in *; lia.
  - by split.
  - rewrite <-insert_delete_eq in Hk |- *.
    rewrite (number_delete (.= Passed) (tasks m) i Passed Hi) in Hs.
    rewrite (number_delete (.= Guarded) (tasks m) i Passed Hi) in Ha. simpl in *.
    split; simpl; unfold passed, guarded; simpl; rewrite !number_insert by apply lookup_delete_eq;
      simpl; rewrite Int.wrapping_incr_small; lia.
  - rewrite (number_delete (.= Passed) (tasks m) i Guarded Hi) in Hs.
    rewrite (number_delete (.= Guarded) (tasks m) i Guarded Hi) in Ha. simpl in *.
    split; simpl; unfold passed, guarded; simpl; rewrite Int.wrapping_decr_small; lia.
Qed.

(** If at most [k] tasks are at the same time between reading and
    increasing the count, a filter chain has at most [k - 1] connections more
    than its limit; with one at a time the limit is exact. *)
Theorem limit_overshoot m :
  rtc (limited_step max k) (mk_limit_machine 0 ∅) m ->
  active m = Z.of_nat (guarded m) /\ active m <= max + k - 1.
Proof.
  intros Hsteps. assert (limit_inv m) as [Ha Hs]; [|split; [done|lia]].
  revert Hsteps. apply (rtc_ind_r (λ m, limit_inv m)).
  - split; simpl; unfold passed, guarded, number; simpl; rewrite map_filter_empty, map_size_empty; lia.
  - intros y z _ Hyz Hy. by apply (limit_inv_step y).
Qed.
End limit.

(** Two tasks read the count before either adds to it: two connections where
    one is allowed. *)
Lemma limit_overshoot_witness :
  exists m, rtc (limited_step 1 2) (mk_limit_machine 0 ∅) m /\ active m = 2 /\
    active m = Z.of_nat (guarded m) /\ active m <= 1 + 2 - 1.
Proof.
  eexists. match goal with |- ?P /\ ?Q /\ _ => assert (P /\ Q) as [H1 H2] end.
  { split.
    - eapply rtc_l; [split; [apply (LoadBelow 1 _ 0%nat); [reflexivity|reflexivity]|by vm_compute]|].
      eapply rtc_l; [split; [apply (LoadBelow 1 _ 1%nat); [reflexivity|reflexivity]|by vm_compute]|].
      eapply rtc_l; [split; [apply (Add 1 _ 0%nat); reflexivity|by vm_compute]|].
      eapply rtc_l; [split; [apply (Add 1 _ 1%nat); reflexivity|by vm_compute]|].
      apply rtc_refl.
    - reflexivity. }
  split; [exact H1|]. split; [exact H2|]. apply (limit_overshoot 1 2); [lia|lia|lia|exact H1].
Defined.
End ConnectionLimit.
