(* ===== verification/Http.v ===== *)
(** What the proxy uses of the crates [http], [regex] and [url]: the types
    with the operations on them as classes, and the laws that their
    documentation states. *)

From S2P Require Import Prelude.

Module Http.

(** ** Headers

    A [HeaderMap] maps a name to the values that were added under it, in
    order. *)
Class HttpLib : Type := {
  HeaderName : Type;
  HeaderName_eq_dec : EqDecision HeaderName;
  HeaderValue : Type;
  HeaderMap : Type;
  (** [HeaderValue::to_str().ok()]: the text of a visible ASCII value. *)
  to_str : HeaderValue → option str;
  get_all : HeaderMap → HeaderName → list HeaderValue;
  header_insert : HeaderMap → HeaderName → HeaderValue → HeaderMap;
  header_append : HeaderMap → HeaderName → HeaderValue → HeaderMap;
  header_remove : HeaderMap → HeaderName → HeaderMap;
  (** [HeaderMap::keys]. *)
  keys : HeaderMap → list HeaderName;
  (** [HeaderName::as_str] and [HeaderName::from_static]. *)
  name_as_str : HeaderName → str;
  name_from_static : str → HeaderName;
  (** [HeaderValue::is_empty], [HeaderValue::from_str] and [from_static]. *)
  value_is_empty : HeaderValue → bool;
  value_from_str : str → option HeaderValue;
  value_from_static : str → HeaderValue;
}.
#[global] Existing Instance HeaderName_eq_dec.

Class HttpSpec (H : HttpLib) : Prop := {
  get_all_insert : ∀ m n v n',
    get_all (header_insert m n v) n' = if decide (n' = n) then [v] else get_all m n';
  get_all_append : ∀ m n v n',
    get_all (header_append m n v) n' = if decide (n' = n) then get_all m n' ++ [v] else get_all m n';
  get_all_remove : ∀ m n n',
    get_all (header_remove m n) n' = if decide (n' = n) then [] else get_all m n';
  elem_of_keys : ∀ m n, n ∈ keys m ↔ get_all m n ≠ [];
  name_as_str_static : ∀ s, name_as_str (name_from_static s) = s;
  to_str_static : ∀ s, to_str (value_from_static s) = Some s;
  to_str_from_str : ∀ s v, value_from_str s = Some v → to_str v = Some s;
  (** Visible ASCII text is accepted. *)
  value_from_visible : ∀ s, Forall (λ c, 32 <= Ascii.N_of_ascii c < 127)%N s → is_Some (value_from_str s);
}.

(** [HeaderMap::get] and [HeaderMap::contains_key]. *)
Definition header_get `{HttpLib} (m : HeaderMap) (n : HeaderName) : option HeaderValue := head (get_all m n).
Definition contains_key `{HttpLib} (m : HeaderMap) (n : HeaderName) : bool := bool_decide (get_all m n ≠ []).

Section header_lemmas.
Context `{HL : HttpLib, !HttpSpec HL}.

Lemma name_from_static_inj s t : name_from_static s = name_from_static t → s = t.
Proof. intros E. rewrite <-(name_as_str_static s), E. apply name_as_str_static. Qed.

Lemma header_get_insert m n v n' : header_get (header_insert m n v) n' = if decide (n' = n) then Some v else header_get m n'.
Proof. unfold header_get. rewrite get_all_insert. by case_decide. Qed.

Lemma header_get_insert_eq m n v : header_get (header_insert m n v) n = Some v.
Proof. by rewrite header_get_insert, decide_True. Qed.

Lemma header_get_insert_ne m s t v :
  s ≠ t → header_get (header_insert m (name_from_static s) v) (name_from_static t) = header_get m (name_from_static t).
Proof. intros Hne. rewrite header_get_insert, decide_False; [done|]. by intros ?%name_from_static_inj. Qed.

Lemma header_get_remove m n n' : header_get (header_remove m n) n' = if decide (n' = n) then None else header_get m n'.
Proof. unfold header_get. rewrite get_all_remove. by case_decide. Qed.
End header_lemmas.

(** ** Requests and responses *)

Record PathAndQuery : Type := mk_pq { pq_path : str; pq_query : option str }.

Record Uri : Type := mk_uri {
  scheme_str : option str;
  authority : option str;
  path_and_query : option PathAndQuery;
}.

Definition uri_path (u : Uri) : str := default [] (pq_path <$> path_and_query u).
Definition uri_query (u : Uri) : option str := path_and_query u ≫= pq_query.

Record Request `{HttpLib} : Type := mk_request {
  method : str;
  uri : Uri;
  headers : HeaderMap;
}.

Record Response `{HttpLib} : Type := mk_response {
  status : Z;
  response_headers : HeaderMap;
}.
Arguments mk_request {_} _ _ _.
Arguments mk_response {_} _ _.

(** ** Regular expressions and queries *)

Class RegexLib : Type := {
  Regex : Type;
  (** [Regex::find_at]: the range of the leftmost match from an offset on. *)
  find_at : Regex → str → nat → option (nat * nat);
  (** [Regex::replace_all]: nothing if it borrows, that is, without a match. *)
  replace_all : Regex → str → str → option str;
}.

(** [url::form_urlencoded::parse]: the decoded pairs of a query. *)
Class UrlLib : Type := parse_query : str → list (str * str).

(** [RegexExtension::matches_full]. *)
Definition matches_full `{RegexLib} (r : Regex) (to_match : str) : bool :=
  bool_decide (Some (length to_match) = (λ m, m.2 - m.1) <$> find_at r to_match 0).

(** ** Header maps as lists of pairs *)

Section assoc_list.
#[local] Instance assoc_http : HttpLib := {|
  HeaderName := str;
  HeaderName_eq_dec := _;
  HeaderValue := str;
  HeaderMap := list (str * str);
  to_str v := Some v;
  get_all m n := omap (λ p, if decide (p.1 = n) then Some p.2 else None) m;
  header_insert m n v := filter (λ p, p.1 ≠ n) m ++ [(n, v)];
  header_append m n v := m ++ [(n, v)];
  header_remove m n := filter (λ p, p.1 ≠ n) m;
  keys m := m.*1;
  name_as_str n := n;
  name_from_static s := s;
  value_is_empty v := bool_decide (v = []);
  value_from_str s := Some s;
  value_from_static s := s;
|}.

Lemma omap_filter_ne (m : list (str * str)) n n' :
  omap (λ p, if decide (p.1 = n') then Some p.2 else None) (filter (λ p, p.1 ≠ n) m) =
  if decide (n' = n) then [] else omap (λ p, if decide (p.1 = n') then Some p.2 else None) m.
Proof.
  induction m as [|[a v] m IH]; [by case_decide|]. rewrite filter_cons.
  destruct (decide ((a, v).1 ≠ n)) as [Ha|Ha]; cbn [omap list_omap fst snd] in *.
  - rewrite IH. destruct (decide (a = n')) as [->|]; [|done]. by rewrite !(decide_False (P := n' = n)).
  - apply dec_stable in Ha as ->. rewrite IH.
    destruct (decide (n' = n)); [done|]. by rewrite (decide_False (P := n = n')) by congruence.
Qed.

#[local] Instance assoc_http_spec : HttpSpec assoc_http.
Proof.
  split; simpl.
  - intros m n v n'. rewrite omap_app, omap_filter_ne. simpl. by repeat case_decide; simplify_eq; rewrite ?app_nil_r.
  - intros m n v n'. rewrite omap_app. simpl. repeat case_decide; simplify_eq; rewrite ?app_nil_r; done.
  - intros m n n'. apply omap_filter_ne.
  - intros m n. rewrite list_elem_of_fmap. split.
    + intros ([a v] & -> & Hin) Hnil. apply (elem_of_nil v). rewrite <-Hnil. apply list_elem_of_omap.
      exists (a, v). simpl. by rewrite decide_True.
    + intros Hne. destruct (omap _ m) as [|v l] eqn:E; [done|].
      assert (v ∈ v :: l) as Hin by left. rewrite <-E in Hin. apply list_elem_of_omap in Hin as ([a v'] & Hin & Ha).
      simpl in Ha. case_decide; simplify_eq. eexists. split; [|exact Hin]. done.
  - done.
  - done.
  - intros. by simplify_eq.
  - by eexists.
Qed.
End assoc_list.
End Http.
