(* ===== verification/StringMatch.v ===== *)
(** String matchers (arion-configuration/src/config/core.rs). *)

From S2P Require Import Prelude RustStr Http.
Import Http.

Module StringMatch.

(** ** [CaseSensitive] *)

Record CaseSensitive : Type := mk_cs { sensitive : bool; subject : str }.

Definition cs_equals (c : CaseSensitive) (b : str) : bool :=
  if sensitive c then bool_decide (subject c = b) else Str.eq_ignore_ascii_case (subject c) b.

Definition cs_starts_with (c : CaseSensitive) (prefix : str) : bool :=
  if sensitive c then Str.starts_with (subject c) prefix
  else
    match Str.get_to (subject c) (length prefix) with
    | Some slice => Str.eq_ignore_ascii_case slice prefix
    | None => false
    end.

Definition checked_sub (n m : nat) : option nat := if bool_decide (m <= n) then Some (n - m) else None.

Definition cs_ends_with (c : CaseSensitive) (suffix : str) : bool :=
  if sensitive c then Str.ends_with (subject c) suffix
  else
    match start ← checked_sub (length (subject c)) (length suffix); Str.get_from (subject c) start with
    | Some slice => Str.eq_ignore_ascii_case slice suffix
    | None => false
    end.

Definition cs_find (c : CaseSensitive) (needle : str) : option nat :=
  if sensitive c then Str.find_str (subject c) needle
  else
    let n_len := length needle in
    find_map (λ i,
      slice ← Str.get_range (subject c) i (i + n_len);
      if Str.eq_ignore_ascii_case slice needle then Some i else None) (Str.char_indices (subject c)).

Definition cs_contains (c : CaseSensitive) (needle : str) : bool := bool_decide (is_Some (cs_find c needle)).

(** ** [StringMatcher] *)

Section matcher.
Context `{RegexLib}.

Inductive StringMatcherPattern : Type :=
  | Exact (s : str)
  | Prefix (s : str)
  | Suffix (s : str)
  | Contains (s : str)
  | PatternRegex (r : Regex)
  | Present.

Record StringMatcher : Type := mk_string_matcher {
  ignore_case : bool;
  pattern : StringMatcherPattern;
}.

Definition string_matcher_new (s : str) : StringMatcher := mk_string_matcher false (Exact s).

Definition string_matches (m : StringMatcher) (to_match : str) : bool :=
  let casematcher := mk_cs (negb (ignore_case m)) to_match in
  match pattern m with
  | Exact s => cs_equals casematcher s
  | Prefix prefix => cs_starts_with casematcher prefix
  | Suffix suffix => cs_ends_with casematcher suffix
  | Contains needle => cs_contains casematcher needle
  | PatternRegex r => matches_full r to_match
  | Present => true
  end.
End matcher.

(** ** Matching without case is matching in lower case *)

Definition is_ascii (c : Ascii.ascii) : Prop := (Ascii.N_of_ascii c < 128)%N.
Definition lower (s : str) : str := Str.to_ascii_lowercase <$> s.

Lemma length_lower s : length (lower s) = length s.
Proof. apply length_fmap. Qed.

Lemma ascii_boundary s i : Forall is_ascii s → i ≤ length s → Str.is_char_boundary s i = true.
Proof.
  intros Hs Hi. unfold Str.is_char_boundary. rewrite !orb_true_iff, !bool_decide_eq_true.
  destruct (s !! i) as [c|] eqn:Hc.
  - right. rewrite Forall_lookup in Hs. specialize (Hs i c Hc). unfold is_ascii in Hs.
    unfold Str.is_continuation. rewrite (proj2 (N.leb_gt _ _)) by lia. done.
  - left. right. apply lookup_ge_None in Hc. lia.
Qed.

Lemma out_of_range s i : length s < i → Str.is_char_boundary s i = false.
Proof.
  intros Hi. destruct (Str.is_char_boundary s i) eqn:E; [|done].
  apply Str.is_char_boundary_le in E. lia.
Qed.

Lemma cs_starts_with_lower s p :
  Forall is_ascii s → cs_starts_with (mk_cs false s) p = Str.starts_with (lower s) (lower p).
Proof.
  intros Hs. unfold cs_starts_with, Str.get_to, Str.eq_ignore_ascii_case, Str.starts_with, lower. simpl.
  destruct (decide (length p <= length s)) as [Hle|Hgt].
  - rewrite ascii_boundary by done. apply bool_decide_ext. rewrite fmap_take. split.
    + intros <-. apply prefix_take.
    + intros [k Hk]. rewrite Hk, take_app_length'; [done|]. by rewrite length_fmap.
  - rewrite out_of_range by lia. symmetry. apply bool_decide_eq_false. intros Hp%prefix_length.
    rewrite !length_fmap in Hp. lia.
Qed.

Lemma cs_ends_with_lower s p :
  Forall is_ascii s → cs_ends_with (mk_cs false s) p = Str.ends_with (lower s) (lower p).
Proof.
  intros Hs. unfold cs_ends_with, checked_sub, Str.get_from, Str.eq_ignore_ascii_case, Str.ends_with, lower.
  simpl. destruct (decide (length p <= length s)) as [Hle|Hgt].
  - rewrite bool_decide_eq_true_2 by done. simpl. rewrite ascii_boundary by (done || lia).
    apply bool_decide_ext. rewrite fmap_drop. split.
    + intros <-. apply suffix_drop.
    + intros [k Hk]. pose proof (f_equal length Hk) as Hlen. rewrite length_app, !length_fmap in Hlen.
      rewrite Hk, drop_app_length'; [done|lia].
  - rewrite bool_decide_eq_false_2 by lia. simpl. symmetry. apply bool_decide_eq_false.
    intros Hp%suffix_length. rewrite !length_fmap in Hp. lia.
Qed.

Lemma char_indices_ascii s : Forall is_ascii s → Str.char_indices s = seq 0 (length s).
Proof.
  intros Hs. apply filter_all. intros i Hi%elem_of_seq. apply ascii_boundary; [done|lia].
Qed.

(** A slice that fits is a prefix of what follows. *)
Lemma slice_lower s p i :
  Forall is_ascii s → i < length s →
  (slice ← Str.get_range s i (i + length p); if Str.eq_ignore_ascii_case slice p then Some i else None) =
  if Str.starts_with (drop i (lower s)) (lower p) then Some i else None.
Proof.
  intros Hs Hi. unfold Str.get_range.
  rewrite bool_decide_eq_true_2 by lia. rewrite (ascii_boundary s i) by (done || lia). cbn [andb].
  replace (drop i (lower s)) with (lower (drop i s)) by apply fmap_drop.
  rewrite <-(cs_starts_with_lower (drop i s) p) by by apply Forall_drop.
  unfold cs_starts_with, Str.get_to. simpl.
  destruct (decide (i + length p <= length s)) as [Hle|Hgt].
  - rewrite !ascii_boundary; try done; [|by apply Forall_drop|rewrite length_drop; lia]. simpl.
    by replace (i + length p - i) with (length p) by lia.
  - rewrite !out_of_range; [done|rewrite length_drop; lia|lia].
Qed.

Lemma find_map_find (p : nat → bool) l :
  find_map (λ i, if p i then Some i else None) l = find p l.
Proof. induction l as [|x l IH]; simpl; [done|]. by destruct (p x). Qed.

Lemma find_app {A} (p : A → bool) l k :
  find p (l ++ k) = match find p l with Some x => Some x | None => find p k end.
Proof. induction l as [|x l IH]; simpl; [done|]. by destruct (p x). Qed.

Lemma cs_find_lower s p :
  Forall is_ascii s → s ≠ [] ∨ p ≠ [] →
  cs_find (mk_cs false s) p = Str.find_str (lower s) (lower p).
Proof.
  intros Hs Hne. unfold cs_find, Str.find_str. cbn [sensitive subject].
  rewrite char_indices_ascii by done. rewrite length_lower, seq_S, find_app.
  rewrite (find_map_ext _ (λ i, if Str.starts_with (drop i (lower s)) (lower p) then Some i else None)).
  2: { intros i Hi%elem_of_seq. apply slice_lower; [done|lia]. }
  rewrite find_map_find. destruct (find _ (seq 0 (length s))) as [i|] eqn:E; [done|]. cbn [Nat.add find].
  rewrite drop_ge by by rewrite length_lower.
  destruct p as [|c p]; [|done]. destruct s as [|b s]; [naive_solver|].
  apply find_None in E. cbn [length seq] in E. apply Forall_cons in E as [E _].
  by rewrite (proj2 (Str.starts_with_true _ _) (prefix_nil _)) in E.
Qed.

Section lower.
Context `{RegexLib}.

Definition lower_pattern (p : StringMatcherPattern) : StringMatcherPattern :=
  match p with
  | Exact s => Exact (lower s)
  | Prefix s => Prefix (lower s)
  | Suffix s => Suffix (lower s)
  | Contains s => Contains (lower s)
  | p => p
  end.

(** On ASCII text, matching without regard to case (the slices at byte
    offsets and the search by character) is exact matching of the text and the
    pattern in lower case; the one exception is an empty text searched for an
    empty needle. *)
Theorem ignore_case_is_lower p s :
  Forall is_ascii s → p ≠ Contains [] ∨ s ≠ [] → (∀ r, p ≠ PatternRegex r) →
  string_matches (mk_string_matcher true p) s =
  string_matches (mk_string_matcher false (lower_pattern p)) (lower s).
Proof.
  intros Hs Hne Hre. destruct p as [q|q|q|q|r|]; unfold string_matches; cbn [ignore_case pattern lower_pattern negb].
  - done.
  - by apply cs_starts_with_lower.
  - by apply cs_ends_with_lower.
  - unfold cs_contains. rewrite cs_find_lower; [done|done|]. destruct q, s; naive_solver.
  - by destruct (Hre r).
  - done.
Qed.
End lower.

#[local] Instance no_regex : RegexLib := {| Regex := Empty_set; find_at r := λ _ _, None; replace_all r := λ _ _, None |}.

Lemma ignore_case_is_lower_witness :
  string_matches (mk_string_matcher true (Contains (lit "ExAmPlE"))) (lit "www.EXAMPLE.com") = true ∧
  string_matches (mk_string_matcher true (Contains (lit "ExAmPlE"))) (lit "www.EXAMPLE.com") =
  string_matches (mk_string_matcher false (lower_pattern (Contains (lit "ExAmPlE")))) (lower (lit "www.EXAMPLE.com")).
Proof.
  split; [vm_compute; reflexivity|]. apply ignore_case_is_lower.
  - repeat constructor.
  - by left.
  - done.
Defined.
End StringMatch.
