(* ===== verification/HeaderMatch.v ===== *)
(** Header matchers (arion-configuration/src/config/network_filters/
    http_connection_manager/header_matcher.rs). *)

From S2P Require Import Prelude RustStr Http StringMatch.
Import Http StringMatch.

Module HeaderMatch.

Section header_match.
Context `{HttpLib, RegexLib}.

Inductive HeaderNames : Type :=
  | Method
  | Path
  | Scheme
  | NormalHeader (name : HeaderName).

(** [FromStr for HeaderNames] and [Deserialize]; [name_from_str] is
    [HeaderName::from_str]. *)
Definition header_names_from_str (name_from_str : str → option HeaderName) (s : str) : option HeaderNames :=
  if bool_decide (s = lit ":method") then Some Method
  else if bool_decide (s = lit ":scheme") then Some Scheme
  else if bool_decide (s = lit ":path") then Some Path
  else NormalHeader <$> name_from_str s.

Record HeaderMatcher : Type := mk_header_matcher {
  header_name : HeaderNames;
  invert_match : bool;
  treat_missing_header_as_empty : bool;
  header_matcher : StringMatcher;
}.

Definition is_present_pattern (p : StringMatcherPattern) : bool :=
  match p with Present => true | _ => false end.

(** A pseudo header: missing, it is empty or never matches. *)
Definition pseudo_match (m : HeaderMatcher) (value : option str) : bool :=
  match value with
  | None =>
    if treat_missing_header_as_empty m then xorb (string_matches (header_matcher m) []) (invert_match m)
    else false
  | Some v => xorb (string_matches (header_matcher m) v) (invert_match m)
  end.

Definition header_is_match (m : HeaderMatcher) (meth : option str) (u : option Uri) (header_map : HeaderMap)
    : bool :=
  match header_name m with
  | Method => pseudo_match m meth
  | Path => pseudo_match m (uri_path <$> u)
  | Scheme => pseudo_match m (u ≫= scheme_str)
  | NormalHeader name =>
    match to_str <$> get_all header_map name with
    | [] =>
      if treat_missing_header_as_empty m then xorb (string_matches (header_matcher m) []) (invert_match m)
      else if is_present_pattern (pattern (header_matcher m)) then xorb false (invert_match m)
      else false
    | first :: rest =>
      let matches v := match v with Some s => string_matches (header_matcher m) s | None => false end in
      let any_matched := matches first || existsb matches rest in
      xorb any_matched (invert_match m)
    end
  end.

Definition request_matches (m : HeaderMatcher) (r : Request) : bool :=
  header_is_match m (Some (method r)) (Some (uri r)) (headers r).

Definition response_matches (m : HeaderMatcher) (r : Response) : bool :=
  header_is_match m None None (response_headers r).

(** ** What a matcher decides *)

(** The texts a matcher looks at: none if the header is not there. *)
Definition subjects (m : HeaderMatcher) (meth : option str) (u : option Uri) (header_map : HeaderMap)
    : list (option str) :=
  match header_name m with
  | Method => option_list (Some <$> meth)
  | Path => option_list ((λ u, Some (uri_path u)) <$> u)
  | Scheme => option_list (Some <$> (u ≫= scheme_str))
  | NormalHeader name => to_str <$> get_all header_map name
  end.

(** A missing header that does not count as empty. *)
Definition undecided (m : HeaderMatcher) meth u header_map : Prop :=
  subjects m meth u header_map = [] ∧ treat_missing_header_as_empty m = false ∧
  ∀ n, header_name m = NormalHeader n → is_present_pattern (pattern (header_matcher m)) = false.

Definition matched_text (m : HeaderMatcher) (v : option str) : Prop :=
  ∃ s, v = Some s ∧ string_matches (header_matcher m) s = true.

Lemma existsb_matched m l :
  existsb (λ v, match v with Some s => string_matches (header_matcher m) s | None => false end) l = true ↔
  Exists (matched_text m) l.
Proof.
  rewrite existsb_exists, Exists_exists. unfold matched_text.
  split; intros (v & Hv & Hm); exists v; rewrite list_elem_of_In in *; (split; [done|]).
  - destruct v; naive_solver.
  - by destruct Hm as (s & -> & ->).
Qed.

Definition texts (m : HeaderMatcher) meth u header_map : list (option str) :=
  let l := subjects m meth u header_map in
  match l with [] => if treat_missing_header_as_empty m then [Some []] else [] | _ => l end.

Lemma xorb_decides (b i : bool) (P : Prop) :
  (b = true ↔ P) → (xorb b i = true ↔ if i then ¬ P else P).
Proof. destruct b, i; simpl; naive_solver. Qed.

(** The decision of a matcher that looks at the given texts. *)
Definition decides (m : HeaderMatcher) (l : list (option str)) (answer : bool) : Prop :=
  (l = [] ∧ treat_missing_header_as_empty m = false ∧
    (∀ n, header_name m = NormalHeader n → is_present_pattern (pattern (header_matcher m)) = false) →
   answer = false) ∧
  (¬ (l = [] ∧ treat_missing_header_as_empty m = false ∧
    (∀ n, header_name m = NormalHeader n → is_present_pattern (pattern (header_matcher m)) = false)) →
   let l := match l with [] => if treat_missing_header_as_empty m then [Some []] else [] | _ => l end in
   answer = true ↔ if invert_match m then ¬ Exists (matched_text m) l else Exists (matched_text m) l).

Lemma matched_single m s : string_matches (header_matcher m) s = true ↔ Exists (matched_text m) [Some s].
Proof. rewrite Exists_cons, Exists_nil. unfold matched_text. naive_solver. Qed.

Lemma pseudo_match_decides m v :
  (∀ n, header_name m ≠ NormalHeader n) → decides m (option_list (Some <$> v)) (pseudo_match m v).
Proof.
  intros Hn. unfold decides, pseudo_match. destruct v as [s|]; simpl.
  { split; [by intros [? _]|]. intros _. apply xorb_decides, matched_single. }
  destruct (treat_missing_header_as_empty m).
  - split; [by intros (_ & ? & _)|]. intros _. apply xorb_decides, matched_single.
  - split; [done|]. intros Hu. destruct Hu. split_and!; [done..|]. intros n Hm. by destruct (Hn n).
Qed.

(** A header matcher accepts exactly when one of the texts it looks at, or
    the empty one if the header is missing and that counts as empty, matches
    its pattern, or when none does for an inverted matcher.  A value that is
    not text never matches.  If the header is missing and neither counts as
    empty nor is asked to be present, the matcher rejects, inverted or not. *)
Theorem header_match_decides m meth u header_map :
  (undecided m meth u header_map → header_is_match m meth u header_map = false) ∧
  (¬ undecided m meth u header_map →
    header_is_match m meth u header_map = true ↔
    if invert_match m then ¬ Exists (matched_text m) (texts m meth u header_map)
    else Exists (matched_text m) (texts m meth u header_map)).
Proof.
  change (decides m (subjects m meth u header_map) (header_is_match m meth u header_map)).
  unfold subjects, header_is_match. destruct (header_name m) as [| | |n] eqn:Hn.
  - apply pseudo_match_decides. congruence.
  - replace (option_list _) with (option_list (Some <$> (uri_path <$> u))) by by destruct u.
    apply pseudo_match_decides. congruence.
  - apply pseudo_match_decides. congruence.
  - unfold decides. destruct (to_str <$> get_all header_map n) as [|first rest].
    + destruct (treat_missing_header_as_empty m) eqn:Ht.
      * split; [by intros (_ & ? & _)|]. intros _. apply xorb_decides.
        apply matched_single.
      * destruct (is_present_pattern _) eqn:Hp; [|split; [done|]; intros []; naive_solver].
        split; [intros (_ & _ & Hu); by specialize (Hu n Hn)|]. intros _. apply xorb_decides.
        rewrite Exists_nil. naive_solver.
    + split; [by intros [? _]|]. intros _. apply xorb_decides.
      exact (existsb_matched m (first :: rest)).
Qed.
End header_match.

Section witness.
#[local] Existing Instances assoc_http no_regex.

(** An inverted matcher and a request with one such header. *)
Lemma header_match_decides_witness :
  let m := mk_header_matcher (NormalHeader (lit "x-env")) true false (mk_string_matcher false (Prefix (lit "prod"))) in
  let hs := [(lit "x-env", lit "staging")] in
  ¬ undecided m None None hs ∧
  (header_is_match m None None hs = true ↔ ¬ Exists (matched_text m) (texts m None None hs)).
Proof.
  intros m hs. assert (¬ undecided m None None hs) as Hu by by intros [? _].
  split; [exact Hu|]. exact (proj2 (header_match_decides m None None hs) Hu).
Defined.
End witness.
End HeaderMatch.
