(* ===== verification/VirtualHost.v ===== *)
(** Virtual hosts: the host patterns and their scores
    (arion-configuration/src/config/network_filters/http_connection_manager.rs)
    and the compiled table that selects one for a request
    (arion-lib/src/listeners/http_connection_manager.rs). *)

From S2P Require Import Prelude RustStr.

Module VirtualHost.

(** ** Host patterns *)

Inductive MatchHost : Type :=
  | Wildcard
  | Prefix (prefix : str)
  | Suffix (suffix : str)
  | Exact (host : str).

#[export] Instance MatchHost_eq_dec : EqDecision MatchHost.
Proof. solve_decision. Defined.

#[export] Instance MatchHost_countable : Countable MatchHost.
Proof.
  refine (inj_countable'
    (λ m, match m with
          | Wildcard => inl (inl ()) | Prefix s => inl (inr s)
          | Suffix s => inr (inl s) | Exact s => inr (inr s)
          end)
    (λ x, match x with
          | inl (inl _) => Wildcard | inl (inr s) => Prefix s
          | inr (inl s) => Suffix s | inr (inr s) => Exact s
          end) _).
  by intros [].
Defined.

(** [impl Display for MatchHost], which [Serialize] repeats. *)
Definition MatchHost_fmt (m : MatchHost) : str :=
  match m with
  | Wildcard => [Str.star]
  | Exact cs => cs
  | Prefix cs => cs ++ [Str.star]
  | Suffix cs => Str.star :: cs
  end.

Inductive HostError : Type :=
  | NotAHeaderValue
  | BadWildcard.

(** [is_header_value] says whether [HeaderValue::from_str] accepts the value. *)
Definition try_from_smol_str (is_header_value : str → bool) (value : str) : result HostError MatchHost :=
  if negb (is_header_value value) then Err NotAHeaderValue
  else if bool_decide (value = [Str.star]) then Ok Wildcard
  else if bool_decide (1 < length (filter (λ c, c = Str.star) value)) then Err BadWildcard
  else
    match Str.strip_prefix_char value Str.star with
    | Some host => Ok (Suffix host)
    | None =>
      match Str.strip_suffix_char value Str.star with
      | Some host => Ok (Prefix host)
      | None => if Str.contains_char value Str.star then Err BadWildcard else Ok (Exact value)
      end
    end.

(** ** Scores *)

Inductive MatchHostScoreLPM : Type :=
  | ScoreWildcard
  | ScorePrefix (len : nat)
  | ScoreSuffix (len : nat)
  | ScoreExact (len : nat).

#[export] Instance score_eq_dec : EqDecision MatchHostScoreLPM.
Proof. solve_decision. Defined.

(** The derived order: the variant, then the length. *)
Definition score_rank (s : MatchHostScoreLPM) : nat * nat :=
  match s with
  | ScoreWildcard => (0, 0)
  | ScorePrefix n => (1, n)
  | ScoreSuffix n => (2, n)
  | ScoreExact n => (3, n)
  end.

Definition score_gt (a b : MatchHostScoreLPM) : bool :=
  let '(va, la) := score_rank a in
  let '(vb, lb) := score_rank b in
  (vb <? va)%nat || ((va =? vb)%nat && (lb <? la)%nat).

Record RequestHost : Type := mk_host { full : str; without_port : option str }.

Definition strip_port (host : str) : option str :=
  '(name, port) ← Str.rsplit_once_char host Str.colon;
  if negb (bool_decide (port = [])) && forallb Str.is_ascii_digit port &&
     (Str.ends_with name [Str.rbracket] || negb (Str.contains_char name Str.colon))
  then Some name else None.

(** [host_header] is the first [Host] header, [Some None] if its value is not
    text; [authority] is that of the request's URI. *)
Definition from_request (host_header : option (option str)) (authority : option str)
    : option RequestHost :=
  full ← match host_header with Some header_value => header_value | None => authority end;
  Some (mk_host full (strip_port full)).

Definition strip_dot (host : str) : str := default host (Str.strip_suffix_char host Str.dot).

Definition eval_lpm_host (m : MatchHost) (host : str) : option MatchHostScoreLPM :=
  match m with
  | Exact h =>
    let host := strip_dot host in
    if bool_decide (h = host) then Some (ScoreExact (length h)) else None
  | Suffix suffix =>
    let host := strip_dot host in
    if bool_decide (length suffix < length host) && Str.ends_with host suffix
    then Some (ScoreSuffix (length suffix)) else None
  | Prefix prefix =>
    if bool_decide (length prefix < length host) && Str.starts_with host prefix
    then Some (ScorePrefix (length prefix)) else None
  | Wildcard => Some ScoreWildcard
  end.

Definition eval_lpm (m : MatchHost) (host : RequestHost) : option MatchHostScoreLPM :=
  match eval_lpm_host m (full host) with
  | Some s => Some s
  | None => wp ← without_port host; eval_lpm_host m wp
  end.

(** ** The compiled table *)

Section table.
(** A virtual host is its domains and the rest of it, which the table keeps. *)
Context {VH : Type}.
Context (domains : VH → list MatchHost).

Record VirtualHostTable : Type := mk_table {
  exact : gmap str VH;
  suffixes : list (str * VH);
  prefixes : list (str * VH);
  wildcard : option VH;
}.

Definition add_domain (vh : VH) (t : VirtualHostTable) (domain : MatchHost) : VirtualHostTable :=
  match domain with
  | Exact h =>
    mk_table (if exact t !! h then exact t else <[h := vh]> (exact t))
      (suffixes t) (prefixes t) (wildcard t)
  | Suffix s => mk_table (exact t) (suffixes t ++ [(s, vh)]) (prefixes t) (wildcard t)
  | Prefix p => mk_table (exact t) (suffixes t) (prefixes t ++ [(p, vh)]) (wildcard t)
  | Wildcard =>
    mk_table (exact t) (suffixes t) (prefixes t)
      (match wildcard t with None => Some vh | w => w end)
  end.

(** [sort_by_key(|(a, _)| Reverse(a.len()))]: a stable sort. *)
Fixpoint insert_by_length (x : str * VH) (l : list (str * VH)) : list (str * VH) :=
  match l with
  | [] => [x]
  | y :: l => if bool_decide (length y.1 <= length x.1) then x :: y :: l else y :: insert_by_length x l
  end.

Definition sort_by_length (l : list (str * VH)) : list (str * VH) := foldr insert_by_length [] l.

Definition collect (virtual_hosts : list VH) : VirtualHostTable :=
  fold_left (λ t vh, fold_left (add_domain vh) (domains vh) t) virtual_hosts (mk_table ∅ [] [] None).

Definition compile (virtual_hosts : list VH) : VirtualHostTable :=
  let t := collect virtual_hosts in
  mk_table (exact t) (sort_by_length (suffixes t)) (sort_by_length (prefixes t)) (wildcard t).

Definition match_single (t : VirtualHostTable) (raw_host : str) : option (MatchHostScoreLPM * VH) :=
  let stripped := strip_dot raw_host in
  match exact t !! stripped with
  | Some vh => Some (ScoreExact (length stripped), vh)
  | None =>
    match find (λ '(suffix, _), bool_decide (length suffix < length stripped) &&
                  Str.ends_with stripped suffix) (suffixes t) with
    | Some (suffix, vh) => Some (ScoreSuffix (length suffix), vh)
    | None =>
      match find (λ '(prefix, _), bool_decide (length prefix < length raw_host) &&
                    Str.starts_with raw_host prefix) (prefixes t) with
      | Some (prefix, vh) => Some (ScorePrefix (length prefix), vh)
      | None => None
      end
    end
  end.

Definition select_virtual_host (t : VirtualHostTable) (host : RequestHost) : option VH :=
  let full_match := match_single t (full host) in
  match full_match with
  | Some (ScoreExact _, full_vh) => Some full_vh
  | _ =>
    let matched :=
      match full_match, without_port host ≫= match_single t with
      | Some (full_score, full_vh), Some (wp_score, wp_vh) =>
        if score_gt wp_score full_score then Some wp_vh else Some full_vh
      | Some (_, vh), None | None, Some (_, vh) => Some vh
      | None, None => None
      end in
    match matched with Some vh => Some vh | None => wildcard t end
  end.

(** ** The oracle of the tests *)

(** [Iterator::max] on scores. *)
Definition score_max (l : list MatchHostScoreLPM) : option MatchHostScoreLPM :=
  match l with
  | [] => None
  | x :: l => Some (fold_left (λ b y, if score_gt b y then b else y) l x)
  end.

Definition reference_select_vh (virtual_hosts : list VH) (host : RequestHost) : option VH :=
  snd <$> fold_left (λ best vh,
    match score_max (omap (λ d, eval_lpm d host) (domains vh)) with
    | None => best
    | Some vh_score =>
      match best with
      | None => Some (vh_score, vh)
      | Some (best_score, _) => if score_gt vh_score best_score then Some (vh_score, vh) else best
      end
    end) virtual_hosts None.

(** The configuration is rejected if a domain occurs twice, in one virtual host
    or in two; the error names the domain. *)
Fixpoint insert_domains (seen : gset MatchHost) (ds : list MatchHost) : result MatchHost (gset MatchHost) :=
  match ds with
  | [] => Ok seen
  | d :: ds => if bool_decide (d ∈ seen) then Err d else insert_domains ({[d]} ∪ seen) ds
  end.

Fixpoint validate_from (seen : gset MatchHost) (virtual_hosts : list VH) : result MatchHost () :=
  match virtual_hosts with
  | [] => Ok ()
  | vh :: vhs => seen ← insert_domains seen (domains vh); validate_from seen vhs
  end.

Definition validate_unique_virtual_host_domains (virtual_hosts : list VH) : result MatchHost () :=
  validate_from ∅ virtual_hosts.
End table.
End VirtualHost.
