(* ===== verification/VirtualHostSpec.v ===== *)
(** The compiled virtual-host table selects what the scoring of all domains
    selects; parsing and printing of host patterns; duplicate domains. *)

From S2P Require Import Prelude RustStr VirtualHost.
Import VirtualHost.

Module VirtualHostSpec.

(** ** The order on scores *)

Lemma score_gt_spec a b :
  score_gt a b = true ↔
  (score_rank b).1 < (score_rank a).1 ∨
  (score_rank a).1 = (score_rank b).1 ∧ (score_rank b).2 < (score_rank a).2.
Proof.
  unfold score_gt. destruct (score_rank a), (score_rank b). simpl.
  rewrite orb_true_iff, andb_true_iff, !Nat.ltb_lt, Nat.eqb_eq. done.
Qed.

Lemma score_rank_inj a b : score_rank a = score_rank b → a = b.
Proof. destruct a, b; simpl; congruence. Qed.

Lemma score_gt_irrefl a : score_gt a a = false.
Proof. apply not_true_iff_false. rewrite score_gt_spec. lia. Qed.

Lemma score_gt_trans a b c : score_gt a b = true → score_gt b c = true → score_gt a c = true.
Proof. rewrite !score_gt_spec. lia. Qed.

Lemma score_ge_trans a b c : score_gt b a = false → score_gt c b = false → score_gt c a = false.
Proof. rewrite <-!not_true_iff_false, !score_gt_spec. lia. Qed.

Lemma score_gt_ge_trans a b c : score_gt a b = true → score_gt c b = false → score_gt a c = true.
Proof. rewrite <-not_true_iff_false, !score_gt_spec. lia. Qed.

Lemma score_gt_asym a b : score_gt a b = true → score_gt b a = false.
Proof. rewrite <-not_true_iff_false, !score_gt_spec. lia. Qed.

Lemma score_total a b : score_gt a b = false → score_gt b a = false → a = b.
Proof.
  rewrite <-!not_true_iff_false, !score_gt_spec. intros H1 H2. apply score_rank_inj.
  destruct (score_rank a), (score_rank b). simpl in *. f_equal; lia.
Qed.

(** ** The first of the best rules *)
Section first_best.
Context {VH : Type}.
Notation rule := (MatchHost * VH)%type.
Implicit Types (f : MatchHost → option MatchHostScoreLPM) (rules : list rule).

(** The earlier of two candidates unless the later one scores more. *)
Definition prefer (a b : option (MatchHostScoreLPM * VH)) : option (MatchHostScoreLPM * VH) :=
  match a, b with
  | None, b => b
  | a, None => a
  | Some (s, _), Some (s', _) => if score_gt s' s then b else a
  end.

Definition scored f (r : rule) : option (MatchHostScoreLPM * VH) := (λ s, (s, r.2)) <$> f r.1.

Definition first_best f rules : option (MatchHostScoreLPM * VH) :=
  foldr (λ r acc, prefer (scored f r) acc) None rules.

Lemma prefer_assoc a b c : prefer a (prefer b c) = prefer (prefer a b) c.
Proof.
  destruct a as [[sa va]|], b as [[sb vb]|], c as [[sc vc]|]; simpl;
    try (by destruct (score_gt _ _)); [|done..].
  destruct (score_gt sc sb) eqn:H1, (score_gt sb sa) eqn:H2; simpl; rewrite ?H1, ?H2; try done.
  - by rewrite (score_gt_trans _ _ _ H1 H2).
  - by rewrite (score_ge_trans _ _ _ H2 H1).
Qed.

Lemma first_best_app f l k : first_best f (l ++ k) = prefer (first_best f l) (first_best f k).
Proof.
  induction l as [|r l IH]; simpl; [done|]. rewrite IH. by rewrite prefer_assoc.
Qed.

Lemma first_best_None f rules : first_best f rules = None ↔ ∀ r, r ∈ rules → f r.1 = None.
Proof.
  induction rules as [|[d v] rules IH]; simpl; [set_solver|].
  unfold scored. simpl. destruct (f d) as [s|] eqn:Hf; simpl.
  - split; [|intros H; specialize (H (d, v) (list_elem_of_here _ _)); simpl in H; congruence].
    destruct (first_best f rules) as [[s' v']|]; [by destruct (score_gt s' s)|done].
  - rewrite IH. split; [|set_solver]. intros H r [->|Hr]%elem_of_cons; auto.
Qed.

Lemma first_best_ext f g rules : (∀ d, f d = g d) → first_best f rules = first_best g rules.
Proof.
  intros Hfg. induction rules as [|r rules IH]; [done|]. simpl. unfold scored.
  by rewrite IH, Hfg.
Qed.

Lemma first_best_elem f rules s v :
  first_best f rules = Some (s, v) → ∃ d, (d, v) ∈ rules ∧ f d = Some s.
Proof.
  revert s v. induction rules as [|[d0 v0] rules IH]; intros s v; simpl; [done|].
  unfold scored. simpl. destruct (f d0) as [s0|] eqn:Hf; simpl.
  - destruct (first_best f rules) as [[s1 v1]|]; [destruct (score_gt s1 s0)|]; intros [= <- <-];
      [|set_solver..]. destruct (IH _ _ eq_refl) as (d & ? & ?). set_solver.
  - intros Hr. destruct (IH _ _ Hr) as (d & ? & ?). set_solver.
Qed.

(** No rule scores more than the best. *)
Lemma first_best_max f rules s v r s' :
  first_best f rules = Some (s, v) → r ∈ rules → f r.1 = Some s' → score_gt s' s = false.
Proof.
  revert s v. induction rules as [|[d0 v0] rules IH]; intros s v; simpl; [done|].
  unfold scored. simpl. intros Hfb [->|Hr]%elem_of_cons Hs'; simpl in *.
  - rewrite Hs' in Hfb. simpl in Hfb. destruct (first_best f rules) as [[s1 v1]|];
      [destruct (score_gt s1 s') eqn:E|]; simplify_eq; auto using score_gt_irrefl, score_gt_asym.
  - destruct (first_best f rules) as [[s1 v1]|] eqn:Hrest.
    2: { rewrite first_best_None in Hrest. by rewrite Hrest in Hs'. }
    specialize (IH s1 v1 eq_refl Hr Hs').
    destruct (f d0) as [s0|]; simpl in Hfb; [|by simplify_eq].
    destruct (score_gt s1 s0) eqn:E; simplify_eq; [done|]. by apply (score_ge_trans _ s1).
Qed.

(** The first rule with the best score. *)
Lemma first_best_intro f l1 d v l2 s :
  f d = Some s →
  (∀ r s', r ∈ l1 → f r.1 = Some s' → score_gt s s' = true) →
  (∀ r s', r ∈ l2 → f r.1 = Some s' → score_gt s' s = false) →
  first_best f (l1 ++ (d, v) :: l2) = Some (s, v).
Proof.
  intros Hd H1 H2. rewrite first_best_app. simpl. unfold scored. simpl. rewrite Hd. simpl.
  assert (prefer (Some (s, v)) (first_best f l2) = Some (s, v)) as Hl2.
  { simpl. destruct (first_best f l2) as [[s2 v2]|] eqn:E2; [|done].
    apply first_best_elem in E2 as (d2 & Hin & Hs2). by rewrite (H2 (d2, v2) s2 Hin Hs2). }
  simpl in Hl2. rewrite Hl2. destruct (first_best f l1) as [[s1 v1]|] eqn:E1; [|done]. simpl.
  apply first_best_elem in E1 as (d1 & Hin & Hs1). by rewrite (H1 (d1, v1) s1 Hin Hs1).
Qed.

Lemma first_best_elim f rules s v :
  first_best f rules = Some (s, v) →
  ∃ l1 d l2, rules = l1 ++ (d, v) :: l2 ∧ f d = Some s ∧
    (∀ r s', r ∈ l1 → f r.1 = Some s' → score_gt s s' = true).
Proof.
  revert s v. induction rules as [|[d0 v0] rules IH]; intros s v; simpl; [done|].
  unfold scored. simpl. destruct (f d0) as [s0|] eqn:Hf; simpl.
  - destruct (first_best f rules) as [[s1 v1]|]; [destruct (score_gt s1 s0) eqn:E|];
      intros [= <- <-]; [|by exists [], d0, rules; set_solver..].
    destruct (IH _ _ eq_refl) as (l1 & d & l2 & -> & Hd & H1).
    exists ((d0, v0) :: l1), d, l2. split_and!; [done..|].
    intros r s' [->|Hr]%elem_of_cons Hs'; simpl in *; [by simplify_eq|by apply (H1 r)].
  - intros Hr. destruct (IH _ _ Hr) as (l1 & d & l2 & -> & Hd & H1).
    exists ((d0, v0) :: l1), d, l2. split_and!; [done..|].
    intros r s' [->|Hr']%elem_of_cons Hs'; simpl in *; [by simplify_eq|by apply (H1 r)].
Qed.

(** Two ways to score a domain, the first asked first. *)
Definition or_else f g (d : MatchHost) : option MatchHostScoreLPM :=
  match f d with Some s => Some s | None => g d end.

Lemma first_best_dominated f g rules :
  (∀ d d' s s', f d = Some s → g d' = Some s' → score_gt s s' = true) →
  first_best (or_else f g) rules =
  match first_best f rules with Some b => Some b | None => first_best g rules end.
Proof.
  intros Hdom. induction rules as [|[d v] rules IH]; [done|]. simpl. rewrite IH.
  unfold scored, or_else. simpl.
  destruct (first_best f rules) as [[s1 v1]|] eqn:E1.
  - apply first_best_elem in E1 as (d1 & _ & E1).
    destruct (f d) as [s0|] eqn:E0; [simpl; by destruct (score_gt s1 s0)|].
    destruct (g d) as [s0|] eqn:E0'; simpl; [|done]. by rewrite (Hdom d1 d s1 s0).
  - destruct (f d) as [s0|] eqn:E0; [|done]. simpl.
    destruct (first_best g rules) as [[s2 v2]|] eqn:E2; [|done].
    apply first_best_elem in E2 as (d2 & _ & E2).
    by rewrite (score_gt_asym s0 s2) by by apply (Hdom d d2).
Qed.

Lemma prefer_idem_l a b c : prefer a (prefer b c) = prefer (prefer a b) (prefer a c).
Proof.
  destruct a as [[sa va]|], b as [[sb vb]|], c as [[sc vc]|]; simpl; try done.
  - destruct (score_gt sc sb) eqn:E1, (score_gt sb sa) eqn:E2, (score_gt sc sa) eqn:E3; simpl;
      rewrite ?E1, ?E2, ?E3, ?score_gt_irrefl; try done.
    all: rewrite <-?not_true_iff_false, ?score_gt_spec in *; try (exfalso; lia).
    rewrite (proj1 (not_true_iff_false (score_gt sa sb))); [done|]. rewrite score_gt_spec. lia.
  - destruct (score_gt sb sa) eqn:E; simpl; [|by rewrite score_gt_irrefl].
    by rewrite (score_gt_asym _ _ E).
  - destruct (score_gt sc sa) eqn:E; by rewrite ?E, ?score_gt_irrefl.
  - by rewrite score_gt_irrefl.
Qed.

Lemma first_best_union f g rules :
  (∀ d s s', f d = Some s → g d = Some s' → s = s') →
  (∀ d d' s, d ∈ rules.*1 → d' ∈ rules.*1 → f d = Some s → g d' = Some s → d = d') →
  first_best (or_else f g) rules = prefer (first_best f rules) (first_best g rules).
Proof.
  intros Hagree. induction rules as [|[d v] rules IH]; intros Htie; [done|]. simpl.
  rewrite IH by (intros; eapply Htie; set_solver).
  unfold scored, or_else. simpl. destruct (f d) as [s|] eqn:Ef, (g d) as [s'|] eqn:Eg.
  - rewrite <-(Hagree d s s') by done. apply prefer_idem_l.
  - apply prefer_assoc.
  - change (prefer None (first_best f rules)) with (first_best f rules).
    rewrite !prefer_assoc. f_equal.
    destruct (first_best f rules) as [[s1 v1]|] eqn:E1; [|done]. simpl.
    apply first_best_elem in E1 as (d1 & Hd1 & E1).
    destruct (score_gt s1 s') eqn:G1; [by rewrite (score_gt_asym _ _ G1)|].
    destruct (score_gt s' s1) eqn:G2; [done|]. rewrite (score_total _ _ G1 G2) in E1.
    rewrite (Htie d1 d s') in E1; [congruence|..|done|done]; apply list_elem_of_fmap;
      [exists (d1, v1)|exists (d, v)]; set_solver.
  - done.
Qed.
End first_best.
(** ** The table holds the rules by kind *)

Definition exact_score (raw : str) (d : MatchHost) : option MatchHostScoreLPM :=
  match d with Exact _ => eval_lpm_host d raw | _ => None end.
Definition suffix_score (raw : str) (d : MatchHost) : option MatchHostScoreLPM :=
  match d with Suffix _ => eval_lpm_host d raw | _ => None end.
Definition prefix_score (raw : str) (d : MatchHost) : option MatchHostScoreLPM :=
  match d with Prefix _ => eval_lpm_host d raw | _ => None end.
Definition any_host_score (d : MatchHost) : option MatchHostScoreLPM :=
  match d with Wildcard => Some ScoreWildcard | _ => None end.

(** The score of the patterns other than the wildcard. *)
Definition specific_score (raw : str) : MatchHost → option MatchHostScoreLPM :=
  or_else (exact_score raw) (or_else (suffix_score raw) (prefix_score raw)).

Section table.
Context {VH : Type}.
Context (domains : VH → list MatchHost).
Notation rule := (MatchHost * VH)%type.

(** The domains of all virtual hosts, in the order they are declared. *)
Definition rules_of (vhs : list VH) : list rule := vhs ≫= λ vh, (λ d, (d, vh)) <$> domains vh.

Definition add_rules (rules : list rule) (t : VirtualHostTable) : VirtualHostTable :=
  fold_left (λ t r, add_domain r.2 t r.1) rules t.

Lemma collect_rules vhs : collect domains vhs = add_rules (rules_of vhs) (mk_table ∅ [] [] None).
Proof.
  unfold collect, add_rules, rules_of. generalize (mk_table (VH:=VH) ∅ [] [] None).
  induction vhs as [|vh vhs IH]; intros t; [done|]. simpl.
  rewrite fold_left_app, IH. f_equal.
  generalize t. clear. induction (domains vh) as [|d ds IH]; intros t; [done|]. simpl. by rewrite IH.
Qed.

Definition exact_of (h : str) (r : rule) : option VH := if bool_decide (r.1 = Exact h) then Some r.2 else None.
Definition suffix_of_rule (r : rule) : option (str * VH) :=
  match r.1 with Suffix s => Some (s, r.2) | _ => None end.
Definition prefix_of_rule (r : rule) : option (str * VH) :=
  match r.1 with Prefix s => Some (s, r.2) | _ => None end.
Definition wildcard_of (r : rule) : option VH :=
  match r.1 with Wildcard => Some r.2 | _ => None end.

Lemma add_rules_exact rules t h :
  exact (add_rules rules t) !! h =
  match exact t !! h with Some vh => Some vh | None => find_map (exact_of h) rules end.
Proof.
  unfold add_rules. revert t. induction rules as [|[d v] rules IH]; intros t; simpl.
  { by destruct (exact t !! h). }
  rewrite IH. unfold exact_of at 2. simpl. destruct d as [|p|s|h']; simpl; try done.
  destruct (exact t !! h') as [w|] eqn:E; simpl.
  - case_bool_decide as Hh; simplify_eq; [by rewrite E|]. done.
  - case_bool_decide as Hh; simplify_eq; [by rewrite E, lookup_insert_eq|].
    by rewrite lookup_insert_ne by congruence.
Qed.

Lemma add_rules_suffixes rules t :
  suffixes (add_rules rules t) = suffixes t ++ omap suffix_of_rule rules.
Proof.
  unfold add_rules. revert t. induction rules as [|[d v] rules IH]; intros t; simpl.
  { by rewrite app_nil_r. }
  rewrite IH. destruct d; simpl; try done. by rewrite <-(assoc_L (++)).
Qed.

Lemma add_rules_prefixes rules t :
  prefixes (add_rules rules t) = prefixes t ++ omap prefix_of_rule rules.
Proof.
  unfold add_rules. revert t. induction rules as [|[d v] rules IH]; intros t; simpl.
  { by rewrite app_nil_r. }
  rewrite IH. destruct d; simpl; try done. by rewrite <-(assoc_L (++)).
Qed.

Lemma add_rules_wildcard rules t :
  wildcard (add_rules rules t) =
  match wildcard t with Some vh => Some vh | None => find_map wildcard_of rules end.
Proof.
  unfold add_rules. revert t. induction rules as [|[d v] rules IH]; intros t; simpl.
  { by destruct (wildcard t). }
  rewrite IH. destruct d; simpl; try done. by destruct (wildcard t).
Qed.

(** *** The sort *)

Definition longer : relation (str * VH) := λ x y, length y.1 ≤ length x.1.

Lemma insert_elem (x : str * VH) l y : y ∈ insert_by_length x l ↔ y = x ∨ y ∈ l.
Proof.
  induction l as [|z l IH]; simpl; [set_solver|]. case_bool_decide; set_solver.
Qed.

Lemma insert_sorted x l : StronglySorted longer l → StronglySorted longer (insert_by_length x l).
Proof.
  unfold longer. induction 1 as [|y l Hl IH Hy]; simpl; [repeat constructor|].
  rewrite Forall_forall in Hy. case_bool_decide.
  - constructor; [constructor; [done|by apply Forall_forall]|].
    apply Forall_forall. intros z [->|Hz]%elem_of_cons; [done|]. specialize (Hy z Hz). lia.
  - constructor; [done|]. apply Forall_forall.
    intros z [->|Hz]%insert_elem; [lia|auto].
Qed.

Lemma sort_sorted (l : list (str * VH)) : StronglySorted longer (sort_by_length l).
Proof. induction l; simpl; [constructor|]. by apply insert_sorted. Qed.

Lemma find_insert p x l :
  StronglySorted longer l →
  find p (insert_by_length x l) =
  if p x then
    match find p l with
    | Some y => if bool_decide (length x.1 < length y.1) then Some y else Some x
    | None => Some x
    end
  else find p l.
Proof.
  unfold longer. induction 1 as [|y l Hl IH Hy]; simpl; [by destruct (p x)|].
  rewrite Forall_forall in Hy. case_bool_decide as Hlen; simpl.
  - destruct (p x); [|done].
    destruct (p y); [by rewrite bool_decide_eq_false_2 by lia|].
    destruct (find p l) as [z|] eqn:Ez; [|done].
    apply find_Some in Ez as (l1 & l2 & -> & _).
    rewrite bool_decide_eq_false_2; [done|]. specialize (Hy z ltac:(set_solver)). lia.
  - rewrite IH. destruct (p y); [|done]. rewrite bool_decide_eq_true_2 by lia. by destruct (p x).
Qed.

(** The first match of the sorted list is the first of the longest matches. *)
Lemma find_sort_first_best (kind : rule → option (str * VH)) (f : MatchHost → option MatchHostScoreLPM)
    (score : nat → MatchHostScoreLPM) (p : str * VH → bool) rules :
  (∀ n m, score_gt (score n) (score m) = bool_decide (m < n)) →
  (∀ r, scored f r = x ← kind r; if p x then Some (score (length x.1), x.2) else None) →
  (λ x : str * VH, (score (length x.1), x.2)) <$> find p (sort_by_length (omap kind rules)) =
  first_best f rules.
Proof.
  intros Hscore Hf. induction rules as [|r rules IH]; [done|].
  change (first_best f (r :: rules)) with (prefer (scored f r) (first_best f rules)).
  rewrite <-IH, Hf. cbn [omap list_omap].
  destruct (kind r) as [x|] eqn:E; simpl; [|done].
  rewrite find_insert by apply sort_sorted. destruct (p x); [|done].
  destruct (find p (sort_by_length (omap kind rules))) as [y|] eqn:Ey; simpl; [|done].
  rewrite Hscore. by case_bool_decide.
Qed.

Lemma exact_first_best raw (rules : list rule) :
  first_best (exact_score raw) rules =
  (λ vh, (ScoreExact (length (strip_dot raw)), vh)) <$> find_map (exact_of (strip_dot raw)) rules.
Proof.
  induction rules as [|[d v] rules IH]; [done|]. cbn [find_map first_best foldr].
  change (foldr _ _ rules) with (first_best (exact_score raw) rules).
  rewrite IH. unfold scored, exact_of. cbn [fst snd].
  destruct d as [|p|s|h]; cbn [exact_score eval_lpm_host fmap option_fmap option_map prefer];
    [by rewrite bool_decide_eq_false_2 by done..|].
  destruct (decide (h = strip_dot raw)) as [->|Hh].
  - rewrite !bool_decide_eq_true_2 by done. simpl.
    destruct (find_map _ rules); [|done]. simpl. by rewrite score_gt_irrefl.
  - by rewrite !bool_decide_eq_false_2 by congruence.
Qed.

Lemma wildcard_first_best (rules : list rule) :
  first_best any_host_score rules = pair ScoreWildcard <$> find_map wildcard_of rules.
Proof.
  induction rules as [|[d v] rules IH]; [done|]. simpl. rewrite IH. unfold scored, wildcard_of. simpl.
  destruct d; simpl; try done. by destruct (find_map _ rules).
Qed.

Lemma suffix_first_best raw (rules : list rule) :
  (λ x : str * VH, (ScoreSuffix (length x.1), x.2)) <$>
    find (λ '(suffix, _), bool_decide (length suffix < length (strip_dot raw)) &&
      Str.ends_with (strip_dot raw) suffix) (sort_by_length (omap suffix_of_rule rules)) =
  first_best (suffix_score raw) rules.
Proof.
  apply (find_sort_first_best _ _ ScoreSuffix).
  - intros n m. apply eq_bool_prop_intro. rewrite !Is_true_true, score_gt_spec, bool_decide_eq_true.
    simpl. lia.
  - intros [d v]. unfold scored. destruct d; simpl; try done. by destruct (_ && _).
Qed.

Lemma prefix_first_best raw (rules : list rule) :
  (λ x : str * VH, (ScorePrefix (length x.1), x.2)) <$>
    find (λ '(prefix, _), bool_decide (length prefix < length raw) &&
      Str.starts_with raw prefix) (sort_by_length (omap prefix_of_rule rules)) =
  first_best (prefix_score raw) rules.
Proof.
  apply (find_sort_first_best _ _ ScorePrefix).
  - intros n m. apply eq_bool_prop_intro. rewrite !Is_true_true, score_gt_spec, bool_decide_eq_true.
    simpl. lia.
  - intros [d v]. unfold scored. destruct d; simpl; try done. by destruct (_ && _).
Qed.

Lemma match_single_first_best vhs raw :
  match_single (compile domains vhs) raw = first_best (specific_score raw) (rules_of vhs).
Proof.
  unfold specific_score. rewrite !first_best_dominated.
  - rewrite exact_first_best, <-suffix_first_best, <-prefix_first_best.
    unfold match_single, compile. rewrite collect_rules. cbn [exact suffixes prefixes].
    rewrite add_rules_exact, add_rules_suffixes, add_rules_prefixes.
    cbn [exact suffixes prefixes app]. rewrite lookup_empty.
    destruct (find_map _ _); [done|]. destruct (find _ _) as [[]|]; [done|].
    by destruct (find _ _) as [[]|].
  - intros d d' s s' Hd Hd'. apply score_gt_spec. unfold suffix_score, prefix_score, eval_lpm_host in *.
    destruct d, d'; repeat case_match; naive_solver lia.
  - intros d d' s s' Hd Hd'. apply score_gt_spec.
    unfold or_else, exact_score, suffix_score, prefix_score, eval_lpm_host in *.
    destruct d, d'; repeat case_match; naive_solver lia.
Qed.

Lemma compile_wildcard vhs :
  wildcard (compile domains vhs) = snd <$> first_best any_host_score (rules_of vhs).
Proof.
  unfold compile. rewrite collect_rules. cbn [wildcard].
  rewrite add_rules_wildcard, wildcard_first_best. cbn [wildcard]. by destruct (find_map _ _).
Qed.

(** The host that is selected is one of those compiled. *)
Lemma select_elem vhs host vh : select_virtual_host (compile domains vhs) host = Some vh → vh ∈ vhs.
Proof.
  assert (∀ f s v, first_best f (rules_of vhs) = Some (s, v) → v ∈ vhs) as Hin.
  { intros f s v (d & Hd & _)%first_best_elem. unfold rules_of in Hd. set_solver. }
  unfold select_virtual_host. rewrite compile_wildcard, match_single_first_best.
  intros Hs. assert (∃ f s, first_best f (rules_of vhs) = Some (s, vh)) as (f & s & Hf); [|by eapply Hin].
  destruct (without_port host) as [wp|]; cbn [mbind option_bind] in Hs; [rewrite match_single_first_best in Hs|];
    repeat case_match; simplify_eq/=; try (apply fmap_Some in Hs as ([] & ? & ?); simplify_eq/=); eauto.
Qed.

(** ** The oracle *)

Lemma first_best_cons (f : MatchHost → option MatchHostScoreLPM) (r : rule) rules :
  first_best f (r :: rules) = prefer (scored f r) (first_best f rules).
Proof. done. Qed.

Lemma fold_max_first_best (f : MatchHost → option MatchHostScoreLPM) (vh : VH) ds x :
  Some (fold_left (λ b y, if score_gt b y then b else y) (omap f ds) x, vh) =
  prefer (Some (x, vh)) (first_best f ((λ d, (d, vh)) <$> ds)).
Proof.
  revert x. induction ds as [|d ds IH]; intros x; [done|]. rewrite fmap_cons, first_best_cons.
  unfold scored. cbn [fst snd omap list_omap].
  destruct (f d) as [y|]; cbn [fmap option_fmap option_map fold_left]; [|apply IH].
  rewrite IH, prefer_assoc. f_equal. simpl.
  destruct (score_gt x y) eqn:E1; [by rewrite (score_gt_asym _ _ E1)|].
  destruct (score_gt y x) eqn:E2; [done|]. by rewrite (score_total _ _ E1 E2).
Qed.

Lemma score_max_first_best (f : MatchHost → option MatchHostScoreLPM) (vh : VH) ds :
  (λ s, (s, vh)) <$> score_max (omap f ds) = first_best f ((λ d, (d, vh)) <$> ds).
Proof.
  induction ds as [|d ds IH]; [done|]. rewrite fmap_cons, first_best_cons.
  unfold scored. cbn [fst snd omap list_omap].
  destruct (f d) as [y|]; cbn [fmap option_fmap option_map score_max]; [|exact IH].
  apply fold_max_first_best.
Qed.

Lemma reference_first_best vhs host :
  reference_select_vh domains vhs host =
  snd <$> first_best (λ d, eval_lpm d host) (rules_of vhs).
Proof.
  unfold reference_select_vh. f_equal.
  change (first_best (λ d, eval_lpm d host) (rules_of vhs)) with
    (prefer None (first_best (λ d, eval_lpm d host) (rules_of vhs))).
  generalize (None : option (MatchHostScoreLPM * VH)).
  induction vhs as [|vh vhs IH]; intros best; cbn [fold_left].
  { by destruct best as [[]|]. }
  rewrite IH.
  unfold rules_of. rewrite bind_cons, first_best_app, <-score_max_first_best, prefer_assoc.
  f_equal. destruct (score_max _); by destruct best as [[]|].
Qed.

(** ** Hosts with a port *)

Lemma strip_port_Some host name :
  strip_port host = Some name →
  ∃ port, host = name ++ Str.colon :: port ∧ port ≠ [] ∧ Forall (λ c, Str.is_ascii_digit c = true) port.
Proof.
  unfold strip_port. destruct (Str.rsplit_once_char _ _) as [[l port]|] eqn:E; simpl; [|done].
  apply Str.rsplit_once_char_Some in E as ->.
  destruct (_ && _) eqn:Hc; [|done]. intros [= <-]. exists port.
  rewrite !andb_true_iff, negb_true_iff, bool_decide_eq_false, forallb_forall in Hc.
  destruct Hc as [[? Hd] _]. split_and!; [done..|]. apply Forall_forall. intros c Hc.
  apply Hd. by apply list_elem_of_In.
Qed.

(** A host with a port has no trailing dot. *)
Lemma strip_dot_port host name : strip_port host = Some name → strip_dot host = host.
Proof.
  intros (port & -> & Hne & Hd)%strip_port_Some. unfold strip_dot.
  destruct (Str.strip_suffix_char _ _) as [t|] eqn:E; [|done].
  apply Str.strip_suffix_char_Some in E.
  destruct port as [|c port' _] using rev_ind; [done|].
  rewrite app_comm_cons, (assoc_L (++)) in E. apply app_inj_tail in E as [_ ->].
  apply Forall_app in Hd as [_ Hd]. by apply Forall_inv in Hd.
Qed.

Lemma strip_dot_length host : length (strip_dot host) ≤ length host.
Proof.
  unfold strip_dot. destruct (Str.strip_suffix_char _ _) as [t|] eqn:E; simpl; [|done].
  apply Str.strip_suffix_char_Some in E as ->. rewrite length_app. lia.
Qed.

Lemma eval_lpm_split d host :
  eval_lpm d host =
  or_else (or_else (specific_score (full host)) (λ d, wp ← without_port host; specific_score wp d))
    any_host_score d.
Proof.
  unfold or_else, eval_lpm, specific_score, or_else.
  destruct (without_port host); destruct d; simpl; repeat case_match; congruence.
Qed.

Lemma specific_agree raw raw' d s s' :
  specific_score raw d = Some s → specific_score raw' d = Some s' → s = s'.
Proof.
  unfold specific_score, or_else. destruct d; simpl; repeat case_match; congruence.
Qed.

(** Among the domains [ds], a suffix that matches the host with its port and
    one that matches the host without it are of different lengths, or the same. *)
Definition no_port_tie (ds : list MatchHost) (host : RequestHost) : Prop :=
  ∀ name s s', without_port host = Some name → Suffix s ∈ ds → Suffix s' ∈ ds →
    length s = length s' → s `suffix_of` full host → s' `suffix_of` strip_dot name → s = s'.

Lemma specific_tie ds host name d d' s :
  strip_port (full host) = Some name → without_port host = Some name → no_port_tie ds host →
  d ∈ ds → d' ∈ ds →
  specific_score (full host) d = Some s → specific_score name d' = Some s → d = d'.
Proof.
  intros Hport Hname Htie Hd Hd'. unfold specific_score, or_else.
  pose proof (strip_dot_length name) as Hlen.
  pose proof (strip_dot_port _ _ Hport) as Hdot.
  destruct (strip_port_Some _ _ Hport) as (port & Hfull & _).
  assert (length name < length (full host)) as Hshort by (rewrite Hfull, length_app; simpl; lia).
  destruct d as [|p|x|h], d' as [|p'|x'|h']; simpl; try (repeat case_match; congruence).
  - destruct (bool_decide _ && _) eqn:E1; [|done]. destruct (bool_decide _ && _) eqn:E2 in |- *; [|done].
    intros [= <-] [= Hl]. f_equal.
    apply andb_true_iff in E1 as [_ [k1 E1]%Str.starts_with_true].
    apply andb_true_iff in E2 as [_ [k2 E2]%Str.starts_with_true].
    rewrite Hfull, E2, <-(assoc_L (++)) in E1. by apply app_inj_1 in E1 as [-> _].
  - rewrite Hdot. destruct (bool_decide _ && _) eqn:E1; [|done].
    destruct (bool_decide _ && _) eqn:E2 in |- *; [|done]. intros [= <-] [= Hl]. f_equal.
    apply andb_true_iff in E1 as [_ E1%Str.ends_with_true].
    apply andb_true_iff in E2 as [_ E2%Str.ends_with_true]. by apply (Htie name).
  - rewrite Hdot. do 2 case_bool_decide; try done. subst. intros [= <-] [= Hl]. lia.
Qed.

Lemma specific_exact_best host name d d' n s' :
  strip_port host = Some name →
  specific_score host d = Some (ScoreExact n) → specific_score name d' = Some s' →
  score_gt s' (ScoreExact n) = false.
Proof.
  intros Hport. unfold specific_score, or_else.
  pose proof (strip_dot_length name) as Hlen.
  pose proof (strip_dot_port _ _ Hport) as Hdot.
  destruct (strip_port_Some _ _ Hport) as (port & Hfull & _).
  assert (length name < length host) as Hshort by (rewrite Hfull, length_app; simpl; lia).
  intros Hd Hd'. apply not_true_iff_false. rewrite score_gt_spec.
  destruct d, d'; simpl in *; rewrite ?Hdot in *; repeat case_match; simplify_eq/=; try lia.
  all: repeat match goal with H : bool_decide _ = true |- _ => apply bool_decide_eq_true in H end.
  all: subst; lia.
Qed.

Lemma rules_of_domains vhs : (rules_of vhs).*1 = vhs ≫= domains.
Proof.
  unfold rules_of. induction vhs as [|vh vhs IH]; [done|].
  rewrite !bind_cons, fmap_app, IH, <-list_fmap_compose. f_equal. apply list_fmap_id.
Qed.

Lemma first_best_specific vhs host_header authority host :
  from_request host_header authority = Some host → no_port_tie (vhs ≫= domains) host →
  first_best (or_else (specific_score (full host)) (λ d, wp ← without_port host; specific_score wp d))
    (rules_of vhs) =
  prefer (match_single (compile domains vhs) (full host))
    (without_port host ≫= match_single (compile domains vhs)).
Proof.
  unfold from_request. intros Hreq Htie. rewrite first_best_union.
  - rewrite match_single_first_best. destruct (without_port host) as [name|]; simpl.
    + by rewrite match_single_first_best.
    + f_equal. by apply first_best_None.
  - destruct (without_port host); simpl; [|done]. intros *. apply specific_agree.
  - rewrite rules_of_domains. intros d d' s Hd Hd'.
    destruct (without_port host) as [name|] eqn:Hname; simpl; [|done].
    apply (specific_tie (vhs ≫= domains)); auto.
    destruct (match host_header with Some v => v | None => authority end); simplify_eq/=. done.
Qed.

Lemma table_select vhs host_header authority host :
  from_request host_header authority = Some host → no_port_tie (vhs ≫= domains) host →
  select_virtual_host (compile domains vhs) host = reference_select_vh domains vhs host.
Proof.
  intros Hreq Htie. rewrite reference_first_best.
  rewrite (first_best_ext _ _ _ (λ d, eval_lpm_split d host)).
  rewrite first_best_dominated.
  2: { intros d d' s s' Hd Hd'. apply score_gt_spec.
       destruct d'; simplify_eq/=. unfold or_else, specific_score, or_else in Hd.
       destruct d, (without_port host); simpl in Hd; repeat case_match; simplify_eq/=; lia. }
  rewrite (first_best_specific _ _ _ _ Hreq Htie).
  unfold select_virtual_host. rewrite compile_wildcard.
  destruct (without_port host ≫= match_single _) as [[s' v']|] eqn:Hwp;
    destruct (match_single _ (full host)) as [[s v]|] eqn:Hfull; simpl; [|done|by destruct s|done].
  destruct (score_gt s' s) eqn:Hgt; [|by destruct s].
  destruct s as [| | |n]; try done. exfalso.
  apply bind_Some in Hwp as (name & Hname & Hwp). rewrite match_single_first_best in Hfull, Hwp.
  apply first_best_elem in Hfull as (d & _ & Hd). apply first_best_elem in Hwp as (d' & _ & Hd').
  rewrite (specific_exact_best (full host) name d d' n s') in Hgt; try done.
  unfold from_request in Hreq.
  destruct (match host_header with Some v => v | None => authority end); simplify_eq/=. done.
Qed.

(** C14: For every request whose host has no tie between suffix patterns with
    and without its port, the table compiled from the virtual hosts selects the
    virtual host that scoring every domain of every virtual host selects: the
    exact name, then the longest suffix, then the longest prefix, then the
    wildcard, the first declared among equals. *)
Theorem table_selects_best vhs host_header authority host :
  from_request host_header authority = Some host → no_port_tie (vhs ≫= domains) host →
  select_virtual_host (compile domains vhs) host = reference_select_vh domains vhs host.
Proof. apply table_select. Qed.
End table.

(** ** A table of four virtual hosts *)

Definition example_vhs : list (nat * list MatchHost) :=
  [(0, [Wildcard]);
   (1, [Suffix (lit ".example.com"); Prefix (lit "api.")]);
   (2, [Exact (lit "www.example.com"); Suffix (lit ".com")]);
   (3, [Exact (lit "www.example.com:8443"); Prefix (lit "api.v2.")])].

Lemma table_selects_best_witness :
  from_request (Some (Some (lit "www.example.com:443"))) None =
    Some (mk_host (lit "www.example.com:443") (Some (lit "www.example.com"))) ∧
  fst <$> reference_select_vh snd example_vhs
    (mk_host (lit "www.example.com:443") (Some (lit "www.example.com"))) = Some 2 ∧
  select_virtual_host (compile snd example_vhs)
    (mk_host (lit "www.example.com:443") (Some (lit "www.example.com"))) =
  reference_select_vh snd example_vhs
    (mk_host (lit "www.example.com:443") (Some (lit "www.example.com"))).
Proof.
  split_and!; [reflexivity|vm_compute; reflexivity|].
  apply (table_selects_best snd example_vhs (Some (Some (lit "www.example.com:443"))) None);
    [reflexivity|].
  intros name s s' _ Hs Hs' Hlen _ _.
  assert (∀ x, Suffix x ∈ example_vhs ≫= snd → x = lit ".example.com" ∨ x = lit ".com") as Hin.
  { intros x Hx. unfold example_vhs in Hx. rewrite !bind_cons in Hx. cbn [snd app mbind list_bind] in Hx.
    rewrite !elem_of_cons in Hx. destruct_or? Hx; simplify_eq; auto. by apply not_elem_of_nil in Hx. }
  destruct (Hin _ Hs) as [->| ->], (Hin _ Hs') as [->| ->]; done.
Defined.

(** Where a suffix pattern with the port and a longest suffix pattern
    without it are of one length, the table prefers the one that names the
    port and the scoring the one declared first. *)
Theorem port_tie :
  let vhs := [(0, [Suffix (lit "ple.com")]); (1, [Suffix (lit ".com:80")])] in
  let host := mk_host (lit "example.com:80") (Some (lit "example.com")) in
  from_request (Some (Some (lit "example.com:80"))) None = Some host ∧
  fst <$> select_virtual_host (compile snd vhs) host = Some 1 ∧
  fst <$> reference_select_vh snd vhs host = Some 0.
Proof. vm_compute. done. Qed.

(** ** Parsing and printing *)

(** The patterns that a configuration can name. *)
Definition nameable (m : MatchHost) : Prop :=
  match m with
  | Wildcard => True
  | Exact h => Str.star ∉ h
  | Prefix h | Suffix h => h ≠ [] ∧ Str.star ∉ h
  end.

Lemma count_stars_app s t :
  length (filter (λ c, c = Str.star) (s ++ t)) =
  length (filter (λ c, c = Str.star) s) + length (filter (λ c, c = Str.star) t).
Proof. by rewrite filter_app, length_app. Qed.

Lemma count_stars_none s : length (filter (λ c, c = Str.star) s) = 0 ↔ Str.star ∉ s.
Proof.
  rewrite length_zero_iff_nil. split; [|intros; apply filter_none; naive_solver].
  intros Hs Hin. assert (Str.star ∈ filter (λ c, c = Str.star) s) as Hf by by apply list_elem_of_filter.
  rewrite Hs in Hf. by apply not_elem_of_nil in Hf.
Qed.

Lemma host_parse_sound ihv value m :
  try_from_smol_str ihv value = Ok m → ihv value = true ∧ MatchHost_fmt m = value ∧ nameable m.
Proof.
  unfold try_from_smol_str. destruct (ihv value); simpl; [|done].
  case_bool_decide as Hstar; [by intros [= <-]|]. case_bool_decide as Hcount; [done|].
  destruct (Str.strip_prefix_char value Str.star) as [host|] eqn:Hp.
  - apply Str.strip_prefix_char_Some in Hp as ->. intros [= <-].
    split_and!; [done..|]. split; [naive_solver|].
    apply count_stars_none. rewrite filter_cons_True in Hcount by done. simpl in Hcount. lia.
  - destruct (Str.strip_suffix_char value Str.star) as [host|] eqn:Hs.
    + apply Str.strip_suffix_char_Some in Hs as ->. intros [= <-].
      split_and!; [done..|]. split; [naive_solver|].
      apply count_stars_none. rewrite count_stars_app, filter_cons_True in Hcount by done.
      simpl in Hcount. lia.
    + unfold Str.contains_char. case_bool_decide; [done|]. by intros [= <-].
Qed.

Lemma host_parse_complete ihv m :
  ihv (MatchHost_fmt m) = true → nameable m → try_from_smol_str ihv (MatchHost_fmt m) = Ok m.
Proof.
  intros Hihv Hn. unfold try_from_smol_str. rewrite Hihv. cbn [negb].
  destruct m as [|h|h|h]; cbn [MatchHost_fmt]; [done|..]; simpl in Hn.
  - destruct Hn as [Hne Hn]. rewrite bool_decide_eq_false_2.
    2: { intros E. apply (f_equal length) in E. rewrite length_app in E. destruct h; simpl in E; [done|lia]. }
    rewrite bool_decide_eq_false_2.
    2: { rewrite count_stars_app, (proj2 (count_stars_none h)), filter_cons_True by done. simpl. lia. }
    destruct (Str.strip_prefix_char (h ++ [Str.star]) Str.star) as [t|] eqn:E.
    { apply Str.strip_prefix_char_Some in E. destruct h; simplify_eq/=. set_solver. }
    by rewrite (proj2 (Str.strip_suffix_char_Some (h ++ [Str.star]) _ h)).
  - destruct Hn as [Hne Hn]. rewrite bool_decide_eq_false_2 by naive_solver.
    rewrite bool_decide_eq_false_2.
    { by rewrite (proj2 (Str.strip_prefix_char_Some (Str.star :: h) _ h)). }
    rewrite filter_cons_True by done. cbn [length]. rewrite (proj2 (count_stars_none h)) by done. lia.
  - rewrite bool_decide_eq_false_2 by (intros ->; by apply Hn, list_elem_of_singleton).
    rewrite bool_decide_eq_false_2 by (rewrite (proj2 (count_stars_none h)) by done; lia).
    destruct (Str.strip_prefix_char h Str.star) as [t|] eqn:E.
    { apply Str.strip_prefix_char_Some in E as ->. set_solver. }
    clear E. destruct (Str.strip_suffix_char h Str.star) as [t|] eqn:E.
    { apply Str.strip_suffix_char_Some in E as ->. set_solver. }
    unfold Str.contains_char. by rewrite bool_decide_eq_false_2.
Qed.

(** A string is read as a host pattern exactly when it is a header value
    and the pattern's printed form, with its one star at an end; so reading
    and printing are inverse on all patterns that can be named. *)
Theorem host_parse_print is_header_value value m :
  try_from_smol_str is_header_value value = Ok m ↔
  is_header_value value = true ∧ MatchHost_fmt m = value ∧ nameable m.
Proof.
  split; [apply host_parse_sound|]. intros (Hv & <- & Hn). by apply host_parse_complete.
Qed.

(** ** Duplicate domains *)

Lemma insert_domains_spec seen ds :
  match insert_domains seen ds with
  | Ok seen' => seen' = list_to_set ds ∪ seen ∧ NoDup ds ∧ (∀ d, d ∈ ds → d ∉ seen)
  | Err d => ∃ l1 l2, ds = l1 ++ d :: l2 ∧ NoDup l1 ∧ (∀ d, d ∈ l1 → d ∉ seen) ∧ (d ∈ seen ∨ d ∈ l1)
  end.
Proof.
  revert seen. induction ds as [|d ds IH]; intros seen; simpl.
  { split_and!; [set_solver|constructor|set_solver]. }
  case_bool_decide as Hd.
  { exists [], ds. split_and!; [done|constructor|set_solver|by left]. }
  specialize (IH ({[d]} ∪ seen)). destruct (insert_domains _ ds) as [seen'|d'].
  - destruct IH as (-> & Hnd & Hnew). split_and!; [set_solver|constructor; set_solver|set_solver].
  - destruct IH as (l1 & l2 & -> & Hnd & Hnew & Hin).
    exists (d :: l1), l2. split_and!; [done|constructor; set_solver|set_solver|set_solver].
Qed.

Lemma validate_from_flat {VH} (domains : VH → list MatchHost) seen vhs :
  validate_from domains seen vhs = (λ _, ()) <$> insert_domains seen (vhs ≫= domains).
Proof.
  revert seen. induction vhs as [|vh vhs IH]; intros seen; [done|].
  rewrite bind_cons. cbn [validate_from].
  generalize (domains vh). intros ds. revert seen.
  induction ds as [|d ds IHd]; intros seen; simpl; [apply IH|]. by case_bool_decide.
Qed.

(** The virtual hosts of a route configuration are accepted exactly when no
    domain occurs twice, within one virtual host or across two, and the error
    names the first domain that repeats an earlier one. *)
Theorem unique_domains {VH} (domains : VH → list MatchHost) vhs :
  match validate_unique_virtual_host_domains domains vhs with
  | Ok _ => NoDup (vhs ≫= domains)
  | Err d => ∃ l1 l2, vhs ≫= domains = l1 ++ d :: l2 ∧ NoDup l1 ∧ d ∈ l1
  end.
Proof.
  unfold validate_unique_virtual_host_domains. rewrite validate_from_flat.
  pose proof (insert_domains_spec ∅ (vhs ≫= domains)) as H.
  destruct (insert_domains ∅ _); simpl; [tauto|].
  destruct H as (l1 & l2 & Hl & ? & _ & [?|?]); [set_solver|by exists l1, l2].
Qed.
End VirtualHostSpec.
