(* ===== verification/Route.v ===== *)
(** Routes: matching a request and rewriting its path
    (arion-configuration/src/config/network_filters/http_connection_manager/route.rs)
    and the choice of a route (arion-lib/src/listeners/http_connection_manager.rs). *)

From S2P Require Import Prelude RustStr Http StringMatch HeaderMatch VirtualHost VirtualHostSpec.
Import Http StringMatch HeaderMatch.

Module Route.

Section route.
Context `{HttpLib, RegexLib, UrlLib}.

(** ** Paths *)

Inductive PathSpecifier : Type :=
  | PrefixPath (p : str)
  | ExactPath (s : str)
  | RegexPath (r : Regex)
  | PathSeparatedPrefix (p : str).

(** The variants of the xDS message that are supported. *)
Inductive EnvoyPathSpecifier : Type :=
  | EnvoyPrefix (s : str)
  | EnvoyPath (s : str)
  | EnvoySafeRegex (r : Regex)
  | EnvoyPathSeparatedPrefix (s : str)
  | EnvoyUnsupported.

Definition path_specifier_try_from (value : EnvoyPathSpecifier) : result () PathSpecifier :=
  match value with
  | EnvoyPrefix s => Ok (PrefixPath s)
  | EnvoyPath s => Ok (ExactPath s)
  | EnvoySafeRegex r => Ok (RegexPath r)
  | EnvoyPathSeparatedPrefix s =>
    if Str.ends_with s [Str.slash] || Str.contains_char s Str.question then Err ()
    else Ok (PathSeparatedPrefix (s ++ [Str.slash]))
  | EnvoyUnsupported => Err ()
  end.

Record PathMatcher : Type := mk_path_matcher {
  specifier : PathSpecifier;
  path_ignore_case : bool;
}.

(** The length of the part of the path that matched. *)
Definition path_matches (m : PathMatcher) (path : PathAndQuery) : option nat :=
  let path := pq_path path in
  let case_matcher := mk_cs (negb (path_ignore_case m)) path in
  match specifier m with
  | ExactPath s => if cs_equals case_matcher s then Some (length s) else None
  | PrefixPath p => if cs_starts_with case_matcher p then Some (length p) else None
  | PathSeparatedPrefix psp =>
    let by_prefix := if cs_starts_with case_matcher psp then Some (length psp) else None in
    match Str.strip_suffix_char psp Str.slash with
    | Some without_slash => if cs_equals case_matcher without_slash then Some (length without_slash) else by_prefix
    | None => by_prefix
    end
  | RegexPath r => if matches_full r path then Some (length path) else None
  end.

(** ** Query parameters *)

Inductive QueryParameterMatchSpecifier : Type :=
  | PresentMatch (should_be_present : bool)
  | StringMatch (m : StringMatcher).

Record QueryParameterMatcher : Type := mk_query_matcher {
  query_name : str;
  match_specifier : QueryParameterMatchSpecifier;
}.

Definition query_matches (m : QueryParameterMatcher) (query : option str) : bool :=
  let param_value :=
    q ← query;
    snd <$> find (λ p, bool_decide (p.1 = query_name m)) (parse_query q) in
  match match_specifier m with
  | PresentMatch should_be_present => eqb (bool_decide (is_Some param_value)) should_be_present
  | StringMatch sm => match param_value with Some v => string_matches sm v | None => false end
  end.

(** ** Routes *)

Record RouteMatch : Type := mk_route_match {
  path_matcher : option PathMatcher;
  header_matchers : list HeaderMatcher;
  query_parameters : list QueryParameterMatcher;
}.

Definition route_match_default : RouteMatch :=
  mk_route_match (Some (mk_path_matcher (PrefixPath []) false)) [] [].

Record RouteMatchResult : Type := mk_match_result {
  path_match : option (option nat);
  headers_matched : bool;
  query_parameters_matched : bool;
}.

Definition path_ok (path_match : option (option nat)) : bool :=
  match path_match with Some r => bool_decide (is_Some r) | None => true end.

Definition matched (r : RouteMatchResult) : bool :=
  headers_matched r && query_parameters_matched r && path_ok (path_match r).

(** The end of the matched range, which starts at 0. *)
Definition matched_range (r : RouteMatchResult) : option nat :=
  if headers_matched r then match path_match r with Some pmr => pmr | None => None end else None.

Definition match_request (m : RouteMatch) (r : Request) : RouteMatchResult :=
  let path_match :=
    (λ pm, path_matches pm (default (mk_pq [Str.slash] None) (path_and_query (uri r)))) <$> path_matcher m in
  let headers_matched :=
    if path_ok path_match then forallb (λ hm, request_matches hm r) (header_matchers m) else false in
  let query_parameters_matched :=
    if headers_matched then
      bool_decide (query_parameters m = []) ||
      forallb (λ qm, query_matches qm (uri_query (uri r))) (query_parameters m)
    else false in
  mk_match_result path_match headers_matched query_parameters_matched.

(** ** Rewriting the path *)

Inductive PathRewriteSpecifier : Type :=
  | RewritePath (p : PathAndQuery)
  | RewritePrefix (prefix : str)
  | RewriteRegex (pattern : Regex) (substitution : str).

(** The new path; nothing if the path is left as it is. *)
Definition new_path (s : PathRewriteSpecifier) (old_path : str) (res : RouteMatchResult) : option str :=
  match s with
  | RewritePath p => Some (pq_path p)
  | RewriteRegex pattern substitution => replace_all pattern old_path substitution
  | RewritePrefix prefix =>
    boundary ← matched_range res;
    let boundary :=
      if bool_decide (0 < boundary) && bool_decide (old_path !! (boundary - 1) = Some Str.slash)
      then boundary - 1 else boundary in
    let remainder := default [] (Str.get_from old_path boundary) in
    let replacement :=
      if Str.starts_with remainder [Str.slash]
      then default prefix (Str.strip_suffix_char prefix Str.slash) else prefix in
    let rewritten := replacement ++ remainder in
    Some (if bool_decide (rewritten = []) then [Str.slash] else rewritten)
  end.

(** [parse_pq] is [PathAndQuery::from_str]. *)
Definition rewrite_apply (parse_pq : str → option PathAndQuery) (s : PathRewriteSpecifier)
    (pq : option PathAndQuery) (res : RouteMatchResult) : result () (option PathAndQuery) :=
  let old_path := default [] (pq_path <$> pq) in
  let old_query := pq ≫= pq_query in
  match new_path s old_path res with
  | None => Ok None
  | Some new_path =>
    let final_uri :=
      match old_query with
      | Some q => if Str.contains_char new_path Str.question then new_path else new_path ++ Str.question :: q
      | None => new_path
      end in
    match parse_pq final_uri with Some pq => Ok (Some pq) | None => Err () end
  end.

(** ** Choosing a route *)

Context {A : Type}.
(** [http::header::HOST]. *)
Context (HOST : HeaderName).

(** A route is what it matches and what it does. *)
Record RuntimeRoute : Type := mk_route { route_match : RouteMatch; action : A }.

Record RuntimeVirtualHost : Type := mk_virtual_host {
  vh_domains : list VirtualHost.MatchHost;
  routes : list RuntimeRoute;
}.

Definition request_host (r : Request) : option VirtualHost.RequestHost :=
  VirtualHost.from_request (to_str <$> header_get (headers r) HOST) (authority (uri r)).

Definition match_request_route (t : VirtualHost.VirtualHostTable (VH := RuntimeVirtualHost)) (r : Request)
    : option (RuntimeVirtualHost * RuntimeRoute * RouteMatchResult) :=
  host ← request_host r;
  chosen_vh ← VirtualHost.select_virtual_host t host;
  find_map (λ route,
    let res := match_request (route_match route) r in
    if matched res then Some (chosen_vh, route, res) else None) (routes chosen_vh).
End route.

Arguments RuntimeRoute {_ _} A.
Arguments RuntimeVirtualHost {_ _} A.
End Route.

(** Routing: the route that is chosen, path prefixes that end at a segment, and
    the paths that rewriting them gives. *)

Import Http StringMatch HeaderMatch Route.

Module RouteSpec.

Section spec.
Context `{HttpLib, RegexLib, UrlLib}.

(** A route accepts a request if each of its conditions does. *)
Definition accepts (m : RouteMatch) (r : Request) : Prop :=
  (∀ pm, path_matcher m = Some pm →
    is_Some (path_matches pm (default (mk_pq [Str.slash] None) (path_and_query (uri r))))) ∧
  Forall (λ hm, request_matches hm r = true) (header_matchers m) ∧
  Forall (λ qm, query_matches qm (uri_query (uri r)) = true) (query_parameters m).

Lemma forallb_Forall {B} (f : B → bool) l : forallb f l = true ↔ Forall (λ x, f x = true) l.
Proof.
  rewrite forallb_forall, Forall_forall. split; intros Hf x Hx; apply Hf; by apply list_elem_of_In.
Qed.

Lemma match_request_accepts m r : matched (match_request m r) = true ↔ accepts m r.
Proof.
  unfold matched, match_request, accepts. simpl. rewrite <-!forallb_Forall.
  destruct (path_matcher m) as [pm|]; simpl.
  - case_bool_decide as Hp; simpl.
    + destruct (forallb _ (header_matchers m)); simpl; [|naive_solver].
      rewrite andb_true_r, orb_true_iff, bool_decide_eq_true.
      split; [|naive_solver]. intros Hq. split_and!; [naive_solver|done|].
      destruct Hq as [->|?]; done.
    + naive_solver.
  - destruct (forallb _ (header_matchers m)); simpl; [|naive_solver].
    rewrite andb_true_r, orb_true_iff, bool_decide_eq_true. split; [|naive_solver].
    intros Hq. split_and!; [naive_solver|done|]. destruct Hq as [->|?]; done.
Qed.

Context {A : Type} (HOST : HeaderName).

(** The first route that accepts. *)
Definition first_route (r : Request) (l : list (RuntimeRoute A)) (route : RuntimeRoute A) : Prop :=
  ∃ l1 l2, l = l1 ++ route :: l2 ∧ accepts (route_match route) r ∧
    Forall (λ x, ¬ accepts (route_match x) r) l1.


(** ** Prefixes that end at a segment *)

(** The path [s], or a path below it. *)
Definition at_or_below (s path : str) : Prop := ∃ rest, path = s ++ rest ∧ (rest = [] ∨ ∃ t, rest = Str.slash :: t).

Lemma path_separated_matches s path q :
  path_matches (mk_path_matcher (PathSeparatedPrefix (s ++ [Str.slash])) false) (mk_pq path q) =
  if decide (path = s) then Some (length s)
  else if Str.starts_with path (s ++ [Str.slash]) then Some (S (length s)) else None.
Proof.
  unfold path_matches. cbn [specifier path_ignore_case negb pq_path].
  rewrite (proj2 (Str.strip_suffix_char_Some (s ++ [Str.slash]) _ s) eq_refl).
  unfold cs_equals, cs_starts_with. cbn [sensitive subject].
  rewrite length_app. cbn [length]. replace (length s + 1) with (S (length s)) by lia.
  by destruct (decide (path = s)); [rewrite bool_decide_eq_true_2|rewrite bool_decide_eq_false_2].
Qed.

Lemma at_or_below_matches s path q :
  at_or_below s path ↔
  is_Some (path_matches (mk_path_matcher (PathSeparatedPrefix (s ++ [Str.slash])) false) (mk_pq path q)).
Proof.
  rewrite path_separated_matches. case_decide as Hp.
  - split; [done|]. intros _. exists []. rewrite app_nil_r. auto.
  - destruct (Str.starts_with path (s ++ [Str.slash])) eqn:E.
    + apply Str.starts_with_true in E as [t ->]. split; [done|]. intros _.
      exists (Str.slash :: t). rewrite <-(assoc_L (++)). split; [done|]. right. by exists t.
    + split; [|by intros []]. intros (rest & -> & [->|[t ->]]); [by rewrite app_nil_r in Hp|].
      exfalso. apply not_true_iff_false in E. apply E, Str.starts_with_true. exists t.
      by rewrite <-(assoc_L (++)).
Qed.

(** What replaces [s] in front of [rest]: the new prefix, without its slash if
    a slash follows. *)
Definition join (prefix rest : str) : str :=
  let prefix := match rest with [] => prefix | _ => default prefix (Str.strip_suffix_char prefix Str.slash) end in
  match prefix ++ rest with [] => [Str.slash] | p => p end.

Lemma starts_with_slash (l : str) : Str.starts_with l [Str.slash] = true ↔ ∃ t, l = Str.slash :: t.
Proof.
  rewrite Str.starts_with_true. split.
  - intros [t ->]. by exists t.
  - intros [t ->]. by exists t.
Qed.

Lemma boundary_at (s rest : str) :
  rest = [] ∨ (∃ t, rest = Str.slash :: t) → Str.get_from (s ++ rest) (length s) = Some rest.
Proof.
  intros Hrest. unfold Str.get_from.
  assert (Str.is_char_boundary (s ++ rest) (length s) = true) as ->.
  { unfold Str.is_char_boundary. rewrite !orb_true_iff, !bool_decide_eq_true.
    destruct Hrest as [->|[t ->]]; [left; right; by rewrite app_nil_r|right].
    by rewrite list_lookup_middle. }
  by rewrite drop_app_length.
Qed.

(** The new path of a prefix rewrite, wherever the match ended: at the slash
    after [s] or before it. *)
Lemma new_path_prefix s rest prefix res n :
  s ≠ [] → Str.ends_with s [Str.slash] = false →
  rest = [] ∨ (∃ t, rest = Str.slash :: t) →
  matched_range res = Some n → n = length s ∨ n = S (length s) ∧ rest ≠ [] →
  new_path (RewritePrefix prefix) (s ++ rest) res = Some (join prefix rest).
Proof.
  intros Hs Hend Hrest Hres Hn. unfold new_path. rewrite Hres. cbn [mbind option_bind].
  set (boundary := if bool_decide (0 < n) && _ then n - 1 else n). assert (boundary = length s) as ->.
  { unfold boundary. destruct Hn as [->|[-> Hne]].
    - destruct s as [|c s _] using rev_ind; [done|]. rewrite length_app. cbn [length].
      replace (length s + 1 - 1) with (length s) by lia.
      rewrite <-(assoc_L (++)). cbn [app]. rewrite list_lookup_middle by done.
      rewrite (bool_decide_eq_false_2 (Some c = _)); [by rewrite andb_false_r|].
      intros [= ->]. apply not_true_iff_false in Hend. apply Hend, Str.ends_with_true. by exists s.
    - destruct Hrest as [->|[t ->]]; [done|]. replace (S (length s) - 1) with (length s) by lia.
      rewrite list_lookup_middle by done. rewrite !bool_decide_eq_true_2 by (done || lia). done. }
  rewrite (boundary_at s rest Hrest). cbn [from_option id]. unfold join.
  destruct Hrest as [->|[t ->]].
  - assert (Str.starts_with [] [Str.slash] = false) as -> by by vm_compute.
    rewrite app_nil_r. by destruct prefix.
  - rewrite (proj2 (starts_with_slash _)) by by exists t.
    by destruct (default prefix _).
Qed.

Lemma matched_range_path pm r :
  matched_range (match_request (mk_route_match (Some pm) [] []) r) =
  path_matches pm (default (mk_pq [Str.slash] None) (path_and_query (uri r))).
Proof. unfold matched_range, match_request. simpl. by destruct (path_matches pm _). Qed.

(** A prefix that ends at a segment matches the path it names and the paths
    below it, and no others; and rewriting it replaces just that prefix: what
    follows stays, no slash is lost or doubled, and the query is kept. *)
Theorem path_separated_rewrite parse_pq s spec prefix r pq res :
  path_specifier_try_from (EnvoyPathSeparatedPrefix s) = Ok spec → s ≠ [] →
  path_and_query (uri r) = Some pq →
  res = match_request (mk_route_match (Some (mk_path_matcher spec false)) [] []) r →
  (matched res = true ↔ at_or_below s (pq_path pq)) ∧
  ∀ rest, pq_path pq = s ++ rest → matched res = true →
    let final := match pq_query pq with
      | Some q => if Str.contains_char (join prefix rest) Str.question then join prefix rest
                  else join prefix rest ++ Str.question :: q
      | None => join prefix rest
      end in
    rewrite_apply parse_pq (RewritePrefix prefix) (Some pq) res =
    match parse_pq final with Some pq => Ok (Some pq) | None => Err () end.
Proof.
  intros Hspec Hne Hpq ->. unfold path_specifier_try_from in Hspec.
  destruct (Str.ends_with s [Str.slash] || _) eqn:Hbad; simplify_eq.
  apply orb_false_iff in Hbad as [Hend _]. destruct pq as [path q]. cbn [pq_path pq_query].
  assert (matched (match_request (mk_route_match (Some (mk_path_matcher (PathSeparatedPrefix (s ++ [Str.slash])) false)) [] []) r) = true
    ↔ at_or_below s path) as Hmatch.
  { rewrite match_request_accepts, (at_or_below_matches s path q). unfold accepts. simpl. rewrite Hpq. simpl.
    rewrite !Forall_nil. naive_solver. }
  split; [exact Hmatch|]. intros rest -> Hm. apply Hmatch in Hm as (rest' & Hr & Hrest). simplify_list_eq.
  unfold rewrite_apply. cbn [from_option id fmap option_fmap option_map pq_path mbind option_bind pq_query].
  pose proof (matched_range_path (mk_path_matcher (PathSeparatedPrefix (s ++ [Str.slash])) false) r) as Hrange.
  rewrite Hpq in Hrange. cbn [from_option id] in Hrange. rewrite path_separated_matches in Hrange.
  destruct (decide (s ++ rest' = s)) as [Heq|Hneq].
  - by rewrite (new_path_prefix s rest' prefix _ (length s) Hne Hend Hrest Hrange) by auto.
  - destruct Hrest as [->|[t ->]]; [by rewrite app_nil_r in Hneq|].
    rewrite (proj2 (Str.starts_with_true _ _)) in Hrange by (exists t; by rewrite <-(assoc_L (++))).
    rewrite (new_path_prefix s (Str.slash :: t) prefix _ (S (length s)) Hne Hend); eauto.
Qed.
End spec.

Section witness.
#[local] Existing Instances assoc_http no_regex.
#[local] Instance no_queries : UrlLib := λ _, [].

Definition example_host : RuntimeVirtualHost nat :=
  mk_virtual_host [VirtualHost.Suffix (lit ".example.com")]
    [mk_route (mk_route_match (Some (mk_path_matcher (PathSeparatedPrefix (lit "/api/")) false)) [] []) 1;
     mk_route route_match_default 2].

Definition example_request : Request :=
  mk_request (lit "GET") (mk_uri None None (Some (mk_pq (lit "/api/users") (Some (lit "id=1")))))
    [(lit "host", lit "www.example.com")].


(** A parser for the example: the path up to the first question mark. *)
Definition split_query (s : str) : option PathAndQuery :=
  Some (match Str.split_once_char s Str.question with
        | Some (p, q) => mk_pq p (Some q)
        | None => mk_pq s None
        end).

Lemma path_separated_rewrite_witness :
  let pq := mk_pq (lit "/api/users") (Some (lit "id=1")) in
  let spec := PathSeparatedPrefix (lit "/api/") in
  let res := match_request (mk_route_match (Some (mk_path_matcher spec false)) [] []) example_request in
  matched res = true ∧
  rewrite_apply split_query (RewritePrefix (lit "/v2/")) (Some pq) res =
    Ok (Some (mk_pq (lit "/v2/users") (Some (lit "id=1")))).
Proof.
  intros pq spec res.
  destruct (path_separated_rewrite (H := assoc_http) split_query (lit "/api") spec (lit "/v2/") example_request pq res
    eq_refl ltac:(done) eq_refl eq_refl) as [_ H].
  assert (matched res = true) as Hm by (vm_compute; reflexivity). split; [exact Hm|].
  rewrite (H (lit "/users") eq_refl Hm). vm_compute. reflexivity.
Defined.
End witness.
End RouteSpec.
