(* ===== verification/Rbac.v ===== *)
(** Role-based access control on connections (arion-configuration/src/config/
    network_filters/network_rbac.rs) and on requests (http_connection_manager/
    http_filters/http_rbac.rs). *)

From S2P Require Import Prelude RustStr Net Http StringMatch HeaderMatch.
Import Net Http StringMatch HeaderMatch.

Module Rbac.

Inductive Action : Type := Allow | Deny.

(** The policy that decides, and the decision: [is_permitted] of both kinds,
    over the policies in the order of their names. *)
Definition is_permitted_by {P} (enforce : P → bool) (action : Action) (policies : gmap str P)
    : bool * option str :=
  let enforced_policy := fst <$> find (λ e, enforce e.2) (btree_iter Str.str_le policies) in
  let permitted :=
    match action with
    | Allow => bool_decide (is_Some enforced_policy)
    | Deny => bool_decide (enforced_policy = None)
    end in
  (permitted, enforced_policy).

(** ** Connections *)

Section network.
Context `{IpNetLib, RegexLib}.

Record NetworkContext : Type := mk_network_context {
  destination : SocketAddr;
  downstream : SocketAddr;
  server_name : option str;
}.

(** A range is half open: its first port, and the one after its last. *)
Inductive NetworkPermission : Type :=
  | AnyPermission
  | DestinationIp (net : IpNet)
  | DestinationPort (port : Z)
  | DestinationPortRange (start end_ : Z)
  | ServerName (m : StringMatcher).

Inductive NetworkPrincipal : Type :=
  | AnyPrincipal
  | DownstreamRemoteIp (net : IpNet).

Definition network_is_applicable (p : NetworkPermission) (ctx : NetworkContext) : bool :=
  match p with
  | AnyPermission => true
  | DestinationIp net => net_contains net (sock_ip (destination ctx))
  | DestinationPort port => (sock_port (destination ctx) =? port)%Z
  | DestinationPortRange start end_ =>
    ((start <=? sock_port (destination ctx)) && (sock_port (destination ctx) <? end_))%Z
  | ServerName m =>
    match string_matches m <$> server_name ctx with Some true => true | Some false | None => false end
  end.

Definition network_has_principal (p : NetworkPrincipal) (ctx : NetworkContext) : bool :=
  match p with
  | AnyPrincipal => true
  | DownstreamRemoteIp net => net_contains net (sock_ip (downstream ctx))
  end.

Record NetworkPolicy : Type := mk_network_policy {
  network_permissions : list NetworkPermission;
  network_principals : list NetworkPrincipal;
}.

Definition network_enforce (ctx : NetworkContext) (p : NetworkPolicy) : bool :=
  let has_permission := existsb (λ x, network_is_applicable x ctx) (network_permissions p) in
  let has_principal := existsb (λ x, network_has_principal x ctx) (network_principals p) in
  has_permission && has_principal.

Record NetworkRbac : Type := mk_network_rbac {
  network_action : Action;
  network_policies : gmap str NetworkPolicy;
}.

Definition network_is_permitted (r : NetworkRbac) (ctx : NetworkContext) : bool * option str :=
  is_permitted_by (network_enforce ctx) (network_action r) (network_policies r).
End network.

(** ** Requests *)

Section http.
Context `{HttpLib, RegexLib}.

(** Permissions and principals of requests have the same form. *)
Inductive HttpPermission : Type :=
  | AnyRequest
  | Header (m : HeaderMatcher).

Definition http_is_applicable (p : HttpPermission) (req : Request) : bool :=
  match p with AnyRequest => true | Header h => request_matches h req end.

Definition http_has_principal (p : HttpPermission) (req : Request) : bool :=
  match p with AnyRequest => true | Header h => request_matches h req end.

Record HttpPolicy : Type := mk_http_policy {
  http_permissions : list HttpPermission;
  http_principals : list HttpPermission;
}.

Definition http_enforce (req : Request) (p : HttpPolicy) : bool :=
  let has_permission := existsb (λ x, http_is_applicable x req) (http_permissions p) in
  let has_principal := existsb (λ x, http_has_principal x req) (http_principals p) in
  has_permission && has_principal.

Record HttpRbac : Type := mk_http_rbac {
  http_action : Action;
  http_policies : gmap str HttpPolicy;
}.

Definition http_is_permitted (r : HttpRbac) (req : Request) : bool * option str :=
  is_permitted_by (http_enforce req) (http_action r) (http_policies r).
End http.

(** ** What is decided *)

Section decision.
Context {P : Type} (enforce : P → bool) (policies : gmap str P).

(** The name of the first policy, in the order of the names, that applies. *)
Definition first_enforced (name : str) : Prop :=
  (∃ p, policies !! name = Some p ∧ enforce p = true) ∧
  ∀ other p, policies !! other = Some p → enforce p = true → Str.str_le name other.

Lemma find_first_enforced name :
  fst <$> find (λ e, enforce e.2) (btree_iter Str.str_le policies) = Some name ↔ first_enforced name.
Proof.
  assert (∀ name, fst <$> find (λ e, enforce e.2) (btree_iter Str.str_le policies) = Some name → first_enforced name) as Hfirst.
  { intros k. destruct (find _ _) as [[k' p]|] eqn:E; [|done]. intros [= ->].
    apply find_Some in E as (l1 & l2 & Hl & He & Hno). split.
    - exists p. split; [|done]. apply (elem_of_btree_iter Str.str_le). rewrite Hl. set_solver.
    - intros other q Hq Heq. apply (elem_of_btree_iter Str.str_le) in Hq.
      pose proof (StronglySorted_btree_iter Str.str_le policies) as Hs. rewrite Hl in Hq, Hs.
      apply elem_of_app in Hq as [Hq|Hq].
      + rewrite Forall_forall in Hno. specialize (Hno _ Hq). simpl in Hno. congruence.
      + apply elem_of_cons in Hq as [?|Hq]; [simplify_eq; apply Str.str_le_refl|].
        apply StronglySorted_app in Hs as (_ & _ & Hs). apply StronglySorted_inv in Hs as [_ Hs].
        rewrite Forall_forall in Hs. exact (Hs _ Hq). }
  split; [apply Hfirst|]. intros [(p & Hp & He) Hmin].
  destruct (find _ _) as [[k q]|] eqn:E.
  - destruct (Hfirst k) as [(q' & Hq & Heq) Hmin']; [done|]. simpl. f_equal.
    apply (anti_symm Str.str_le); [by eapply Hmin'|by eapply Hmin].
  - rewrite find_None in E. apply (elem_of_btree_iter Str.str_le) in Hp. rewrite Forall_forall in E.
    specialize (E _ Hp). simpl in E. congruence.
Qed.

Lemma is_permitted_by_spec action :
  let d := is_permitted_by enforce action policies in
  (d.1 = true ↔ match action with
     | Allow => ∃ name p, policies !! name = Some p ∧ enforce p = true
     | Deny => ∀ name p, policies !! name = Some p → enforce p = false
     end) ∧
  ∀ name, d.2 = Some name ↔ first_enforced name.
Proof.
  split; [|apply find_first_enforced]. unfold is_permitted_by. cbn [fst].
  assert (is_Some (fst <$> find (λ e, enforce e.2) (btree_iter Str.str_le policies)) ↔
    ∃ name p, policies !! name = Some p ∧ enforce p = true) as Hsome.
  { split.
    - intros [name Hn]. apply find_first_enforced in Hn as [(p & Hp) _]. eauto.
    - intros (name & p & Hp & He). destruct (find _ _) as [[k q]|] eqn:E; [by eexists|].
      rewrite find_None in E. apply (elem_of_btree_iter Str.str_le) in Hp. rewrite Forall_forall in E.
      specialize (E _ Hp). simpl in E. congruence. }
  destruct action; rewrite bool_decide_eq_true; [done|]. rewrite eq_None_not_Some, Hsome. split.
  - intros Hno name p Hp. apply not_true_is_false. naive_solver.
  - intros Hall (name & p & Hp & He). by rewrite (Hall name p Hp) in He.
Qed.
End decision.

Section claim.
Context `{IpNetLib, RegexLib, HttpLib}.

(** A policy applies if one of its permissions and one of its principals do. *)
Definition network_covers (ctx : NetworkContext) (p : NetworkPolicy) : Prop :=
  Exists (λ x, network_is_applicable x ctx = true) (network_permissions p) ∧
  Exists (λ x, network_has_principal x ctx = true) (network_principals p).

Definition http_covers (req : Request) (p : HttpPolicy) : Prop :=
  Exists (λ x, http_is_applicable x req = true) (http_permissions p) ∧
  Exists (λ x, http_has_principal x req = true) (http_principals p).

Lemma existsb_Exists {A} (f : A → bool) l : existsb f l = true ↔ Exists (λ x, f x = true) l.
Proof. rewrite existsb_exists, Exists_exists. by setoid_rewrite list_elem_of_In. Qed.

Lemma network_enforce_covers ctx p : network_enforce ctx p = true ↔ network_covers ctx p.
Proof. unfold network_enforce. cbv zeta. by rewrite andb_true_iff, !existsb_Exists. Qed.

Lemma http_enforce_covers req p : http_enforce req p = true ↔ http_covers req p.
Proof. unfold http_enforce. cbv zeta. by rewrite andb_true_iff, !existsb_Exists. Qed.

(** C35: Access is granted exactly if some policy applies, for a list of
    policies that allow, or none does, for one that denies; a policy applies if
    one of its permissions and one of its principals do, so never without a
    permission or without a principal.  The policy that is reported is the
    first one that applies in the order of the names.  So for connections and
    for requests. *)
Theorem rbac_decides (n : NetworkRbac) (ctx : NetworkContext) (h : HttpRbac) (req : Request) :
  ((network_is_permitted n ctx).1 = true ↔
     match network_action n with
     | Allow => ∃ name p, network_policies n !! name = Some p ∧ network_covers ctx p
     | Deny => ∀ name p, network_policies n !! name = Some p → ¬ network_covers ctx p
     end) ∧
  (∀ name, (network_is_permitted n ctx).2 = Some name ↔ first_enforced (network_enforce ctx) (network_policies n) name) ∧
  ((http_is_permitted h req).1 = true ↔
     match http_action h with
     | Allow => ∃ name p, http_policies h !! name = Some p ∧ http_covers req p
     | Deny => ∀ name p, http_policies h !! name = Some p → ¬ http_covers req p
     end) ∧
  (∀ name, (http_is_permitted h req).2 = Some name ↔ first_enforced (http_enforce req) (http_policies h) name).
Proof.
  pose proof (is_permitted_by_spec (network_enforce ctx) (network_policies n) (network_action n)) as [Hn Hn'].
  pose proof (is_permitted_by_spec (http_enforce req) (http_policies h) (http_action h)) as [Hh Hh'].
  split_and!; [|exact Hn'| |exact Hh'].
  - unfold network_is_permitted. rewrite Hn. destruct (network_action n).
    + by setoid_rewrite network_enforce_covers.
    + setoid_rewrite <-network_enforce_covers. by setoid_rewrite not_true_iff_false.
  - unfold http_is_permitted. rewrite Hh. destruct (http_action h).
    + by setoid_rewrite http_enforce_covers.
    + setoid_rewrite <-http_enforce_covers. by setoid_rewrite not_true_iff_false.
Qed.
End claim.
End Rbac.
