(* ===== verification/Fmt.v ===== *)
(** Numbers as text: what the sources use of [std::fmt] and [from_str_radix],
    and the standard library's [Display] of addresses. *)

From S2P Require Import Prelude RustStr Net.
Import Net.
Local Open Scope Z_scope.

Module Fmt.

(** ** Digits *)

(** The digit of value [d] below 16, in lower case. *)
Definition digit (d : Z) : Ascii.ascii := Str.byte (Z.to_N (if d <? 10 then 48 + d else 87 + d)).

(** The value of a digit, of either case. *)
Definition digit_value (c : Ascii.ascii) : option Z :=
  let n := Z.of_N (Ascii.N_of_ascii c) in
  if (48 <=? n) && (n <=? 57) then Some (n - 48)
  else if (97 <=? n) && (n <=? 102) then Some (n - 87)
  else if (65 <=? n) && (n <=? 70) then Some (n - 55)
  else None.

Lemma digit_value_digit d : 0 <= d < 16 -> digit_value (digit d) = Some d.
Proof.
  intros Hd. assert (forallb (λ d, bool_decide (digit_value (digit d) = Some d)) (seqZ 0 16) = true) as Hall
    by (vm_compute; reflexivity).
  rewrite forallb_forall in Hall. specialize (Hall d). rewrite <-list_elem_of_In in Hall.
  apply (bool_decide_eq_true_1 _). apply Hall, elem_of_seqZ. lia.
Qed.

(** ** Writing

    [fmt_radix] writes a number below [base ^ fuel] without leading zeros, as
    [{}] and [{:x}] do. *)
Fixpoint fmt_radix (fuel : nat) (base n : Z) : str :=
  match fuel with
  | O => []
  | S fuel => if n <? base then [digit n] else fmt_radix fuel base (n / base) ++ [digit (n mod base)]
  end.

(** Exactly [k] digits: [{:0kx}] of a number below [base ^ k]. *)
Fixpoint fmt_padded (k : nat) (base n : Z) : str :=
  match k with
  | O => []
  | S k => fmt_padded k base (n / base) ++ [digit (n mod base)]
  end.

(** Decimal and hexadecimal text of an integer of at most 128 bits. *)
Definition fmt_dec (n : Z) : str := fmt_radix 39 10 n.
Definition fmt_hex (n : Z) : str := fmt_radix 32 16 n.

(** ** Reading *)

Definition push_digit (base : Z) (acc : option Z) (c : Ascii.ascii) : option Z :=
  n ← acc; d ← digit_value c; if d <? base then Some (n * base + d) else None.

(** A sign is accepted when digits follow it; an unsigned type has no minus. *)
Definition strip_plus (s : str) : str :=
  match s with
  | c :: ((_ :: _) as t) => if decide (c = Str.byte 43) then t else s
  | _ => s
  end.

(** [from_str_radix] of an unsigned type with largest value [max]. *)
Definition from_str_radix (base max : Z) (s : str) : option Z :=
  let s := strip_plus s in
  if decide (s = []) then None
  else n ← foldl (push_digit base) (Some 0) s; if n <=? max then Some n else None.

Lemma foldl_push_None base s : foldl (push_digit base) None s = None.
Proof. by induction s. Qed.

Lemma div_lt_pow base n (k : nat) : 2 <= base -> 0 <= n < base ^ Z.of_nat (S k) -> 0 <= n / base < base ^ Z.of_nat k.
Proof.
  intros Hb Hn. split; [apply Z.div_pos; lia|]. apply Z.div_lt_upper_bound; [lia|].
  rewrite <-Z.pow_succ_r by lia. rewrite <-Nat2Z.inj_succ. lia.
Qed.

Section radix.
Context (base : Z) (Hbase : 2 <= base <= 16).

Lemma digit_range n : 0 <= n mod base < 16.
Proof. pose proof (Z.mod_pos_bound n base). lia. Qed.

Lemma push_digit_digit acc d : 0 <= d < base -> push_digit base (Some acc) (digit d) = Some (acc * base + d).
Proof.
  intros Hd. unfold push_digit. cbn [mbind option_bind]. rewrite digit_value_digit by lia. cbn [mbind option_bind].
  by rewrite (proj2 (Z.ltb_lt d base)) by lia.
Qed.

Lemma foldl_fmt_padded k acc n :
  0 <= n < base ^ Z.of_nat k ->
  foldl (push_digit base) (Some acc) (fmt_padded k base n) = Some (acc * base ^ Z.of_nat k + n).
Proof.
  revert acc n. induction k as [|k IH]; intros acc n Hn; cbn [fmt_padded].
  - simpl. f_equal. simpl in Hn. lia.
  - rewrite foldl_app. rewrite IH by (apply div_lt_pow; [lia|done]). cbn [foldl].
    rewrite push_digit_digit by (apply Z.mod_pos_bound; lia). f_equal.
    rewrite Nat2Z.inj_succ, Z.pow_succ_r by lia. pose proof (Z.div_mod n base). nia.
Qed.

Lemma foldl_fmt_radix fuel n :
  0 <= n < base ^ Z.of_nat fuel ->
  foldl (push_digit base) (Some 0) (fmt_radix fuel base n) = Some n.
Proof.
  revert n. induction fuel as [|fuel IH]; intros n Hn; cbn [fmt_radix].
  - simpl in *. f_equal. lia.
  - destruct (Z.ltb_spec n base).
    + cbn [foldl]. by rewrite push_digit_digit by lia.
    + rewrite foldl_app. rewrite IH by (apply div_lt_pow; [lia|done]). cbn [foldl].
      rewrite push_digit_digit by (apply Z.mod_pos_bound; lia). f_equal. pose proof (Z.div_mod n base). lia.
Qed.

Lemma foldl_push_nonneg s acc n : 0 <= acc -> foldl (push_digit base) (Some acc) s = Some n -> 0 <= n.
Proof.
  revert acc. induction s as [|c s IH]; intros acc Hacc E; cbn [foldl] in E; [by simplify_eq|].
  destruct (push_digit base (Some acc) c) as [acc'|] eqn:Hp; [|by rewrite foldl_push_None in E].
  apply (IH acc'); [|done]. unfold push_digit in Hp. cbn [mbind option_bind] in Hp.
  destruct (digit_value c) as [d|] eqn:Hd; cbn [mbind option_bind] in Hp; [|done]. case_match; simplify_eq.
  assert (0 <= d) by (unfold digit_value in Hd; repeat case_match; simplify_eq; lia). nia.
Qed.

Lemma from_str_radix_range max s n : from_str_radix base max s = Some n -> 0 <= n <= max.
Proof.
  unfold from_str_radix. case_decide; [done|]. intros E. apply bind_Some in E as (m & Hm & E).
  case_match eqn:Hle; simplify_eq. apply Z.leb_le in Hle. split; [|done]. by eapply foldl_push_nonneg; [|exact Hm].
Qed.

(** ** Shape of the text *)

Definition is_digit (c : Ascii.ascii) : Prop := is_Some (digit_value c).

Lemma is_digit_digit n : is_digit (digit (n mod base)).
Proof. unfold is_digit. rewrite digit_value_digit; [by eexists|apply digit_range]. Qed.

Lemma fmt_radix_digits fuel n : 0 <= n -> Forall is_digit (fmt_radix fuel base n).
Proof.
  revert n. induction fuel as [|fuel IH]; intros n Hn; cbn [fmt_radix]; [constructor|].
  destruct (Z.ltb_spec n base).
  - constructor; [|constructor]. rewrite <-(Z.mod_small n base) by lia. apply is_digit_digit.
  - apply Forall_app. split; [apply IH, Z.div_pos; lia|]. constructor; [apply is_digit_digit|constructor].
Qed.

Lemma fmt_radix_length fuel n (k : nat) :
  (1 <= k)%nat -> 0 <= n < base ^ Z.of_nat k -> (length (fmt_radix fuel base n) <= k)%nat.
Proof.
  revert n k. induction fuel as [|fuel IH]; intros n k Hk Hn; cbn [fmt_radix]; [simpl; lia|].
  destruct (Z.ltb_spec n base); [simpl; lia|]. rewrite length_app. simpl.
  destruct k as [|[|k]]; [lia|simpl in Hn; lia|].
  pose proof (IH (n / base) (S k) ltac:(lia) ltac:(apply div_lt_pow; [lia|done])). lia.
Qed.

Lemma fmt_padded_length k n : length (fmt_padded k base n) = k.
Proof. revert n. induction k as [|k IH]; intros n; cbn [fmt_padded]; [done|]. rewrite length_app, IH. simpl. lia. Qed.

Lemma fmt_padded_digits k n : Forall is_digit (fmt_padded k base n).
Proof.
  revert n. induction k as [|k IH]; intros n; cbn [fmt_padded]; [constructor|].
  apply Forall_app. split; [apply IH|]. constructor; [apply is_digit_digit|constructor].
Qed.

Lemma strip_plus_digits s : Forall is_digit s -> strip_plus s = s.
Proof.
  intros Hs. destruct s as [|c [|c' t]]; [done|done|]. unfold strip_plus. case_decide as Hc; [|done].
  subst. apply Forall_cons in Hs as [[x Hx] _]. vm_compute in Hx. done.
Qed.

(** ** Round trips *)

Lemma from_str_radix_fmt fuel max n :
  0 <= n < base ^ Z.of_nat (S fuel) -> n <= max -> from_str_radix base max (fmt_radix (S fuel) base n) = Some n.
Proof.
  intros Hn Hm. unfold from_str_radix. rewrite strip_plus_digits by (apply fmt_radix_digits; lia). rewrite decide_False.
  - rewrite foldl_fmt_radix by done. cbn [mbind option_bind]. by rewrite (proj2 (Z.leb_le n max)).
  - cbn [fmt_radix]. destruct (n <? base); [done|]. by destruct (fmt_radix fuel base (n / base)).
Qed.

Lemma from_str_radix_padded k max n :
  0 <= n < base ^ Z.of_nat (S k) -> n <= max -> from_str_radix base max (fmt_padded (S k) base n) = Some n.
Proof.
  intros Hn Hm. unfold from_str_radix. rewrite strip_plus_digits by apply fmt_padded_digits. rewrite decide_False.
  - rewrite foldl_fmt_padded, Z.mul_0_l, Z.add_0_l by done. cbn [mbind option_bind]. by rewrite (proj2 (Z.leb_le n max)).
  - cbn [fmt_padded]. by destruct (fmt_padded k base (n / base)).
Qed.
End radix.

(** ** Addresses *)

(** [Display for Ipv4Addr]: the octets in decimal. *)
Definition fmt_ipv4 (bits : Z) : str :=
  fmt_dec (bits / 2 ^ 24 mod 256) ++ Str.dot :: fmt_dec (bits / 2 ^ 16 mod 256) ++ Str.dot ::
  fmt_dec (bits / 2 ^ 8 mod 256) ++ Str.dot :: fmt_dec (bits mod 256).

(** [Ipv6Addr::segments]. *)
Definition segments (bits : Z) : list Z := (λ i, bits / 2 ^ (16 * (7 - i)) mod 2 ^ 16) <$> seqZ 0 8.

(** The first longest run of zero segments: its start and length. *)
Fixpoint longest_zeros (i : nat) (l : list Z) (current longest : nat * nat) : nat * nat :=
  match l with
  | [] => longest
  | x :: l =>
    if x =? 0 then
      let current := if decide (current.2 = O) then (i, 1%nat) else (current.1, S current.2) in
      longest_zeros (S i) l current (if decide (longest.2 < current.2)%nat then current else longest)
    else longest_zeros (S i) l (O, O) longest
  end.

(** Segments in hexadecimal, separated by colons. *)
Fixpoint fmt_segments (l : list Z) : str :=
  match l with
  | [] => []
  | [x] => fmt_hex x
  | x :: l => fmt_hex x ++ Str.colon :: fmt_segments l
  end.

(** [Display for Ipv6Addr]. *)
Definition fmt_ipv6 (bits : Z) : str :=
  if bits / 2 ^ 32 =? 65535 then lit "::ffff:" ++ fmt_ipv4 (bits mod 2 ^ 32)
  else
    let l := segments bits in
    let '(start, len) := longest_zeros 0 l (O, O) (O, O) in
    if decide (1 < len)%nat
    then fmt_segments (take start l) ++ lit "::" ++ fmt_segments (drop (start + len) l)
    else fmt_segments l.

Definition fmt_ip (a : IpAddr) : str := match a with V4 b => fmt_ipv4 b | V6 b => fmt_ipv6 b end.

(** The characters of addresses. *)
Definition plain (c : Ascii.ascii) : Prop := is_digit c \/ c = Str.dot \/ c = Str.colon.

Lemma Forall_digit_plain s : Forall is_digit s -> Forall plain s.
Proof. intros Hs. eapply Forall_impl; [exact Hs|]. unfold plain. auto. Qed.

Lemma fmt_dec_plain n : 0 <= n -> Forall plain (fmt_dec n).
Proof. intros. apply Forall_digit_plain, fmt_radix_digits; lia. Qed.

Lemma fmt_hex_plain n : 0 <= n -> Forall plain (fmt_hex n).
Proof. intros. apply Forall_digit_plain, fmt_radix_digits; lia. Qed.

Lemma fmt_ipv4_plain bits : Forall plain (fmt_ipv4 bits).
Proof.
  unfold fmt_ipv4. rewrite !Forall_app, !Forall_cons. rewrite !Forall_app, !Forall_cons. rewrite !Forall_app, !Forall_cons.
  assert (plain Str.dot) by (right; left; done).
  split_and!; try done; apply fmt_dec_plain, Z.mod_pos_bound; lia.
Qed.

Lemma fmt_ipv4_length bits : (length (fmt_ipv4 bits) <= 15)%nat.
Proof.
  assert (forall n, length (fmt_dec (n mod 256)) <= 3)%nat as Hd.
  { intros n. apply fmt_radix_length; [lia|lia|]. pose proof (Z.mod_pos_bound n 256). simpl. lia. }
  unfold fmt_ipv4. rewrite length_app. cbn [length]. rewrite length_app. cbn [length]. rewrite length_app. cbn [length].
  pose proof (Hd (bits / 2 ^ 24)). pose proof (Hd (bits / 2 ^ 16)). pose proof (Hd (bits / 2 ^ 8)). pose proof (Hd bits). lia.
Qed.

Definition is_segment (x : Z) : Prop := 0 <= x < 2 ^ 16.

Lemma segments_ok bits : Forall is_segment (segments bits).
Proof. apply Forall_fmap, Forall_forall. intros i _. apply Z.mod_pos_bound. lia. Qed.

Lemma fmt_segments_plain l : Forall is_segment l -> Forall plain (fmt_segments l).
Proof.
  induction 1 as [|x [|y l] Hx Hl IH]; [constructor|apply fmt_hex_plain, Hx|].
  cbn [fmt_segments] in *. apply Forall_app. split; [apply fmt_hex_plain, Hx|].
  constructor; [right; right; done|exact IH].
Qed.

Lemma fmt_segments_length l : Forall is_segment l -> (length (fmt_segments l) <= 5 * length l - 1)%nat.
Proof.
  assert (forall x, is_segment x -> length (fmt_hex x) <= 4)%nat as Hh.
  { intros x [Hx1 Hx2]. apply fmt_radix_length; [lia|lia|]. simpl. lia. }
  induction 1 as [|x [|y l] Hx Hl IH]; [simpl; lia|apply Hh, Hx|].
  change (fmt_segments (x :: y :: l)) with (fmt_hex x ++ Str.colon :: fmt_segments (y :: l)).
  rewrite length_app. pose proof (Hh x Hx). cbn [length] in *. lia.
Qed.

Lemma longest_zeros_range i l current longest :
  (current.2 = O \/ current.1 + current.2 = i)%nat -> (longest.1 + longest.2 <= i)%nat ->
  let r := longest_zeros i l current longest in (r.1 + r.2 <= i + length l)%nat.
Proof.
  revert i current longest. induction l as [|x l IH]; intros i current longest Hc Hl; cbn [longest_zeros length]; [lia|].
  rewrite <-Nat.add_succ_comm. destruct (x =? 0); apply IH; repeat case_decide; simpl; lia.
Qed.

Lemma fmt_ipv6_plain bits : Forall plain (fmt_ipv6 bits).
Proof.
  assert (plain Str.colon) as Hcolon by (right; right; done).
  unfold fmt_ipv6. destruct (_ =? _).
  { apply Forall_app. split; [|apply fmt_ipv4_plain]. unfold lit. simpl.
    repeat first [apply Forall_nil_2 | apply Forall_cons_2; [first [exact Hcolon | left; eexists; reflexivity]|]]. }
  destruct (longest_zeros _ _ _ _) as [start len]. pose proof (segments_ok bits).
  case_decide; [|by apply fmt_segments_plain]. rewrite !Forall_app. split_and!.
  - by apply fmt_segments_plain, Forall_take.
  - by repeat constructor.
  - by apply fmt_segments_plain, Forall_drop.
Qed.

Lemma fmt_ipv6_length bits : (length (fmt_ipv6 bits) <= 39)%nat.
Proof.
  unfold fmt_ipv6. destruct (_ =? _); [rewrite length_app; pose proof (fmt_ipv4_length (bits mod 2 ^ 32)); simpl; lia|].
  pose proof (longest_zeros_range 0 (segments bits) (O, O) (O, O)) as Hr. cbv zeta in Hr.
  pose proof (segments_ok bits) as Hs. assert (length (segments bits) = 8%nat) as Hlen by done.
  destruct (longest_zeros _ _ _ _) as [start len]. simpl in Hr. specialize (Hr ltac:(lia) ltac:(lia)).
  case_decide as Hd.
  - rewrite !length_app. pose proof (fmt_segments_length (take start (segments bits)) ltac:(by apply Forall_take)).
    pose proof (fmt_segments_length (drop (start + len) (segments bits)) ltac:(by apply Forall_drop)).
    rewrite length_take, length_drop, Hlen in *. simpl length. lia.
  - pose proof (fmt_segments_length (segments bits) Hs). rewrite Hlen in *. lia.
Qed.

Lemma fmt_ip_plain a : Forall plain (fmt_ip a).
Proof. destruct a; [apply fmt_ipv4_plain|apply fmt_ipv6_plain]. Qed.

Lemma fmt_ip_length a : (length (fmt_ip a) <= 39)%nat.
Proof. destruct a as [b|b]; simpl; [pose proof (fmt_ipv4_length b); lia|apply fmt_ipv6_length]. Qed.

(** ** Parsing addresses

    The standard library's parser for [IpAddr].  A reader returns what it read
    and the rest of the text. *)

Definition reader (A : Type) : Type := str -> option (A * str).

(** The leading digits of a text, and the rest. *)
Fixpoint span_digits (base : Z) (s : str) : str * str :=
  match s with
  | [] => ([], [])
  | c :: t =>
    match digit_value c with
    | Some d => if d <? base then let '(ds, rest) := span_digits base t in (c :: ds, rest) else ([], s)
    | None => ([], s)
    end
  end.

(** [Parser::read_number] into a type with largest value [max]. *)
Definition read_number (base max : Z) (max_digits : nat) (allow_zero_prefix : bool) : reader Z := λ s,
  let '(ds, rest) := span_digits base s in
  if bool_decide (max_digits < length ds)%nat then None
  else if negb allow_zero_prefix && bool_decide (head ds = Some (Str.byte 48)) && bool_decide (1 < length ds)%nat then None
  else n ← from_str_radix base max ds; Some (n, rest).

(** [Parser::read_given_char]. *)
Definition read_char (c : Ascii.ascii) : reader () := λ s,
  match s with x :: rest => if decide (x = c) then Some ((), rest) else None | [] => None end.

Definition read_octet : reader Z := read_number 10 255 3 false.

Definition read_ipv4 : reader Z := λ s,
  '(a, s) ← read_octet s; '(_, s) ← read_char Str.dot s; '(b, s) ← read_octet s; '(_, s) ← read_char Str.dot s;
  '(c, s) ← read_octet s; '(_, s) ← read_char Str.dot s; '(d, s) ← read_octet s;
  Some (((a * 256 + b) * 256 + c) * 256 + d, s).

(** [Parser::read_separator]. *)
Definition read_separator {A} (sep : Ascii.ascii) (index : nat) (inner : reader A) : reader A := λ s,
  if decide (index = O) then inner s else '(_, s) ← read_char sep s; inner s.

(** [read_groups] for the [k] groups from [index] on: the groups, whether they
    end in an IPv4 address, and the rest. *)
Fixpoint read_groups (k index : nat) (s : str) : list Z * bool * str :=
  match k with
  | O => ([], false, s)
  | S k' =>
    match (if decide (1 < k)%nat then read_separator Str.colon index read_ipv4 s else None) with
    | Some (v4, rest) => ([v4 / 2 ^ 16; v4 mod 2 ^ 16], true, rest)
    | None =>
      match read_separator Str.colon index (read_number 16 65535 4 true) s with
      | Some (g, rest) => let '(gs, v4, rest) := read_groups k' (S index) rest in (g :: gs, v4, rest)
      | None => ([], false, s)
      end
    end
  end.

Definition from_groups (l : list Z) : Z := foldl (λ acc g, acc * 2 ^ 16 + g) 0 l.

Definition read_ipv6 : reader Z := λ s,
  let '(head_groups, head_ipv4, s) := read_groups 8 0 s in
  if decide (length head_groups = 8%nat) then Some (from_groups head_groups, s)
  else if head_ipv4 then None
  else
    '(_, s) ← read_char Str.colon s; '(_, s) ← read_char Str.colon s;
    let limit := (8 - (length head_groups + 1))%nat in
    let '(tail_groups, _, s) := read_groups limit 0 s in
    Some (from_groups (head_groups ++ replicate (8 - length head_groups - length tail_groups) 0 ++ tail_groups), s).

(** [str::parse::<IpAddr>]: the whole text is an address. *)
Definition parse_ip (s : str) : option IpAddr :=
  match read_ipv4 s with
  | Some (a, []) => Some (V4 a)
  | Some (_, _ :: _) => None
  | None => match read_ipv6 s with Some (a, []) => Some (V6 a) | _ => None end
  end.

Example parse_ip_examples :
  parse_ip (lit "192.168.1.1") = Some (V4 3232235777) ∧ parse_ip (lit "192.168.01.1") = None ∧
  parse_ip (lit "::1") = Some (V6 1) ∧ parse_ip (lit "1:2:3:4:5:6:7:8") = parse_ip (lit "1:2:3:4:5:6:0.7.0.8") ∧
  parse_ip (lit "::ffff:1.2.3.4") = Some (V6 281470698652420) ∧ parse_ip (lit "1::2::3") = None ∧
  parse_ip (fmt_ip (V6 (2 ^ 127 + 2 ^ 20))) = Some (V6 (2 ^ 127 + 2 ^ 20)).
Proof. vm_compute. done. Qed.
End Fmt.
