(* ===== verification/HttpModifiers.v ===== *)
(** What the connection manager does to the headers of requests and responses
    (arion-lib/src/listeners/http_connection_manager/http_modifiers.rs, with
    apply_mutations_on_request and apply_mutations_on_response of
    http_connection_manager.rs). *)

From S2P Require Import Prelude RustStr Net Http StringMatch Fmt.
Import Net Http StringMatch.

Module HttpModifiers.

Section modifiers.
Context `{HttpLib, RegexLib}.

(** ** Hop-by-hop headers *)

Definition HOP_BY_HOP_HEADERS : list HeaderName :=
  name_from_static <$> [lit "connection"; lit "proxy-authenticate"; lit "proxy-authorization";
    lit "transfer-encoding"; lit "upgrade"].

Definition remove_all (names : list HeaderName) (headers : HeaderMap) : HeaderMap := foldl header_remove headers names.

Definition strip_hop_headers (headers : HeaderMap) : HeaderMap := remove_all HOP_BY_HOP_HEADERS headers.

(** [is_upgrade_connection]. *)
Definition is_upgrade_connection (header_value : str) : bool :=
  Str.eq_ignore_ascii_case header_value (lit "upgrade").

(** Whether the request is answered with an error instead. *)
Definition filter_disallowed_requests (r : Request) : bool :=
  bool_decide (method r = lit "CONNECT") ||
  match header_get (headers r) (name_from_static (lit "connection")) ≫= to_str with
  | Some connection_header => is_upgrade_connection connection_header
  | None => false
  end.

(** Nothing if the request is refused. *)
Definition apply_preflight_functions (r : Request) : option Request :=
  if filter_disallowed_requests r then None
  else Some (mk_request (method r) (uri r) (strip_hop_headers (headers r))).

Inductive Codec : Type := Http1 | Http2.

Definition strip_trailers_headers (http_version : Codec) (headers : HeaderMap) : HeaderMap :=
  let TE := name_from_static (lit "te") in
  let TRAILER := name_from_static (lit "trailer") in
  match http_version with
  | Http1 => header_remove (header_remove headers TE) TRAILER
  | Http2 =>
    let headers := header_remove headers TRAILER in
    match header_get headers TE with
    | Some hdr_value => if decide (to_str hdr_value = Some (lit "trailers")) then headers else header_remove headers TE
    | None => headers
    end
  end.

(** ** The address of the client *)

Record XffSettings : Type := mk_xff {
  use_remote_address : bool;
  skip_xff_append : bool;
  xff_num_trusted_hops : Z;
}.

Definition X_FORWARDED_FOR : HeaderName := name_from_static (lit "x-forwarded-for").
Definition X_ENVOY_EXTERNAL_ADDRESS : HeaderName := name_from_static (lit "x-envoy-external-address").
Definition X_ENVOY_INTERNAL : HeaderName := name_from_static (lit "x-envoy-internal").

(** With [Ipv4Addr::is_private], [is_loopback], and [Ipv6Addr::is_unspecified],
    [is_loopback], [is_unique_local] and [is_unicast_link_local] written out. *)
Definition is_internal_ip (ip : IpAddr) : bool :=
  match ip with
  | V4 b =>
    ((b / 2 ^ 24 =? 10) || (b / 2 ^ 20 =? 172 * 16 + 1) || (b / 2 ^ 16 =? 192 * 256 + 168) || (b / 2 ^ 24 =? 127))%Z
  | V6 b =>
    let segment := (b / 2 ^ 112)%Z in
    ((Z.land segment 65024 =? 64512) || (b =? 0) || (b =? 1) || (Z.land segment 65024 =? 64512) ||
     (Z.land segment 65472 =? 65152))%Z
  end.

Definition append_hop_to_xff (existing_xff : option str) (downstream_ip : IpAddr) : str :=
  let ip_str := Fmt.fmt_ip downstream_ip in
  match existing_xff with
  | Some existing_str => if decide (existing_str = []) then ip_str else existing_str ++ lit ", " ++ ip_str
  | None => ip_str
  end.

(** The addresses of the list, from right to left. *)
Definition from_right (xff : str) : list IpAddr :=
  omap (λ ip_str, Fmt.parse_ip (Str.trim ip_str)) (reverse (Str.split_char xff Str.comma)).

Definition determine_trusted_client_address (existing_xff : option str) (downstream_ip : IpAddr)
    (xff_settings : XffSettings) : IpAddr * bool :=
  let hops := xff_num_trusted_hops xff_settings in
  if use_remote_address xff_settings && (hops =? 0)%Z then (downstream_ip, false) else
  match existing_xff with
  | None => (downstream_ip, false)
  | Some xff =>
    if negb (use_remote_address xff_settings) then
      if (0 <? hops)%Z then (default downstream_ip (from_right xff !! Z.to_nat hops), false)
      else match from_right xff with
      | last :: rest => (last, bool_decide (rest = []))
      | [] => (downstream_ip, false)
      end
    else (default downstream_ip (from_right xff !! (Z.to_nat hops - 1)), false)
  end.

Definition insert_text (headers : HeaderMap) (name : HeaderName) (text : str) : HeaderMap :=
  match value_from_str text with Some v => header_insert headers name v | None => headers end.

Definition apply_xff_headers (headers : HeaderMap) (downstream_ip : IpAddr) (xff_settings : XffSettings) : HeaderMap :=
  let downstream_is_internal := is_internal_ip downstream_ip in
  let downstream_is_external := negb downstream_is_internal in
  let headers :=
    if downstream_is_external
    then header_remove (header_remove headers X_ENVOY_EXTERNAL_ADDRESS) X_ENVOY_INTERNAL else headers in
  let transparent_mode := negb (use_remote_address xff_settings) && skip_xff_append xff_settings in
  if transparent_mode then headers else
  let existing_xff := header_get headers X_FORWARDED_FOR ≫= to_str in
  let '(trusted_client_address, xff_contains_single_ip) :=
    determine_trusted_client_address existing_xff downstream_ip xff_settings in
  let is_internal_trusted_client := is_internal_ip trusted_client_address in
  let xff_contains_single_internal_ip := xff_contains_single_ip && is_internal_trusted_client in
  let xff_contains_single_external_ip := xff_contains_single_ip && negb is_internal_trusted_client in
  let has_incoming_xff := bool_decide (is_Some existing_xff) in
  let should_update_xff := use_remote_address xff_settings && negb (skip_xff_append xff_settings) in
  let should_set_envoy_external := use_remote_address xff_settings &&
    negb (contains_key headers X_ENVOY_EXTERNAL_ADDRESS) && negb is_internal_trusted_client in
  let should_set_envoy_internal :=
    (use_remote_address xff_settings && downstream_is_internal && negb has_incoming_xff) ||
    xff_contains_single_internal_ip in
  let should_mark_envoy_internal_false :=
    (use_remote_address xff_settings && downstream_is_external && negb has_incoming_xff) ||
    xff_contains_single_external_ip in
  let headers :=
    if should_update_xff then insert_text headers X_FORWARDED_FOR (append_hop_to_xff existing_xff downstream_ip)
    else headers in
  let headers :=
    if should_set_envoy_external
    then insert_text headers X_ENVOY_EXTERNAL_ADDRESS (Fmt.fmt_ip trusted_client_address) else headers in
  if should_set_envoy_internal then header_insert headers X_ENVOY_INTERNAL (value_from_static (lit "true"))
  else if should_mark_envoy_internal_false
  then header_insert headers X_ENVOY_INTERNAL (value_from_static (lit "false"))
  else headers.

(** ** Configured changes *)

Inductive HeaderAppendAction : Type :=
  | AppendIfExistsOrAdd | AppendIfAbsent | OverwriteIfExistsOrAdd | OverwriteIfExists.

(** [HeaderFormatter] is arion_format's; [render] is its value in the context of
    a request or a response. *)
Context (HeaderFormatter : Type).
Context (render_request : HeaderFormatter → Request → option HeaderValue).
Context (render_response : HeaderFormatter → Response → option HeaderValue).

Record HeaderValueOption : Type := mk_value_option {
  key : HeaderName;
  value : HeaderFormatter;
  append_action : HeaderAppendAction;
  keep_empty_value : bool;
}.

Inductive HeaderAction : Type := Append (v : HeaderValue) | Overwrite (v : HeaderValue) | Nop.

Definition run_action (action : HeaderAction) (hmap : HeaderMap) (keep_empty : bool) (header : HeaderName)
    : HeaderMap * bool :=
  match action with
  | Append v =>
    if negb keep_empty && value_is_empty v then (header_remove hmap header, contains_key hmap header)
    else (header_append hmap header v, true)
  | Overwrite v =>
    if negb keep_empty && value_is_empty v then (header_remove hmap header, contains_key hmap header)
    else (header_insert hmap header v, true)
  | Nop => (hmap, false)
  end.

Definition choose_action (action : HeaderAppendAction) (has_key_already : bool) (v : HeaderValue) : HeaderAction :=
  match action with
  | AppendIfExistsOrAdd => Append v
  | AppendIfAbsent => if has_key_already then Nop else Append v
  | OverwriteIfExistsOrAdd => Overwrite v
  | OverwriteIfExists => if has_key_already then Overwrite v else Nop
  end.

Definition with_headers (r : Request) (hs : HeaderMap) : Request := mk_request (method r) (uri r) hs.
Definition with_response_headers (r : Response) (hs : HeaderMap) : Response := mk_response (status r) hs.

Definition apply_to_request (o : HeaderValueOption) (r : Request) : Request :=
  let has_key_already := bool_decide (is_Some (header_get (headers r) (key o))) in
  let v := default (value_from_static []) (render_request (value o) r) in
  let action := choose_action (append_action o) has_key_already v in
  with_headers r (run_action action (headers r) (keep_empty_value o) (key o)).1.

Definition apply_to_response (o : HeaderValueOption) (r : Response) : Response :=
  let has_key_already := bool_decide (is_Some (header_get (response_headers r) (key o))) in
  let v := default (value_from_static []) (render_response (value o) r) in
  let action := choose_action (append_action o) has_key_already v in
  with_response_headers r (run_action action (response_headers r) (keep_empty_value o) (key o)).1.

(** [apply_mutation] of [HeaderModifiersRemove] and [HeaderModifiersAdd]. *)
Definition request_remove (names : list HeaderName) (r : Request) : Request := with_headers r (remove_all names (headers r)).
Definition request_add (l : list HeaderValueOption) (r : Request) : Request := foldl (λ r o, apply_to_request o r) r l.
Definition response_remove (names : list HeaderName) (r : Response) : Response :=
  with_response_headers r (remove_all names (response_headers r)).
Definition response_add (l : list HeaderValueOption) (r : Response) : Response := foldl (λ r o, apply_to_response o r) r l.

Inductive EarlyHeaderMutation : Type :=
  | EarlyRemove (name : HeaderName)
  | EarlyAppend (o : HeaderValueOption)
  | RemoveOnMatch (p : StringMatcherPattern).

Definition remove_matching_headers (headers : HeaderMap) (p : StringMatcherPattern) : HeaderMap :=
  let matcher := mk_string_matcher true p in
  remove_all (filter (λ name, string_matches matcher (name_as_str name) = true) (keys headers)) headers.

Definition early_mutate (m : EarlyHeaderMutation) (r : Request) : Request :=
  match m with
  | EarlyRemove name => with_headers r (header_remove (headers r) name)
  | EarlyAppend o => apply_to_request o r
  | RemoveOnMatch p => with_headers r (remove_matching_headers (headers r) p)
  end.

Definition apply_prerouting_functions (r : Request) (downstream_ip : IpAddr) (xff_settings : XffSettings)
    (early_mutations : list EarlyHeaderMutation) : Request :=
  let r := foldl (λ r m, early_mutate m r) r early_mutations in
  with_headers r (apply_xff_headers (headers r) downstream_ip xff_settings).

(** ** The levels of the configuration *)

Record Mutations : Type := mk_mutations {
  request_headers_to_remove : list HeaderName;
  request_headers_to_add : list HeaderValueOption;
  response_headers_to_remove : list HeaderName;
  response_headers_to_add : list HeaderValueOption;
}.

(** A virtual host: its own changes and those of its routes. *)
Record VirtualHost : Type := mk_vhost { vh_mutations : Mutations; vh_routes : list Mutations }.

Record RouteConfiguration : Type := mk_route_configuration {
  most_specific_header_mutations_wins : bool;
  rc_mutations : Mutations;
  virtual_hosts : list VirtualHost;
  has_request_mutations : bool;
  has_response_mutations : bool;
}.

Definition changes_request (m : Mutations) : bool :=
  bool_decide (request_headers_to_add m ≠ []) || bool_decide (request_headers_to_remove m ≠ []).
Definition changes_response (m : Mutations) : bool :=
  bool_decide (response_headers_to_add m ≠ []) || bool_decide (response_headers_to_remove m ≠ []).

Fixpoint scan_routes (routes : list Mutations) (flags : bool * bool) : bool * bool :=
  match routes with
  | [] => flags
  | route :: routes =>
    let flags := (flags.1 || changes_request route, flags.2 || changes_response route) in
    if flags.1 && flags.2 then flags else scan_routes routes flags
  end.

Fixpoint scan_hosts (hosts : list VirtualHost) (flags : bool * bool) : bool * bool :=
  match hosts with
  | [] => flags
  | vh :: hosts =>
    let flags := (flags.1 || changes_request (vh_mutations vh), flags.2 || changes_response (vh_mutations vh)) in
    let flags := scan_routes (vh_routes vh) flags in
    if flags.1 && flags.2 then flags else scan_hosts hosts flags
  end.

Definition recompute_mutation_flags (c : RouteConfiguration) : RouteConfiguration :=
  let m := rc_mutations c in
  let flags := scan_hosts (virtual_hosts c) (changes_request m, changes_response m) in
  mk_route_configuration (most_specific_header_mutations_wins c) m (virtual_hosts c) flags.1 flags.2.

Definition request_pair (m : Mutations) (r : Request) : Request :=
  let r := if bool_decide (request_headers_to_remove m ≠ []) then request_remove (request_headers_to_remove m) r else r in
  if bool_decide (request_headers_to_add m ≠ []) then request_add (request_headers_to_add m) r else r.

Definition response_pair (m : Mutations) (r : Response) : Response :=
  let r := if bool_decide (response_headers_to_remove m ≠ []) then response_remove (response_headers_to_remove m) r else r in
  if bool_decide (response_headers_to_add m ≠ []) then response_add (response_headers_to_add m) r else r.

Definition apply_mutations_on_request (state : RouteConfiguration) (vh route : Mutations) (r : Request) : Request :=
  if negb (has_request_mutations state) then r
  else if most_specific_header_mutations_wins state
  then request_pair route (request_pair vh (request_pair (rc_mutations state) r))
  else request_pair (rc_mutations state) (request_pair vh (request_pair route r)).

Definition apply_mutations_on_response (state : RouteConfiguration) (vh route : Mutations) (r : Response) : Response :=
  if negb (has_response_mutations state) then r
  else if most_specific_header_mutations_wins state
  then response_pair route (response_pair vh (response_pair (rc_mutations state) r))
  else response_pair (rc_mutations state) (response_pair vh (response_pair route r)).
End modifiers.
End HttpModifiers.
