(* ===== verification/HttpModifiersSpec.v ===== *)
(** Header changes: an external client cannot claim another address, what a
    configured change does, and that the cached flags never hide one. *)

From S2P Require Import Prelude RustStr Net Http StringMatch Fmt HttpModifiers.
Import Net Http StringMatch HttpModifiers.

Module HttpModifiersSpec.

Section spec.
Context `{HL : HttpLib, !HttpSpec HL, RegexLib}.

Lemma xff_names :
  X_ENVOY_EXTERNAL_ADDRESS ≠ X_ENVOY_INTERNAL ∧ X_ENVOY_EXTERNAL_ADDRESS ≠ X_FORWARDED_FOR ∧
  X_ENVOY_INTERNAL ≠ X_FORWARDED_FOR.
Proof. split_and!; intros E; by apply name_from_static_inj in E. Qed.

Lemma get_all_remove_all names m n :
  get_all (remove_all names m) n = if decide (n ∈ names) then [] else get_all m n.
Proof.
  unfold remove_all. revert m. induction names as [|x names IH]; intros m; cbn [foldl].
  - by rewrite decide_False by set_solver.
  - rewrite IH, get_all_remove. repeat case_decide; try done; set_solver.
Qed.

(** ** The address of the client *)

Lemma fmt_ip_visible a : Forall (λ c, 32 <= Ascii.N_of_ascii c < 127)%N (Fmt.fmt_ip a).
Proof.
  eapply Forall_impl; [apply Fmt.fmt_ip_plain|]. intros c [[d Hd]|[->| ->]]; [|done..].
  unfold Fmt.digit_value in Hd. repeat case_match; simplify_eq; lia.
Qed.

Lemma insert_fmt_ip m n a :
  ∃ v, to_str v = Some (Fmt.fmt_ip a) ∧ insert_text m n (Fmt.fmt_ip a) = header_insert m n v.
Proof.
  destruct (value_from_visible (Fmt.fmt_ip a) (fmt_ip_visible a)) as [v Hv]. exists v.
  unfold insert_text. rewrite Hv. split; [by apply to_str_from_str|done].
Qed.

Lemma get_all_insert_text m n text n' : n' ≠ n → get_all (insert_text m n text) n' = get_all m n'.
Proof. intros. unfold insert_text. case_match; [|done]. by rewrite get_all_insert, decide_False. Qed.

(** The headers of an external client once its claims are removed. *)
Lemma stripped_headers headers :
  let h0 := header_remove (header_remove headers X_ENVOY_EXTERNAL_ADDRESS) X_ENVOY_INTERNAL in
  get_all h0 X_ENVOY_EXTERNAL_ADDRESS = [] ∧ get_all h0 X_ENVOY_INTERNAL = [] ∧
  get_all h0 X_FORWARDED_FOR = get_all headers X_FORWARDED_FOR.
Proof.
  destruct xff_names as (N1 & N2 & N3). cbv zeta. split_and!; rewrite !get_all_remove; by repeat case_decide.
Qed.

(** At the edge, where the remote address is used and no hops are trusted,
    a client with an external address cannot claim anything about itself,
    whatever headers it sends: upstream sees its own address as the external
    one, and it is never marked as internal.  Its address ends the list of
    forwarders, unless it is configured not to be added. *)
Theorem external_client_not_trusted headers ip s :
  is_internal_ip ip = false → use_remote_address s = true → xff_num_trusted_hops s = 0%Z →
  let headers' := apply_xff_headers headers ip s in
  (∃ v, get_all headers' X_ENVOY_EXTERNAL_ADDRESS = [v] ∧ to_str v = Some (Fmt.fmt_ip ip)) ∧
  Forall (λ v, to_str v = Some (lit "false")) (get_all headers' X_ENVOY_INTERNAL) ∧
  (skip_xff_append s = false → ∀ text,
    value_from_str (append_hop_to_xff (header_get headers X_FORWARDED_FOR ≫= to_str) ip) = Some text →
    get_all headers' X_FORWARDED_FOR = [text]) ∧
  (skip_xff_append s = true → get_all headers' X_FORWARDED_FOR = get_all headers X_FORWARDED_FOR).
Proof.
  intros Hext Huse Hhops. destruct xff_names as (N1 & N2 & N3).
  unfold apply_xff_headers, determine_trusted_client_address. rewrite Huse, Hhops, Hext. cbn [negb andb orb Z.eqb].
  set (h0 := header_remove (header_remove headers X_ENVOY_EXTERNAL_ADDRESS) X_ENVOY_INTERNAL).
  destruct (stripped_headers headers) as (He & Hi & Hx). fold h0 in He, Hi, Hx.
  assert (contains_key h0 X_ENVOY_EXTERNAL_ADDRESS = false) as Hk.
  { unfold contains_key. rewrite He. apply bool_decide_eq_false_2. auto. }
  assert (header_get h0 X_FORWARDED_FOR = header_get headers X_FORWARDED_FOR) as Hg by (unfold header_get; by rewrite Hx).
  rewrite Hk, Hg. cbn [negb andb orb]. rewrite Hext. cbn [negb andb orb].
  set (existing := header_get headers X_FORWARDED_FOR ≫= to_str).
  set (h1 := if negb (skip_xff_append s) then insert_text h0 X_FORWARDED_FOR (append_hop_to_xff existing ip) else h0).
  assert (∀ n, n ≠ X_FORWARDED_FOR → get_all h1 n = get_all h0 n) as H1n.
  { intros n Hn. unfold h1. case_match; [|done]. by apply get_all_insert_text. }
  destruct (insert_fmt_ip h1 X_ENVOY_EXTERNAL_ADDRESS ip) as (v & Hv & ->).
  set (h2 := header_insert h1 X_ENVOY_EXTERNAL_ADDRESS v).
  match goal with |- context [get_all ?h X_ENVOY_EXTERNAL_ADDRESS] => set (h3 := h) end.
  assert (∀ n, n ≠ X_ENVOY_INTERNAL → get_all h3 n = get_all h2 n) as H3n.
  { intros n Hn. unfold h3. case_match; [|done]. by rewrite get_all_insert, decide_False. }
  assert (∀ n, n ≠ X_ENVOY_EXTERNAL_ADDRESS → get_all h2 n = get_all h1 n) as H2n.
  { intros n Hn. unfold h2. by rewrite get_all_insert, decide_False. }
  split_and!.
  - exists v. split; [|done]. rewrite H3n by done. unfold h2. by rewrite get_all_insert, decide_True.
  - assert (get_all h2 X_ENVOY_INTERNAL = []) as H2i by (by rewrite H2n, H1n).
    unfold h3. case_match; [|by rewrite H2i]. rewrite get_all_insert, decide_True by done.
    repeat constructor. apply to_str_static.
  - intros Hskip text Ht. rewrite H3n, H2n by congruence. unfold h1, insert_text. rewrite Hskip. cbn [negb].
    rewrite Ht. by rewrite get_all_insert, decide_True.
  - intros Hskip. rewrite H3n, H2n by congruence. unfold h1. by rewrite Hskip.
Qed.

(** ** Configured changes *)

Context {HeaderFormatter : Type}.
Context (render_request : HeaderFormatter → Request → option HeaderValue).
Context (render_response : HeaderFormatter → Response → option HeaderValue).

Abbreviation option_ := (HeaderValueOption HeaderFormatter).
Abbreviation mutations := (Mutations HeaderFormatter).

(** The values of the header of a change after it. *)
Definition changed_values (o : option_) (v : HeaderValue) (old : list HeaderValue) : list HeaderValue :=
  let fresh base := if negb (keep_empty_value _ o) && value_is_empty v then [] else base ++ [v] in
  match append_action _ o with
  | AppendIfExistsOrAdd => fresh old
  | AppendIfAbsent => if decide (old = []) then fresh [] else old
  | OverwriteIfExistsOrAdd => fresh []
  | OverwriteIfExists => if decide (old = []) then [] else fresh []
  end.

Lemma run_action_effect (o : option_) hs v n :
  let action := choose_action (append_action _ o) (bool_decide (is_Some (header_get hs (key _ o)))) v in
  get_all (run_action action hs (keep_empty_value _ o) (key _ o)).1 n =
  if decide (n = key _ o) then changed_values o v (get_all hs (key _ o)) else get_all hs n.
Proof.
  cbv zeta. unfold changed_values, choose_action, header_get.
  destruct (get_all hs (key _ o)) as [|x l] eqn:E; cbn [head]; destruct (append_action _ o);
    repeat first [rewrite bool_decide_true by by eexists | rewrite bool_decide_false by by intros []];
    cbn [run_action]; rewrite ?decide_True, ?decide_False by done;
    repeat case_match; cbn [fst]; rewrite ?get_all_append, ?get_all_insert, ?get_all_remove;
    repeat case_decide; subst; rewrite ?E; done.
Qed.

(** What a configured header does to a message: only the values of its own
    name change.  Appending adds the value after the others, overwriting
    replaces them, and the conditional forms act only if the header is absent
    or present.  A value that is empty and need not be kept removes the header,
    appending included. *)
Theorem header_change_effect (o : option_) (req : Request) (resp : Response) n :
  get_all (headers (apply_to_request _ render_request o req)) n =
    (if decide (n = key _ o)
     then changed_values o (default (value_from_static []) (render_request (value _ o) req)) (get_all (headers req) n)
     else get_all (headers req) n) ∧
  get_all (response_headers (apply_to_response _ render_response o resp)) n =
    (if decide (n = key _ o)
     then changed_values o (default (value_from_static []) (render_response (value _ o) resp))
       (get_all (response_headers resp) n)
     else get_all (response_headers resp) n).
Proof.
  split; unfold apply_to_request, apply_to_response; cbn [headers response_headers with_headers with_response_headers];
    rewrite run_action_effect; case_decide; by subst.
Qed.

(** ** All levels *)

(** The changes of a level: removals first. *)
Definition change_request (r : Request) (m : mutations) : Request :=
  request_add _ render_request (request_headers_to_add _ m) (request_remove (request_headers_to_remove _ m) r).
Definition change_response (r : Response) (m : mutations) : Response :=
  response_add _ render_response (response_headers_to_add _ m) (response_remove (response_headers_to_remove _ m) r).

(** The levels in the order in which they apply. *)
Definition levels (c : RouteConfiguration HeaderFormatter) (vh route : mutations) : list mutations :=
  let l := [route; vh; rc_mutations _ c] in
  if most_specific_header_mutations_wins _ c then reverse l else l.

Lemma request_remove_nil r : request_remove [] r = r.
Proof. by destruct r. Qed.
Lemma response_remove_nil r : response_remove [] r = r.
Proof. by destruct r. Qed.

Lemma request_pair_change m r : request_pair _ render_request m r = change_request r m.
Proof.
  unfold request_pair, change_request. cbv zeta.
  case_bool_decide as E1; case_bool_decide as E2; try rewrite E1; try (rewrite E2; rewrite request_remove_nil); done.
Qed.
Lemma response_pair_change m r : response_pair _ render_response m r = change_response r m.
Proof.
  unfold response_pair, change_response. cbv zeta.
  case_bool_decide as E1; case_bool_decide as E2; try rewrite E1; try (rewrite E2; rewrite response_remove_nil); done.
Qed.

Lemma change_request_nothing m r : changes_request _ m = false → change_request r m = r.
Proof.
  unfold changes_request, change_request. rewrite orb_false_iff, !bool_decide_eq_false. intros [Ha Hr].
  apply dec_stable in Ha, Hr. rewrite Ha, Hr. apply request_remove_nil.
Qed.
Lemma change_response_nothing m r : changes_response _ m = false → change_response r m = r.
Proof.
  unfold changes_response, change_response. rewrite orb_false_iff, !bool_decide_eq_false. intros [Ha Hr].
  apply dec_stable in Ha, Hr. rewrite Ha, Hr. apply response_remove_nil.
Qed.

(** The early exit changes nothing: it is taken when both flags are set. *)
Lemma scan_routes_spec (routes : list mutations) f :
  scan_routes _ routes f = (f.1 || existsb (changes_request HeaderFormatter) routes, f.2 || existsb (changes_response HeaderFormatter) routes).
Proof.
  revert f. induction routes as [|x routes IH]; intros [a b]; simpl; [by rewrite !orb_false_r|].
  destruct (a || changes_request _ x) eqn:E1, (b || changes_response _ x) eqn:E2; simpl; rewrite ?IH; simpl;
    by rewrite !orb_assoc, E1, E2.
Qed.

Definition host_levels (vh : VirtualHost HeaderFormatter) : list mutations := vh_mutations _ vh :: vh_routes _ vh.

Lemma scan_hosts_spec (hosts : list (VirtualHost HeaderFormatter)) f :
  scan_hosts _ hosts f = (f.1 || existsb (changes_request HeaderFormatter) (hosts ≫= host_levels),
                          f.2 || existsb (changes_response HeaderFormatter) (hosts ≫= host_levels)).
Proof.
  revert f. induction hosts as [|vh hosts IH]; intros [a b]; cbn [scan_hosts]; [by rewrite !orb_false_r|].
  rewrite bind_cons, !existsb_app. rewrite scan_routes_spec. cbn [fst snd host_levels existsb].
  rewrite <-!(orb_assoc a), <-!(orb_assoc b).
  set (x := changes_request _ _ || _). set (y := changes_response _ _ || _).
  destruct (a || x) eqn:E1, (b || y) eqn:E2; cbn [andb]; rewrite ?IH; cbn [fst snd]; by rewrite !orb_assoc, E1, E2.
Qed.

(** For every route of a configuration as it is served, the changes to the
    headers of requests and of responses are those of the route, of its virtual
    host and of the configuration, from the least specific to the most specific
    level if the most specific one wins and the other way round otherwise;
    removals come first at each level.  The flags that are computed when the
    configuration is loaded never leave a change out. *)
Theorem mutations_as_configured c vh route (req : Request) (resp : Response) :
  vh ∈ virtual_hosts _ c → route ∈ vh_routes _ vh →
  let state := recompute_mutation_flags _ c in
  apply_mutations_on_request _ render_request state (vh_mutations _ vh) route req =
    foldl change_request req (levels c (vh_mutations _ vh) route) ∧
  apply_mutations_on_response _ render_response state (vh_mutations _ vh) route resp =
    foldl change_response resp (levels c (vh_mutations _ vh) route).
Proof.
  intros Hvh Hroute. cbv zeta. unfold recompute_mutation_flags. rewrite scan_hosts_spec. cbn [fst snd].
  assert (∀ f, f (rc_mutations _ c) || existsb f (virtual_hosts _ c ≫= host_levels) = false →
    f (rc_mutations _ c) = false ∧ f (vh_mutations _ vh) = false ∧ f route = false) as Hnone.
  { intros f Hf. apply orb_false_iff in Hf as [Hrc Hl]. split; [done|].
    assert (∀ m, m ∈ host_levels vh → f m = false) as Hall.
    { intros m Hm. apply not_true_is_false. intros Ht. apply not_true_iff_false in Hl. apply Hl, existsb_exists.
      exists m. split; [|done]. apply list_elem_of_In, list_elem_of_bind. eauto. }
    split; apply Hall; set_solver. }
  unfold apply_mutations_on_request, apply_mutations_on_response, levels.
  cbn [has_request_mutations has_response_mutations most_specific_header_mutations_wins rc_mutations].
  split.
  - destruct (changes_request _ _ || _) eqn:E; cbn [negb].
    + by destruct (most_specific_header_mutations_wins _ c); cbn; rewrite !request_pair_change.
    + destruct (Hnone _ E) as (H1 & H2 & H3).
      destruct (most_specific_header_mutations_wins _ c); cbn; by rewrite !change_request_nothing.
  - destruct (changes_response _ _ || _) eqn:E; cbn [negb].
    + by destruct (most_specific_header_mutations_wins _ c); cbn; rewrite !response_pair_change.
    + destruct (Hnone _ E) as (H1 & H2 & H3).
      destruct (most_specific_header_mutations_wins _ c); cbn; by rewrite !change_response_nothing.
Qed.
End spec.

Section witness.
#[local] Existing Instances assoc_http assoc_http_spec no_regex.

Definition get_root : Request := mk_request (lit "GET") (mk_uri None None None) [(lit "x-a", lit "1")].

(** A constant formatter. *)
Definition constant_request (s : str) (_ : Request) : option str := Some s.
Definition constant_response (s : str) (_ : Response) : option str := Some s.

Lemma external_client_not_trusted_witness :
  let headers := [(lit "x-forwarded-for", lit "10.0.0.1"); (lit "x-envoy-internal", lit "true")] in
  let ip := V4 134744072 in
  let s := mk_xff true false 0 in
  (is_internal_ip ip = false ∧ use_remote_address s = true ∧ xff_num_trusted_hops s = 0%Z) ∧
  let headers' := apply_xff_headers headers ip s in
  (∃ v, get_all headers' X_ENVOY_EXTERNAL_ADDRESS = [v] ∧ to_str v = Some (lit "8.8.8.8")) ∧
  Forall (λ v, to_str v = Some (lit "false")) (get_all headers' X_ENVOY_INTERNAL) ∧
  get_all headers' X_FORWARDED_FOR = [lit "10.0.0.1, 8.8.8.8"].
Proof.
  intros headers ip s.
  assert (is_internal_ip ip = false ∧ use_remote_address s = true ∧ xff_num_trusted_hops s = 0%Z) as Hyps by done.
  split; [exact Hyps|]. destruct Hyps as (H1 & H2 & H3).
  destruct (external_client_not_trusted (HL := assoc_http) headers ip s H1 H2 H3) as (He & Hi & Hx & _).
  split; [exact He|]. split; [exact Hi|]. apply Hx; [done|]. vm_compute. reflexivity.
Defined.

Lemma header_change_effect_witness :
  let o := mk_value_option str (lit "x-a") (lit "2") AppendIfExistsOrAdd false in
  HttpSpec assoc_http ∧
  get_all (headers (apply_to_request str constant_request o get_root)) (lit "x-a") = [lit "1"; lit "2"].
Proof.
  intros o. split; [exact assoc_http_spec|].
  exact (proj1 (header_change_effect (HL := assoc_http) constant_request constant_response o get_root (mk_response 200 []) (lit "x-a"))).
Defined.

Lemma mutations_as_configured_witness :
  let route := mk_mutations str [lit "x-a"] [] [] [] in
  let vh := mk_vhost str (mk_mutations str [] [mk_value_option str (lit "x-b") (lit "2") AppendIfAbsent false] [] []) [route] in
  let c := mk_route_configuration str true (mk_mutations str [] [] [] []) [vh] false false in
  (vh ∈ virtual_hosts str c ∧ route ∈ vh_routes str vh) ∧
  apply_mutations_on_request str constant_request (recompute_mutation_flags str c) (vh_mutations str vh) route get_root =
    foldl (change_request constant_request) get_root (levels c (vh_mutations str vh) route).
Proof.
  intros route vh c. assert (vh ∈ virtual_hosts str c ∧ route ∈ vh_routes str vh) as Hyps by (split; left).
  split; [exact Hyps|]. destruct Hyps as [H1 H2].
  exact (proj1 (mutations_as_configured (HL := assoc_http) constant_request constant_response c vh route get_root (mk_response 200 []) H1 H2)).
Defined.
End witness.
End HttpModifiersSpec.
