(* ===== verification/AsyncStream.v ===== *)
(** Byte streams that are read asynchronously, and the stream that can be
    rewound (arion-lib/src/utils/rewindable_stream.rs). *)

From S2P Require Import Prelude.

Module AsyncStream.

(** ** The interface

    [poll_read n] is a read into a buffer of [n] bytes once it is ready: it
    delivers bytes, none at the end of the stream, or fails.  [content] is what
    the reads will deliver before the stream ends or fails. *)
Class AsyncRead (R : Type) : Type := {
  poll_read : nat → R → result () str * R;
  content : R → str;
}.

Class AsyncReadSpec (R : Type) `{AsyncRead R} : Prop := {
  read_ok : ∀ n r bs r', poll_read n r = (Ok bs, r') → content r = bs ++ content r' ∧ length bs ≤ n;
  read_end : ∀ n r r', 0 < n → poll_read n r = (Ok [], r') → content r = [];
  read_err : ∀ n r e r', poll_read n r = (Err e, r') → content r = [] ∧ content r' = [];
}.

(** [poll_write]: the number of bytes that were taken, or a failure. *)
Class AsyncWrite (R : Type) : Type := poll_write : str → R → result () nat * R.

(** ** Reading a number of bytes *)

Section read_exact.
Context {R : Type} `{AsyncRead R}.

(** Every read delivers a byte or is the last one, so [n] reads are enough. *)
Fixpoint read_exact_loop (reads n : nat) (r : R) : result () str * R :=
  if decide (n = 0) then (Ok [], r) else
  match reads with
  | 0 => (Err (), r)
  | S reads =>
    match poll_read n r with
    | (Err e, r) => (Err e, r)
    | (Ok [], r) => (Err (), r)
    | (Ok bs, r) =>
      let '(rest, r) := read_exact_loop reads (n - length bs) r in
      ((λ rest, bs ++ rest) <$> rest, r)
    end
  end.

(** [AsyncReadExt::read_exact] and [read_u8]. *)
Definition read_exact (n : nat) (r : R) : result () str * R := read_exact_loop n n r.

Definition read_u8 (r : R) : result () Ascii.ascii * R :=
  match read_exact 1 r with
  | (Ok (b :: _), r) => (Ok b, r)
  | (_, r) => (Err (), r)
  end.

Context `{!AsyncReadSpec R}.

(** Reads that may fail for lack of bytes only. *)
Definition reads_exactly (n : nat) (r : R) (res : result () str * R) : Prop :=
  if bool_decide (n ≤ length (content r))
  then res.1 = Ok (take n (content r)) ∧ content (res.2) = drop n (content r)
  else res.1 = Err () ∧ content (res.2) = [].

Lemma read_exact_loop_spec reads n r : n ≤ reads → reads_exactly n r (read_exact_loop reads n r).
Proof.
  revert n r. induction reads as [|reads IH]; intros n r Hn; unfold reads_exactly; cbn [read_exact_loop].
  { assert (n = 0) as -> by lia. by rewrite bool_decide_true by lia. }
  case_decide as Hz; [subst; by rewrite bool_decide_true by lia|].
  destruct (poll_read n r) as [[[|b bs]|[]] r'] eqn:Hr.
  - pose proof (read_ok _ _ _ _ Hr) as [Heq _]. apply read_end in Hr; [|lia]. rewrite Hr in *. simpl in *.
    rewrite bool_decide_false by lia. by rewrite <-Heq.
  - apply read_ok in Hr as [Hc Hl]. set (chunk := b :: bs) in *.
    assert (0 < length chunk) by (simpl; lia).
    specialize (IH (n - length chunk) r' ltac:(lia)). unfold reads_exactly in IH.
    destruct (read_exact_loop reads (n - length chunk) r') as [rest r'']. cbn [fst snd] in *.
    rewrite Hc, length_app. case_bool_decide; destruct IH as [-> ->].
    + rewrite bool_decide_true by lia. by rewrite take_app_ge, drop_app_ge by lia.
    + by rewrite bool_decide_false by lia.
  - apply read_err in Hr as [Hc Hc']. cbn [fst snd]. rewrite Hc. simpl. by rewrite bool_decide_false by lia.
Qed.

Lemma read_exact_spec n r : reads_exactly n r (read_exact n r).
Proof. by apply read_exact_loop_spec. Qed.

Lemma read_exact_Ok n r bs r' :
  read_exact n r = (Ok bs, r') → content r = bs ++ content r' ∧ length bs = n.
Proof.
  intros E. pose proof (read_exact_spec n r) as Hs. rewrite E in Hs. unfold reads_exactly in Hs.
  case_bool_decide; destruct Hs as [Hb Hc]; simplify_eq/=. rewrite Hc, take_drop, length_take. split; [done|lia].
Qed.

Lemma read_exact_enough n r bs rest :
  content r = bs ++ rest → length bs = n → ∃ r', read_exact n r = (Ok bs, r') ∧ content r' = rest.
Proof.
  intros Hc Hl. pose proof (read_exact_spec n r) as Hs. unfold reads_exactly in Hs.
  rewrite Hc, length_app, bool_decide_true in Hs by lia.
  rewrite take_app_length', drop_app_length' in Hs by done.
  destruct (read_exact n r) as [res r']. simpl in Hs. destruct Hs as [-> Hr]. by exists r'.
Qed.

Lemma read_exact_short n r : length (content r) < n → ∃ r', read_exact n r = (Err (), r').
Proof.
  intros Hc. pose proof (read_exact_spec n r) as Hs. unfold reads_exactly in Hs.
  rewrite bool_decide_false in Hs by lia. destruct (read_exact n r) as [res r']. destruct Hs as [Hr _].
  simpl in Hr. subst. by exists r'.
Qed.

Lemma read_u8_Ok r b r' : read_u8 r = (Ok b, r') → content r = b :: content r'.
Proof.
  unfold read_u8. destruct (read_exact 1 r) as [[[|b' bs]|] r1] eqn:E; intros; simplify_eq.
  apply read_exact_Ok in E as [-> Hl]. by destruct bs.
Qed.

Lemma read_u8_cons r b rest : content r = b :: rest → ∃ r', read_u8 r = (Ok b, r') ∧ content r' = rest.
Proof.
  intros Hc. destruct (read_exact_enough 1 r [b] rest) as (r' & E & Hr); [done..|].
  unfold read_u8. rewrite E. by exists r'.
Qed.
End read_exact.

(** ** Rewinding *)

Inductive RewindableHeadAsyncStream (R : Type) : Type :=
  | HeadBufferingReadOnlyMode (inner : R) (buffer : str)
  | FullReplayMode (inner : R) (replay_buffer : str) (read_pos : nat).
Arguments HeadBufferingReadOnlyMode {R} _ _.
Arguments FullReplayMode {R} _ _ _.

Section rewindable.
Context {R : Type}.

Definition rewindable_new (inner : R) : RewindableHeadAsyncStream R := HeadBufferingReadOnlyMode inner [].

Definition into_stream (s : RewindableHeadAsyncStream R) : R :=
  match s with HeadBufferingReadOnlyMode inner _ | FullReplayMode inner _ _ => inner end.

Definition into_rewound_stream (s : RewindableHeadAsyncStream R) : RewindableHeadAsyncStream R :=
  match s with
  | HeadBufferingReadOnlyMode inner buffer => FullReplayMode inner buffer 0
  | FullReplayMode inner replay_buffer read_pos => FullReplayMode inner replay_buffer read_pos
  end.

Definition rewindable_poll_read `{AsyncRead R} (n : nat) (s : RewindableHeadAsyncStream R)
    : result () str * RewindableHeadAsyncStream R :=
  match s with
  | HeadBufferingReadOnlyMode inner buffer =>
    match poll_read n inner with
    | (Ok bs, inner) => (Ok bs, HeadBufferingReadOnlyMode inner (buffer ++ bs))
    | (Err e, inner) => (Err e, HeadBufferingReadOnlyMode inner buffer)
    end
  | FullReplayMode inner replay_buffer read_pos =>
    let remaining_buffer := drop read_pos replay_buffer in
    if bool_decide (remaining_buffer ≠ []) then
      let to_copy := length remaining_buffer `min` n in
      (Ok (take to_copy remaining_buffer), FullReplayMode inner replay_buffer (read_pos + to_copy))
    else
      let '(res, inner) := poll_read n inner in (res, FullReplayMode inner replay_buffer read_pos)
  end.

(** [poll_write] and [poll_write_vectored]. *)
Definition rewindable_poll_write `{AsyncWrite R} (buf : str) (s : RewindableHeadAsyncStream R)
    : result () nat * RewindableHeadAsyncStream R :=
  match s with
  | HeadBufferingReadOnlyMode _ _ => (Err (), s)
  | FullReplayMode inner replay_buffer read_pos =>
    if bool_decide (length replay_buffer ≤ read_pos)
    then let '(res, inner) := poll_write buf inner in (res, FullReplayMode inner replay_buffer read_pos)
    else (Err (), s)
  end.

#[export] Instance rewindable_read `{AsyncRead R} : AsyncRead (RewindableHeadAsyncStream R) := {|
  poll_read := rewindable_poll_read;
  content s := match s with
    | HeadBufferingReadOnlyMode inner _ => content inner
    | FullReplayMode inner replay_buffer read_pos => drop read_pos replay_buffer ++ content inner
    end;
|}.

#[export] Instance rewindable_read_spec `{AsyncReadSpec R} : AsyncReadSpec (RewindableHeadAsyncStream R).
Proof.
  split.
  - intros n [inner buffer|inner buffer pos] bs r'; cbn [poll_read rewindable_read rewindable_poll_read].
    + destruct (poll_read n inner) as [[]] eqn:E; intros; simplify_eq. by apply read_ok in E.
    + case_bool_decide as Hb.
      * intros [= <- <-]. cbn [content rewindable_read]. rewrite length_take, app_assoc. split; [|lia]. f_equal.
        rewrite <-drop_drop. symmetry. apply take_drop.
      * destruct (poll_read n inner) as [res inner'] eqn:E. intros [= -> <-]. cbn [content rewindable_read].
        rewrite Hb. by apply read_ok in E.
  - intros n [inner buffer|inner buffer pos] r' Hn; cbn [poll_read rewindable_read rewindable_poll_read content].
    + destruct (poll_read n inner) as [[]] eqn:E; intros; simplify_eq. by apply read_end in E.
    + case_bool_decide as Hb.
      * intros [= Ht _]. destruct (drop pos buffer); [done|]. by destruct n; [lia|].
      * destruct (poll_read n inner) as [res inner'] eqn:E. intros [= -> <-].
        rewrite Hb. by apply read_end in E.
  - intros n [inner buffer|inner buffer pos] e r'; cbn [poll_read rewindable_read rewindable_poll_read].
    + destruct (poll_read n inner) as [[]] eqn:E; intros; simplify_eq. by apply read_err in E.
    + case_bool_decide as Hb; [done|]. destruct (poll_read n inner) as [res inner'] eqn:E. intros [= -> <-].
      cbn [content rewindable_read]. rewrite Hb. by apply read_err in E.
Qed.

(** What the stream delivers once it is rewound. *)
Definition replayed `{AsyncRead R} (s : RewindableHeadAsyncStream R) : str := content (into_rewound_stream s).

Lemma poll_read_replayed `{AsyncReadSpec R} n inner buffer :
  let s := HeadBufferingReadOnlyMode inner buffer in
  ∃ inner' buffer', (poll_read n s).2 = HeadBufferingReadOnlyMode inner' buffer' ∧
    replayed (poll_read n s).2 = replayed s.
Proof.
  cbn [poll_read rewindable_read rewindable_poll_read].
  destruct (poll_read n inner) as [[bs|e] inner'] eqn:E; eexists _, _; split; try done; unfold replayed; simpl.
  - apply read_ok in E as [-> _]. by rewrite app_assoc.
  - by apply read_err in E as [-> ->].
Qed.

(** The stream is still in its first mode, and rewinding restores [whole]. *)
Definition recording `{AsyncRead R} (whole : str) (s : RewindableHeadAsyncStream R) : Prop :=
  (∃ inner buffer, s = HeadBufferingReadOnlyMode inner buffer) ∧ replayed s = whole.

Lemma recording_new `{AsyncRead R} inner : recording (content inner) (rewindable_new inner).
Proof. split; [by eexists _, _|done]. Qed.

Lemma recording_into_stream `{AsyncRead R} whole (s : RewindableHeadAsyncStream R) :
  recording whole s → content (into_stream s) = content s.
Proof. by intros [(inner & buffer & ->) _]. Qed.

Lemma poll_read_recording `{AsyncReadSpec R} whole n s : recording whole s → recording whole (poll_read n s).2.
Proof.
  intros [(inner & buffer & ->) <-]. destruct (poll_read_replayed n inner buffer) as (inner' & buffer' & E & Hr).
  split; [by eexists _, _|done].
Qed.

Lemma read_exact_recording `{AsyncReadSpec R} whole n s : recording whole s → recording whole (read_exact n s).2.
Proof.
  unfold read_exact. generalize n at 1. intros reads. revert n s.
  induction reads as [|reads IH]; intros n s Hs; cbn [read_exact_loop]; case_decide; try done.
  pose proof (poll_read_recording whole n s Hs) as Hp.
  destruct (poll_read n s) as [[[|b bs]|e] s']; try done.
  specialize (IH (n - length (b :: bs)) s' Hp). by destruct (read_exact_loop _ _ s').
Qed.

Lemma read_u8_recording `{AsyncReadSpec R} whole s : recording whole s → recording whole (read_u8 s).2.
Proof.
  intros Hs. pose proof (read_exact_recording whole 1 s Hs) as Hr. unfold read_u8.
  by destruct (read_exact 1 s) as [[[]|] ?].
Qed.
End rewindable.

(** ** What is read twice *)

(** The bytes that reads with buffers of the given sizes deliver. *)
Fixpoint reads {R} `{AsyncRead R} (sizes : list nat) (r : R) : str * R :=
  match sizes with
  | [] => ([], r)
  | n :: sizes =>
    let '(res, r) := poll_read n r in
    let '(bs, r) := reads sizes r in
    (match res with Ok b => b | Err _ => [] end ++ bs, r)
  end.

Lemma reads_content {R} `{AsyncReadSpec R} sizes (r : R) : content r = (reads sizes r).1 ++ content (reads sizes r).2.
Proof.
  revert r. induction sizes as [|n sizes IH]; intros r; [done|]. cbn [reads].
  destruct (poll_read n r) as [[b|e] r'] eqn:E; specialize (IH r'); destruct (reads sizes r') as [bs r'']; simpl in *.
  - apply read_ok in E as [-> _]. by rewrite <-app_assoc, <-IH.
  - apply read_err in E as [-> E]. by rewrite <-E.
Qed.

Lemma reads_recording {R} `{AsyncReadSpec R} whole sizes (s : RewindableHeadAsyncStream R) :
  recording whole s → recording whole (reads sizes s).2.
Proof.
  revert s. induction sizes as [|n sizes IH]; intros s Hs; [done|]. cbn [reads].
  pose proof (poll_read_recording whole n s Hs) as Hp. destruct (poll_read n s) as [res s'].
  specialize (IH s' Hp). by destruct (reads sizes s').
Qed.

(** C23: Whatever was read from the head of a stream, and in whatever pieces:
    rewound, it delivers the very bytes of the stream it wraps from the start,
    in whatever pieces they are read again; unwrapped instead, the stream goes
    on after what was read. *)
Theorem rewind_transparent {R} `{AsyncReadSpec R} (first second : list nat) (inner : R) :
  let head := reads first (rewindable_new inner) in
  let again := reads second (into_rewound_stream head.2) in
  content inner = head.1 ++ content (into_stream head.2) ∧
  content inner = again.1 ++ content again.2.
Proof.
  pose proof (reads_recording (content inner) first (rewindable_new inner) (recording_new inner)) as Hr.
  cbv zeta. split.
  - rewrite (recording_into_stream _ _ Hr). exact (reads_content first (rewindable_new inner)).
  - destruct Hr as [_ Hr]. rewrite <-reads_content. by rewrite <-Hr.
Qed.

(** ** A stream of pieces *)

Section pieces.
(** A read returns at most the first piece. *)
#[local] Instance pieces_read : AsyncRead (list str) := {|
  poll_read n s :=
    match filter (.≠ []) s with
    | [] => (Ok [], [])
    | c :: s => (Ok (take n c), drop n c :: s)
    end;
  content s := concat s;
|}.

#[local] Instance pieces_read_spec : AsyncReadSpec (list str).
Proof.
  assert (∀ s : list str, concat s = concat (filter (.≠ []) s)) as Hf.
  { induction s as [|c s IH]; [done|]. rewrite filter_cons. case_decide as Hc; simpl; [by rewrite IH|].
    by rewrite Hc. }
  split; intros n s *; cbn [poll_read content pieces_read]; rewrite (Hf s);
    destruct (filter (.≠ []) s) as [|c s'] eqn:E; try done.
  - intros [= <- <-]. simpl. split; [done|lia].
  - intros [= <- <-]. rewrite length_take. split; [|lia]. simpl. by rewrite app_assoc, take_drop.
  - intros Hn [= Ht _]. assert (c ∈ c :: s') as Hin by left. rewrite <-E in Hin.
    apply list_elem_of_filter in Hin as [Hc _]. destruct c; [done|]. destruct n; [lia|done].
Qed.

Lemma rewind_transparent_witness :
  let inner := [lit "GET /"; lit " HTTP"] in
  AsyncReadSpec (list str) ∧ (reads [3; 7] (rewindable_new inner)).1 = lit "GET /" ∧
  content inner = (reads [3; 7] (rewindable_new inner)).1 ++ content (into_stream (reads [3; 7] (rewindable_new inner)).2) ∧
  content inner = (reads [4] (into_rewound_stream (reads [3; 7] (rewindable_new inner)).2)).1 ++
    content (reads [4] (into_rewound_stream (reads [3; 7] (rewindable_new inner)).2)).2.
Proof.
  split; [exact pieces_read_spec|]. split; [vm_compute; reflexivity|].
  exact (rewind_transparent [3; 7] [4] [lit "GET /"; lit " HTTP"]).
Defined.
End pieces.
End AsyncStream.
