(* ===== verification/ProxyProtocol.v ===== *)
(** The PROXY protocol (arion-lib/src/transport/proxy_protocol.rs): reading a
    header from a downstream connection and writing one upstream. *)

From S2P Require Import Prelude RustStr Net Metadata AsyncStream Fmt.
Import Net Metadata AsyncStream.

Module ProxyProtocol.

Inductive ProxyProtocolError : Type :=
  | Io | PolicyRejected | InvalidHeader | BufferBounds | UnsupportedAddress | BuildHeader.

Inductive ProxyProtocolVersion : Type := Version1 | Version2.

#[export] Instance ProxyProtocolVersion_eq_dec : EqDecision ProxyProtocolVersion.
Proof. solve_decision. Defined.

Inductive PassTlvMatchType : Type := IncludeAll | Include.

Record ProxyProtocolPassThroughTlvs : Type := mk_pass_through {
  match_type : PassTlvMatchType;
  tlv_types : list TlvType;
}.

Record DownstreamProxyProtocolConfig : Type := mk_downstream {
  allow_requests_without_proxy_protocol : bool;
  disallowed_versions : list ProxyProtocolVersion;
  pass_through_tlvs : option ProxyProtocolPassThroughTlvs;
}.

(** ** The crate ppp *)

Inductive V1Addresses : Type :=
  | Tcp4 (source destination source_port destination_port : Z)
  | Tcp6 (source destination source_port destination_port : Z)
  | Unknown.

Inductive V2Addresses : Type :=
  | IPv4 (source destination source_port destination_port : Z)
  | IPv6 (source destination source_port destination_port : Z)
  | Unix
  | Unspecified.

Class PppLib : Type := {
  Protocol : Type;
  Stream : Protocol;
  v1_prefix : str;
  v2_prefix : str;
  Builder : Type;
  (** [Builder::with_addresses(Version::Two | Command::Proxy, Protocol::Stream, _)]. *)
  with_addresses : SocketAddr → SocketAddr → Builder;
  write_tlv : Builder → Z → list Z → option Builder;
  build : Builder → option str;
}.

(** [HeaderResult]; a TLV of a header may be malformed. *)
Inductive HeaderResult `{PppLib} : Type :=
  | V1Header (r : option V1Addresses)
  | V2Header (r : option (V2Addresses * Protocol * list (option (Z * list Z)))).

(** ** Reading *)

Definition V1_PREFIX_LEN : nat := 5.
Definition V1_MAX_LENGTH : nat := 107.
Definition V1_TERMINATOR : str := [Str.byte 13; Str.byte 10].
Definition V2_PREFIX_LEN : nat := 12.
Definition V2_MINIMUM_LEN : nat := 16.
Definition V2_LENGTH_INDEX : nat := 14.
Definition READ_BUFFER_LEN : nat := 512.

Inductive DetectedHeader : Type :=
  | DetectedV1
  | DetectedV2 (extra_buffer : option str)
  | DetectedNone.

Inductive PolicyAction : Type := Proceed | Reject | TransparentPassthrough.

Definition zero_byte : Ascii.ascii := Str.byte 0.

(** What is read into a part of the buffer. *)
Definition splice (i : nat) (bs buffer : str) : str := take i buffer ++ bs ++ drop (i + length bs) buffer.

(** [u16::from_be_bytes]. *)
Definition from_be_bytes (b1 b2 : Ascii.ascii) : nat :=
  N.to_nat (Ascii.N_of_ascii b1 * 256 + Ascii.N_of_ascii b2).

Section reader.
Context `{PppLib}.

Section header_bytes.
Context {R : Type} `{AsyncRead R}.

(** The loop over [i] for a header of version 1: whether the terminator was
    found. *)
Fixpoint v1_scan (n i : nat) (buffer : str) (r : R) : result ProxyProtocolError bool * (str * R) :=
  match n with
  | 0 => (Ok false, (buffer, r))
  | S n =>
    match read_u8 r with
    | (Err _, r) => (Err Io, (buffer, r))
    | (Ok byte, r) =>
      let buffer := splice i [byte] buffer in
      if decide (take 2 (drop (i - 1) buffer) = V1_TERMINATOR) then (Ok true, (buffer, r))
      else v1_scan n (S i) buffer r
    end
  end.

Definition read_header_bytes (buffer : str) (r : R) : result ProxyProtocolError DetectedHeader * (str * R) :=
  match read_exact V1_PREFIX_LEN r with
  | (Err _, r) => (Err Io, (buffer, r))
  | (Ok bs, r) =>
    let buffer := splice 0 bs buffer in
    if decide (take V1_PREFIX_LEN buffer = v1_prefix) then
      match v1_scan (V1_MAX_LENGTH `min` READ_BUFFER_LEN - V1_PREFIX_LEN) V1_PREFIX_LEN buffer r with
      | (Err e, s) => (Err e, s)
      | (Ok false, s) => (Err InvalidHeader, s)
      | (Ok true, s) => (Ok DetectedV1, s)
      end
    else
      match read_exact (V2_MINIMUM_LEN - V1_PREFIX_LEN) r with
      | (Err _, r) => (Err Io, (buffer, r))
      | (Ok bs, r) =>
        let buffer := splice V1_PREFIX_LEN bs buffer in
        if decide (take V2_PREFIX_LEN buffer = v2_prefix) then
          let b1 := default zero_byte (buffer !! V2_LENGTH_INDEX) in
          let b2 := default zero_byte (buffer !! S V2_LENGTH_INDEX) in
          let length := from_be_bytes b1 b2 in
          let full_length := V2_MINIMUM_LEN + length in
          match read_exact length r with
          | (Err _, r) => (Err Io, (buffer, r))
          | (Ok tail, r) =>
            if bool_decide (READ_BUFFER_LEN < full_length)
            then (Ok (DetectedV2 (Some (take V2_MINIMUM_LEN buffer ++ tail))), (buffer, r))
            else (Ok (DetectedV2 None), (splice V2_MINIMUM_LEN tail buffer, r))
          end
        else (Ok DetectedNone, (buffer, r))
      end
  end.
End header_bytes.

Section policy.
Context (config : DownstreamProxyProtocolConfig).

Definition disallowed (v : ProxyProtocolVersion) : bool := bool_decide (v ∈ disallowed_versions config).

(** [should_reject_v1], [should_reject_v2] and the two for the passthrough. *)
Definition should_reject (v : ProxyProtocolVersion) : bool :=
  disallowed v && negb (allow_requests_without_proxy_protocol config).
Definition should_allow_transparent_passthrough (v : ProxyProtocolVersion) : bool :=
  disallowed v && allow_requests_without_proxy_protocol config.

Definition apply_policy (detected_header : DetectedHeader) : PolicyAction :=
  match detected_header with
  | DetectedV1 =>
    if should_reject Version1 then Reject
    else if should_allow_transparent_passthrough Version1 then TransparentPassthrough else Proceed
  | DetectedV2 _ =>
    if should_reject Version2 then Reject
    else if should_allow_transparent_passthrough Version2 then TransparentPassthrough else Proceed
  | DetectedNone =>
    if allow_requests_without_proxy_protocol config then TransparentPassthrough else Reject
  end.

Definition passes (pass_through_config : ProxyProtocolPassThroughTlvs) (t : TlvType) : bool :=
  match match_type pass_through_config with
  | IncludeAll => true
  | Include => bool_decide (t ∈ tlv_types pass_through_config)
  end.

(** The TLVs that are kept; a later one replaces an earlier one of its type. *)
Definition collect_tlvs (tlvs : list (option (Z * list Z))) : gmap TlvType (list Z) :=
  match pass_through_tlvs config with
  | None => ∅
  | Some pass_through_config =>
    foldl (λ tlv_data tlv,
      match tlv with
      | None => tlv_data
      | Some (kind, value) =>
        let tlv_type := if (kind =? 0)%Z then NoOp else Custom kind in
        if passes pass_through_config tlv_type then <[tlv_type := value]> tlv_data else tlv_data
      end) ∅ tlvs
  end.

Definition extract_metadata (parsed_header : HeaderResult) (peer_address local_address : SocketAddr)
    : result ProxyProtocolError (DownstreamConnectionMetadata Protocol) :=
  match parsed_header with
  | V1Header None => Err InvalidHeader
  | V1Header (Some addresses) =>
    let proxied source destination :=
      Ok (FromProxyProtocol source destination Stream ∅ peer_address local_address) in
    match addresses with
    | Tcp4 s d sp dp => proxied (mk_sock (V4 s) sp) (mk_sock (V4 d) dp)
    | Tcp6 s d sp dp => proxied (mk_sock (V6 s) sp) (mk_sock (V6 d) dp)
    | Unknown => Ok (FromSocket peer_address local_address)
    end
  | V2Header None => Err InvalidHeader
  | V2Header (Some (addresses, protocol, tlvs)) =>
    let proxied source destination :=
      Ok (FromProxyProtocol source destination protocol (collect_tlvs tlvs) peer_address local_address) in
    match addresses with
    | IPv4 s d sp dp => proxied (mk_sock (V4 s) sp) (mk_sock (V4 d) dp)
    | IPv6 s d sp dp => proxied (mk_sock (V6 s) sp) (mk_sock (V6 d) dp)
    | Unix => Err UnsupportedAddress
    | Unspecified => Ok (FromSocket peer_address local_address)
    end
  end.

Context {R : Type} `{AsyncRead R}.

(** [parse] is [HeaderResult::parse].  The stream that is returned is rewound
    or the one that was given. *)
Definition try_read_proxy_header (parse : str → HeaderResult) (stream : R) (local_address peer_address : SocketAddr)
    : result ProxyProtocolError (DownstreamConnectionMetadata Protocol * (RewindableHeadAsyncStream R + R)) :=
  match read_header_bytes (replicate READ_BUFFER_LEN zero_byte) (rewindable_new stream) with
  | (Err e, _) => Err e
  | (Ok maybe_header, (buffer, stream)) =>
    match apply_policy maybe_header with
    | Reject => Err PolicyRejected
    | TransparentPassthrough => Ok (FromSocket peer_address local_address, inl (into_rewound_stream stream))
    | Proceed =>
      let buffered_data :=
        match maybe_header with DetectedV2 extra_buffer => default buffer extra_buffer | _ => buffer end in
      metadata ← extract_metadata (parse buffered_data) peer_address local_address;
      Ok (metadata, inr (into_stream stream))
    end
  end.
End policy.
End reader.

(** ** Writing *)

Record TlvEntry : Type := mk_tlv { tlv_type : TlvType; tlv_value : list Z }.

Record ProxyProtocolConfigurator : Type := mk_configurator {
  version : ProxyProtocolVersion;
  upstream_pass_through : option ProxyProtocolPassThroughTlvs;
  added_tlvs : list TlvEntry;
}.

Section writer.
Context `{PppLib}.

(** The text of a header of version 1 for addresses of one family. *)
Definition v1_text (family : str) (src dst : SocketAddr) : str :=
  let sp := Str.byte 32 in
  lit "PROXY " ++ family ++ sp :: Fmt.fmt_ip (sock_ip src) ++ sp :: Fmt.fmt_ip (sock_ip dst) ++
  sp :: Fmt.fmt_dec (sock_port src) ++ sp :: Fmt.fmt_dec (sock_port dst) ++ V1_TERMINATOR.

Definition build_v1_header (connection_metadata : DownstreamConnectionMetadata Protocol)
    : result ProxyProtocolError str :=
  let src := peer_address connection_metadata in
  let dst := local_address connection_metadata in
  match sock_ip src, sock_ip dst with
  | V4 _, V4 _ => Ok (v1_text (lit "TCP4") src dst)
  | V6 _, V6 _ => Ok (v1_text (lit "TCP6") src dst)
  | _, _ => Err UnsupportedAddress
  end.

(** [hash_iter] is the iteration over a [HashMap]. *)
Context (hash_iter : gmap TlvType (list Z) → list (TlvType * list Z)).

Definition v2_tlvs (c : ProxyProtocolConfigurator) (connection_metadata : DownstreamConnectionMetadata Protocol)
    : list (TlvType * list Z) :=
  ((λ e, (tlv_type e, tlv_value e)) <$> added_tlvs c) ++
  match connection_metadata, upstream_pass_through c with
  | FromProxyProtocol _ _ _ tlv_data _ _, Some pass_through_config =>
    filter (λ e, passes pass_through_config e.1 = true) (hash_iter tlv_data)
  | _, _ => []
  end.

Definition build_v2_header (c : ProxyProtocolConfigurator)
    (connection_metadata : DownstreamConnectionMetadata Protocol) : result ProxyProtocolError str :=
  let builder := with_addresses (peer_address connection_metadata) (local_address connection_metadata) in
  let written := foldl (λ b e, b ≫= λ b, write_tlv b (u8_from e.1) e.2) (Some builder) (v2_tlvs c connection_metadata) in
  match written ≫= build with Some header => Ok header | None => Err BuildHeader end.

Definition build_proxy_header (c : ProxyProtocolConfigurator)
    (connection_metadata : DownstreamConnectionMetadata Protocol) : result ProxyProtocolError str :=
  match version c with
  | Version1 => build_v1_header connection_metadata
  | Version2 => build_v2_header c connection_metadata
  end.
End writer.
End ProxyProtocol.
