(* ===== verification/ProxyProtocolSpec.v ===== *)
(** The PROXY protocol: what a header takes from the stream, and that a header
    of version 1 is read as it was written. *)

From S2P Require Import Prelude RustStr Net Metadata AsyncStream Fmt ProxyProtocol.
Import Net Metadata AsyncStream ProxyProtocol.

Module ProxyProtocolSpec.

Section spec.
Context `{PppLib}.

(** The read buffer after the bytes [h]. *)
Definition padded (h : str) : str := h ++ replicate (READ_BUFFER_LEN - length h) zero_byte.

(** What is parsed: a long header has a buffer of its own. *)
Definition parsed_bytes (h : str) : str := if decide (READ_BUFFER_LEN < length h) then h else padded h.

(** A terminated line of at most 107 bytes. *)
Definition v1_line (h : str) : Prop :=
  take V1_PREFIX_LEN h = v1_prefix ∧ length h ≤ V1_MAX_LENGTH ∧
  V1_TERMINATOR `suffix_of` h ∧
  ∀ k, V1_PREFIX_LEN < k < length h → ¬ V1_TERMINATOR `suffix_of` take k h.

(** A block with the signature and the length of its rest. *)
Definition v2_block (h : str) : Prop :=
  take V2_PREFIX_LEN h = v2_prefix ∧
  ∃ b1 b2, h !! 14 = Some b1 ∧ h !! 15 = Some b2 ∧ length h = V2_MINIMUM_LEN + from_be_bytes b1 b2.

Lemma length_padded h : length h ≤ READ_BUFFER_LEN → length (padded h) = READ_BUFFER_LEN.
Proof. intros. unfold padded. rewrite length_app, length_replicate. lia. Qed.

Lemma splice_padded h bs :
  length (h ++ bs) ≤ READ_BUFFER_LEN → splice (length h) bs (padded h) = padded (h ++ bs).
Proof.
  rewrite length_app. intros. unfold splice, padded. rewrite take_app_length, <-app_assoc. do 2 f_equal.
  rewrite <-drop_drop, drop_app_length, drop_replicate, length_app. f_equal. lia.
Qed.

Lemma take_padded n h : n ≤ length h → take n (padded h) = take n h.
Proof. intros. unfold padded. by rewrite take_app_le. Qed.

Lemma lookup_padded i h : i < length h → padded h !! i = h !! i.
Proof. intros. unfold padded. by rewrite lookup_app_l. Qed.

(** The two bytes before a position of the buffer. *)
Lemma look_back pre a b :
  take 2 (drop (length (pre ++ [a]) - 1) (padded (pre ++ [a] ++ [b]))) = [a; b].
Proof.
  rewrite length_app. simpl length. replace (length pre + 1 - 1) with (length pre) by lia.
  unfold padded. by rewrite <-app_assoc, drop_app_length.
Qed.

Lemma terminator_suffix pre a b : V1_TERMINATOR `suffix_of` (pre ++ [a; b]) ↔ [a; b] = V1_TERMINATOR.
Proof.
  split.
  - intros [k Hk]. unfold V1_TERMINATOR in *. apply app_inj_2 in Hk as [_ Hk]; [done|done].
  - intros ->. by exists pre.
Qed.

Section stream.
Context {R : Type} `{AsyncReadSpec R}.

Lemma v1_scan_sound n h r found buffer r' :
  0 < length h → length h + n ≤ READ_BUFFER_LEN →
  v1_scan n (length h) (padded h) r = (Ok found, (buffer, r')) →
  ∃ line, content r = line ++ content r' ∧ buffer = padded (h ++ line) ∧ length line ≤ n ∧
    (found = true → V1_TERMINATOR `suffix_of` (h ++ line) ∧ 0 < length line ∧
      ∀ k, length h < k < length (h ++ line) → ¬ V1_TERMINATOR `suffix_of` take k (h ++ line)).
Proof.
  revert h r. induction n as [|n IH]; intros h r Hh Hn; cbn [v1_scan].
  { intros [= <- <- <-]. exists []. rewrite app_nil_r. split_and!; [done|done|simpl; lia|done]. }
  destruct (read_u8 r) as [[b|] r1] eqn:Hr; [|done]. apply read_u8_Ok in Hr.
  destruct h as [|a pre] using rev_ind; [simpl in Hh; lia|]. clear IHpre.
  rewrite splice_padded by (rewrite length_app; simpl length in *; lia).
  rewrite <-app_assoc. rewrite look_back. case_decide as Hcr.
  - intros [= <- <- <-]. exists [b]. rewrite <-app_assoc. split_and!; [done|done|simpl; lia|].
    intros _. split_and!; [by apply terminator_suffix|simpl; lia|]. intros k. rewrite !length_app. simpl. lia.
  - intros Hscan. replace (S (length (pre ++ [a]))) with (length ((pre ++ [a]) ++ [b])) in Hscan
      by (rewrite length_app; simpl; lia).
    rewrite app_assoc in Hscan.
    apply IH in Hscan as (line & Hc & Hb & Hl & Hf); [|rewrite !length_app in *; simpl in *; lia..].
    exists (b :: line). rewrite Hr, Hc, Hb. rewrite <-!app_assoc in *. simpl in *.
    split_and!; [done|done|lia|]. intros Hfound. destruct (Hf Hfound) as (Hend & _ & Hno). split_and!; [done|lia|].
    intros k Hk. destruct (decide (k = S (length (pre ++ [a])))) as [->|Hne].
    + rewrite length_app. simpl. replace (pre ++ a :: b :: line) with ((pre ++ [a; b]) ++ line) by (by rewrite <-app_assoc).
      rewrite take_app_length' by (rewrite length_app; simpl; lia). by rewrite terminator_suffix.
    + apply Hno. rewrite !length_app in *. simpl in *. lia.
Qed.

(** The bytes of a header and what was made of them. *)
Definition detected (h : str) (d : DetectedHeader) (buffer : str) : Prop :=
  match d with
  | DetectedV1 => v1_line h ∧ buffer = parsed_bytes h
  | DetectedV2 extra_buffer => v2_block h ∧ default buffer extra_buffer = parsed_bytes h
  | DetectedNone => length h = V2_MINIMUM_LEN ∧ take V1_PREFIX_LEN h ≠ v1_prefix ∧ take V2_PREFIX_LEN h ≠ v2_prefix
  end.

Lemma parsed_short h : length h ≤ READ_BUFFER_LEN → parsed_bytes h = padded h.
Proof. intros. unfold parsed_bytes. by rewrite decide_False by lia. Qed.

Lemma v1_detected h line :
  take V1_PREFIX_LEN h = v1_prefix → length h = V1_PREFIX_LEN →
  length line ≤ V1_MAX_LENGTH - V1_PREFIX_LEN → V1_TERMINATOR `suffix_of` (h ++ line) →
  (∀ k, length h < k < length (h ++ line) → ¬ V1_TERMINATOR `suffix_of` take k (h ++ line)) →
  detected (h ++ line) DetectedV1 (padded (h ++ line)).
Proof.
  intros Hp Hh Hl Hend Hno. assert (length (h ++ line) ≤ V1_MAX_LENGTH) as Hmax.
  { rewrite length_app, Hh. unfold V1_MAX_LENGTH, V1_PREFIX_LEN in *. lia. }
  split; [split_and!|].
  - by rewrite take_app_le by (rewrite Hh; done).
  - done.
  - done.
  - intros k Hk. apply Hno. by rewrite Hh.
  - rewrite parsed_short; [done|]. unfold V1_MAX_LENGTH, READ_BUFFER_LEN in *. lia.
Qed.

Lemma v2_detected h tail b1 b2 :
  take V2_PREFIX_LEN h = v2_prefix → length h = V2_MINIMUM_LEN →
  h !! 14 = Some b1 → h !! 15 = Some b2 → length tail = from_be_bytes b1 b2 →
  v2_block (h ++ tail).
Proof.
  intros Hp Hh H14 H15 Ht. split.
  - rewrite take_app_le; [done|]. rewrite Hh. unfold V2_PREFIX_LEN, V2_MINIMUM_LEN. lia.
  - exists b1, b2. unfold V2_MINIMUM_LEN in Hh. rewrite !lookup_app_l, length_app by lia.
    split_and!; [done..|]. unfold V2_MINIMUM_LEN. lia.
Qed.

Lemma read_header_bytes_sound r d buffer r' :
  read_header_bytes (padded []) r = (Ok d, (buffer, r')) →
  ∃ h, content r = h ++ content r' ∧ detected h d buffer.
Proof.
  unfold read_header_bytes. destruct (read_exact V1_PREFIX_LEN r) as [[h|] r1] eqn:E1; [|done].
  apply read_exact_Ok in E1 as [Hc1 Hl1]. change (splice 0 h) with (splice (length (A := Ascii.ascii) []) h).
  rewrite splice_padded by (cbn [app]; rewrite Hl1; vm_compute; lia). cbn [app]. rewrite take_padded by (by rewrite Hl1). case_decide as Hp.
  - destruct (v1_scan _ _ _ _) as [[[]|] [buf r2]] eqn:Escan; intros; simplify_eq.
    rewrite <-Hl1 in Escan at 2. apply v1_scan_sound in Escan as (line & Hc & -> & Hlen & Hf);
      [|rewrite Hl1; vm_compute; lia..].
    destruct (Hf eq_refl) as (Hend & _ & Hno). exists (h ++ line). rewrite Hc1, Hc, <-app_assoc. split; [done|].
    by apply v1_detected.
  - destruct (read_exact (V2_MINIMUM_LEN - V1_PREFIX_LEN) r1) as [[t|] r2] eqn:E2; [|done].
    apply read_exact_Ok in E2 as [Hc2 Hl2]. set (g := h ++ t).
    assert (length g = V2_MINIMUM_LEN) as Hg by (unfold g; rewrite length_app, Hl1, Hl2; done).
    replace (splice V1_PREFIX_LEN t) with (splice (length h) t) by by rewrite Hl1. rewrite splice_padded by (fold g; rewrite Hg; vm_compute; lia). fold g.
    rewrite take_padded by (rewrite Hg; vm_compute; lia). case_decide as Hv2.
    + unfold V2_LENGTH_INDEX. rewrite !lookup_padded by (rewrite Hg; vm_compute; lia).
      destruct (lookup_lt_is_Some_2 g 14) as [b1 H14]; [rewrite Hg; vm_compute; lia|].
      destruct (lookup_lt_is_Some_2 g 15) as [b2 H15]; [rewrite Hg; vm_compute; lia|].
      rewrite H14, H15. cbn [from_option id].
      destruct (read_exact (from_be_bytes b1 b2) r2) as [[tail|] r3] eqn:E3; [|done].
      apply read_exact_Ok in E3 as [Hc3 Hl3]. intros Hres.
      assert (r' = r3) as -> by (by case_bool_decide; simplify_eq).
      exists (g ++ tail). rewrite Hc1, Hc2, Hc3. split; [unfold g; by rewrite <-!app_assoc|].
      assert (v2_block (g ++ tail)) by (by eapply v2_detected).
      assert (length (g ++ tail) = V2_MINIMUM_LEN + from_be_bytes b1 b2) as Hlen by (by rewrite length_app, Hg, Hl3).
      case_bool_decide; simplify_eq; (split; [done|]); cbn [from_option id].
      * unfold parsed_bytes. rewrite decide_True by (by rewrite Hlen). rewrite take_padded by (by rewrite Hg).
        by rewrite take_ge by (by rewrite Hg).
      * unfold parsed_bytes. rewrite decide_False by (by rewrite Hlen). rewrite <-Hg. apply splice_padded. rewrite Hlen. lia.
    + intros [= <- <- <-]. exists g. rewrite Hc1, Hc2, app_assoc. split; [done|]. split_and!; [done| |done].
      unfold g. rewrite take_app_le by (by rewrite Hl1). done.
Qed.

(** A line without a carriage return before its end is found. *)
Lemma v1_scan_complete n h line r rest :
  0 < length h → length h + n ≤ READ_BUFFER_LEN → length line + 2 ≤ n →
  Str.byte 13 ∉ h → Str.byte 13 ∉ line → content r = line ++ V1_TERMINATOR ++ rest →
  ∃ r', v1_scan n (length h) (padded h) r = (Ok true, (padded (h ++ line ++ V1_TERMINATOR), r')) ∧ content r' = rest.
Proof.
  revert h line r. induction n as [|n IH]; intros h line r Hh Hn Hl Hcr Hcr' Hc; [lia|]. cbn [v1_scan].
  destruct h as [|a pre] using rev_ind; [simpl in Hh; lia|]. clear IHpre.
  assert (a ≠ Str.byte 13) as Ha by (intros ->; set_solver). destruct line as [|b line].
  - destruct (read_u8_cons r (Str.byte 13) (Str.byte 10 :: rest)) as (r1 & -> & Hc1); [done|].
    rewrite splice_padded by (rewrite length_app; simpl length in *; lia). rewrite <-app_assoc, look_back, decide_False by (unfold V1_TERMINATOR; congruence).
    destruct n as [|n]; [simpl in *; lia|]. cbn [v1_scan].
    destruct (read_u8_cons r1 (Str.byte 10) rest) as (r2 & -> & Hc2); [done|]. exists r2.
    replace (S (length (pre ++ [a]))) with (length (pre ++ [a] ++ [Str.byte 13])) by (rewrite !length_app; simpl; lia).
    rewrite splice_padded by (rewrite !length_app in *; simpl length in *; lia). rewrite <-!app_assoc. cbn [app].
    change (pre ++ [a; Str.byte 13; Str.byte 10]) with (pre ++ [a] ++ [Str.byte 13; Str.byte 10]).
    rewrite (app_assoc pre [a]). change [Str.byte 13; Str.byte 10] with ([Str.byte 13] ++ [Str.byte 10]).
    replace (length (pre ++ [a; Str.byte 13])) with (length ((pre ++ [a]) ++ [Str.byte 13])) by (by rewrite <-app_assoc).
    rewrite look_back, decide_True by done. by rewrite <-app_assoc.
  - destruct (read_u8_cons r b (line ++ V1_TERMINATOR ++ rest)) as (r1 & -> & Hc1); [done|].
    rewrite splice_padded by (rewrite length_app; simpl length in *; lia).
    rewrite <-app_assoc, look_back, decide_False by (unfold V1_TERMINATOR; congruence).
    replace (S (length (pre ++ [a]))) with (length (pre ++ [a] ++ [b])) by (rewrite !length_app; simpl; lia).
    destruct (IH (pre ++ [a] ++ [b]) line r1) as (r' & -> & Hr'); try done.
    + rewrite !length_app; simpl; lia.
    + rewrite !length_app in *; simpl in *; lia.
    + simpl in *; lia.
    + set_solver.
    + set_solver.
    + exists r'. rewrite <-!app_assoc. done.
Qed.
End stream.

(** ** Reading from a stream that can be rewound *)

Section recorded.
Context {R : Type} `{AsyncReadSpec R}.

Lemma v1_scan_recording whole n i buffer (r : RewindableHeadAsyncStream R) :
  recording whole r → recording whole (v1_scan n i buffer r).2.2.
Proof.
  revert i buffer r. induction n as [|n IH]; intros i buffer r Hr; [done|]. cbn [v1_scan].
  pose proof (read_u8_recording whole r Hr) as Hu. destruct (read_u8 r) as [[b|] r']; [|done].
  case_decide; [done|by apply IH].
Qed.

Lemma read_header_bytes_recording whole buffer (r : RewindableHeadAsyncStream R) :
  recording whole r → recording whole (read_header_bytes buffer r).2.2.
Proof.
  intros Hr. unfold read_header_bytes. pose proof (read_exact_recording whole V1_PREFIX_LEN r Hr) as H1'.
  destruct (read_exact V1_PREFIX_LEN r) as [[h|] r1]; [|done]. case_decide.
  - pose proof (v1_scan_recording whole (V1_MAX_LENGTH `min` READ_BUFFER_LEN - V1_PREFIX_LEN) V1_PREFIX_LEN
      (splice 0 h buffer) r1 H1') as H2'. by destruct (v1_scan _ _ _ _) as [[[]|] []].
  - pose proof (read_exact_recording whole (V2_MINIMUM_LEN - V1_PREFIX_LEN) r1 H1') as H2'.
    destruct (read_exact _ r1) as [[t|] r2]; [|done]. case_decide; [|done].
    set (k := from_be_bytes _ _). pose proof (read_exact_recording whole k r2 H2') as H3'.
    destruct (read_exact k r2) as [[tail|] r3]; [|done]. by case_bool_decide.
Qed.

(** C12: If the header is let through, the connection that goes on is either
    rewound, and delivers the very bytes the client sent, with the addresses of
    the socket; that takes a configuration that allows requests without a
    header.  Or exactly a header of a version that is not disallowed was taken
    from the stream: a line up to its first terminator, of at most 107 bytes,
    or a block with the signature and the number of bytes it declares; the
    metadata are those parsed from it. *)
Theorem proxy_header_taken config parse (stream : R) local peer metadata out :
  try_read_proxy_header config parse stream local peer = Ok (metadata, out) →
  match out with
  | inl rewound =>
    content rewound = content stream ∧ metadata = FromSocket peer local ∧
    allow_requests_without_proxy_protocol config = true
  | inr rest =>
    ∃ h, content stream = h ++ content rest ∧
      (v1_line h ∧ Version1 ∉ disallowed_versions config ∨ v2_block h ∧ Version2 ∉ disallowed_versions config) ∧
      extract_metadata config (parse (parsed_bytes h)) peer local = Ok metadata
  end.
Proof.
  unfold try_read_proxy_header. change (replicate READ_BUFFER_LEN zero_byte) with (padded []).
  pose proof (read_header_bytes_recording (content stream) (padded []) (rewindable_new stream) (recording_new stream)) as Hrec.
  destruct (read_header_bytes (padded []) (rewindable_new stream)) as [[d|] [buffer s]] eqn:E; [|done].
  apply read_header_bytes_sound in E as (h & Hc & Hd). cbn [fst snd] in Hrec.
  pose proof (recording_into_stream _ _ Hrec) as Hi.
  destruct (apply_policy config d) eqn:Hp; [|done|].
  - destruct (extract_metadata _ _ _ _) as [m|] eqn:He; [|done]. intros [= <- <-]. exists h. rewrite Hi.
    split; [exact Hc|]. unfold apply_policy, should_reject, should_allow_transparent_passthrough, disallowed in Hp.
    destruct d as [|x|]; simpl in Hd; [| |by destruct (allow_requests_without_proxy_protocol config)];
      destruct Hd as [Hd Hb]; rewrite Hb in He; (split; [|done]); [left|right]; (split; [done|]);
      intros Hin; rewrite bool_decide_true in Hp by done; by destruct (allow_requests_without_proxy_protocol config).
  - intros [= <- <-]. split_and!; [apply Hrec|done|].
    unfold apply_policy, should_reject, should_allow_transparent_passthrough in Hp.
    destruct d; repeat case_match; try done; by destruct (allow_requests_without_proxy_protocol config), (disallowed _ _).
Qed.
End recorded.

(** ** Written and read *)

(** No carriage return. *)
Definition one_line (s : str) : Prop := Forall (.≠ Str.byte 13) s.

Lemma plain_one_line s : Forall Fmt.plain s → one_line s.
Proof.
  intros Hs. eapply Forall_impl; [exact Hs|]. intros c Hc ->. destruct Hc as [[? Hd]|[Hd|Hd]]; vm_compute in Hd; discriminate.
Qed.

(** A header of version 1 without its terminator. *)
Definition v1_body (family : str) (src dst : SocketAddr) : str :=
  let sp := Str.byte 32 in
  lit "PROXY " ++ family ++ sp :: Fmt.fmt_ip (sock_ip src) ++ sp :: Fmt.fmt_ip (sock_ip dst) ++
  sp :: Fmt.fmt_dec (sock_port src) ++ sp :: Fmt.fmt_dec (sock_port dst).

Lemma v1_text_body family src dst : v1_text family src dst = v1_body family src dst ++ V1_TERMINATOR.
Proof. unfold v1_text, v1_body. by repeat (rewrite <-app_assoc; cbn [app]). Qed.

Definition wf_port (a : SocketAddr) : Prop := (0 <= sock_port a < 65536)%Z.

Lemma v1_body_one_line family src dst :
  wf_port src → wf_port dst → one_line family → one_line (v1_body family src dst).
Proof.
  intros Hs Hd Hf. unfold v1_body, one_line. assert (Str.byte 32 ≠ Str.byte 13) as Hsp by done.
  repeat (rewrite Forall_app || rewrite Forall_cons). split_and!; try done; try apply plain_one_line, Fmt.fmt_ip_plain.
  - repeat (apply Forall_cons_2; [done|]). apply Forall_nil_2.
  - apply plain_one_line, Fmt.fmt_dec_plain, Hs.
  - apply plain_one_line, Fmt.fmt_dec_plain, Hd.
Qed.

Lemma v1_body_length family src dst :
  wf_port src → wf_port dst → length family = 4 → length (v1_body family src dst) ≤ 102.
Proof.
  intros Hs Hd Hf. unfold v1_body. repeat (rewrite length_app || cbn [length lit String.list_ascii_of_string]).
  assert (∀ a, wf_port a → length (Fmt.fmt_dec (sock_port a)) ≤ 5) as Hport.
  { intros a Ha. apply Fmt.fmt_radix_length; [lia|lia|]. unfold wf_port in Ha. simpl. lia. }
  pose proof (Hport src Hs). pose proof (Hport dst Hd).
  pose proof (Fmt.fmt_ip_length (sock_ip src)). pose proof (Fmt.fmt_ip_length (sock_ip dst)). lia.
Qed.

Lemma read_v1_body {R} `{AsyncReadSpec R} (r : R) family src dst rest :
  v1_prefix = lit "PROXY" → wf_port src → wf_port dst → length family = 4 → one_line family →
  content r = v1_text family src dst ++ rest →
  ∃ r', read_header_bytes (padded []) r = (Ok DetectedV1, (padded (v1_text family src dst), r')) ∧ content r' = rest.
Proof.
  intros Hp Hs Hd Hf Hf' Hc. pose proof (v1_body_one_line family src dst Hs Hd Hf') as Hline.
  pose proof (v1_body_length family src dst Hs Hd Hf) as Hlen.
  rewrite v1_text_body in Hc |- *. rewrite <-app_assoc in Hc.
  destruct (v1_body family src dst) as [|c1 [|c2 [|c3 [|c4 [|c5 line]]]]] eqn:Eb; try discriminate Eb.
  assert ([c1; c2; c3; c4; c5] = v1_prefix) as Hpre by (rewrite Hp; unfold v1_body in Eb; simpl in Eb; by simplify_eq).
  destruct (read_exact_enough V1_PREFIX_LEN r v1_prefix (line ++ V1_TERMINATOR ++ rest)) as (r1 & E1 & Hc1).
  { rewrite Hc, <-Hpre. done. }
  { by rewrite Hp. }
  unfold read_header_bytes. rewrite E1. change (splice 0 v1_prefix) with (splice (length (A := Ascii.ascii) []) v1_prefix).
  rewrite splice_padded by (rewrite Hp; vm_compute; lia). cbn [app].
  rewrite take_padded by (by rewrite Hp). rewrite decide_True by (by rewrite Hp).
  assert (Forall (.≠ Str.byte 13) (v1_prefix ++ line)) as Hall by (by rewrite <-Hpre).
  apply Forall_app in Hall as [Hcr1 Hcr2].
  destruct (v1_scan_complete (V1_MAX_LENGTH `min` READ_BUFFER_LEN - V1_PREFIX_LEN) v1_prefix line r1 rest)
    as (r2 & E2 & Hc2); try done.
  - rewrite Hp. vm_compute. lia.
  - rewrite Hp. vm_compute. lia.
  - simpl in Hlen. replace (_ - _) with 102 by reflexivity. lia.
  - intros Hin. by eapply Forall_forall in Hcr1.
  - intros Hin. by eapply Forall_forall in Hcr2.
  - replace (length v1_prefix) with V1_PREFIX_LEN in E2 by by rewrite Hp. rewrite E2. exists r2. split; [|done].
    by rewrite <-Hpre.
Qed.

Section roundtrip.
Context {R : Type} `{AsyncReadSpec R}.

(** The addresses of a header of version 1. *)
Definition v1_addresses (src dst : SocketAddr) : V1Addresses :=
  match sock_ip src, sock_ip dst with
  | V4 s, V4 d => Tcp4 s d (sock_port src) (sock_port dst)
  | V6 s, V6 d => Tcp6 s d (sock_port src) (sock_port dst)
  | _, _ => Unknown
  end.

(** The crate parses the text of a header of version 1 at the start of a
    buffer. *)
Definition parses_v1 (parse : str → HeaderResult) (metadata : DownstreamConnectionMetadata Protocol) (h : str) : Prop :=
  parse (padded h) = V1Header (Some (v1_addresses (peer_address metadata) (local_address metadata))).

(** The header of version 1 that is written for a connection is at most 107
    bytes long, and a listener that accepts this version reads it back: it
    learns the peer and local address of that connection, and its stream goes
    on with the byte after the header. *)
Theorem v1_roundtrip config parse (stream : R) local peer metadata h rest :
  v1_prefix = lit "PROXY" → parses_v1 parse metadata h → Version1 ∉ disallowed_versions config →
  wf_port (peer_address metadata) → wf_port (local_address metadata) →
  build_v1_header metadata = Ok h → content stream = h ++ rest →
  length h ≤ V1_MAX_LENGTH ∧
  ∃ s, try_read_proxy_header config parse stream local peer =
         Ok (FromProxyProtocol (peer_address metadata) (local_address metadata) Stream ∅ peer local, inr s) ∧
       content s = rest.
Proof.
  intros Hp Hph Hv Hs Hd Hb Hc. unfold parses_v1 in Hph.
  assert (∃ family, h = v1_text family (peer_address metadata) (local_address metadata) ∧ length family = 4 ∧ one_line family)
    as (family & Hh & Hf & Hf').
  { unfold build_v1_header in Hb. repeat case_match; simplify_eq;
      (eexists; split; [done|]; split; [done|]); repeat (apply Forall_cons_2; [done|]); apply Forall_nil_2. }
  split.
  { rewrite Hh, v1_text_body, length_app. pose proof (v1_body_length family _ _ Hs Hd Hf).
    change (length V1_TERMINATOR) with 2. unfold V1_MAX_LENGTH. lia. }
  pose proof (read_header_bytes_recording (content stream) (padded []) (rewindable_new stream) (recording_new stream)) as Hrec.
  destruct (read_v1_body (rewindable_new stream) family (peer_address metadata) (local_address metadata) rest)
    as (s & E & Hcs); try done; [by rewrite <-Hh|].
  unfold try_read_proxy_header. change (replicate READ_BUFFER_LEN zero_byte) with (padded []).
  rewrite E in Hrec |- *. apply recording_into_stream in Hrec. cbn [fst snd] in Hrec.
  unfold apply_policy, should_reject, should_allow_transparent_passthrough, disallowed.
  rewrite bool_decide_false by done. cbn [andb]. rewrite <-Hh, Hph. unfold build_v1_header in Hb.
  exists (into_stream s). rewrite Hrec. split; [|done]. unfold extract_metadata, v1_addresses.
  destruct (peer_address metadata) as [[] ?], (local_address metadata) as [[] ?]; simpl in Hb; done.
Qed.
End roundtrip.
End spec.

Section witness.
#[local] Existing Instances pieces_read pieces_read_spec.

#[local] Instance some_ppp : PppLib := {|
  Protocol := ();
  Stream := ();
  v1_prefix := lit "PROXY";
  v2_prefix := Str.byte 13 :: Str.byte 10 :: Str.byte 13 :: Str.byte 10 :: Str.byte 0 :: Str.byte 13 :: Str.byte 10 ::
    lit "QUIT" ++ [Str.byte 10];
  Builder := str;
  with_addresses _ _ := [];
  write_tlv b _ _ := Some b;
  build b := Some b;
|}.

Definition client : SocketAddr := mk_sock (V4 3232235777) 4711.
Definition listener : SocketAddr := mk_sock (V4 3232235778) 443.

Lemma proxy_header_taken_witness :
  let config := mk_downstream true [] None in
  let stream := [lit "GET / HTTP/1.1"; lit "Host: example.com"] in
  ∃ metadata rewound,
    try_read_proxy_header config (λ _, V1Header None) stream listener client = Ok (metadata, inl rewound) ∧
    content rewound = content stream ∧ metadata = FromSocket client listener ∧
    allow_requests_without_proxy_protocol config = true.
Proof.
  intros config stream. eexists _, _. match goal with |- ?P ∧ _ => assert P as E by reflexivity end.
  split; [exact E|]. exact (proxy_header_taken config (λ _, V1Header None) stream listener client _ _ E).
Defined.

Lemma v1_roundtrip_witness :
  let metadata := FromSocket client listener in
  let h := lit "PROXY TCP4 192.168.1.1 192.168.1.2 4711 443" ++ V1_TERMINATOR in
  let parse := λ _, V1Header (Some (v1_addresses client listener)) in
  let config := mk_downstream false [Version2] None in
  (v1_prefix = lit "PROXY" ∧ parses_v1 parse metadata h ∧ Version1 ∉ disallowed_versions config ∧
   wf_port client ∧ wf_port listener ∧ build_v1_header metadata = Ok h) ∧
  length h ≤ V1_MAX_LENGTH ∧
  ∃ s, try_read_proxy_header config parse [h; lit "hello"] listener client =
         Ok (FromProxyProtocol client listener Stream ∅ client listener, inr s) ∧ content s = lit "hello".
Proof.
  intros metadata h parse config.
  assert (v1_prefix = lit "PROXY" ∧ parses_v1 parse metadata h ∧ Version1 ∉ disallowed_versions config ∧
   wf_port client ∧ wf_port listener ∧ build_v1_header metadata = Ok h) as Hyps.
  { split_and!; [done|done|set_solver|unfold wf_port; simpl; lia|unfold wf_port; simpl; lia|vm_compute; reflexivity]. }
  split; [exact Hyps|]. destruct Hyps as (Hp & Hparse & Hv & Hs & Hd & Hb).
  exact (v1_roundtrip config parse [h; lit "hello"] listener client metadata h (lit "hello") Hp Hparse Hv Hs Hd Hb eq_refl).
Defined.
End witness.
End ProxyProtocolSpec.
