(* ===== verification/Retry.v ===== *)
(** Retries: when a failed attempt is tried again
    (arion-lib/src/clusters/retry_policy.rs, with the policy of
    arion-configuration/src/config/network_filters/http_connection_manager.rs)
    and the loop that sends a request (arion-lib/src/transport/http_channel.rs). *)

From S2P Require Import Prelude Http StringMatch HeaderMatch CircuitBreaker.
Import Http HeaderMatch CircuitBreaker.

Module Retry.

(** ** Errors *)

(** [ConnectErrorKind]; messages and addresses are left out. *)
Inductive ConnectErrorKind : Type :=
  | MissingPort | Dns | Socket | BindDevice | ConnectTimeout | ConnectIo | ConnectCircuitBreaker | InternalListener.

(** [ConnectError::is_retriable]. *)
Definition connect_is_retriable (kind : ConnectErrorKind) : bool :=
  match kind with Dns | ConnectTimeout | ConnectIo | InternalListener => true | _ => false end.

Inductive UpstreamError : Type :=
  | Connect (kind : ConnectErrorKind)
  | Io
  | PerTryTimeout
  | RouteTimeout
  | Reset_
  | RefusedStream_
  | Http3PostConnectFailure_
  | Protocol
  | Other.

(** [crate::Error]: from upstream, or something else. *)
Inductive Error : Type := Upstream (e : UpstreamError) | Downstream | OtherError.

Definition as_upstream_error (e : Error) : option UpstreamError :=
  match e with Upstream e => Some e | _ => None end.

(** ** The policy *)

Inductive RetryOn : Type :=
  | Err5xx | GatewayError | Reset | ConnectFailure | EnvoyRateLimited | Retriable4xx
  | RefusedStream | RetriableStatusCodes | RetriableHeaders | Http3PostConnectFailure.

#[export] Instance RetryOn_eq_dec : EqDecision RetryOn.
Proof. solve_decision. Defined.

Definition retry_on_from_str (s : str) : option RetryOn :=
  if decide (s = lit "5xx") then Some Err5xx
  else if decide (s = lit "gateway-error") then Some GatewayError
  else if decide (s = lit "reset") then Some Reset
  else if decide (s = lit "connect-failure") then Some ConnectFailure
  else if decide (s = lit "envoy-ratelimited") then Some EnvoyRateLimited
  else if decide (s = lit "retriable-4xx") then Some Retriable4xx
  else if decide (s = lit "refused-stream") then Some RefusedStream
  else if decide (s = lit "retriable-status-codes") then Some RetriableStatusCodes
  else if decide (s = lit "retriable-headers") then Some RetriableHeaders
  else if decide (s = lit "http3-post-connect-failure") then Some Http3PostConnectFailure
  else None.

(** [http::StatusCode::is_informational] and [is_success]. *)
Definition is_informational (s : Z) : bool := ((100 <=? s) && (s <? 200))%Z.
Definition is_success (s : Z) : bool := ((200 <=? s) && (s <? 300))%Z.

Section retry.
Context `{HttpLib, RegexLib}.

(** [HeaderName::from_static]. *)
Context (from_static : str → HeaderName).

(** Durations are in nanoseconds. *)
Record RetryPolicy : Type := mk_policy {
  retry_on : list RetryOn;
  num_retries : Z;
  per_try_timeout : option Z;
  retriable_status_codes : list Z;
  base_interval : Z;
  max_interval : Z;
  retriable_headers : list HeaderMatcher;
  retriable_request_headers : list HeaderMatcher;
}.

Definition is_retriable (p : RetryPolicy) (req : Request) : bool :=
  bool_decide (retriable_request_headers p = []) ||
  existsb (λ hm, request_matches hm req) (retriable_request_headers p).

(** ** When to retry *)

Inductive RetryCondition : Type :=
  | ErrorCondition (e : UpstreamError)
  | ResponseCondition (r : Response).

Definition from_upstream_result (r : result Error Response) : option RetryCondition :=
  match r with
  | Ok resp =>
    if is_informational (status resp) || is_success (status resp) then None
    else Some (ResponseCondition resp)
  | Err err => ErrorCondition <$> as_upstream_error err
  end.

Definition inner_response (c : RetryCondition) : option Response :=
  match c with ResponseCondition r => Some r | _ => None end.

Definition is_per_try_timeout (c : RetryCondition) : bool :=
  match c with ErrorCondition PerTryTimeout => true | _ => false end.

(** [StatusCode::is_..] of the response against a range of codes. *)
Definition status_in (c : RetryCondition) (lo hi : Z) : bool :=
  match inner_response c with
  | Some resp => (lo <=? status resp)%Z && (status resp <=? hi)%Z
  | None => false
  end.

Definition rate_limited (c : RetryCondition) : bool :=
  match inner_response c with
  | Some resp =>
    contains_key (response_headers resp) (from_static (lit "x-envoy-ratelimited")) ||
    contains_key (response_headers resp) (from_static (lit "x-arion-ratelimited"))
  | None => false
  end.

(** One round of the loop over [retry_on]: it returns, or goes on. *)
Definition consider (c : RetryCondition) (p : RetryPolicy) (policy : RetryOn) : option bool :=
  let if_true b := if b : bool then Some true else None in
  match policy with
  | Err5xx => if_true (status_in c 500 599)
  | GatewayError => if_true (status_in c 502 504)
  | EnvoyRateLimited => if_true (rate_limited c)
  | Retriable4xx => if_true (status_in c 409 409)
  | RetriableStatusCodes =>
    (λ resp, existsb (Z.eqb (status resp)) (retriable_status_codes p)) <$> inner_response c
  | RetriableHeaders =>
    (λ resp, existsb (λ hm, response_matches hm resp) (retriable_headers p)) <$> inner_response c
  | Reset => if_true (match c with ErrorCondition Reset_ => true | _ => false end)
  | ConnectFailure =>
    if_true (match c with
             | ErrorCondition (Connect kind) => connect_is_retriable kind
             | ErrorCondition Io => true
             | _ => false
             end)
  | RefusedStream => if_true (match c with ErrorCondition RefusedStream_ => true | _ => false end)
  | Http3PostConnectFailure =>
    if_true (match c with ErrorCondition Http3PostConnectFailure_ => true | _ => false end)
  end.

Definition should_retry (c : RetryCondition) (p : RetryPolicy) : bool :=
  if is_per_try_timeout c then true
  else default false (find_map (consider c p) (retry_on p)).

(** ** The loop *)

Record Retries : Type := mk_retries { requests : Z; timeouts : Z }.

(** What the loop does, in order: an attempt with its result, and a pause. *)
Inductive event : Type :=
  | Sent (req : Request) (r : result Error Response)
  | Paused (d : Z).

(** Where the future waits, and so where the route timeout can drop it. *)
Inductive wait : Type := Sending (index : nat) | Pausing (index : nat).

Record Run : Type := mk_run {
  breakers : manager;
  output : Retries;
  trace : list event;
}.

(** The result of [send_with_retry], or nothing if the future was dropped. *)
Definition ending : Type := outcome (option (result Error Response) * Run).

(** [send index] is the attempt on its own: its result, nothing if the per-try
    timeout fires first, and the circuit breakers after it, which other
    requests use as well. *)
Context (send : nat → Request → manager → option (result Error Response) * manager).

(** [fast_timeout(t, send(..))], or [send(..)] without a timeout; an attempt
    that never ends counts as one that the route timeout drops. *)
Definition attempt (p : RetryPolicy) (index : nat) (req : Request) (m : manager)
    : option (result Error Response) * manager :=
  let '(r, m) := send index req m in
  (match r, per_try_timeout p with
   | Some r, _ => Some r
   | None, Some _ => Some (Err (Upstream PerTryTimeout))
   | None, None => None
   end, m).

Definition count_timeout (c : RetryCondition) (o : Retries) : Retries :=
  if is_per_try_timeout c then mk_retries (requests o) (Int.wrapping_incr 32 (timeouts o)) else o.
Definition count_request (o : Retries) : Retries :=
  mk_retries (Int.wrapping_incr 32 (requests o)) (timeouts o).

(** The permit goes out of scope wherever the function ends. *)
Definition release (m : manager) (retry_permit : option permit) : manager :=
  match retry_permit with Some p => drop_permit m p | None => m end.

Definition finish (r : option (result Error Response)) (retry_permit : option permit) (s : Run) : ending :=
  Return (r, mk_run (release (breakers s) retry_permit) (output s) (trace s)).

Definition second : Z := 1000000000.

(** [dropped] says where the route timeout fires. *)
Fixpoint retry_loop (dropped : wait → bool) (cluster : str) (prio : RoutingPriority) (p : RetryPolicy)
    (back_offs : list (option Z)) (index : nat) (parts_opt : option Request) (retry_permit : option permit)
    (last_result : option (result Error Response)) (s : Run) : ending :=
  match back_offs with
  | [] => finish (Some (default (Err (Upstream Io)) last_result)) retry_permit s
  | back_off :: back_offs =>
    let back_off := default second back_off in
    match parts_opt with
    | None => Panic
    | Some parts =>
      let parts_opt := if bool_decide (Z.of_nat index = num_retries p) then None else Some parts in
      match attempt p index parts (breakers s) with
      | (None, m) => finish None retry_permit (mk_run m (output s) (trace s))
      | (Some r, m) =>
        if dropped (Sending index) then finish None retry_permit (mk_run m (output s) (trace s))
        else
          let s := mk_run m (output s) (trace s ++ [Sent parts r]) in
          match from_upstream_result r with
          | None => finish (Some r) retry_permit s
          | Some c =>
            let s := mk_run (breakers s) (count_timeout c (output s)) (trace s) in
            if negb (should_retry c p) then finish (Some r) retry_permit s
            else
              let s := mk_run (breakers s) (count_request (output s)) (trace s) in
              if (Z.of_nat index <? num_retries p)%Z then
                let '(acquired, s) :=
                  match retry_permit with
                  | Some permit => (Ok permit, s)
                  | None =>
                    let '(acquired, m) := acquire (breakers s) cluster prio MaxRetries in
                    (acquired, mk_run m (output s) (trace s))
                  end in
                match acquired with
                | Err _ => finish (Some r) None s
                | Ok permit =>
                  if dropped (Pausing index) then finish None (Some permit) s
                  else retry_loop dropped cluster prio p back_offs (S index) parts_opt (Some permit) (Some r)
                         (mk_run (breakers s) (output s) (trace s ++ [Paused back_off]))
                end
              else retry_loop dropped cluster prio p back_offs (S index) parts_opt retry_permit (Some r) s
          end
      end
    end
  end.

(** [exponential_back_off], of the crate exponential-backoff: the pauses of
    [Backoff::new(attempts, min, max)]. *)
Context (backoff : Z → Z → Z → list (option Z)).

Definition exponential_back_off (p : RetryPolicy) : list (option Z) :=
  backoff (num_retries p) (base_interval p) (max_interval p).

(** [collected] is [body.collect()]: the loop starts with the whole body. *)
Definition send_with_retry (dropped : wait → bool) (collected : bool) (cluster : str) (prio : RoutingPriority)
    (p : RetryPolicy) (req : Request) (s : Run) : ending :=
  if collected then retry_loop dropped cluster prio p (exponential_back_off p) 0 (Some req) None None s
  else finish (Some (Err Downstream)) None s.

(** [strip] is [strip_trailers_headers], done unless the trailers are enabled.
    Without a route timeout the future is never dropped. *)
Definition send_with_policy (dropped : wait → bool) (strip : Request → Request) (collected : bool)
    (cluster : str) (prio : RoutingPriority) (timeout : option Z) (retry_policy : option RetryPolicy)
    (req : Request) (s : Run) : ending :=
  let req := strip req in
  let dropped w := bool_decide (is_Some timeout) && dropped w in
  let timed r :=
    match r, timeout with
    | None, Some _ => Some (Err (Upstream RouteTimeout))
    | r, _ => r
    end in
  match (p ← retry_policy; if is_retriable p req then Some p else None) with
  | Some p =>
    '(r, s) ← send_with_retry dropped collected cluster prio p req s;
    Return (timed r, s)
  | None =>
    let '(r, m) := send 0 req (breakers s) in
    let r := if dropped (Sending 0) then None else r in
    let seen := match r with Some r => [Sent req r] | None => [] end in
    Return (timed r, mk_run m (output s) (trace s ++ seen))
  end.

(** ** What the client gets *)

(** A response with the time left to receive its body, or one made here. *)
Inductive Reply : Type := FromUpstream (r : Response) (timeout : option Z) | Synthetic (code : Z).

(** [SyntheticHttpResponse] for an error of the upstream. *)
Definition synthetic_status (e : UpstreamError) : Z :=
  match e with
  | Connect _ | RefusedStream_ | Io => 503
  | PerTryTimeout | RouteTimeout => 504
  | Reset_ | Http3PostConnectFailure_ | Protocol => 502
  | Other => 500
  end.

Definition map_upstream_result (r : result Error Response) (elapsed : Z) (route_timeout : option Z)
    : result Error Reply :=
  match r with
  | Ok resp => Ok (FromUpstream resp ((λ dur, if elapsed <=? dur then dur - elapsed else 0)%Z <$> route_timeout))
  | Err err =>
    match as_upstream_error err with Some e => Ok (Synthetic (synthetic_status e)) | None => Err err end
  end.
End retry.
End Retry.
