(* ===== verification/RetrySpec.v ===== *)
(** Retries: what is sent, how often and with which pauses, what is returned,
    and that the retry permit is given back. *)

From S2P Require Import Prelude Http StringMatch HeaderMatch CircuitBreaker Retry.
Import Http StringMatch HeaderMatch CircuitBreaker CircuitBreakerSpec Retry.

Module RetrySpec.

Section spec.
Context `{HttpLib, RegexLib} (from_static : str → HeaderName).

Implicit Types (p : RetryPolicy) (t : list event) (r : result Error Response).

(** ** When an attempt is tried again *)

Definition tried_again p r : bool :=
  match from_upstream_result r with Some c => should_retry from_static c p | None => false end.

(** Entries of [retry_on] that settle the question for every response. *)
Definition decisive (o : RetryOn) : bool :=
  match o with RetriableStatusCodes | RetriableHeaders => true | _ => false end.

(** An entry of [retry_on] asks for a retry. *)
Definition applies (c : RetryCondition) p (o : RetryOn) : bool :=
  bool_decide (consider from_static c p o = Some true).

Lemma consider_cases c p o :
  consider from_static c p o = (if applies c p o then Some true
    else match inner_response c with Some _ => if decisive o then Some false else None | None => None end).
Proof.
  unfold applies. case_bool_decide as Ha; [done|]. destruct c as [e|r]; simpl in *.
  - destruct o; simpl in *; try done; by repeat case_match.
  - destruct o; simpl in *; try (by repeat case_match); f_equal; by apply not_true_is_false; intros E; destruct Ha; rewrite E.
Qed.

(** ** Traces *)

Definition requests_of t : list Request := omap (λ e, match e with Sent q _ => Some q | _ => None end) t.
Definition results_of t : list (result Error Response) :=
  omap (λ e, match e with Sent _ r => Some r | _ => None end) t.
Definition pauses_of t : list Z := omap (λ e, match e with Paused d => Some d | _ => None end) t.
Definition timed_out r : bool := match r with Err (Upstream PerTryTimeout) => true | _ => false end.

(** [count P l] values of [l] satisfy [P]. *)
Definition count {A} (P : A → bool) (l : list A) : Z := Z.of_nat (length (filter (λ x, P x = true) l)).

(** What a run over the pauses [bs] does and returns; [denied] if the circuit
    breaker may refuse the first retry. *)
Record retried p (q : Request) (bs : list (option Z)) (denied : Prop) (last_result : option (result Error Response))
    (answer : option (result Error Response)) t : Prop := {
  sends_same : Forall (.= q) (requests_of t);
  pauses_backoff : pauses_of t `prefix_of` (default second <$> bs);
  sends_bounded : length (results_of t) ≤ length bs;
  earlier_failed : Forall (λ r, tried_again p r = true) (removelast (results_of t));
  answers_last : ∀ a, answer = Some a →
    last (results_of t) = Some a ∨ results_of t = [] ∧ bs = [] ∧ a = default (Err (Upstream Io)) last_result;
  not_early : ∀ a, answer = Some a → tried_again p a = true → bs ≠ [] →
    length (results_of t) = length bs ∨ denied ∧ length (results_of t) = 1;
}.

Definition counted p (o o' : Retries) t : Prop :=
  requests o' = ((requests o + count (tried_again p) (results_of t)) mod 2 ^ 32)%Z ∧
  timeouts o' = ((timeouts o + count timed_out (results_of t)) mod 2 ^ 32)%Z.

Definition u32_retries (o : Retries) : Prop := Int.is_u32 (requests o) ∧ Int.is_u32 (timeouts o).

(** ** Building traces *)

Lemma removelast_cons {A} (x : A) l : l ≠ [] → removelast (x :: l) = x :: removelast l.
Proof. by destruct l. Qed.

Lemma retried_nil p q denied l : retried p q [] denied l (Some (default (Err (Upstream Io)) l)) [].
Proof. split; simpl; [constructor|apply prefix_nil|done|constructor|naive_solver|done]. Qed.

Lemma retried_dropped p q bs denied l : retried p q bs denied l None [].
Proof. split; simpl; [constructor|apply prefix_nil|lia|constructor|done|done]. Qed.

(** One attempt and nothing after it. *)
Lemma retried_one p q b bs (denied : Prop) l answer r :
  (answer = None ∨ answer = Some r ∧ (tried_again p r = true → bs = [] ∨ denied)) →
  retried p q (b :: bs) denied l answer [Sent q r].
Proof.
  intros Ha. split; simpl; [by repeat constructor|apply prefix_nil|lia|done|naive_solver|].
  intros a ->. destruct Ha as [|[[= ->] Hd]]; [done|]. intros Ht _.
  destruct (Hd Ht) as [->|]; [by left|by right].
Qed.

Lemma round_events q r d t :
  let t' := Sent q r :: Paused d :: t in
  requests_of t' = q :: requests_of t ∧ results_of t' = r :: results_of t ∧ pauses_of t' = d :: pauses_of t.
Proof. done. Qed.

Lemma retried_again p q b bs denied l answer r t :
  tried_again p r = true → retried p q bs False (Some r) answer t →
  retried p q (b :: bs) denied l answer (Sent q r :: Paused (default second b) :: t).
Proof.
  intros Hr [Hsame Hpause Hbound Hearly Hlast Hfull]. destruct (round_events q r (default second b) t) as (E1 & E2 & E3).
  split; rewrite ?E1, ?E2, ?E3.
  - by constructor.
  - by apply prefix_cons.
  - simpl. lia.
  - destruct (results_of t) eqn:Et; [constructor|]. rewrite removelast_cons by done. by constructor.
  - intros a ->. left. destruct (Hlast a eq_refl) as [Hl|(Hnil & _ & ->)]; [|by rewrite Hnil].
    destruct (results_of t); [done|]. by rewrite last_cons_cons.
  - intros a -> Hagain _. left. destruct bs as [|b' bs]; simpl in *; [lia|].
    destruct (Hfull a eq_refl Hagain) as [->|[[] _]]; [done|lia].
Qed.

Lemma count_cons {A} (P : A → bool) x l : count P (x :: l) = ((if P x then 1 else 0) + count P l)%Z.
Proof. unfold count. rewrite filter_cons. destruct (P x); simpl; lia. Qed.

(** The counters after an attempt with the result [r]. *)
Definition after_attempt p r (o : Retries) : Retries :=
  match from_upstream_result r with
  | None => o
  | Some c => let o := count_timeout c o in if should_retry from_static c p then count_request o else o
  end.

Lemma after_attempt_spec p r o :
  u32_retries o →
  requests (after_attempt p r o) = ((requests o + if tried_again p r then 1 else 0) mod 2 ^ 32)%Z ∧
  timeouts (after_attempt p r o) = ((timeouts o + if timed_out r then 1 else 0) mod 2 ^ 32)%Z ∧
  u32_retries (after_attempt p r o).
Proof.
  intros [Hr Ht]. unfold after_attempt, tried_again, Int.is_u32, Int.u32_max in *.
  assert (∀ c, from_upstream_result r = Some c → timed_out r = is_per_try_timeout c) as Hc.
  { intros c. destruct r as [resp|[e| |]]; simpl; intros E; simplify_eq; [|by destruct e].
    by case_match; simplify_eq. }
  assert (from_upstream_result r = None → timed_out r = false) as Hn by (by destruct r as [|[[]| |]]).
  assert (∀ x, 0 <= x mod 2 ^ 32 <= 2 ^ 32 - 1)%Z as Hmod by (intros x; pose proof (Z.mod_pos_bound x (2 ^ 32)); lia).
  unfold u32_retries, Int.is_u32, Int.u32_max. destruct (from_upstream_result r) as [c|].
  - rewrite (Hc c) by done. unfold count_timeout. cbv zeta.
    destruct (is_per_try_timeout c), (should_retry from_static c p); simpl; unfold Int.wrapping_incr;
      rewrite ?Z.add_0_r, ?(Z.mod_small (requests o)), ?(Z.mod_small (timeouts o)) by lia; auto.
  - rewrite Hn by done. rewrite !Z.add_0_r, !Z.mod_small by lia. auto.
Qed.

Lemma counted_nil p o : u32_retries o → counted p o o [].
Proof.
  intros [Hr Ht]. unfold Int.is_u32, Int.u32_max in *. unfold counted, count; simpl.
  rewrite !Z.mod_small by lia. lia.
Qed.

Lemma counted_cons p q r o o' t :
  u32_retries o → counted p (after_attempt p r o) o' t → counted p o o' (Sent q r :: t).
Proof.
  intros Hu [H1 H2]. destruct (after_attempt_spec p r o Hu) as (Hr & Ht & _).
  unfold counted. change (results_of (Sent q r :: t)) with (r :: results_of t).
  by rewrite !count_cons, H1, H2, Hr, Ht, !Zplus_mod_idemp_l, !Z.add_assoc.
Qed.

Lemma counted_one p q r o : u32_retries o → counted p o (after_attempt p r o) [Sent q r].
Proof. intros Hu. by apply counted_cons, counted_nil, after_attempt_spec. Qed.

(** ** The loop *)

Section loop.
Context (send : nat → Request → manager → option (result Error Response) * manager).
Context (dropped : wait → bool) (cluster : str) (prio : RoutingPriority) (p : RetryPolicy) (q : Request).

Local Abbreviation loop := (retry_loop from_static send dropped cluster prio p).

(** One round of the loop. *)
Lemma retry_loop_cons b bs index retry_permit l s :
  loop (b :: bs) index (Some q) retry_permit l s =
  let parts := if bool_decide (Z.of_nat index = num_retries p) then None else Some q in
  match attempt send p index q (breakers s) with
  | (None, m) => finish None retry_permit (mk_run m (output s) (trace s))
  | (Some r, m) =>
    if dropped (Sending index) then finish None retry_permit (mk_run m (output s) (trace s))
    else
      let o := after_attempt p r (output s) in
      let t := trace s ++ [Sent q r] in
      if negb (tried_again p r) then finish (Some r) retry_permit (mk_run m o t)
      else if (Z.of_nat index <? num_retries p)%Z then
        match (match retry_permit with
               | Some permit => (Ok permit, m)
               | None => acquire m cluster prio MaxRetries
               end) with
        | (Err _, m) => finish (Some r) None (mk_run m o t)
        | (Ok permit, m) =>
          if dropped (Pausing index) then finish None (Some permit) (mk_run m o t)
          else loop bs (S index) parts (Some permit) (Some r) (mk_run m o (t ++ [Paused (default second b)]))
        end
      else loop bs (S index) parts retry_permit (Some r) (mk_run m o t)
  end.
Proof.
  cbn [retry_loop]. destruct (attempt send p index q (breakers s)) as [[r|] m]; [|done].
  destruct (dropped (Sending index)); [done|]. cbv zeta. unfold after_attempt, tried_again. cbn [breakers output trace].
  destruct (from_upstream_result r) as [c|]; [|done]. destruct (should_retry from_static c p); [|done]. cbn [negb].
  destruct (_ <? _)%Z; [|done]. destruct retry_permit as [permit|]; [done|].
  by destruct (acquire m cluster prio MaxRetries) as [[] ?].
Qed.

Definition runs_to (bs : list (option Z)) (denied : Prop) l (s : Run) (e : ending) : Prop :=
  ∃ answer s' t, e = Return (answer, s') ∧ trace s' = trace s ++ t ∧ retried p q bs denied l answer t ∧
    counted p (output s) (output s') t.

Lemma runs_to_nothing bs denied l s m retry_permit :
  u32_retries (output s) →
  runs_to bs denied l s (finish None retry_permit (mk_run m (output s) (trace s))).
Proof.
  intros Hu. eexists _, _, []. rewrite app_nil_r. auto using retried_dropped, counted_nil.
Qed.

Lemma runs_to_one b bs (denied : Prop) l s m r retry_permit answer :
  u32_retries (output s) →
  (answer = None ∨ answer = Some r ∧ (tried_again p r = true → bs = [] ∨ denied)) →
  runs_to (b :: bs) denied l s
    (finish answer retry_permit (mk_run m (after_attempt p r (output s)) (trace s ++ [Sent q r]))).
Proof. intros Hu Ha. eexists _, _, [Sent q r]. split_and!; [done..|by apply retried_one|by apply counted_one]. Qed.

Lemma retry_loop_runs bs index parts retry_permit l s :
  (Z.of_nat (index + length bs) <= num_retries p + 1)%Z →
  ((Z.of_nat index <= num_retries p)%Z → parts = Some q) →
  u32_retries (output s) →
  runs_to bs (retry_permit = None) l s (loop bs index parts retry_permit l s).
Proof.
  revert index parts retry_permit l s. induction bs as [|b bs IH]; intros index parts retry_permit l s Hlen Hparts Hu.
  { eexists _, _, []. split; [done|]. rewrite app_nil_r. auto using retried_nil, counted_nil. }
  cbn [length] in Hlen. rewrite Hparts by lia. rewrite retry_loop_cons. cbv zeta.
  destruct (attempt send p index q (breakers s)) as [[r|] m]; [|by apply runs_to_nothing].
  destruct (dropped (Sending index)); [by apply runs_to_nothing|].
  destruct (tried_again p r) eqn:Hr; cbn [negb]; [|apply runs_to_one; [done|right; split; congruence]].
  destruct (Z.ltb_spec (Z.of_nat index) (num_retries p)) as [Hlt|Hge].
  - rewrite bool_decide_false by lia.
    destruct (match retry_permit with Some _ => _ | None => _ end) as [[permit|e] m'] eqn:Hacq.
    + destruct (dropped (Pausing index)); [apply runs_to_one; auto|].
      destruct (IH (S index) (Some q) (Some permit) (Some r)
        (mk_run m' (after_attempt p r (output s)) (trace s ++ [Sent q r] ++ [Paused (default second b)])))
        as (answer & s' & t & E & Ht & Hret & Hcnt); [lia|done|by apply after_attempt_spec|].
      exists answer, s', ([Sent q r; Paused (default second b)] ++ t). rewrite <-E, Ht. simpl trace. rewrite <-!app_assoc. split_and!.
      * done.
      * done.
      * apply retried_again; [done|]. destruct Hret; split; try done. naive_solver.
      * by apply counted_cons.
    + destruct retry_permit; [done|]. apply runs_to_one; auto.
  - assert (bs = []) as -> by (destruct bs; [done|simpl in *; lia]).
    apply runs_to_one; auto.
Qed.

(** ** The permit *)

(** During an attempt other requests take and give back permits of the
    cluster; the ones they do not hold stay. *)
Definition others_balanced : Prop := ∀ i m mine others cb,
  balanced cluster (m, mine ++ others) cb →
  ∃ others' cb', balanced cluster ((send i q m).2, mine ++ others') cb'.

Definition our_permit : permit := mk_permit cluster prio MaxRetries.

(** The counters of the breaker are the permits of others and ours. *)
Definition balanced_with (retry_permit : option permit) (m : manager) : Prop :=
  (retry_permit = None ∨ retry_permit = Some our_permit) ∧
  ∃ others cb, balanced cluster (m, option_list retry_permit ++ others) cb.

Definition ends_balanced (e : ending) : Prop :=
  ∀ answer s', e = Return (answer, s') → ∃ others cb, balanced cluster (breakers s', others) cb.

Lemma finish_balanced answer retry_permit s :
  balanced_with retry_permit (breakers s) → ends_balanced (finish answer retry_permit s).
Proof.
  intros [Hp (others & cb & Hb)] ? s' [= _ <-]. cbn [breakers]. destruct Hp as [->| ->].
  - by exists others, cb.
  - exists others, cb. exact (release_balanced cluster _ (our_permit :: others) cb 0 our_permit Hb eq_refl).
Qed.

Lemma attempt_balanced index retry_permit m answer m' :
  others_balanced → balanced_with retry_permit m → attempt send p index q m = (answer, m') →
  balanced_with retry_permit m'.
Proof.
  intros Ho [Hp (others & cb & Hb)] Ha. split; [done|]. unfold attempt in Ha.
  destruct (Ho index m _ _ _ Hb) as (others' & cb' & Hb'). exists others', cb'.
  by destruct (send index q m); simplify_eq.
Qed.

Lemma acquire_permit retry_permit m acquired m' :
  balanced_with retry_permit m →
  match retry_permit with Some x => (Ok x, m) | None => acquire m cluster prio MaxRetries end = (acquired, m') →
  balanced_with (result_ok acquired) m'.
Proof.
  intros [Hp (others & cb & Hb)] Hacq. destruct Hp as [->| ->]; simplify_eq; simpl; [|split; eauto].
  pose proof (acquire_balanced cluster m others cb prio MaxRetries Hb) as Ha.
  case_match; destruct Ha as (m1 & E & Hb'); rewrite E in Hacq; simplify_eq; simpl.
  - split; [by right|]. exists others, cb. exact Hb'.
  - split; [by left|]. by exists others, cb.
Qed.

Lemma retry_loop_balanced bs index parts retry_permit l s :
  others_balanced → (parts = None ∨ parts = Some q) → balanced_with retry_permit (breakers s) →
  ends_balanced (loop bs index parts retry_permit l s).
Proof.
  intros Ho. revert index parts retry_permit l s.
  induction bs as [|b bs IH]; intros index parts retry_permit l s Hparts Hb; [by apply finish_balanced|].
  destruct Hparts as [->| ->]; [done|]. rewrite retry_loop_cons. cbv zeta.
  destruct (attempt send p index q (breakers s)) as [r m] eqn:Ha.
  apply (attempt_balanced _ retry_permit) in Ha; [|done..].
  destruct r as [r|]; [|by apply finish_balanced]. destruct (dropped (Sending index)); [by apply finish_balanced|].
  destruct (negb _); [by apply finish_balanced|].
  assert (∀ P : bool, (if P then None else Some q) = None ∨ (if P then None else Some q) = Some q) as Hif
    by (intros []; auto).
  destruct (_ <? _)%Z; [|by apply IH].
  destruct (match retry_permit with Some _ => _ | None => _ end) as [acquired m'] eqn:Hacq.
  apply acquire_permit in Hacq; [|done]. destruct acquired as [permit|e]; [|by apply finish_balanced].
  destruct (dropped (Pausing index)); [by apply finish_balanced|by apply IH].
Qed.
End loop.

(** ** Sending a request *)

Section claims.
Context (send : nat → Request → manager → option (result Error Response) * manager).
Context (dropped : wait → bool) (backoff : Z → Z → Z → list (option Z)).

(** The crate never has more pauses than retries and one. *)
Definition backoff_bounded : Prop :=
  ∀ n lo hi, (0 <= n)%Z → (Z.of_nat (length (backoff n lo hi)) <= n + 1)%Z.

(** The answer once the route timeout is taken into account. *)
Definition route_timed (timeout : option Z) (answer : option (result Error Response)) : option (result Error Response) :=
  match answer, timeout with None, Some _ => Some (Err (Upstream RouteTimeout)) | a, _ => a end.

Context (strip : Request → Request) (cluster : str) (prio : RoutingPriority).


(** However a request with a retry policy ends, answered, refused by the
    circuit breaker or cut off by the route timeout while it sends or pauses,
    its retry permit is given back: if the counters of the cluster's breaker
    were the permits that others hold, they are so again afterwards. *)
Theorem retry_permit_returned p collected timeout req s others cb answer s' :
  others_balanced send cluster (strip req) → balanced cluster (breakers s, others) cb →
  is_retriable p (strip req) = true →
  send_with_policy from_static send backoff dropped strip collected cluster prio timeout (Some p) req s =
    Return (answer, s') →
  ∃ others' cb', balanced cluster (breakers s', others') cb'.
Proof.
  intros Ho Hb Hp. unfold send_with_policy, send_with_retry. cbn [mbind option_bind]. rewrite Hp.
  set (d := λ w, bool_decide (is_Some timeout) && dropped w). intros E.
  assert (balanced_with cluster prio None (breakers s)) as Hw by (split; [by left|by exists others, cb]).
  destruct collected; [|simpl in E; simplify_eq; by exists others, cb].
  pose proof (retry_loop_balanced send d cluster prio p (strip req) (exponential_back_off backoff p) 0
    (Some (strip req)) None None s Ho (or_intror eq_refl) Hw) as He.
  destruct (retry_loop _ _ d _ _ _ _ _ _ _ _ _) as [[a s1]|]; [|done]. simpl in E. simplify_eq. by apply (He a s').
Qed.
End claims.
End spec.

Section witness.
#[local] Existing Instances assoc_http no_regex.

(** The first attempt gets a 503, the second one a 200. *)
Definition flaky (i : nat) (q : Request) (m : manager) : option (result Error Response) * manager :=
  (Some (Ok (mk_response (if decide (i = 0) then 503%Z else 200%Z) [])), m).

Definition constant_backoff (n _ _ : Z) : list (option Z) := replicate (Z.to_nat n) (Some second) ++ [None].

Definition on_5xx : RetryPolicy := mk_policy [Err5xx] 2 None [] second second [] [].

Definition get_root : Request := mk_request (lit "GET") (mk_uri None None (Some (mk_pq (lit "/") None))) [].


Lemma retry_permit_returned_witness :
  ∃ cb, let m := add_cluster (mk_manager ∅ 0 ∅) (lit "c") (Some []) in
  balanced (lit "c") (m, []) cb ∧
  ∃ answer s',
    send_with_policy id flaky constant_backoff (λ _, false) id true (lit "c") Default None (Some on_5xx) get_root
      (mk_run m (mk_retries 0 0) []) = Return (answer, s') ∧
    ∃ others' cb', balanced (lit "c") (breakers s', others') cb'.
Proof.
  destruct (add_cluster_balanced (lit "c") (mk_manager ∅ 0 ∅) []) as [cb Hb]; [done|constructor|].
  exists cb. split; [exact Hb|].
  match goal with |- ∃ a s', ?run = _ ∧ _ => destruct run as [[answer s']|] eqn:E end.
  - exists answer, s'. split; [done|].
    apply (retry_permit_returned (H := assoc_http) id flaky (λ _, false) constant_backoff id (lit "c") Default on_5xx true None get_root
      (mk_run (add_cluster (mk_manager ∅ 0 ∅) (lit "c") (Some [])) (mk_retries 0 0) []) [] cb answer s').
    + intros i m mine others cb' Hm. by exists others, cb'.
    + exact Hb.
    + reflexivity.
    + exact E.
  - vm_compute in E. discriminate E.
Defined.
End witness.
End RetrySpec.
