(* ===== verification/TraceInfo.v ===== *)
(** Trace contexts in request headers: the four formats and their reading and
    writing (arion-tracing/src/trace_info.rs). *)

From S2P Require Import Prelude RustStr Http Fmt.
Import Http.
Local Open Scope Z_scope.

Module TraceInfo.

Definition u64_max : Z := 2 ^ 64 - 1.
Definition u128_max : Z := 2 ^ 128 - 1.

Inductive TraceError : Type :=
  | InvalidFormat | InvalidHeaderValueError | MissingSpanId | MissingTraceId.

Inductive TraceProvider : Type := W3CTraceContext | B3 | B3Multi | Uber.

#[export] Instance TraceProvider_eq_dec : EqDecision TraceProvider.
Proof. solve_decision. Defined.

Record TraceInfo : Type := mk_trace_info {
  trace_id : Z;
  span_id : option Z;
  parent_id : option Z;
  provider : TraceProvider;
  sampled : bool;
}.

(** The crate traceparent: [parse] gives the trace id, the span id and the
    sampled flag of a header's text. *)
Class TraceparentLib : Type := { traceparent_parse : str → option (Z * Z * bool) }.

(** ** Text *)

Definition dash : Ascii.ascii := Str.byte 45.
Definition hex32 (n : Z) : str := Fmt.fmt_padded 32 16 n.
Definition hex16 (n : Z) : str := Fmt.fmt_padded 16 16 n.
Definition flag (b : bool) : str := if b then lit "1" else lit "0".

(** [Display]: the pieces [write!] writes one after the other. *)
Definition fmt (t : TraceInfo) : list str :=
  match provider t with
  | W3CTraceContext =>
    [lit "00-"; hex32 (trace_id t); lit "-"; hex16 (default 0 (span_id t)); lit "-";
     if sampled t then lit "01" else lit "00"]
  | B3 | B3Multi =>
    match parent_id t with
    | Some _ =>
      [hex32 (trace_id t); lit "-"; hex16 (default 0 (span_id t)); lit "-"; flag (sampled t); lit "-";
       hex16 (default 0 (parent_id t))]
    | None => [hex32 (trace_id t); lit "-"; hex16 (default 0 (span_id t)); lit "-"; flag (sampled t)]
    end
  | Uber =>
    [hex32 (trace_id t); lit ":"; hex16 (default 0 (span_id t)); lit ":"; hex16 (default 0 (parent_id t));
     lit ":"; flag (sampled t)]
  end.

(** What a buffer of [len] bytes holds after writing the pieces: the first
    that does not fit ends the writing, and the error is ignored. *)
Fixpoint array_string (len : nat) (pieces : list str) : str :=
  match pieces with
  | [] => []
  | p :: ps => if decide (length p <= len)%nat then p ++ array_string (len - length p) ps else []
  end.

Definition into_child (new_span_id : Z) (t : TraceInfo) : TraceInfo :=
  mk_trace_info (trace_id t) (Some new_span_id) (span_id t) (provider t) (sampled t).

(** [TraceInfo::new]; [fresh] is the random id drawn when none is given. *)
Definition new (sampled : bool) (provider : TraceProvider) (trace_id : option Z) (fresh : Z) : TraceInfo :=
  mk_trace_info (default fresh trace_id) None None provider sampled.

Section headers.
Context `{HttpLib, TraceparentLib}.

Definition TRACEPARENT : HeaderName := name_from_static (lit "traceparent").
Definition TRACESTATE : HeaderName := name_from_static (lit "tracestate").
Definition UBER_TRACE_ID : HeaderName := name_from_static (lit "uber-trace-id").
Definition B3_HEADER : HeaderName := name_from_static (lit "b3").
Definition X_B3_TRACEID : HeaderName := name_from_static (lit "x-b3-traceid").
Definition X_B3_SPANID : HeaderName := name_from_static (lit "x-b3-spanid").
Definition X_B3_PARENTSPANID : HeaderName := name_from_static (lit "x-b3-parentspanid").
Definition X_B3_SAMPLED : HeaderName := name_from_static (lit "x-b3-sampled").
Definition X_B3_FLAGS : HeaderName := name_from_static (lit "x-b3-flags").
Definition X_ENVOY_FORCE_TRACE : HeaderName := name_from_static (lit "x-envoy-force-trace").

(** ** Reading *)

(** [from_str_radix(_, 16)] with its error mapped. *)
Definition parse_hex (max : Z) (s : str) : result TraceError Z :=
  match Fmt.from_str_radix 16 max s with Some n => Ok n | None => Err InvalidFormat end.

Definition parse_w3c (value : str) : result TraceError (option TraceInfo) :=
  match traceparent_parse value with
  | Some (trace_id, parent_id, sampled) =>
    Ok (Some (mk_trace_info trace_id (Some parent_id) None W3CTraceContext sampled))
  | None => Err InvalidFormat
  end.

Definition parse_flag (s : str) : result TraceError bool :=
  if decide (s = lit "1") then Ok true else if decide (s = lit "0") then Ok false else Err InvalidFormat.

Definition parse_uber (value : str) : result TraceError (option TraceInfo) :=
  match Str.split_char value Str.colon with
  | [part0; part1; part2; part3] =>
    trace_id ← parse_hex u128_max part0;
    span_id ← parse_hex u64_max part1;
    parent_id ← parse_hex u64_max part2;
    sampled ← parse_flag part3;
    Ok (Some (mk_trace_info trace_id (Some span_id) (Some parent_id) Uber sampled))
  | _ => Err InvalidFormat
  end.

Definition parse_b3_flag (s : str) : result TraceError bool :=
  if decide (s = lit "1" ∨ s = lit "d") then Ok true else if decide (s = lit "0") then Ok false else Err InvalidFormat.

Definition parse_b3 (value : str) : result TraceError (option TraceInfo) :=
  match Str.split_char value dash with
  | [part0] =>
    if decide (part0 = lit "0" ∨ part0 = lit "1" ∨ part0 = lit "d") then Ok None else Err InvalidFormat
  | part0 :: part1 :: rest =>
    if decide (length rest <= 2)%nat then
      trace_id ← parse_hex u128_max part0;
      span_id ← parse_hex u64_max part1;
      sampled ← match rest with part2 :: _ => parse_b3_flag part2 | [] => Ok true end;
      parent_id ← match rest with
                  | [_; part3] => p ← parse_hex u64_max part3; Ok (Some p)
                  | _ => Ok None
                  end;
      Ok (Some (mk_trace_info trace_id (Some span_id) parent_id B3 sampled))
    else Err InvalidFormat
  | [] => Err InvalidFormat
  end.

(** The text of a header value as hexadecimal. *)
Definition parse_hex_value (max : Z) (v : HeaderValue) : result TraceError Z :=
  match to_str v with Some s => parse_hex max s | None => Err InvalidFormat end.

Definition has_debug (headers : HeaderMap) : bool :=
  let v := match header_get headers X_ENVOY_FORCE_TRACE with
           | Some v => Some v
           | None => header_get headers X_B3_FLAGS
           end in
  bool_decide ((v ≫= to_str) = Some (lit "1")).

Definition parse_b3_multi (headers : HeaderMap) : result TraceError (option TraceInfo) :=
  match header_get headers X_B3_TRACEID, header_get headers X_B3_SPANID with
  | Some trace_id, Some span_id =>
    trace_id ← parse_hex_value u128_max trace_id;
    span_id ← parse_hex_value u64_max span_id;
    parent_id ← match header_get headers X_B3_PARENTSPANID with
                | Some v => p ← parse_hex_value u64_max v; Ok (Some p)
                | None => Ok None
                end;
    sampled ← (if has_debug headers then Ok true
               else match header_get headers X_B3_SAMPLED ≫= to_str with
                    | Some s => parse_flag s
                    | None => Ok true
                    end);
    Ok (Some (mk_trace_info trace_id (Some span_id) parent_id B3Multi sampled))
  | Some _, None => Err MissingSpanId
  | None, Some _ => Err MissingTraceId
  | None, None => Ok None
  end.

Definition extract_from (headers : HeaderMap) : result TraceError (option TraceInfo) :=
  match header_get headers TRACEPARENT ≫= to_str with
  | Some value => parse_w3c value
  | None =>
    match header_get headers UBER_TRACE_ID ≫= to_str with
    | Some value => parse_uber value
    | None =>
      match header_get headers B3_HEADER ≫= to_str with
      | Some value => parse_b3 value
      | None => parse_b3_multi headers
      end
    end
  end.

(** ** Writing

    The header map is changed in place: an error leaves the changes made
    before it. *)
Definition edit : Type := HeaderMap → result TraceError unit * HeaderMap.

(** The operator [?] between two changes. *)
Definition and_then (f g : edit) : edit := λ headers,
  match f headers with
  | (Ok _, headers) => g headers
  | (Err e, headers) => (Err e, headers)
  end.

Definition unchanged : edit := λ headers, (Ok (), headers).

Definition insert_header (name : HeaderName) (len : nat) (pieces : list str) : edit := λ headers,
  match value_from_str (array_string len pieces) with
  | Some v => (Ok (), header_insert headers name v)
  | None => (Err InvalidHeaderValueError, headers)
  end.

Definition update_headers_with_tracestate (t : TraceInfo) (tracestate : option HeaderValue) : edit :=
  match provider t with
  | Uber => insert_header UBER_TRACE_ID 80 (fmt t)
  | W3CTraceContext =>
    and_then (insert_header TRACEPARENT 80 (fmt t))
      match tracestate with
      | Some v => λ headers, (Ok (), header_insert headers TRACESTATE v)
      | None => unchanged
      end
  | B3 => insert_header B3_HEADER 80 (fmt t)
  | B3Multi =>
    and_then (insert_header X_B3_SAMPLED 1 [flag (sampled t)])
    (and_then (insert_header X_B3_TRACEID 32 [hex32 (trace_id t)])
    (and_then (if decide (is_Some (span_id t))
               then insert_header X_B3_SPANID 16 [hex16 (default 0 (span_id t))] else unchanged)
              (if decide (is_Some (parent_id t))
               then insert_header X_B3_PARENTSPANID 16 [hex16 (default 0 (parent_id t))] else unchanged)))
  end.

Definition update_headers (t : TraceInfo) : edit := update_headers_with_tracestate t None.
End headers.
End TraceInfo.
