(* ===== verification/Tracing.v ===== *)
(** Request ids, trace contexts and the tracer, and what the connection manager
    does with them before a request is handled (arion-tracing/src/request_id.rs,
    trace_context.rs and http_tracer.rs, and the start of handle_request in
    arion-lib/src/listeners/http_connection_manager.rs). *)

From S2P Require Import Prelude RustStr Http TraceInfo.
Import Http TraceInfo.
Local Open Scope Z_scope.

Module Tracing.

(** The crates uuid and opentelemetry: [Uuid::parse_str] with [as_u128], and
    whether [TraceState::from_str] accepts a text. *)
Class TracingLib : Type := {
  uuid_parse : str → option Z;
  tracestate_valid : str → bool;
}.

Section tracing.
Context `{HttpLib, TraceparentLib, TracingLib}.

Definition X_REQUEST_ID : HeaderName := name_from_static (lit "x-request-id").
Definition X_CLIENT_TRACE_ID : HeaderName := name_from_static (lit "x-client-trace-id").

Definition set_headers (r : Request) (h : HeaderMap) : Request := mk_request (method r) (uri r) h.

(** ** Request ids *)

Record RequestIdManager : Type := mk_request_id_manager {
  generate_request_id : bool;
  preserve_external_request_id : bool;
  always_set_request_id_in_response : bool;
}.

Inductive RequestId : Type := Propagate (id : HeaderValue) | Internal (id : HeaderValue).

Definition to_value (r : RequestId) : HeaderValue := match r with Propagate id | Internal id => id end.

Definition propagate_ref (r : RequestId) : option HeaderValue :=
  match r with Propagate id => Some id | Internal _ => None end.

Definition internal_ref (r : RequestId) : option HeaderValue :=
  match r with Internal id => Some id | Propagate _ => None end.

Definition from_request (r : Request) : option RequestId :=
  value ← header_get (headers r) X_REQUEST_ID;
  if value_is_empty value then None else Some (Propagate value).

(** [new_id] is the text of the identifier drawn by [Uuid::new_v4]. *)
Definition generate_new_id (new_id : str) : HeaderValue :=
  match value_from_str new_id with Some v => v | None => value_from_static (lit "unknown-request-id") end.

(** [tracing] tells whether the crate is built with its feature of that name. *)
Definition apply_policy (tracing : bool) (m : RequestIdManager) (req : Request) (access_log_enabled : bool)
    (incoming_request_id : option RequestId) (is_internal : bool) (new_id : str) : Request * option RequestId :=
  let trusted := is_internal || preserve_external_request_id m in
  let '(authoritative_id, is_generated) :=
    match incoming_request_id, trusted with
    | Some id, true => (Some (to_value id), false)
    | _, _ =>
      if generate_request_id m then (Some (generate_new_id new_id), true)
      else if tracing then (Some (generate_new_id new_id), true)
      else if access_log_enabled then (Some (generate_new_id new_id), false)
      else (None, false)
    end in
  let should_propagate_header :=
    bool_decide (is_Some incoming_request_id) && trusted || generate_request_id m in
  let req :=
    if should_propagate_header then
      match is_generated, authoritative_id with
      | true, Some authoritative_id => set_headers req (header_insert (headers req) X_REQUEST_ID authoritative_id)
      | _, _ => req
      end
    else if decide (is_Some incoming_request_id) then set_headers req (header_remove (headers req) X_REQUEST_ID)
    else req in
  (req, (if should_propagate_header then Propagate else Internal) <$> authoritative_id).

Definition apply_to (m : RequestIdManager) (resp : Response) (req_id : option HeaderValue) : Response :=
  if always_set_request_id_in_response m then
    match req_id with
    | Some id => mk_response (status resp) (header_insert (response_headers resp) X_REQUEST_ID id)
    | None => resp
    end
  else resp.

(** ** Trace contexts *)

Inductive TraceParent : Type := Full (t : TraceInfo) | TraceId (trace_id : option Z).

Record TraceContext : Type := mk_trace_context {
  context_parent : TraceParent;
  child : option TraceInfo;
  request_id : option RequestId;
  client_trace_id : option HeaderValue;
  tracestate : option HeaderValue;
  should_sample : bool;
}.

Definition new_context (trace_id : option Z) : TraceContext :=
  mk_trace_context (TraceId trace_id) None None None None false.

Definition with_parent (c : TraceContext) (parent : TraceInfo) : TraceContext :=
  mk_trace_context (Full parent) (child c) (request_id c) (client_trace_id c) (tracestate c) (sampled parent).

Definition with_child (c : TraceContext) (child : TraceInfo) : TraceContext :=
  mk_trace_context (context_parent c) (Some child) (request_id c) (client_trace_id c) (tracestate c) (sampled child).

Definition with_request_id (c : TraceContext) (request_id : option RequestId) : TraceContext :=
  mk_trace_context (context_parent c) (child c) request_id (client_trace_id c) (tracestate c) (should_sample c).

Definition with_client_trace_id (c : TraceContext) (client_trace_id : option HeaderValue) : TraceContext :=
  mk_trace_context (context_parent c) (child c) (request_id c) client_trace_id (tracestate c) (should_sample c).

Definition with_tracestate (c : TraceContext) (tracestate : option HeaderValue) : TraceContext :=
  mk_trace_context (context_parent c) (child c) (request_id c) (client_trace_id c) tracestate (should_sample c).

Definition with_should_sample (c : TraceContext) (should_sample : bool) : TraceContext :=
  mk_trace_context (context_parent c) (child c) (request_id c) (client_trace_id c) (tracestate c) should_sample.

Definition parent (c : TraceContext) : option TraceInfo :=
  match context_parent c with Full trace_info => Some trace_info | TraceId _ => None end.

Definition is_root_node (c : TraceContext) : bool :=
  match context_parent c with TraceId _ => true | Full _ => false end.

(** [fresh] and [new_span_id] are the identifiers drawn. *)
Definition spawn_child (fresh new_span_id : Z) (c : TraceContext) : TraceContext :=
  let child := match context_parent c with
               | Full trace_info => into_child new_span_id trace_info
               | TraceId trace_id => into_child new_span_id (new true W3CTraceContext trace_id fresh)
               end in
  mk_trace_context (context_parent c) (Some child) (request_id c) (client_trace_id c) (tracestate c) (should_sample c).

(** ** The tracer *)

Record TracingConfig : Type := mk_tracing_config {
  client_sampling : option Z;
  random_sampling : option Z;
  overall_sampling : option Z;
  spawn_upstream_span : bool;
}.

(** The numbers drawn while a request is handled: below 100 for the two
    sampling decisions, and the identifiers. *)
Record Draws : Type := mk_draws {
  first_draw : Z;
  second_draw : Z;
  fresh_trace_id : Z;
  fresh_span_id : Z;
  fresh_request_id : str;
}.

Definition sample (sampling : option Z) (random_value : Z) : bool :=
  match sampling with None => true | Some s => random_value <? s end.

(** [FromHeaderValue for u128]. *)
Definition u128_from (v : HeaderValue) : option Z := to_str v ≫= uuid_parse.

Definition try_build_trace_context (tracing : option TracingConfig) (d : Draws) (req : Request)
    (request_id : option RequestId) : option TraceContext :=
  tracing ← tracing;
  let headers := headers req in
  let x_client_trace_id := header_get headers X_CLIENT_TRACE_ID in
  let forced := contains_key headers X_ENVOY_FORCE_TRACE in
  let dont_trace := with_request_id (with_client_trace_id (new_context None) x_client_trace_id) request_id in
  let trace trace_id :=
    with_client_trace_id (with_should_sample (with_request_id (new_context (Some trace_id)) request_id) true)
      x_client_trace_id in
  match extract_from headers with
  | Ok (Some parent_trace_id) =>
    let tracestate :=
      if decide (provider parent_trace_id = W3CTraceContext) then
        match header_get headers TRACESTATE with
        | Some value => if match to_str value with Some s => tracestate_valid s | None => false end
                        then Some value else None
        | None => None
        end
      else None in
    Some (with_tracestate (with_client_trace_id (with_request_id (with_parent (new_context None) parent_trace_id)
      request_id) x_client_trace_id) tracestate)
  | _ =>
    match x_client_trace_id ≫= u128_from with
    | Some trace_id =>
      if forced || sample (client_sampling tracing) (first_draw d) && sample (overall_sampling tracing) (second_draw d)
      then Some (trace trace_id) else Some dont_trace
    | None =>
      match request_id ≫= λ id, u128_from (to_value id) with
      | Some trace_id =>
        if forced || sample (random_sampling tracing) (first_draw d) && sample (overall_sampling tracing) (second_draw d)
        then Some (trace trace_id) else Some dont_trace
      | None =>
        if forced then
          Some (with_client_trace_id (with_should_sample (with_request_id (with_child (new_context None)
            (new true W3CTraceContext None (fresh_trace_id d))) request_id) true) x_client_trace_id)
        else Some dont_trace
      end
    end
  end.

(** The result of [update_headers_with_tracestate] is not looked at. *)
Definition update_tracing_headers (context : TraceContext) (request : Request) : Request :=
  match child context with
  | Some child =>
    set_headers request (snd (update_headers_with_tracestate child (tracestate context) (headers request)))
  | None => request
  end.

Inductive SpanKind : Type := Server | Client.

(** What [try_create_span] does to the context; the span it returns is the
    crate opentelemetry's. *)
Definition try_create_span (tracing : option TracingConfig) (d : Draws) (span_kind : SpanKind) (c : TraceContext) :
    TraceContext :=
  match tracing with
  | None => c
  | Some tracing_conf =>
    match span_kind with
    | Server =>
      if should_sample c || bool_decide (is_Some (parent c)) then spawn_child (fresh_trace_id d) (fresh_span_id d) c
      else c
    | Client =>
      if should_sample c && spawn_upstream_span tracing_conf then spawn_child (fresh_trace_id d) (fresh_span_id d) c
      else c
    end
  end.

(** ** The start of [handle_request] *)

Definition begin_request (features_tracing access_log_enabled : bool) (m : RequestIdManager)
    (tracing : option TracingConfig) (d : Draws) (is_internal : bool) (incoming_request : Request) :
    Request * option RequestId :=
  let incoming_request_id := from_request incoming_request in
  let '(request, request_id) := apply_policy features_tracing m incoming_request access_log_enabled
    incoming_request_id is_internal (fresh_request_id d) in
  let incoming_or_new := match incoming_request_id with Some id => Some id | None => request_id end in
  match try_build_trace_context tracing d request incoming_or_new with
  | Some context => (update_tracing_headers (try_create_span tracing d Server context) request, request_id)
  | None => (request, request_id)
  end.
End tracing.
End Tracing.
