(* ===== verification/TracingSpec.v ===== *)
(** Tracing: the trace of a request goes on upstream whatever format it came in,
    and the request id that is recorded is the one that is forwarded. *)

From S2P Require Import Prelude RustStr Http Fmt TraceInfo Tracing.
Import Http TraceInfo Tracing.
Local Open Scope Z_scope.

Module TracingSpec.

(** ** Splitting *)

Lemma split_char_none s c : c ∉ s → Str.split_char s c = [s].
Proof.
  induction s as [|b s IH]; intros Hc; [done|]. apply not_elem_of_cons in Hc as [Hb Hc].
  cbn [Str.split_char]. rewrite bool_decide_eq_false_2 by done. by rewrite IH.
Qed.

Lemma split_char_app s c t : c ∉ s → Str.split_char (s ++ c :: t) c = s :: Str.split_char t c.
Proof.
  induction s as [|b s IH]; intros Hc; cbn [app Str.split_char].
  - by rewrite bool_decide_eq_true_2.
  - apply not_elem_of_cons in Hc as [Hb Hc]. rewrite bool_decide_eq_false_2 by done. by rewrite IH.
Qed.

Lemma digits_not_in s c : Forall Fmt.is_digit s → Fmt.digit_value c = None → c ∉ s.
Proof. intros Hs Hc Hin. rewrite Forall_forall in Hs. destruct (Hs _ Hin). congruence. Qed.

Definition visible (c : Ascii.ascii) : Prop := (32 <= Ascii.N_of_ascii c < 127)%N.

Lemma digits_visible s : Forall Fmt.is_digit s → Forall visible s.
Proof.
  intros Hs. eapply Forall_impl; [exact Hs|]. intros c [d Hd]. unfold visible.
  unfold Fmt.digit_value in Hd. repeat case_match; simplify_eq; lia.
Qed.

Lemma hex32_digits n : Forall Fmt.is_digit (hex32 n).
Proof. apply Fmt.fmt_padded_digits. lia. Qed.

Lemma hex16_digits n : Forall Fmt.is_digit (hex16 n).
Proof. apply Fmt.fmt_padded_digits. lia. Qed.

Lemma hex32_length n : length (hex32 n) = 32%nat.
Proof. by apply Fmt.fmt_padded_length. Qed.

Lemma hex16_length n : length (hex16 n) = 16%nat.
Proof. by apply Fmt.fmt_padded_length. Qed.

Lemma flag_digits b : Forall Fmt.is_digit (flag b).
Proof. destruct b; repeat constructor; by eexists. Qed.

Lemma parse_hex32 n : 0 <= n <= u128_max → parse_hex u128_max (hex32 n) = Ok n.
Proof.
  intros Hn. unfold parse_hex, hex32. rewrite Fmt.from_str_radix_padded; [done|lia| |lia].
  change (16 ^ Z.of_nat 32) with (u128_max + 1). lia.
Qed.

Lemma parse_hex16 n : 0 <= n <= u64_max → parse_hex u64_max (hex16 n) = Ok n.
Proof.
  intros Hn. unfold parse_hex, hex16. rewrite Fmt.from_str_radix_padded; [done|lia| |lia].
  change (16 ^ Z.of_nat 16) with (u64_max + 1). lia.
Qed.

#[local] Opaque hex32 hex16.

Lemma parse_hex_range max s n : parse_hex max s = Ok n → 0 <= n <= max.
Proof.
  unfold parse_hex. destruct (Fmt.from_str_radix 16 max s) eqn:E; intros; simplify_eq.
  apply Fmt.from_str_radix_range in E; [done|lia].
Qed.

Lemma parse_flag_flag b : parse_flag (flag b) = Ok b.
Proof. by destruct b. Qed.

Lemma parse_b3_flag_flag b : parse_b3_flag (flag b) = Ok b.
Proof. by destruct b. Qed.

(** ** Well-formed trace contexts *)

(** Those that are read from headers and can be written to them. *)
Definition well_formed (t : TraceInfo) : Prop :=
  0 <= trace_id t <= u128_max ∧ (∃ s, span_id t = Some s ∧ 0 <= s <= u64_max) ∧
  (∀ q, parent_id t = Some q → 0 <= q <= u64_max) ∧ (provider t = Uber → is_Some (parent_id t)).

Lemma array_string_fits len pieces : (length (concat pieces) <= len)%nat → array_string len pieces = concat pieces.
Proof.
  revert len. induction pieces as [|p ps IH]; intros len Hlen; [done|]. cbn [array_string concat] in *.
  rewrite length_app in Hlen. rewrite decide_True by lia. by rewrite IH by lia.
Qed.

(** The text of every format fits the buffer and is visible. *)
Lemma fmt_fits t : (length (concat (fmt t)) <= 80)%nat.
Proof.
  unfold fmt. destruct (provider t), (parent_id t), (sampled t); cbn [concat];
    rewrite ?length_app, ?hex32_length, ?hex16_length; simpl; lia.
Qed.

Lemma fmt_visible t : Forall visible (concat (fmt t)).
Proof.
  assert (∀ n, Forall visible (hex32 n)) by (intros; apply digits_visible, hex32_digits).
  assert (∀ n, Forall visible (hex16 n)) by (intros; apply digits_visible, hex16_digits).
  assert (∀ b, Forall visible (flag b)) by (intros; apply digits_visible, flag_digits).
  assert (Forall visible (lit "-")) by (repeat constructor; done).
  assert (Forall visible (lit ":")) by (repeat constructor; done).
  assert (Forall visible (lit "00-")) by (repeat constructor; done).
  assert (∀ b : bool, Forall visible (if b then lit "01" else lit "00")) by (intros []; repeat constructor; done).
  unfold fmt. destruct (provider t), (parent_id t); cbn [concat]; rewrite ?Forall_app; by split_and!.
Qed.

Section spec.
Context `{HL : HttpLib, !HttpSpec HL, TL : TraceparentLib, TracingLib}.

Lemma insert_header_writes len pieces :
  (length (concat pieces) <= len)%nat → Forall visible (concat pieces) →
  ∃ v, to_str v = Some (concat pieces) ∧ ∀ name h, insert_header name len pieces h = (Ok (), header_insert h name v).
Proof.
  intros Hlen Hvis. destruct (value_from_visible _ Hvis) as [v Hv]. exists v. split; [by apply to_str_from_str|].
  intros name h. unfold insert_header. by rewrite array_string_fits, Hv by done.
Qed.

(** ** Reading what was written, format by format *)

Lemma parse_uber_fmt t : well_formed t → provider t = Uber → parse_uber (concat (fmt t)) = Ok (Some t).
Proof.
  intros (Ht & (s & Es & Hs) & Hq & Hu) Hp. destruct (Hu Hp) as [q Eq]. specialize (Hq q Eq).
  destruct t as [t so po pr f]; simpl in *; subst. unfold fmt, parse_uber. cbn [provider trace_id span_id parent_id sampled concat default].
  change (lit ":") with [Str.colon]. rewrite app_nil_r. cbn [app].
  do 3 (rewrite split_char_app by (eapply digits_not_in; [apply hex32_digits || apply hex16_digits|done])).
  rewrite split_char_none by (eapply digits_not_in; [apply flag_digits|done]).
  rewrite parse_hex32 by done. cbn [mbind result_bind]. rewrite !parse_hex16 by done. cbn [mbind result_bind].
  by rewrite parse_flag_flag.
Qed.

Lemma parse_b3_fmt t : well_formed t → provider t = B3 → parse_b3 (concat (fmt t)) = Ok (Some t).
Proof.
  intros (Ht & (s & Es & Hs) & Hq & _) Hp.
  destruct t as [t so po pr f]; simpl in *; subst. unfold fmt, parse_b3. cbn [provider trace_id span_id parent_id sampled].
  change (lit "-") with [dash]. destruct po as [q|]; cbn [concat default]; rewrite app_nil_r; cbn [app].
  - specialize (Hq q eq_refl).
    do 3 (rewrite split_char_app by (eapply digits_not_in; [apply hex32_digits || apply hex16_digits || apply flag_digits|done])).
    rewrite split_char_none by (eapply digits_not_in; [apply hex16_digits|done]).
    rewrite decide_True by (simpl; lia). rewrite parse_hex32 by done. cbn [mbind result_bind].
    rewrite parse_hex16 by done. cbn [mbind result_bind]. rewrite parse_b3_flag_flag. cbn [mbind result_bind].
    by rewrite parse_hex16 by done.
  - do 2 (rewrite split_char_app by (eapply digits_not_in; [apply hex32_digits || apply hex16_digits|done])).
    rewrite split_char_none by (eapply digits_not_in; [apply flag_digits|done]).
    rewrite decide_True by (simpl; lia). rewrite parse_hex32 by done. cbn [mbind result_bind].
    rewrite parse_hex16 by done. cbn [mbind result_bind]. by rewrite parse_b3_flag_flag.
Qed.

(** ** What reading gives *)

Lemma parse_hex_value_range max v n : parse_hex_value max v = Ok n → 0 <= n <= max.
Proof. unfold parse_hex_value. case_match; [apply parse_hex_range|done]. Qed.

(** The crate traceparent, as documented: numbers are those of the fields, and
    the text of version 00 is read back unless an identifier is zero, which
    the standard forbids. *)
Class TraceparentSpec : Prop := {
  parse_bounded : ∀ s t p f, traceparent_parse s = Some (t, p, f) → 0 <= t <= u128_max ∧ 0 <= p <= u64_max;
  parse_version_00 : ∀ t p (f : bool), 0 < t <= u128_max → 0 < p <= u64_max →
    traceparent_parse (lit "00-" ++ hex32 t ++ lit "-" ++ hex16 p ++ lit "-" ++ (if f then lit "01" else lit "00")) =
      Some (t, p, f);
}.
Context `{!TraceparentSpec}.

Lemma bind_Ok {E A B} (m : result E A) (f : A → result E B) b : m ≫= f = Ok b → ∃ a, m = Ok a ∧ f a = Ok b.
Proof. destruct m as [a|e]; intros Hb; [by exists a|done]. Qed.

Lemma parse_w3c_ok value p :
  parse_w3c value = Ok (Some p) → provider p = W3CTraceContext ∧ parent_id p = None ∧ well_formed p.
Proof.
  unfold parse_w3c. destruct (traceparent_parse value) as [[[t s] f]|] eqn:E; [|done]. intros; simplify_eq/=.
  apply parse_bounded in E as [Ht Hs]. unfold well_formed. simpl. naive_solver.
Qed.

Lemma parse_uber_ok value p : parse_uber value = Ok (Some p) → provider p = Uber ∧ well_formed p.
Proof.
  unfold parse_uber. repeat (case_match; try done). intros E.
  apply bind_Ok in E as (t & Ht & E). apply bind_Ok in E as (s & Hs & E). apply bind_Ok in E as (q & Hq & E).
  apply bind_Ok in E as (f & _ & E). simplify_eq/=. apply parse_hex_range in Ht, Hs, Hq.
  unfold well_formed. simpl. naive_solver.
Qed.

Lemma parse_b3_ok value p : parse_b3 value = Ok (Some p) → provider p = B3 ∧ well_formed p.
Proof.
  unfold parse_b3. destruct (Str.split_char value dash) as [|part0 [|part1 rest]]; [done|by case_decide|].
  case_decide; [|done]. intros E.
  apply bind_Ok in E as (t & Ht & E). apply bind_Ok in E as (s & Hs & E).
  apply bind_Ok in E as (f & _ & E). apply bind_Ok in E as (q & Hq & E). simplify_eq/=.
  apply parse_hex_range in Ht, Hs. split; [done|]. unfold well_formed. simpl. split_and!; [lia..|eauto| |done].
  intros q' ->. repeat (case_match; try done). apply bind_Ok in Hq as (q & Hq & ?). simplify_eq.
  by apply parse_hex_range in Hq.
Qed.

Lemma parse_b3_multi_ok h p :
  parse_b3_multi h = Ok (Some p) →
  provider p = B3Multi ∧ well_formed p ∧ (has_debug h = true → sampled p = true).
Proof.
  unfold parse_b3_multi.
  destruct (header_get h X_B3_TRACEID) as [tv|], (header_get h X_B3_SPANID) as [sv|]; try done. intros E.
  apply bind_Ok in E as (t & Ht & E). apply bind_Ok in E as (s & Hs & E).
  apply bind_Ok in E as (q & Hq & E). apply bind_Ok in E as (f & Hf & E). simplify_eq/=.
  apply parse_hex_value_range in Ht, Hs. split; [done|]. split; [|intros Hd; rewrite Hd in Hf; by simplify_eq].
  unfold well_formed. simpl. split_and!; [lia..|eauto| |done]. intros q' ->.
  destruct (header_get h X_B3_PARENTSPANID) as [pv|]; [|done].
  apply bind_Ok in Hq as (q & Hq & ?). simplify_eq. by apply parse_hex_value_range in Hq.
Qed.

(** A format is used when no header of an earlier one is present. *)
Lemma extract_from_cases h p :
  extract_from h = Ok (Some p) →
  well_formed p ∧
  match provider p with
  | W3CTraceContext => parent_id p = None
  | Uber => header_get h TRACEPARENT ≫= to_str = None
  | B3 => header_get h TRACEPARENT ≫= to_str = None ∧ header_get h UBER_TRACE_ID ≫= to_str = None
  | B3Multi =>
    header_get h TRACEPARENT ≫= to_str = None ∧ header_get h UBER_TRACE_ID ≫= to_str = None ∧
    header_get h B3_HEADER ≫= to_str = None ∧ (has_debug h = true → sampled p = true)
  end.
Proof.
  unfold extract_from. destruct (header_get h TRACEPARENT ≫= to_str) as [v1|] eqn:E1.
  { intros (-> & -> & ?)%parse_w3c_ok. done. }
  destruct (header_get h UBER_TRACE_ID ≫= to_str) as [v2|] eqn:E2; [by intros (-> & ?)%parse_uber_ok|].
  destruct (header_get h B3_HEADER ≫= to_str) as [v3|] eqn:E3; [by intros (-> & ?)%parse_b3_ok|].
  by intros (-> & ? & ?)%parse_b3_multi_ok.
Qed.

(** ** Propagation *)

(** What the next hop reads: a W3C header has no parent. *)
Definition as_read (t : TraceInfo) : TraceInfo :=
  mk_trace_info (trace_id t) (span_id t)
    match provider t with W3CTraceContext => None | _ => parent_id t end (provider t) (sampled t).

Lemma as_read_other t : provider t ≠ W3CTraceContext → as_read t = t.
Proof. by destruct t as [? ? ? []]. Qed.

Ltac read_headers := repeat first [rewrite header_get_insert_eq|rewrite header_get_insert_ne by done].

Lemma has_debug_insert h s v :
  s ≠ lit "x-envoy-force-trace" → s ≠ lit "x-b3-flags" →
  has_debug (header_insert h (name_from_static s) v) = has_debug h.
Proof. intros. unfold has_debug, X_ENVOY_FORCE_TRACE, X_B3_FLAGS. by rewrite !header_get_insert_ne. Qed.

Lemma w3c_read_back t ts h :
  well_formed t → provider t = W3CTraceContext → trace_id t ≠ 0 → span_id t ≠ Some 0 →
  extract_from (snd (update_headers_with_tracestate t ts h)) = Ok (Some (as_read t)).
Proof.
  intros (Ht & (s & Es & Hs) & _) Hp Hnz Hsz.
  destruct (insert_header_writes 80 (fmt t) (fmt_fits t) (fmt_visible t)) as (v & Hv & Hw).
  assert (parse_w3c (concat (fmt t)) = Ok (Some (as_read t))) as Hread.
  { destruct t as [t so po pr f]; cbn [provider trace_id span_id] in *; subst. unfold parse_w3c, fmt.
    cbn [provider trace_id span_id parent_id sampled from_option id concat]. rewrite app_nil_r.
    assert (s ≠ 0) by congruence. by rewrite parse_version_00 by lia. }
  unfold update_headers_with_tracestate, and_then, unchanged. rewrite Hp, Hw. unfold extract_from.
  destruct ts; cbn [snd]; unfold TRACEPARENT, TRACESTATE; read_headers; cbn [mbind option_bind]; by rewrite Hv.
Qed.

Lemma uber_read_back t ts h :
  well_formed t → provider t = Uber → header_get h TRACEPARENT ≫= to_str = None →
  extract_from (snd (update_headers_with_tracestate t ts h)) = Ok (Some t).
Proof.
  intros Hwf Hp Htp. destruct (insert_header_writes 80 (fmt t) (fmt_fits t) (fmt_visible t)) as (v & Hv & Hw).
  unfold update_headers_with_tracestate. rewrite Hp, Hw. unfold extract_from. cbn [snd].
  unfold TRACEPARENT, UBER_TRACE_ID in *. read_headers. rewrite Htp. cbn [mbind option_bind]. rewrite Hv.
  by apply parse_uber_fmt.
Qed.

Lemma b3_read_back t ts h :
  well_formed t → provider t = B3 → header_get h TRACEPARENT ≫= to_str = None →
  header_get h UBER_TRACE_ID ≫= to_str = None →
  extract_from (snd (update_headers_with_tracestate t ts h)) = Ok (Some t).
Proof.
  intros Hwf Hp Htp Hub. destruct (insert_header_writes 80 (fmt t) (fmt_fits t) (fmt_visible t)) as (v & Hv & Hw).
  unfold update_headers_with_tracestate. rewrite Hp, Hw. unfold extract_from. cbn [snd].
  unfold TRACEPARENT, UBER_TRACE_ID, B3_HEADER in *. read_headers. rewrite Htp, Hub. cbn [mbind option_bind].
  rewrite Hv. by apply parse_b3_fmt.
Qed.

Lemma one_piece_writes len s :
  (length s <= len)%nat → Forall Fmt.is_digit s →
  ∃ v, to_str v = Some s ∧ ∀ name h, insert_header name len [s] h = (Ok (), header_insert h name v).
Proof.
  intros Hlen Hs. destruct (insert_header_writes len [s]) as (v & Hv & Hw); cbn [concat];
    rewrite ?app_nil_r; [done|by apply digits_visible|]. exists v. split; [|done].
  cbn [concat] in Hv. by rewrite app_nil_r in Hv.
Qed.

Lemma b3_multi_read_back t q ts h :
  well_formed t → provider t = B3Multi → parent_id t = Some q → header_get h TRACEPARENT ≫= to_str = None →
  header_get h UBER_TRACE_ID ≫= to_str = None → header_get h B3_HEADER ≫= to_str = None →
  (has_debug h = true → sampled t = true) →
  extract_from (snd (update_headers_with_tracestate t ts h)) = Ok (Some t).
Proof.
  intros (Ht & (s & Es & Hs) & Hq & _) Hp Eq Htp Hub Hb3 Hdebug. specialize (Hq q Eq).
  destruct t as [t so po pr f]; cbn [provider trace_id span_id parent_id sampled] in *; subst.
  unfold update_headers_with_tracestate, and_then. cbn [provider trace_id span_id parent_id sampled from_option id].
  rewrite !decide_True by done.
  destruct (one_piece_writes 1 (flag f)) as (fv & Hfv & Hwf); [by destruct f|apply flag_digits|].
  destruct (one_piece_writes 32 (hex32 t)) as (tv & Htv & Hwt); [by rewrite hex32_length|apply hex32_digits|].
  destruct (one_piece_writes 16 (hex16 s)) as (sv & Hsv & Hws); [by rewrite hex16_length|apply hex16_digits|].
  destruct (one_piece_writes 16 (hex16 q)) as (qv & Hqv & Hwq); [by rewrite hex16_length|apply hex16_digits|].
  rewrite Hwf, Hwt, Hws, Hwq. cbn [snd].
  unfold extract_from, parse_b3_multi, TRACEPARENT, UBER_TRACE_ID, B3_HEADER, X_B3_SAMPLED, X_B3_TRACEID, X_B3_SPANID,
    X_B3_PARENTSPANID in *. read_headers. rewrite Htp, Hub, Hb3.
  unfold parse_hex_value. rewrite Htv, Hsv, Hqv, parse_hex32, !parse_hex16 by done. cbn [mbind result_bind].
  rewrite !has_debug_insert by done. destruct (has_debug h) eqn:Hd.
  - rewrite (Hdebug eq_refl). done.
  - cbn [mbind option_bind]. by rewrite Hfv, parse_flag_flag.
Qed.

(** A context that was read can be sent on, over the headers it came from. *)
Lemma child_read_back h p n ts :
  extract_from h = Ok (Some p) → 1 <= n <= u64_max → (provider p = W3CTraceContext → trace_id p ≠ 0) →
  extract_from (snd (update_headers_with_tracestate (into_child n p) ts h)) = Ok (Some (as_read (into_child n p))).
Proof.
  intros ((Ht & (s & Es & Hs) & Hq & Hu) & Hcase)%extract_from_cases Hn Hnz.
  assert (well_formed (into_child n p)) as Hwf.
  { split_and!; [apply Ht..|exists n; split; [done|lia]|cbn; intros; simplify_eq; congruence|cbn; rewrite Es; eauto]. }
  destruct (provider p) eqn:Hp.
  - apply w3c_read_back; [done|done|by apply Hnz|]. cbn. intros [=]. lia.
  - rewrite as_read_other by (cbn; congruence). apply b3_read_back; [done|done|tauto..].
  - rewrite as_read_other by (cbn; congruence). apply (b3_multi_read_back _ s); [done|done|done|tauto..].
  - rewrite as_read_other by (cbn; congruence). apply uber_read_back; done.
Qed.

Lemma update_headers_ok t ts h : fst (update_headers_with_tracestate t ts h) = Ok ().
Proof.
  destruct (insert_header_writes 80 (fmt t) (fmt_fits t) (fmt_visible t)) as (v & _ & Hw).
  unfold update_headers_with_tracestate, and_then, unchanged. destruct (provider t); rewrite ?Hw; [by destruct ts|done| |done].
  destruct (one_piece_writes 1 (flag (sampled t))) as (fv & _ & Hwf); [by destruct (sampled t)|apply flag_digits|].
  destruct (one_piece_writes 32 (hex32 (trace_id t))) as (tv & _ & Hwt); [by rewrite hex32_length|apply hex32_digits|].
  destruct (one_piece_writes 16 (hex16 (default 0 (span_id t)))) as (sv & _ & Hws); [by rewrite hex16_length|apply hex16_digits|].
  destruct (one_piece_writes 16 (hex16 (default 0 (parent_id t)))) as (qv & _ & Hwq); [by rewrite hex16_length|apply hex16_digits|].
  rewrite Hwf, Hwt. by repeat case_decide; rewrite ?Hws, ?Hwq.
Qed.

(** The trace contexts the proxy works with are well formed: what is read
    from headers has a 128-bit trace id, a 64-bit span id and a 64-bit parent,
    if any, and so has a child of it, which can be written to any headers
    without an error. *)
Theorem trace_context_typed h p n :
  extract_from h = Ok (Some p) → 1 <= n <= u64_max →
  well_formed p ∧ well_formed (into_child n p) ∧
  ∀ ts h', fst (update_headers_with_tracestate (into_child n p) ts h') = Ok ().
Proof.
  intros (Hp & _)%extract_from_cases Hn. split; [exact Hp|]. destruct Hp as (Ht & (s & Es & Hs) & Hq & Hu).
  split; [|intros; apply update_headers_ok].
  split_and!; [apply Ht..|exists n; split; [done|lia]|cbn; intros; simplify_eq; congruence|cbn; rewrite Es; eauto].
Qed.

(** ** Request ids *)

Lemma apply_policy_headers feature m r al incoming internal new_id :
  let r' := fst (apply_policy feature m r al incoming internal new_id) in
  ∀ n, n ≠ X_REQUEST_ID → header_get (headers r') n = header_get (headers r) n.
Proof.
  cbv zeta. intros n Hn. unfold apply_policy. repeat case_match; simplify_eq; cbn [fst headers set_headers]; try done;
    rewrite ?header_get_insert, ?header_get_remove; by rewrite decide_False.
Qed.

Definition trace_headers : list str :=
  [lit "traceparent"; lit "uber-trace-id"; lit "b3"; lit "x-b3-traceid"; lit "x-b3-spanid"; lit "x-b3-parentspanid";
   lit "x-b3-sampled"; lit "x-b3-flags"; lit "x-envoy-force-trace"].

Lemma extract_from_ext h h' :
  Forall (λ s, header_get h (name_from_static s) = header_get h' (name_from_static s)) trace_headers →
  extract_from h = extract_from h'.
Proof.
  unfold trace_headers. rewrite !Forall_cons. intros (E1 & E2 & E3 & E4 & E5 & E6 & E7 & E8 & E9 & _).
  unfold extract_from, parse_b3_multi, has_debug, TRACEPARENT, UBER_TRACE_ID, B3_HEADER, X_B3_TRACEID, X_B3_SPANID,
    X_B3_PARENTSPANID, X_B3_SAMPLED, X_B3_FLAGS, X_ENVOY_FORCE_TRACE.
  by rewrite E1, E2, E3, E4, E5, E6, E7, E8, E9.
Qed.

Lemma apply_policy_trace feature m r al incoming internal new_id :
  extract_from (headers (fst (apply_policy feature m r al incoming internal new_id))) = extract_from (headers r).
Proof.
  apply extract_from_ext. unfold trace_headers. repeat constructor; apply apply_policy_headers;
    intros ?%name_from_static_inj; done.
Qed.

Lemma build_with_parent cfg d r id p :
  extract_from (headers r) = Ok (Some p) →
  ∃ c, try_build_trace_context (Some cfg) d r id = Some c ∧ context_parent c = Full p.
Proof. intros E. unfold try_build_trace_context. cbn [mbind option_bind]. rewrite E. by eexists. Qed.

(** C18: A request that carries a trace context, in any of the four formats,
    is forwarded with one in the same format that the next hop reads as part of
    the same trace: the same trace id and sampling decision, a span id of its
    own, and the span of the request as its parent where the format has a
    place for it.  Neither the sampling configuration nor the handling of
    request ids changes this. *)
Theorem trace_propagated feature al m cfg d internal r p :
  extract_from (headers r) = Ok (Some p) →
  1 <= fresh_span_id d <= u64_max →
  (provider p = W3CTraceContext → trace_id p ≠ 0) →
  ∃ t, extract_from (headers (fst (begin_request feature al m (Some cfg) d internal r))) = Ok (Some t) ∧
    trace_id t = trace_id p ∧ sampled t = sampled p ∧ provider t = provider p ∧
    span_id t = Some (fresh_span_id d) ∧
    parent_id t = (if decide (provider p = W3CTraceContext) then None else span_id p).
Proof.
  intros E Hn Hnz. exists (as_read (into_child (fresh_span_id d) p)). split.
  - unfold begin_request. pose proof (apply_policy_trace feature m r al (from_request r) internal (fresh_request_id d)) as Ha.
    destruct (apply_policy _ _ _ _ _ _ _) as [r' id']. cbn [fst] in Ha. rewrite E in Ha.
    match goal with |- context [try_build_trace_context _ _ _ ?x] =>
      destruct (build_with_parent cfg d r' x p Ha) as (c & -> & Hc) end.
    unfold try_create_span, parent. rewrite Hc, (bool_decide_eq_true_2 (is_Some (Some p))), orb_true_r by done.
    unfold update_tracing_headers, spawn_child. cbn [child tracestate fst headers set_headers]. rewrite Hc.
    by apply child_read_back.
  - unfold as_read. cbn. destruct (provider p); by split_and!.
Qed.

(** The request id that is recorded as propagated is the one the upstream
    request carries, and one recorded as internal is not sent.  An external
    client cannot choose it unless that is configured. *)
Theorem request_id_forwarded feature m r al internal new_id :
  (∀ v, header_get (headers r) X_REQUEST_ID = Some v → value_is_empty v = false) →
  let '(r', id) := apply_policy feature m r al (from_request r) internal new_id in
  (∀ v, header_get (headers r') X_REQUEST_ID = Some v ↔ id = Some (Propagate v)) ∧
  (internal = false → preserve_external_request_id m = false →
   ∀ v, header_get (headers r') X_REQUEST_ID = Some v → generate_request_id m = true ∧ v = generate_new_id new_id).
Proof.
  intros Hne. unfold apply_policy, from_request. destruct m as [gen pres resp]. cbn [generate_request_id preserve_external_request_id].
  destruct (header_get (headers r) X_REQUEST_ID) as [v0|] eqn:E; cbn [mbind option_bind];
    [rewrite (Hne v0) by done|]; destruct gen, internal, pres, feature, al;
    rewrite ?(bool_decide_eq_true_2 (is_Some (Some _))) by done; simpl;
    rewrite ?header_get_insert_eq, ?header_get_remove, ?decide_True by done;
    rewrite ?E; split; intros; simplify_eq; naive_solver.
Qed.
End spec.

(** ** Witnesses *)

Section witnesses.
#[local] Existing Instances assoc_http assoc_http_spec.

(** A reader of version 00. *)
#[local] Instance version_00 : TraceparentLib := {|
  traceparent_parse s :=
    match Str.split_char s dash with
    | [v; t; p; f] =>
      if decide (v = lit "00") then
        match parse_hex u128_max t, parse_hex u64_max p with
        | Ok t, Ok p =>
          if decide (f = lit "01") then Some (t, p, true) else if decide (f = lit "00") then Some (t, p, false) else None
        | _, _ => None
        end
      else None
    | _ => None
    end
|}.

#[local] Instance version_00_spec : TraceparentSpec.
Proof.
  split; cbn [traceparent_parse version_00].
  - intros s t p f. repeat (case_match; try done); intros; simplify_eq; by split; eapply parse_hex_range.
  - intros t p f Ht Hp. change (lit "00-") with (lit "00" ++ [dash]). change (lit "-") with [dash].
    assert (∀ x y, x ++ [dash] ++ y = x ++ dash :: y) as Hcons by done. rewrite <-app_assoc, !Hcons.
    rewrite (split_char_app (lit "00")) by (apply (bool_decide_unpack _); vm_compute; exact I).
    do 2 (rewrite split_char_app by (eapply digits_not_in; [apply hex32_digits || apply hex16_digits|done])).
    rewrite split_char_none by (destruct f; apply (bool_decide_unpack _); vm_compute; exact I).
    rewrite decide_True by done. rewrite parse_hex32, parse_hex16 by lia. by destruct f.
Qed.

#[local] Instance no_uuid : TracingLib := {| uuid_parse _ := None; tracestate_valid _ := true |}.

Definition b3_request : Request :=
  mk_request (lit "GET") (mk_uri None None None) [(lit "b3", lit "80f198ee56343ba8-e457b5a2e4d86bd1-0")].

Lemma trace_propagated_witness :
  let m := mk_request_id_manager true false false in
  let cfg := mk_tracing_config (Some 0) (Some 0) (Some 0) false in
  let d := mk_draws 5 7 1 2 (lit "id") in
  let p := mk_trace_info 9291375655657946024 (Some 16453819474850114513) None B3 false in
  extract_from (headers b3_request) = Ok (Some p) ∧
  ∃ t, extract_from (headers (fst (begin_request true false m (Some cfg) d false b3_request))) = Ok (Some t) ∧
    trace_id t = 9291375655657946024 ∧ parent_id t = Some 16453819474850114513.
Proof.
  intros m cfg d p. assert (extract_from (headers b3_request) = Ok (Some p)) as E by (vm_compute; reflexivity).
  split; [exact E|].
  destruct (trace_propagated (HL := assoc_http) true false m cfg d false b3_request p E ltac:(vm_compute; split; discriminate)
    ltac:(discriminate)) as (t & Et & H1 & _ & _ & _ & H2).
  exists t. split; [exact Et|]. split; [exact H1|exact H2].
Defined.

Lemma trace_context_typed_witness :
  let p := mk_trace_info 9291375655657946024 (Some 16453819474850114513) None B3 false in
  extract_from (headers b3_request) = Ok (Some p) ∧ well_formed p.
Proof.
  intros p. assert (extract_from (headers b3_request) = Ok (Some p)) as E by (vm_compute; reflexivity).
  split; [exact E|].
  exact (proj1 (trace_context_typed (HL := assoc_http) (headers b3_request) p 1 E ltac:(vm_compute; split; discriminate))).
Defined.

Lemma request_id_forwarded_witness :
  let m := mk_request_id_manager true false false in
  let r := mk_request (lit "GET") (mk_uri None None None) [(lit "x-request-id", lit "chosen")] in
  (∀ v, header_get (headers r) X_REQUEST_ID = Some v → value_is_empty v = false) ∧
  header_get (headers (fst (apply_policy true m r false (from_request r) false (lit "id")))) X_REQUEST_ID = Some (lit "id").
Proof.
  intros m r. assert (∀ v, header_get (headers r) X_REQUEST_ID = Some v → value_is_empty v = false) as Hne.
  { intros v Hv. vm_compute in Hv. injection Hv as <-. reflexivity. }
  split; [exact Hne|].
  exact (proj2 (proj1 (request_id_forwarded (HL := assoc_http) true m r false false (lit "id") Hne) (lit "id")) eq_refl).
Defined.
End witnesses.
End TracingSpec.
