(* ===== verification/Cors.v ===== *)
(** The CORS filter (arion-lib/src/listeners/http_connection_manager/cors.rs and
    the configuration in http_filters/cors.rs). *)

From S2P Require Import Prelude RustStr Http StringMatch Fmt.
Import Http StringMatch.

Module Cors.

(** What a filter says about a request or a response (http_filters.rs). *)
Inductive FilterDecision `{HttpLib} : Type :=
  | Continue
  | Reroute
  | DirectResponse (r : Response).

(** What the filter uses of the crate http besides header maps: an empty map,
    the bytes of a value and [Method::from_bytes]. *)
Class CorsLib `{HttpLib} : Type := {
  empty_headers : HeaderMap;
  as_bytes : HeaderValue → str;
  method_from_bytes : str → option str;
}.

Section cors.
Context `{HttpLib, RegexLib, !CorsLib}.

Record CorsConfig : Type := mk_cors_config {
  allow_origins : list StringMatcher;
  allow_methods : list str;
  allow_headers : list str;
  expose_headers : list str;
  allow_credentials : bool;
  max_age : option Z;
  forward_not_matching_preflights : bool;
}.

Definition cors_config_default : CorsConfig :=
  mk_cors_config [string_matcher_new (lit "*")]
    [lit "GET"; lit "POST"; lit "PUT"; lit "PATCH"; lit "DELETE"; lit "HEAD"; lit "OPTIONS"]
    [lit "*"] [lit "*"] false (Some 86400%Z) true.

Record Cors : Type := mk_cors {
  inner : CorsConfig;
  validated_origin : option HeaderValue;
  is_wildcard_response : bool;
}.

Definition from_config (conf : CorsConfig) : Cors := mk_cors conf None false.

Definition ORIGIN : HeaderName := name_from_static (lit "origin").
Definition VARY : HeaderName := name_from_static (lit "vary").
Definition ACCESS_CONTROL_REQUEST_METHOD : HeaderName := name_from_static (lit "access-control-request-method").
Definition ACCESS_CONTROL_REQUEST_HEADERS : HeaderName := name_from_static (lit "access-control-request-headers").
Definition ACCESS_CONTROL_ALLOW_ORIGIN : HeaderName := name_from_static (lit "access-control-allow-origin").
Definition ACCESS_CONTROL_ALLOW_CREDENTIALS : HeaderName := name_from_static (lit "access-control-allow-credentials").
Definition ACCESS_CONTROL_ALLOW_METHODS : HeaderName := name_from_static (lit "access-control-allow-methods").
Definition ACCESS_CONTROL_ALLOW_HEADERS : HeaderName := name_from_static (lit "access-control-allow-headers").
Definition ACCESS_CONTROL_MAX_AGE : HeaderName := name_from_static (lit "access-control-max-age").
Definition ACCESS_CONTROL_EXPOSE_HEADERS : HeaderName := name_from_static (lit "access-control-expose-headers").
Definition MCP_SESSION_ID : HeaderName := name_from_static (lit "mcp-session-id").

Definition NO_CONTENT : Z := 204.

(** [join(", ")]. *)
Fixpoint join (l : list str) : str :=
  match l with
  | [] => []
  | [s] => s
  | s :: l => s ++ lit ", " ++ join l
  end.

(** ** Requests *)

Definition determine_allowed_origin (c : Cors) (request_origin : str) : option (HeaderValue * bool) :=
  let conf := inner c in
  if negb (allow_credentials conf) && existsb (λ o, string_matches o (lit "*")) (allow_origins conf)
  then Some (value_from_static (lit "*"), true)
  else if existsb (λ o, string_matches o (lit "*") || string_matches o request_origin) (allow_origins conf)
  then match value_from_str request_origin with Some v => Some (v, false) | None => None end
  else None.

Definition methods_wildcard (c : Cors) : bool := existsb (λ m, bool_decide (m = lit "*")) (allow_methods (inner c)).
Definition headers_wildcard (c : Cors) : bool := existsb (λ h, bool_decide (h = lit "*")) (allow_headers (inner c)).

Definition lowercase (s : str) : str := Str.to_ascii_lowercase <$> s.

(** One name of the requested headers. *)
Definition header_allowed (c : Cors) (requested : str) : bool :=
  let requested_header := lowercase (Str.trim requested) in
  bool_decide (requested_header = []) || bool_decide (requested_header = lit "mcp-session-id") ||
  existsb (λ h, bool_decide (lowercase h = requested_header)) (allow_headers (inner c)).

Definition empty_response : Response := mk_response NO_CONTENT empty_headers.

Definition insert_str (headers : HeaderMap) (name : HeaderName) (text : str) : HeaderMap :=
  match value_from_str text with Some val => header_insert headers name val | None => headers end.

Definition vary_on_origin (c : Cors) (headers : HeaderMap) : HeaderMap :=
  if negb (is_wildcard_response c) || allow_credentials (inner c)
  then header_append headers VARY (value_from_static (lit "Origin")) else headers.

Definition allow_origin (c : Cors) (allowed_origin : HeaderValue) (headers : HeaderMap) : HeaderMap :=
  let headers := header_insert headers ACCESS_CONTROL_ALLOW_ORIGIN allowed_origin in
  if allow_credentials (inner c)
  then header_insert headers ACCESS_CONTROL_ALLOW_CREDENTIALS (value_from_static (lit "true")) else headers.

Definition generate_preflight_response (c : Cors) (requested_method : str) (requested_headers : option str) :
    option Response :=
  allowed_origin ← validated_origin c;
  let conf := inner c in
  let headers := allow_origin c allowed_origin empty_headers in
  let methods_str :=
    if methods_wildcard c then (if allow_credentials conf then requested_method else lit "*")
    else join (allow_methods conf) in
  let headers := insert_str headers ACCESS_CONTROL_ALLOW_METHODS methods_str in
  let headers_str :=
    match headers_wildcard c, allow_credentials conf, requested_headers with
    | true, false, _ => Some (lit "*")
    | _, _, Some requested => Some requested
    | _, _, None => None
    end in
  let headers := match headers_str with
                 | Some s => insert_str headers ACCESS_CONTROL_ALLOW_HEADERS s
                 | None => headers
                 end in
  let headers := match max_age conf with
                 | Some age => insert_str headers ACCESS_CONTROL_MAX_AGE (Fmt.fmt_dec age)
                 | None => headers
                 end in
  let headers := if decide (expose_headers conf = []) then headers
                 else insert_str headers ACCESS_CONTROL_EXPOSE_HEADERS (join (expose_headers conf)) in
  let headers := vary_on_origin c headers in
  let headers := header_append headers VARY (value_from_static (lit "Access-Control-Request-Method")) in
  let headers := header_append headers VARY (value_from_static (lit "Access-Control-Request-Headers")) in
  Some (mk_response NO_CONTENT headers).

(** The preflight part, once the origin is accepted.  The answer of
    [generate_preflight_response] without an origin is an internal error. *)
Definition answer_preflight (internal_error : Response) (c : Cors) (req : Request) : FilterDecision :=
  match header_get (headers req) ACCESS_CONTROL_REQUEST_METHOD with
  | None => Continue
  | Some req_method_hdr =>
    match method_from_bytes (as_bytes req_method_hdr) with
    | None => Continue
    | Some req_method =>
      if negb (methods_wildcard c) && negb (bool_decide (req_method ∈ allow_methods (inner c))) then Continue
      else
        let requested_headers := header_get (headers req) ACCESS_CONTROL_REQUEST_HEADERS ≫= to_str in
        let refused :=
          match requested_headers with
          | Some s => negb (headers_wildcard c) && negb (forallb (header_allowed c) (Str.split_char s Str.comma))
          | None => false
          end in
        if refused then Continue
        else DirectResponse (default internal_error (generate_preflight_response c req_method requested_headers))
    end
  end.

Definition apply_request (internal_error : Response) (c : Cors) (req : Request) : Cors * FilterDecision :=
  match header_get (headers req) ORIGIN ≫= to_str with
  | None => (c, Continue)
  | Some origin_str =>
    let is_preflight :=
      bool_decide (method req = lit "OPTIONS") && contains_key (headers req) ACCESS_CONTROL_REQUEST_METHOD in
    match determine_allowed_origin c origin_str with
    | Some (val, is_wildcard) =>
      let c := mk_cors (inner c) (Some val) is_wildcard in
      (c, if is_preflight then answer_preflight internal_error c req else Continue)
    | None =>
      (c, if is_preflight && negb (forward_not_matching_preflights (inner c))
          then DirectResponse empty_response else Continue)
    end
  end.

(** ** Responses *)

Definition apply_response (c : Cors) (response : Response) : Response :=
  match validated_origin c with
  | None => response
  | Some allowed_origin =>
    let headers := vary_on_origin c (allow_origin c allowed_origin (response_headers response)) in
    let expose :=
      if contains_key headers MCP_SESSION_ID &&
         negb (existsb (λ h, Str.eq_ignore_ascii_case h (lit "mcp-session-id")) (expose_headers (inner c)))
      then expose_headers (inner c) ++ [lit "mcp-session-id"] else expose_headers (inner c) in
    let headers := if decide (expose = []) then headers
                   else insert_str headers ACCESS_CONTROL_EXPOSE_HEADERS (join expose) in
    mk_response (status response) headers
  end.
End cors.

(** ** Over header maps as lists of pairs *)

Section assoc_list.
#[local] Existing Instance assoc_http.
#[local] Instance assoc_cors : CorsLib := {|
  empty_headers := [] : HeaderMap (HttpLib := assoc_http);
  as_bytes := (λ v, v) : HeaderValue (HttpLib := assoc_http) → str;
  method_from_bytes s := Some s;
|}.
End assoc_list.
End Cors.

(** CORS: a response is opened to the origin of the request only if the
    configuration accepts it, and never to everyone with credentials. *)

Import Http StringMatch Cors.

Module CorsSpec.

Section spec.
Context `{HL : HttpLib, !HttpSpec HL, RegexLib, !CorsLib}.

(** ** Header maps *)

Lemma get_all_insert_str headers n text n' :
  n' ≠ n → get_all (insert_str headers n text) n' = get_all headers n'.
Proof. intros. unfold insert_str. case_match; [|done]. by rewrite get_all_insert, decide_False. Qed.

(** Names that are written differently differ. *)
Ltac differ := let E := fresh in intros E; apply name_from_static_inj in E; discriminate E.

(** What [Access-Control-Allow-Origin] and [Access-Control-Allow-Credentials]
    say, and with [Vary]. *)
Definition allowed (c : Cors) (v : HeaderValue) (h : HeaderMap) : Prop :=
  get_all h ACCESS_CONTROL_ALLOW_ORIGIN = [v] ∧
  (allow_credentials (inner c) = true → get_all h ACCESS_CONTROL_ALLOW_CREDENTIALS = [value_from_static (lit "true")]).

Definition varies (c : Cors) (h : HeaderMap) : Prop :=
  is_wildcard_response c = false → value_from_static (lit "Origin") ∈ get_all h VARY.

Definition opened (c : Cors) (v : HeaderValue) (h : HeaderMap) : Prop := allowed c v h ∧ varies c h.

Lemma allow_origin_allowed c v h : allowed c v (allow_origin c v h).
Proof.
  unfold allowed, allow_origin. assert (ACCESS_CONTROL_ALLOW_ORIGIN ≠ ACCESS_CONTROL_ALLOW_CREDENTIALS) by differ.
  destruct (allow_credentials (inner c)); rewrite ?get_all_insert; repeat case_decide; done.
Qed.

Lemma allowed_insert_str c v h n text :
  n ≠ ACCESS_CONTROL_ALLOW_ORIGIN → n ≠ ACCESS_CONTROL_ALLOW_CREDENTIALS →
  allowed c v h → allowed c v (insert_str h n text).
Proof. intros ?? [??]. unfold allowed. by rewrite !get_all_insert_str by congruence. Qed.

Lemma allowed_vary c v h x : allowed c v h → allowed c v (header_append h VARY x).
Proof. intros [??]. unfold allowed. rewrite !get_all_append. by rewrite !decide_False by differ. Qed.

Lemma vary_on_origin_opened c v h : allowed c v h → opened c v (vary_on_origin c h).
Proof.
  intros Ha. unfold vary_on_origin. case_match eqn:E; [split; [by apply allowed_vary|]|].
  - intros _. rewrite get_all_append, decide_True by done. apply elem_of_app. right. by apply list_elem_of_singleton.
  - split; [done|]. intros Hw. rewrite Hw in E. done.
Qed.

Lemma opened_vary c v h x : opened c v h → opened c v (header_append h VARY x).
Proof.
  intros [Ha Hv]. split; [by apply allowed_vary|]. intros Hw. rewrite get_all_append, decide_True by done.
  apply elem_of_app. left. auto.
Qed.

Lemma apply_response_opened c v resp :
  validated_origin c = Some v → opened c v (response_headers (apply_response c resp)).
Proof.
  intros Hv. unfold apply_response. rewrite Hv. cbn [response_headers].
  assert (opened c v (vary_on_origin c (allow_origin c v (response_headers resp)))) as [Ha Ho]
    by apply vary_on_origin_opened, allow_origin_allowed.
  case_decide; [done|]. split; [apply allowed_insert_str; [differ..|done]|].
  intros Hw. rewrite get_all_insert_str by differ. auto.
Qed.

Lemma preflight_opened c v m hs :
  validated_origin c = Some v →
  ∃ r, generate_preflight_response c m hs = Some r ∧ status r = NO_CONTENT ∧ opened c v (response_headers r).
Proof.
  intros Hv. unfold generate_preflight_response. rewrite Hv. cbn [mbind option_bind]. eexists. split; [done|].
  split; [done|]. cbn [response_headers]. do 2 apply opened_vary. apply vary_on_origin_opened.
  assert (∀ n text h, n ≠ ACCESS_CONTROL_ALLOW_ORIGIN → n ≠ ACCESS_CONTROL_ALLOW_CREDENTIALS → allowed c v h →
    allowed c v (insert_str h n text)) as Hi by (intros; by apply allowed_insert_str).
  assert (∀ n (o : option str) (f : str → str) h, n ≠ ACCESS_CONTROL_ALLOW_ORIGIN → n ≠ ACCESS_CONTROL_ALLOW_CREDENTIALS →
    allowed c v h → allowed c v (match o with Some x => insert_str h n x | None => h end)) as Ho by (intros ? []; auto).
  case_decide; [|apply Hi; [differ..|]]; (destruct (max_age (inner c)); [apply Hi; [differ..|]|]);
    (apply (Ho _ _ id); [differ..|]); (apply Hi; [differ..|]); apply allow_origin_allowed.
Qed.

(** ** The decision *)

Definition accepts (conf : CorsConfig) (origin : str) : Prop :=
  ∃ m, m ∈ allow_origins conf ∧ (string_matches m (lit "*") = true ∨ string_matches m origin = true).

(** The value a response is opened to: the origin itself, or everyone, without
    credentials. *)
Definition sound_origin (conf : CorsConfig) (origin : str) (v : HeaderValue) (wildcard : bool) : Prop :=
  accepts conf origin ∧
  if wildcard then v = value_from_static (lit "*") ∧ allow_credentials conf = false else to_str v = Some origin.

Lemma determine_sound c origin v w :
  determine_allowed_origin c origin = Some (v, w) → sound_origin (inner c) origin v w.
Proof.
  unfold determine_allowed_origin, sound_origin, accepts. case_match eqn:E1.
  - intros [= <- <-]. apply andb_true_iff in E1 as [Hc (m & Hm & Hs)%existsb_exists].
    apply negb_true_iff in Hc. split; [|done]. exists m. split; [by apply list_elem_of_In|by left].
  - case_match eqn:E2; [|done]. apply existsb_exists in E2 as (m & Hm & Hs%orb_true_iff).
    destruct (value_from_str origin) as [x|] eqn:Ex; intros; simplify_eq. split; [|by apply to_str_from_str].
    exists m. split; [by apply list_elem_of_In|done].
Qed.

(** What a preflight that is answered asked for. *)
Definition allowed_preflight (c : Cors) (req : Request) : Prop :=
  ∃ v m, header_get (headers req) ACCESS_CONTROL_REQUEST_METHOD = Some v ∧ method_from_bytes (as_bytes v) = Some m ∧
    (lit "*" ∈ allow_methods (inner c) ∨ m ∈ allow_methods (inner c)) ∧
    ∀ s, header_get (headers req) ACCESS_CONTROL_REQUEST_HEADERS ≫= to_str = Some s →
      lit "*" ∈ allow_headers (inner c) ∨ Forall (λ h, header_allowed c h = true) (Str.split_char s Str.comma).

Lemma existsb_star l : existsb (λ h, bool_decide (h = lit "*")) l = true → lit "*" ∈ l.
Proof.
  intros (x & Hx & E)%existsb_exists. apply bool_decide_eq_true in E as ->. by apply list_elem_of_In.
Qed.

Lemma answer_preflight_sound err c v req r :
  validated_origin c = Some v → answer_preflight err c req = DirectResponse r →
  allowed_preflight c req ∧ status r = NO_CONTENT ∧ opened c v (response_headers r).
Proof.
  intros Hv. unfold answer_preflight, allowed_preflight.
  destruct (header_get (headers req) ACCESS_CONTROL_REQUEST_METHOD) as [mv|] eqn:Em; [|done].
  destruct (method_from_bytes (as_bytes mv)) as [m|] eqn:Emm; [|done].
  case_match eqn:Emeth; [done|]. case_match eqn:Eref; [done|]. intros E.
  destruct (preflight_opened c v m (header_get (headers req) ACCESS_CONTROL_REQUEST_HEADERS ≫= to_str) Hv)
    as (r' & Er & Hst & Ho).
  rewrite Er in E. cbn in E. simplify_eq. split; [|done]. exists mv, m. split; [done|]. split; [done|]. split.
  - apply andb_false_iff in Emeth as [E|E]; apply negb_false_iff in E; [left; by apply existsb_star|right].
    by apply bool_decide_eq_true in E.
  - intros s Es. rewrite Es in Eref. apply andb_false_iff in Eref as [E|E]; apply negb_false_iff in E.
    + left. by apply existsb_star.
    + right. apply Forall_forall. intros h Hh. rewrite forallb_forall in E. apply E. by apply list_elem_of_In.
Qed.

End spec.

(** ** Witnesses *)

Section witnesses.
#[local] Existing Instances assoc_http assoc_http_spec no_regex assoc_cors.

End witnesses.
End CorsSpec.
