(* ===== verification/HttpFilters.v ===== *)
(** The filters of a route and how a request and its response go through them
    (arion-lib/src/listeners/http_filters.rs, and to_response of RoutingState
    in http_connection_manager.rs). *)

From S2P Require Import Prelude RustStr Net Http StringMatch HeaderMatch VirtualHost Route Rbac Fmt HttpModifiers Cors.
Import Http Route Rbac HttpModifiers Cors.

Module HttpFilters.

(** Filters with a state or a service of their own (rate limiters, external
    processors, JWT, OAuth2, Cedar, the MCP gateway, Wasm) are used through this
    interface.  [W] is the rest of the world, which they read and change. *)
Class OtherFilters `{HttpLib} (W : Type) : Type := {
  other : Type;
  other_new_from : other → other;
  other_apply_request : other → Request → W → (other * Request * FilterDecision) * W;
  other_apply_response : other → Response → W → (other * Response * FilterDecision) * W;
  (** Configurations that can be overridden by a route. *)
  LocalRateLimit : Type;
  ExternalProcessor : Type;
  ExtProcPerRoute : Type;
  rate_limit_from : LocalRateLimit → other;
  ext_proc_from : ExternalProcessor → ExtProcPerRoute → other;
  ext_proc_disabled : ExtProcPerRoute → bool;
}.

Section filters.
Context `{HttpLib, RegexLib, UrlLib, !CorsLib} {W : Type} `{!OtherFilters W}.

(** [SyntheticHttpResponse::into_response] of an error without a body. *)
Definition synthetic (status : Z) : Response := mk_response status empty_headers.

Definition FORBIDDEN : Z := 403.
Definition NOT_FOUND : Z := 404.
Definition INTERNAL_SERVER_ERROR : Z := 500.

(** ** Filters *)

Inductive HttpFilterValue : Type :=
  | RbacFilter (r : HttpRbac)
  | CorsFilter (c : Cors)
  | OtherFilter (o : other).

Record HttpFilter : Type := mk_http_filter {
  name : str;
  disabled : bool;
  filter_value : option HttpFilterValue;
  (** The configuration, kept for external processors. *)
  filter_config : option ExternalProcessor;
}.

Definition new_from (f : HttpFilterValue) : HttpFilterValue :=
  match f with
  | RbacFilter r => RbacFilter r
  | CorsFilter c => CorsFilter c
  | OtherFilter o => OtherFilter (other_new_from o)
  end.

Definition apply_authorization_rules (rbac : HttpRbac) (req : Request) : FilterDecision :=
  let '(permitted, _) := http_is_permitted rbac req in
  if permitted then Continue else DirectResponse (synthetic FORBIDDEN).

Definition filter_apply_request (f : HttpFilterValue) (req : Request) (w : W) :
    (HttpFilterValue * Request * FilterDecision) * W :=
  match f with
  | RbacFilter rbac => ((f, req, apply_authorization_rules rbac req), w)
  | CorsFilter cors =>
    let '(cors, decision) := apply_request (synthetic INTERNAL_SERVER_ERROR) cors req in ((CorsFilter cors, req, decision), w)
  | OtherFilter o =>
    let '((o, req, decision), w) := other_apply_request o req w in ((OtherFilter o, req, decision), w)
  end.

Definition filter_apply_response (f : HttpFilterValue) (resp : Response) (w : W) : (Response * FilterDecision) * W :=
  match f with
  | RbacFilter _ => ((resp, Continue), w)
  | CorsFilter cors => ((apply_response cors resp, Continue), w)
  | OtherFilter o => let '((_, resp, decision), w) := other_apply_response o resp w in ((resp, decision), w)
  end.

(** ** The filters of a route *)

Inductive FilterConfigOverride : Type :=
  | LocalRateLimitOverride (rl : LocalRateLimit)
  | RbacOverride (rbac : option HttpRbac)
  | ExternalProcessorOverride (e : ExtProcPerRoute)
  | CorsPolicyOverride (cors : CorsConfig).

Record FilterOverride : Type := mk_override {
  override_disabled : bool;
  filter_settings : option FilterConfigOverride;
}.

Definition from_filter_override (value : FilterOverride) (filter_config : option ExternalProcessor) :
    option HttpFilterValue :=
  match filter_settings value with
  | Some (LocalRateLimitOverride rl) => Some (OtherFilter (rate_limit_from rl))
  | Some (RbacOverride (Some rbac)) => Some (RbacFilter rbac)
  | Some (RbacOverride None) => None
  | Some (ExternalProcessorOverride e) =>
    if ext_proc_disabled e then None
    else match filter_config with
         | Some conf => Some (OtherFilter (ext_proc_from conf e))
         | None => None
         end
  | Some (CorsPolicyOverride cors) => Some (CorsFilter (from_config cors))
  | None => None
  end.

Definition compile_route_http_filters (typed_per_filter_config : gmap str FilterOverride) (hcm_filters : list HttpFilter) :
    list HttpFilter :=
  (λ hcm_filter,
    match typed_per_filter_config !! name hcm_filter with
    | Some override_config =>
      mk_http_filter (name hcm_filter) (override_disabled override_config)
        (from_filter_override override_config (filter_config hcm_filter)) (filter_config hcm_filter)
    | None => hcm_filter
    end) <$> hcm_filters.

(** ** Requests through the filters *)

(** What a route does, and the changes of headers configured for it. *)
Context {Act F : Type}.

Record RouteEntry : Type := mk_entry {
  http_filters : list HttpFilter;
  route_mutations : Mutations F;
  route_action : Act;
}.

Notation CachedRoute := (RuntimeVirtualHost RouteEntry * RuntimeRoute RouteEntry * RouteMatchResult)%type.

Definition filters_of (route : CachedRoute) : list HttpFilter := http_filters (action route.1.2).

(** The configuration of routes and virtual hosts. *)
Record RouteConfig : Type := mk_route_config {
  config_match : RouteMatch;
  typed_per_filter_config : gmap str FilterOverride;
  config_mutations : Mutations F;
  config_action : Act;
}.

Record VirtualHostConfig : Type := mk_virtual_host_config {
  config_domains : list VirtualHost.MatchHost;
  config_routes : list RouteConfig;
}.

Definition runtime_route (hcm_filters : list HttpFilter) (route : RouteConfig) : RuntimeRoute RouteEntry :=
  mk_route (config_match route)
    (mk_entry (compile_route_http_filters (typed_per_filter_config route) hcm_filters) (config_mutations route)
      (config_action route)).

Definition runtime_virtual_host (hcm_filters : list HttpFilter) (vh : VirtualHostConfig) : RuntimeVirtualHost RouteEntry :=
  mk_virtual_host (config_domains vh) (runtime_route hcm_filters <$> config_routes vh).

(** [VirtualHostTable::compile]. *)
Definition compile_table (hcm_filters : list HttpFilter) (virtual_hosts : list VirtualHostConfig) :=
  VirtualHost.compile vh_domains (runtime_virtual_host hcm_filters <$> virtual_hosts).

(** The variables of the loop. *)
Record loop_state : Type := mk_loop {
  cached_route : option CachedRoute;
  filter_start_idx : nat;
  request : Request;
  active_filters : list HttpFilterValue;
  world : W;
}.

(** How the loop over the filters of one route ends. *)
Inductive pass : Type := AllContinue | Rerouted | Answered (r : Response).

Fixpoint run_filters (filters : list HttpFilter) (s : loop_state) : pass * loop_state :=
  match filters with
  | [] => (AllContinue, s)
  | filter :: filters =>
    let s := mk_loop (cached_route s) (S (filter_start_idx s)) (request s) (active_filters s) (world s) in
    if disabled filter then run_filters filters s
    else match filter_value filter with
         | None => run_filters filters s
         | Some filter_config =>
           let '((filter_value, req, filter_res), w) := filter_apply_request (new_from filter_config) (request s) (world s) in
           match filter_res with
           | Continue =>
             run_filters filters
               (mk_loop (cached_route s) (filter_start_idx s) req (active_filters s ++ [filter_value]) w)
           | DirectResponse r => (Answered r, mk_loop (cached_route s) (filter_start_idx s) req (active_filters s) w)
           | Reroute =>
             (Rerouted, mk_loop (cached_route s) (filter_start_idx s) req (active_filters s ++ [filter_value]) w)
           end
         end
  end.

Context (table : VirtualHost.VirtualHostTable (VH := RuntimeVirtualHost RouteEntry)).

Definition HOST : HeaderName := name_from_static (lit "host").
Definition route_of (req : Request) : option CachedRoute := match_request_route HOST table req.

(** The loop around it; nothing if [fuel] passes are not enough.  The answer is
    the filters', or nothing if the request goes on. *)
Fixpoint filter_loop (fuel : nat) (s : loop_state) : option (option Response * loop_state) :=
  match fuel with
  | O => None
  | S fuel =>
    match cached_route s with
    | None => Some (Some (synthetic NOT_FOUND), s)
    | Some chosen_route =>
      match run_filters (drop (filter_start_idx s) (filters_of chosen_route)) s with
      | (Answered r, s) => Some (Some r, s)
      | (Rerouted, s) =>
        filter_loop fuel (mk_loop (route_of (request s)) (filter_start_idx s) (request s) (active_filters s) (world s))
      | (AllContinue, s) => Some (None, s)
      end
    end
  end.

Definition initial (req : Request) (w : W) : loop_state := mk_loop (route_of req) 0 req [] w.

(** ** Responses *)

Fixpoint run_response (filters : list HttpFilterValue) (resp : Response) (w : W) : Response * W :=
  match filters with
  | [] => (resp, w)
  | filter :: filters =>
    let '((resp, filter_res), w) := filter_apply_response filter resp w in
    run_response filters (match filter_res with DirectResponse direct_response => direct_response | _ => resp end) w
  end.

Context (E : Type) (vh_mutations : RuntimeVirtualHost RouteEntry → Mutations F).
Context (render_request : F → Request → option HeaderValue) (render_response : F → Response → option HeaderValue).
(** The actions: whether it is a [Route], and what it answers or fails with. *)
Context (is_route : Act → bool).
Context (act : Act → CachedRoute → Request → W → result E Response * W).

Definition to_response (routing_state : RouteConfiguration F) (fuel : nat) (req : Request) (w : W) :
    option (result E Response * W) :=
  '(filter_response, s) ← filter_loop fuel (initial req w);
  let finish resp w := let '(resp, w) := run_response (reverse (active_filters s)) resp w in (Ok resp, w) in
  Some match cached_route s with
  | None => finish (synthetic NOT_FOUND) (world s)
  | Some cached =>
    let vh := vh_mutations cached.1.1 in
    let entry := action cached.1.2 in
    match filter_response with
    | Some response => finish (apply_mutations_on_response F render_response routing_state vh (route_mutations entry) response) (world s)
    | None =>
      let req := if is_route (route_action entry)
                 then apply_mutations_on_request F render_request routing_state vh (route_mutations entry) (request s) else request s in
      match act (route_action entry) cached req (world s) with
      | (Err e, w) => (Err e, w)
      | (Ok response, w) => finish (apply_mutations_on_response F render_response routing_state vh (route_mutations entry) response) w
      end
    end
  end.
End filters.
End HttpFilters.
