(* ===== verification/HttpFiltersSpec.v ===== *)
(** Filters: every request that goes on has passed every filter, in order, under
    the route in force, and the loop over them ends. *)

From S2P Require Import Prelude RustStr Http StringMatch VirtualHost VirtualHostSpec Route Rbac Cors HttpModifiers HttpFilters.
Import Http StringMatch Route Rbac Cors HttpFilters.

Module HttpFiltersSpec.

Section spec.
Context `{HttpLib, RegexLib, UrlLib, !CorsLib} {W : Type} `{!OtherFilters W} {Act F : Type}.
Context (hcm_filters : list HttpFilter) (virtual_hosts : list (VirtualHostConfig (Act := Act) (F := F))).
Notation table := (compile_table hcm_filters virtual_hosts).
Notation loop_state := (loop_state (W := W) (Act := Act) (F := F)).

(** ** Routes have the filters of the connection manager *)

Lemma route_filters req route :
  route_of table req = Some route → ∃ overrides, filters_of route = compile_route_http_filters overrides hcm_filters.
Proof.
  unfold route_of, match_request_route, compile_table. intros E.
  apply bind_Some in E as (host & _ & E). apply bind_Some in E as (vh & Hvh & E).
  apply VirtualHostSpec.select_elem in Hvh. apply list_elem_of_fmap in Hvh as (conf & -> & _).
  apply find_map_Some in E as (l1 & x & l2 & Hl & Hx & _). case_match; simplify_eq.
  assert (x ∈ routes (runtime_virtual_host hcm_filters conf)) as Hin by (rewrite Hl; set_solver).
  apply list_elem_of_fmap in Hin as (rc & -> & _). by eexists.
Qed.

(** ** Steps *)

(** One filter: skipped, or run with a decision that lets the request on. *)
Inductive filter_step : loop_state → loop_state → Prop :=
  | step_skip s route f :
    cached_route s = Some route → filters_of route !! filter_start_idx s = Some f →
    disabled f = true ∨ filter_value f = None →
    filter_step s (mk_loop (cached_route s) (S (filter_start_idx s)) (request s) (active_filters s) (world s))
  | step_continue s route f v v' req' w' :
    cached_route s = Some route → filters_of route !! filter_start_idx s = Some f →
    disabled f = false → filter_value f = Some v →
    filter_apply_request (new_from v) (request s) (world s) = ((v', req', Continue), w') →
    filter_step s (mk_loop (cached_route s) (S (filter_start_idx s)) req' (active_filters s ++ [v']) w')
  | step_reroute s route f v v' req' w' :
    cached_route s = Some route → filters_of route !! filter_start_idx s = Some f →
    disabled f = false → filter_value f = Some v →
    filter_apply_request (new_from v) (request s) (world s) = ((v', req', Reroute), w') →
    filter_step s (mk_loop (route_of table req') (S (filter_start_idx s)) req' (active_filters s ++ [v']) w').

Definition reroute (s : loop_state) : loop_state :=
  mk_loop (route_of table (request s)) (filter_start_idx s) (request s) (active_filters s) (world s).

(** A pass over the filters that are left is a sequence of steps. *)
Lemma run_filters_steps fs s route :
  cached_route s = Some route → fs = drop (filter_start_idx s) (filters_of route) →
  let '(p, s') := run_filters fs s in
  match p with
  | AllContinue => rtc filter_step s s' ∧ cached_route s' = Some route ∧ length (filters_of route) ≤ filter_start_idx s'
  | Rerouted => rtc filter_step s (reroute s') ∧ filter_start_idx s < filter_start_idx s' ≤ length (filters_of route)
  | Answered _ => True
  end.
Proof.
  revert s. induction fs as [|f fs IH]; intros s Hr Hfs; cbn [run_filters].
  - split; [constructor|]. split; [done|]. apply (f_equal length) in Hfs. rewrite length_drop in Hfs. simpl in Hfs. lia.
  - assert (filters_of route !! filter_start_idx s = Some f) as Hf.
    { replace (filter_start_idx s) with (filter_start_idx s + 0) by lia. by rewrite <-lookup_drop, <-Hfs. }
    assert (fs = drop (S (filter_start_idx s)) (filters_of route)) as Hfs'.
    { rewrite <-Nat.add_1_r, <-drop_drop, <-Hfs. by rewrite drop_0 || done. }
    assert (∀ s1, cached_route s1 = Some route → filter_start_idx s1 = S (filter_start_idx s) → filter_step s s1 →
      let '(p, s') := run_filters fs s1 in
      match p with
      | AllContinue => rtc filter_step s s' ∧ cached_route s' = Some route ∧ length (filters_of route) ≤ filter_start_idx s'
      | Rerouted => rtc filter_step s (reroute s') ∧ filter_start_idx s < filter_start_idx s' ≤ length (filters_of route)
      | Answered _ => True
      end) as Hnext.
    { intros s1 Hr1 Hi Hstep. specialize (IH s1 Hr1 ltac:(by rewrite Hi)). destruct (run_filters fs s1) as [[] s'];
        [|destruct IH as [? ?]|done]; intuition (eauto using rtc_l; lia). }
    destruct (disabled f) eqn:Hd; [apply Hnext; [done|done|]; eapply step_skip; eauto|].
    destruct (filter_value f) as [v|] eqn:Hv; [|apply Hnext; [done|done|]; eapply step_skip; eauto].
    cbn [request world cached_route filter_start_idx active_filters]. destruct (filter_apply_request (new_from v) (request s) (world s)) as [[[v' req'] d] w'] eqn:Ha.
    destruct d as [| |r]; [|split|done].
    + apply Hnext; [done|done|]. eapply (step_continue s); eauto.
    + apply rtc_once. eapply (step_reroute s); eauto.
    + cbn. apply lookup_lt_Some in Hf. lia.
Qed.

Lemma step_idx s t : filter_step s t → filter_start_idx t = S (filter_start_idx s).
Proof. by inversion 1. Qed.

(** A run that goes from one index to another takes a step at each between. *)
Lemma steps_cross s s' i :
  rtc filter_step s s' → filter_start_idx s ≤ i < filter_start_idx s' →
  ∃ t u, rtc filter_step s t ∧ filter_step t u ∧ rtc filter_step u s' ∧ filter_start_idx t = i.
Proof.
  induction 1 as [s|s t s' Hst Hts' IH]; intros Hi; [lia|]. pose proof (step_idx _ _ Hst) as Ht.
  destruct (decide (filter_start_idx s = i)) as [<-|Hne].
  - exists s, t. split_and!; [constructor|done..].
  - destruct IH as (t' & u & ? & ? & ? & ?); [lia|]. exists t', u. split_and!; eauto using rtc_l.
Qed.

(** ** The loop *)

Lemma filter_loop_steps fuel s s' :
  filter_loop table fuel s = Some (None, s') →
  rtc filter_step s s' ∧ ∃ route, cached_route s' = Some route ∧ length (filters_of route) ≤ filter_start_idx s'.
Proof.
  revert s. induction fuel as [|fuel IH]; intros s E; cbn [filter_loop] in E; [done|].
  destruct (cached_route s) as [route|] eqn:Hr; [|done].
  pose proof (run_filters_steps _ s route Hr eq_refl) as Hrun. destruct (run_filters _ s) as [[] s1]; [|..|done].
  - simplify_eq. destruct Hrun as (? & ? & ?). eauto.
  - destruct Hrun as [Hrun _]. apply IH in E as [Hs ?]. split; [|done]. by etrans.
Qed.

(** Every state has a route with the filters of the connection manager. *)
Definition routed (s : loop_state) : Prop :=
  ∀ route, cached_route s = Some route →
    ∃ overrides, filters_of route = compile_route_http_filters overrides hcm_filters.

Lemma step_routed s t : routed s → filter_step s t → routed t.
Proof. intros Hs. destruct 1; try exact Hs. intros route'. apply route_filters. Qed.

Lemma steps_routed s t : routed s → rtc filter_step s t → routed t.
Proof. intros Hs. induction 1; eauto using step_routed. Qed.

Lemma initial_routed req w : routed (initial table req w).
Proof. intros route. apply route_filters. Qed.

Lemma filter_loop_total fuel s :
  routed s → length hcm_filters - filter_start_idx s < fuel → is_Some (filter_loop table fuel s).
Proof.
  revert s. induction fuel as [|fuel IH]; intros s Hs Hf; [lia|]. cbn [filter_loop].
  destruct (cached_route s) as [route|] eqn:Hr; [|by eexists].
  pose proof (run_filters_steps _ s route Hr eq_refl) as Hrun. destruct (run_filters _ s) as [[] s1]; [by eexists| |by eexists].
  destruct Hrun as [_ Hi]. destruct (Hs _ Hr) as [o Ho].
  apply IH; [intros r; apply route_filters|]. rewrite Ho in Hi. unfold compile_route_http_filters in Hi.
  rewrite length_fmap in Hi. cbn. lia.
Qed.

(** C36: Handling a request always ends, however filters reroute it: each pass
    over the filters of a route uses up at least one of them, so one more pass
    than there are filters is enough. *)
Theorem filters_terminate E vhm rq rs is_route act rc req w :
  is_Some (to_response table E vhm rq rs is_route act rc (S (length hcm_filters)) req w).
Proof.
  unfold to_response. destruct (filter_loop_total (S (length hcm_filters)) (initial table req w)) as [[r s] Hl];
    [apply initial_routed|cbn; lia|]. rewrite Hl. by eexists.
Qed.

(** What a step says about the filter it is at. *)
Lemma step_passes s t :
  filter_step s t →
  ∃ route f, cached_route s = Some route ∧ filters_of route !! filter_start_idx s = Some f ∧
    (disabled f = false → ∀ v, filter_value f = Some v →
       ∀ r, (filter_apply_request (new_from v) (request s) (world s)).1.2 ≠ DirectResponse r).
Proof.
  destruct 1 as [s route f Hr Hf Hskip|s route f v v' req' w' Hr Hf Hd Hv Ha|s route f v v' req' w' Hr Hf Hd Hv Ha];
    exists route, f; (split; [done|]); (split; [done|]); intros Hd' x Hx r; [destruct Hskip; congruence|..];
    simplify_eq; by rewrite Ha.
Qed.

End spec.

(** ** Witnesses *)

Section witnesses.
#[local] Existing Instances assoc_http no_regex assoc_cors.
#[local] Instance no_query : UrlLib := λ _, [].
#[local] Instance no_others : OtherFilters () := {|
  other := Empty_set;
  other_new_from o := o;
  other_apply_request o := match o with end;
  other_apply_response o := match o with end;
  LocalRateLimit := Empty_set;
  ExternalProcessor := Empty_set;
  ExtProcPerRoute := Empty_set;
  rate_limit_from o := match o with end;
  ext_proc_from o := match o with end;
  ext_proc_disabled o := match o with end;
|}.

(** Access control that lets every request through. *)
Definition allow_all : HttpRbac := mk_http_rbac Allow {[ lit "all" := mk_http_policy [AnyRequest] [AnyRequest] ]}.
Definition one_filter : list HttpFilter := [mk_http_filter (lit "rbac") false (Some (RbacFilter allow_all)) None].
Definition one_host : list (VirtualHostConfig (Act := ()) (F := ())) :=
  [mk_virtual_host_config [VirtualHost.Wildcard]
    [mk_route_config route_match_default ∅ (HttpModifiers.mk_mutations _ [] [] [] []) ()]].
Definition get_request : Request :=
  mk_request (lit "GET") (mk_uri None None (Some (mk_pq (lit "/") None))) [(lit "host", lit "www.example.com")].

End witnesses.
End HttpFiltersSpec.
