(* ===== verification/HashPolicy.v ===== *)
(** Hash policies: what a request is hashed by for the balancers that need a
    hash (arion-lib/src/clusters/balancers/hash_policy.rs, and HashPolicy in
    arion-configuration/src/config/network_filters/http_connection_manager/route.rs). *)

From S2P Require Import Prelude RustStr Net Http.
Import Net Http.

Module HashPolicy.

(** The crate twox-hash with the [Hash] of the types that are hashed. *)
Class HasherLib `{HttpLib} : Type := {
  Hasher : Type;
  build_hasher : Hasher;
  hash_addr : SocketAddr → Hasher → Hasher;
  hash_value : HeaderValue → Hasher → Hasher;
  hash_str : str → Hasher → Hasher;
  finish : Hasher → Z;
}.

Section policies.
Context `{HttpLib, UrlLib, !HasherLib}.

Inductive PolicySpecifier : Type :=
  | SourceIp (on : bool)
  | HeaderPolicy (name : HeaderName)
  | QueryParameter (name : str).

Record HashPolicy : Type := mk_hash_policy {
  policy_specifier : PolicySpecifier;
  terminal : bool;
}.

Inductive HashPolicyResult : Type := Applied | Skipped | Terminal.

Definition hash_apply (p : HashPolicy) (hasher : Hasher) (req : Request) (src_addr : SocketAddr) :
    HashPolicyResult * Hasher :=
  let '(applied, hasher) :=
    match policy_specifier p with
    | SourceIp true => (true, hash_addr src_addr hasher)
    | SourceIp false => (false, hasher)
    | HeaderPolicy name =>
      match header_get (headers req) name with
      | Some value => (true, hash_value value hasher)
      | None => (false, hasher)
      end
    | QueryParameter name =>
      match uri_query (uri req) ≫= λ query, find (λ kv, bool_decide (kv.1 = name)) (parse_query query) with
      | Some (_, value) => (true, hash_str value hasher)
      | None => (false, hasher)
      end
    end in
  (if applied then (if terminal p then Terminal else Applied) else Skipped, hasher).

(** [try_fold]: the loop ends early at a terminal policy, with [inl]. *)
Fixpoint fold_policies (policies : list HashPolicy) (hasher : Hasher) (prev : bool) (req : Request)
    (src_addr : SocketAddr) : (() + bool) * Hasher :=
  match policies with
  | [] => (inr prev, hasher)
  | policy :: policies =>
    let '(result, hasher) := hash_apply policy hasher req src_addr in
    match result with
    | Applied => fold_policies policies hasher true req src_addr
    | Skipped => fold_policies policies hasher prev req src_addr
    | Terminal => (inl (), hasher)
    end
  end.

Definition compute (policies : list HashPolicy) (req : Request) (src_addr : SocketAddr) : option Z :=
  if decide (policies = []) then None
  else
    let '(result, hasher) := fold_policies policies build_hasher false req src_addr in
    match result with
    | inr applied => if applied then Some (finish hasher) else None
    | inl _ => Some (finish hasher)
    end.

(** ** What is hashed *)

Inductive attribute : Type :=
  | AddrAttr (a : SocketAddr)
  | ValueAttr (v : HeaderValue)
  | TextAttr (s : str).

(** The attribute of a request that a policy looks at, if the request has it. *)
Definition attribute_of (p : HashPolicy) (req : Request) (src_addr : SocketAddr) : option attribute :=
  match policy_specifier p with
  | SourceIp on => if on then Some (AddrAttr src_addr) else None
  | HeaderPolicy name => ValueAttr <$> header_get (headers req) name
  | QueryParameter name =>
    TextAttr ∘ snd <$> (uri_query (uri req) ≫= λ query, find (λ kv, bool_decide (kv.1 = name)) (parse_query query))
  end.

Definition feed (hasher : Hasher) (a : attribute) : Hasher :=
  match a with
  | AddrAttr a => hash_addr a hasher
  | ValueAttr v => hash_value v hasher
  | TextAttr s => hash_str s hasher
  end.

(** The attributes that count: those the request has, up to a terminal one. *)
Fixpoint hashed (policies : list HashPolicy) (req : Request) (src_addr : SocketAddr) : list attribute :=
  match policies with
  | [] => []
  | p :: policies =>
    match attribute_of p req src_addr with
    | Some a => a :: (if terminal p then [] else hashed policies req src_addr)
    | None => hashed policies req src_addr
    end
  end.

Lemma hash_apply_feed p hasher req src_addr :
  hash_apply p hasher req src_addr =
  match attribute_of p req src_addr with
  | Some a => (if terminal p then Terminal else Applied, feed hasher a)
  | None => (Skipped, hasher)
  end.
Proof.
  unfold hash_apply, attribute_of. destruct (policy_specifier p) as [[]|name|name]; try done.
  - by destruct (header_get _ _).
  - by destruct (_ ≫= _) as [[]|].
Qed.

Lemma fold_policies_feed policies hasher prev req src_addr :
  let '(result, hasher') := fold_policies policies hasher prev req src_addr in
  hasher' = foldl feed hasher (hashed policies req src_addr) ∧
  match result with
  | inl _ => hashed policies req src_addr ≠ []
  | inr applied => applied = prev || bool_decide (hashed policies req src_addr ≠ [])
  end.
Proof.
  revert hasher prev. induction policies as [|p ps IH]; intros hasher prev; cbn [fold_policies hashed foldl].
  { split; [done|]. by rewrite orb_false_r. }
  rewrite hash_apply_feed. destruct (attribute_of p req src_addr) as [a|]; [|apply IH].
  destruct (terminal p); [done|]. specialize (IH (feed hasher a) true).
  destruct (fold_policies ps _ _ _ _) as [result hasher']. destruct IH as [-> Hr]. split; [done|].
  destruct result; [done|]. rewrite Hr. by rewrite orb_true_r.
Qed.

(** The hash of a request is that of the attributes that count, and there is
    none if there are no such attributes. *)
Lemma compute_hashed policies req src_addr :
  compute policies req src_addr =
  match hashed policies req src_addr with
  | [] => None
  | l => Some (finish (foldl feed build_hasher l))
  end.
Proof.
  unfold compute. case_decide as Hp; [by subst|].
  pose proof (fold_policies_feed policies build_hasher false req src_addr) as Hf.
  destruct (fold_policies _ _ _ _ _) as [result hasher]. destruct Hf as [-> Hr].
  destruct result as [|applied]; [by destruct (hashed policies req src_addr)|]. rewrite Hr.
  by destruct (hashed policies req src_addr).
Qed.
End policies.
End HashPolicy.
