(* ===== verification/OverrideHost.v ===== *)
(** The balancer that lets a header choose the endpoint
    (arion-lib/src/clusters/balancers/override_host.rs). *)

From S2P Require Import Prelude RustStr Http Balancer Health HealthyLb DefaultLb.
Import Http Balancer Health HealthyLb DefaultLb.

Module OverrideHost.

Section override.
(** [fallback_update] is [BalancerType::update_health], and [parse_authority]
    the crate http's [Authority::from_str] with [as_str]. *)
Context `{HttpLib} {B E U : Type} `{Balancer B E, EndpointWithAuthority E, EndpointHealth E}.
Context (fallback_update : B → E → HealthStatus → U * B).
Context (parse_authority : str → option str).

Record OverrideEndpoint : Type := mk_override_endpoint {
  oe_endpoint : E;
  healthy : bool;
}.

Record OverrideHostLoadBalancer : Type := mk_override_host {
  header : HeaderName;
  fallback : B;
  endpoints : gmap str OverrideEndpoint;
}.

(** An endpoint for a request, and those to try after it. *)
Inductive HttpChannels : Type :=
  | Single (e : E)
  | MultiWithFailover (e : E) (failover : list E).

Definition add_endpoint (previous : option (gmap str OverrideEndpoint)) (m : gmap str OverrideEndpoint) (e : E) :
    gmap str OverrideEndpoint :=
  let key := authority e in
  let healthy := default (is_healthy (endpoint_health e)) (previous ≫= λ prev, healthy <$> prev !! key) in
  <[key := mk_override_endpoint e healthy]> m.

Definition override_build (header : HeaderName) (fallback : B) (localities : list (LocalityLbEndpoints E))
    (previous : option (gmap str OverrideEndpoint)) : OverrideHostLoadBalancer :=
  mk_override_host header fallback (foldl (add_endpoint previous) ∅ (localities ≫= DefaultLb.endpoints)).

Definition override_new (header : HeaderName) (fallback : B) (localities : list (LocalityLbEndpoints E)) :=
  override_build header fallback localities None.

Definition override_rebuild (b : OverrideHostLoadBalancer) (localities : list (LocalityLbEndpoints E)) :=
  override_build (header b) (fallback b) localities (Some (endpoints b)).

(** The endpoint a part of the header names, if it is one and healthy. *)
Definition named_endpoint (b : OverrideHostLoadBalancer) (raw : str) : option E :=
  let trimmed := Str.trim raw in
  if decide (trimmed = []) then None
  else
    authority ← parse_authority trimmed;
    entry ← endpoints b !! authority;
    if healthy entry then Some (oe_endpoint entry) else None.

Definition select_fallback (b : OverrideHostLoadBalancer) (hash : option Z) : option HttpChannels * OverrideHostLoadBalancer :=
  let '(answer, fb) := next_item (fallback b) hash in
  (Single <$> answer, mk_override_host (header b) fb (endpoints b)).

(** [None] is the error that there is no active endpoint. *)
Definition select_override (b : OverrideHostLoadBalancer) (header_value : HeaderValue) (fallback_hash : option Z) :
    option HttpChannels * OverrideHostLoadBalancer :=
  match to_str header_value with
  | None => select_fallback b fallback_hash
  | Some value_str =>
    match omap (named_endpoint b) (Str.split_char value_str Str.comma) with
    | primary :: rest => (Some (MultiWithFailover primary rest), b)
    | [] => select_fallback b fallback_hash
    end
  end.

Definition override_update_health (b : OverrideHostLoadBalancer) (e : E) (s : HealthStatus) : U * OverrideHostLoadBalancer :=
  let m := match endpoints b !! authority e with
           | Some entry => <[authority e := mk_override_endpoint (oe_endpoint entry) (is_healthy s)]> (endpoints b)
           | None => endpoints b
           end in
  let '(r, fb) := fallback_update (fallback b) e s in
  (r, mk_override_host (header b) fb m).

Definition override_next_item (b : OverrideHostLoadBalancer) (hash : option Z) : option E * OverrideHostLoadBalancer :=
  let '(answer, fb) := next_item (fallback b) hash in (answer, mk_override_host (header b) fb (endpoints b)).

(** ** Histories *)

Inductive override_op : Type :=
  | OpSelect (v : HeaderValue) (hash : option Z)
  | OpUpdate (e : E) (s : HealthStatus)
  | OpNext (hash : option Z)
  | OpRebuild (localities : list (LocalityLbEndpoints E)).

Definition override_run (b : OverrideHostLoadBalancer) (op : override_op) : OverrideHostLoadBalancer :=
  match op with
  | OpSelect v hash => (select_override b v hash).2
  | OpUpdate e s => (override_update_health b e s).2
  | OpNext hash => (override_next_item b hash).2
  | OpRebuild localities => override_rebuild b localities
  end.

(** What was last said about the health of an authority: by an update, or by
    the first configuration that has it.  An authority that a configuration
    drops is forgotten. *)
Definition last_health (a : str) (known : option bool) (op : override_op) : option bool :=
  match op with
  | OpUpdate e s => if decide (authority e = a) then (λ _, is_healthy s) <$> known else known
  | OpRebuild localities =>
    match last (filter (λ e, authority e = a) (localities ≫= DefaultLb.endpoints)) with
    | Some e => Some (default (is_healthy (endpoint_health e)) known)
    | None => None
    end
  | OpSelect _ _ | OpNext _ => known
  end.

Definition health_of (b : OverrideHostLoadBalancer) (a : str) : option bool := healthy <$> endpoints b !! a.

Lemma build_lookup previous m l a :
  foldl (add_endpoint previous) m l !! a =
  match last (filter (λ e, authority e = a) l) with
  | Some e => Some (mk_override_endpoint e
                (default (is_healthy (endpoint_health e)) (previous ≫= λ prev, healthy <$> prev !! a)))
  | None => m !! a
  end.
Proof.
  revert m. induction l as [|e l IH]; intros m; [done|]. cbn [foldl]. rewrite IH, filter_cons. unfold add_endpoint.
  case_decide as Ha; [|destruct (last _); [done|by rewrite lookup_insert_ne]].
  rewrite last_cons. destruct (last _); [done|]. by rewrite Ha, lookup_insert_eq.
Qed.

Lemma select_endpoints b v h : endpoints (select_override b v h).2 = endpoints b.
Proof.
  unfold select_override, select_fallback. destruct (next_item (fallback b) h) as [answer fb].
  repeat case_match; by simplify_eq.
Qed.

Lemma run_health b op a : health_of (override_run b op) a = last_health a (health_of b a) op.
Proof.
  unfold health_of. destruct op as [v h|e s|h|localities]; cbn [override_run last_health].
  - by rewrite select_endpoints.
  - unfold override_update_health. destruct (fallback_update _ _ _) as [r fb]. cbn [snd endpoints].
    case_decide as Ha; [subst a|]; destruct (endpoints b !! authority e) as [entry|] eqn:E1; cbn [fmap option_fmap option_map];
      rewrite ?lookup_insert_eq, ?lookup_insert_ne, ?E1 by done; done.
  - unfold override_next_item. by destruct (next_item _ _).
  - unfold override_rebuild, override_build. cbn [endpoints]. rewrite build_lookup. cbn [mbind option_bind].
    by destruct (last _).
Qed.

Lemma history_health b ops a :
  health_of (foldl override_run b ops) a = foldl (last_health a) (health_of b a) ops.
Proof. revert b. induction ops as [|op ops IH]; intros b; [done|]. cbn [foldl]. by rewrite IH, run_health. Qed.

(** The endpoints a header is answered with are those it names, in its
    order, without those that are unknown or whose last known health, through
    any requests, updates and new configurations, is bad; only if none is left
    does the fallback answer. *)
Theorem override_answers header fb localities ops v hash :
  let b := foldl override_run (override_new header fb localities) ops in
  let known a := foldl (last_health a) (health_of (override_new header fb localities) a) ops in
  match (select_override b v hash).1 with
  | Some (MultiWithFailover primary rest) =>
    ∃ s, to_str v = Some s ∧ primary :: rest = omap (named_endpoint b) (Str.split_char s Str.comma) ∧
      Forall (λ e, ∃ a raw, raw ∈ Str.split_char s Str.comma ∧ parse_authority (Str.trim raw) = Some a ∧
        oe_endpoint <$> endpoints b !! a = Some e ∧ known a = Some true) (primary :: rest)
  | answer =>
    answer = Single <$> (next_item (fallback b) hash).1 ∧
    ∀ s raw a, to_str v = Some s → raw ∈ Str.split_char s Str.comma → Str.trim raw ≠ [] →
      parse_authority (Str.trim raw) = Some a → known a ≠ Some true
  end.
Proof.
  cbv zeta. set (b := foldl override_run (override_new header fb localities) ops).
  assert (∀ a, foldl (last_health a) (health_of (override_new header fb localities) a) ops = health_of b a) as Hknown
    by (intros; symmetry; apply history_health).
  unfold select_override, select_fallback. destruct (next_item (fallback b) hash) as [answer fb'].
  destruct (to_str v) as [s|] eqn:Es; [|by destruct answer].
  destruct (omap (named_endpoint b) (Str.split_char s Str.comma)) as [|primary rest] eqn:Eo.
  - assert (∀ s' raw a, Some s = Some s' → raw ∈ Str.split_char s' Str.comma → Str.trim raw ≠ [] →
      parse_authority (Str.trim raw) = Some a →
      foldl (last_health a) (health_of (override_new header fb localities) a) ops ≠ Some true) as Hnone.
    { intros s' raw a [= <-] Hraw Htrim Hp Hh. rewrite Hknown in Hh. apply fmap_Some in Hh as (entry & Hentry & Hh).
      assert (oe_endpoint entry ∈ omap (named_endpoint b) (Str.split_char s Str.comma)) as Hin.
      { apply list_elem_of_omap. exists raw. split; [done|]. unfold named_endpoint. rewrite decide_False by done.
        rewrite Hp. cbn [mbind option_bind]. rewrite Hentry. cbn [mbind option_bind]. by rewrite <-Hh. }
      rewrite Eo in Hin. by apply elem_of_nil in Hin. }
    by destruct answer.
  - cbn [fst]. exists s. rewrite <-Eo. split; [done|]. split; [done|]. apply Forall_forall. intros e He.
    apply list_elem_of_omap in He as (raw & Hraw & He). unfold named_endpoint in He. case_decide; [done|].
    apply bind_Some in He as (a & Ha & He). apply bind_Some in He as (entry & Hentry & He). case_match eqn:Hh; simplify_eq.
    exists a, raw. split; [done|]. split; [done|]. rewrite Hknown. unfold health_of. rewrite Hentry. cbn. by rewrite Hh.
Qed.
End override.
End OverrideHost.
