(* ===== verification/UserRateLimit.v ===== *)
(** The rate limiter by user (arion-lib/src/listeners/http_connection_manager/
    user_rate_limiter.rs): a token bucket for each user, made when the user is
    first seen and removed by a cleaner. *)

From S2P Require Import Prelude RustStr Http TokenBucket.
Import Http TokenBucket.
Local Open Scope Z_scope.

Module UserRateLimit.

Definition CLEANER_TOKEN_BUCKET_IDLE : Z := 60 * nanos_per_sec.
Definition MAX_USER_ID_LENGTH : nat := 256.

(** The configured bucket of a [LocalRateLimit]. *)
Record BucketConfig : Type := mk_bucket_config {
  config_max_tokens : Z;
  config_tokens_per_fill : Z;
  config_fill_interval : Z;
}.

Record SimpleRateLimit : Type := mk_simple { simple_max_tokens : Z; rate : Z }.

Inductive Limit : Type :=
  | LocalLimit (token_bucket : option BucketConfig)
  | SimpleLimit (s : SimpleRateLimit).

Section limiter.
Context `{HttpLib}.
(** The name of the header, as [HeaderMap::get] of the crate http reads it. *)
Context (header_name : str → option HeaderName).

Record UserRateLimiter : Type := mk_user_rate_limiter {
  user_status : Z;
  user_id_header : str;
  user_rate_limits : gmap (option str) Limit;
}.

(** [USER_RATE_LIMITERS], which all filters share. *)
Notation buckets := (gmap str TokenBucket).

Definition user_of (l : UserRateLimiter) (request : Request) : option str :=
  name ← header_name (user_id_header l);
  v ← header_get (headers request) name;
  s ← to_str v;
  if bool_decide (s ≠ []) && bool_decide (length s <= MAX_USER_ID_LENGTH)%nat then Some s else None.

Definition limit_for (l : UserRateLimiter) (user : str) : option Limit :=
  match user_rate_limits l !! Some user with
  | Some limit => Some limit
  | None => user_rate_limits l !! None
  end.

(** The new bucket at time [made]; nothing if none is configured. *)
Definition bucket_for (limit : Limit) (made : Z) : outcome (option TokenBucket) :=
  match limit with
  | LocalLimit None => Return None
  | LocalLimit (Some tb) =>
    b ← bucket_new (config_max_tokens tb) (config_tokens_per_fill tb) (config_fill_interval tb) made; Return (Some b)
  | SimpleLimit s =>
    match with_rate_and_capacity (simple_max_tokens s) (rate s) made with
    | Ok b => b ← b; Return (Some b)
    | Err _ => Return None
    end
  end.

(** A token of the user's bucket [b]. *)
Definition take_token (l : UserRateLimiter) (m : buckets) (user : str) (b : TokenBucket) (now : Z) :
    outcome (FilterDecision * buckets) :=
  '(allowed, b) ← consume b now 1;
  Return (if allowed : bool then Continue else DirectResponse (user_status l), <[user := b]> m).

(** [made] and [now] are the times at which a bucket is made and used. *)
Definition user_apply_request (l : UserRateLimiter) (m : buckets) (made now : Z) (request : Request) :
    outcome (FilterDecision * buckets) :=
  match user_of l request with
  | None => Return (Continue, m)
  | Some user =>
    match m !! user with
    | Some tb => take_token l m user tb now
    | None =>
      match limit_for l user with
      | None => Return (Continue, m)
      | Some limit =>
        new_bucket ← bucket_for limit made;
        match new_bucket with
        | None => Return (Continue, m)
        | Some tb => take_token l m user tb now
        end
      end
    end
  end.

(** [last_consume] is the time the bucket keeps. *)
Definition last_consume (b : TokenBucket) : Z := time b.

(** One round of the cleaner. *)
Definition clean (m : buckets) (now : Z) : buckets :=
  filter (λ e, now - last_consume e.2 < CLEANER_TOKEN_BUCKET_IDLE) m.

(** ** Histories of one limiter *)

Inductive user_event : Type :=
  | Arrive (request : Request) (made now : Z)
  | Clean (now : Z).

Fixpoint user_run (l : UserRateLimiter) (m : buckets) (events : list user_event) : outcome (list FilterDecision) :=
  match events with
  | [] => Return []
  | Arrive request made now :: events =>
    '(decision, m) ← user_apply_request l m made now request;
    decisions ← user_run l m events;
    Return (decision :: decisions)
  | Clean now :: events => user_run l (clean m now) events
  end.

Definition is_arrival (e : user_event) : Prop := match e with Arrive _ _ _ => True | Clean _ => False end.
#[global] Instance is_arrival_dec e : Decision (is_arrival e).
Proof. destruct e; apply _. Defined.

(** The clock does not go back. *)
Fixpoint in_order (t : Z) (events : list user_event) : Prop :=
  match events with
  | [] => True
  | Arrive _ made now :: events => t <= made <= now ∧ in_order now events
  | Clean now :: events => t <= now ∧ in_order now events
  end.

(** ** Buckets of one configuration *)

(** The time per token and per bucket and the capacity of a new bucket. *)
Definition bucket_params (b : TokenBucket) : Z * Z * Z := (time_per_token b, time_per_bucket b, max_tokens b).

Lemma bucket_new_shape a c d t b :
  bucket_new a c d t = Return b →
  time b = default t (instant_checked_sub t (2 * time_per_bucket b)) ∧
  ∀ t', ∃ b', bucket_new a c d t' = Return b' ∧ bucket_params b' = bucket_params b.
Proof.
  unfold bucket_new. destruct (duration_mul d a) as [total|]; [|done]. cbn [mbind outcome_bind].
  destruct (duration_div total c) as [tpb|]; [|done]. cbn [mbind outcome_bind].
  destruct (duration_mul tpb 2) as [twice|] eqn:E2; [|done]. cbn [mbind outcome_bind].
  destruct (duration_div d c) as [tpt|]; [|done]. cbn [mbind outcome_bind]. intros [= <-]. cbn [time time_per_bucket].
  split; [|intros t'; by eexists]. unfold duration_mul, duration_checked_mul in E2.
  case_match eqn:E3; [|done]. case_match; simplify_eq. do 2 f_equal. lia.
Qed.

Lemma bucket_for_shape limit t b :
  bucket_for limit t = Return (Some b) →
  time b = default t (instant_checked_sub t (2 * time_per_bucket b)) ∧
  ∀ t', ∃ b', bucket_for limit t' = Return (Some b') ∧ bucket_params b' = bucket_params b.
Proof.
  assert (∀ a c d, (b0 ← bucket_new a c d t; Return (Some b0)) = Return (Some b) → bucket_new a c d t = Return b) as Hinv.
  { intros a c d. destruct (bucket_new a c d t); cbn [mbind outcome_bind]; congruence. }
  assert (∀ a c d, bucket_new a c d t = Return b →
    time b = default t (instant_checked_sub t (2 * time_per_bucket b)) ∧
    ∀ t', ∃ b', (b0 ← bucket_new a c d t'; Return (Some b0)) = Return (Some b') ∧ bucket_params b' = bucket_params b) as Hshape.
  { intros a c d (Ht & Hb)%bucket_new_shape. split; [done|]. intros t'. destruct (Hb t') as (b' & -> & ?). by exists b'. }
  destruct limit as [[tb|]|s]; cbn [bucket_for]; [intros Hn%Hinv; by apply Hshape|done|].
  unfold with_rate_and_capacity. destruct (simple_max_tokens s =? 0); [done|]. destruct (rate s =? 0); [done|].
  destruct (duration_div nanos_per_sec (rate s)) as [d|]; [|done]. cbn [mbind outcome_bind].
  intros Hn%Hinv. by apply Hshape.
Qed.

(** ** Removing a full bucket cannot be seen *)

(** No request was granted for as long as it takes to fill the bucket. *)
Definition full (b : TokenBucket) (now : Z) : Prop := time b <= now - time_per_bucket b.

Lemma full_later b t t' : full b t → t <= t' → full b t'.
Proof. unfold full. lia. Qed.

Lemma full_consume b1 b2 now :
  full b1 now → full b2 now → bucket_params b1 = bucket_params b2 → instant_min <= now - time_per_bucket b2 →
  match consume b1 now 1, consume b2 now 1 with
  | Return (g1, c1), Return (g2, c2) => g1 = g2 ∧ (c1 = c2 ∨ c1 = b1 ∧ c2 = b2)
  | Panic, Panic => True
  | _, _ => False
  end.
Proof.
  unfold full, consume, min_time, instant_checked_sub, attempt. destruct b1 as [t1 tpt tpb mx], b2 as [t2 ? ? ?].
  cbn [time time_per_token time_per_bucket max_tokens]. intros H1 H2 [= <- <- <-] Hmin.
  rewrite (proj2 (Z.leb_le _ _)) by done. cbn [from_option id default].
  destruct (duration_mul tpt 1) as [d|]; [|done]. cbn [mbind outcome_bind].
  replace (if t1 <? now - tpb then now - tpb else t1) with (now - tpb) by (destruct (Z.ltb_spec t1 (now - tpb)); lia).
  replace (if t2 <? now - tpb then now - tpb else t2) with (now - tpb) by (destruct (Z.ltb_spec t2 (now - tpb)); lia).
  destruct (instant_add (now - tpb) d) as [nt|]; [|done]. cbn [mbind outcome_bind]. destruct (now <? nt); auto.
Qed.

Section simulation.
Context (l : UserRateLimiter).

(** The buckets the limiter makes fill up before the cleaner takes them. *)
Definition quick_refill : Prop :=
  ∀ user limit t b, limit_for l user = Some limit → bucket_for limit t = Return (Some b) →
    0 <= time_per_bucket b <= CLEANER_TOKEN_BUCKET_IDLE.
Context (Hquick : quick_refill).

Definition made_for (user : str) (b : TokenBucket) : Prop :=
  ∃ limit t b0, limit_for l user = Some limit ∧ bucket_for limit t = Return (Some b0) ∧ bucket_params b = bucket_params b0.

Lemma made_for_range user b : made_for user b → 0 <= time_per_bucket b <= CLEANER_TOKEN_BUCKET_IDLE.
Proof.
  intros (limit & t & b0 & Hl & Hb & Hp). specialize (Hquick _ _ _ _ Hl Hb). unfold bucket_params in Hp.
  injection Hp as _ -> _. done.
Qed.

(** The bucket of a user with the cleaner at work and without it. *)
Definition same_bucket (now : Z) (user : str) (o1 o2 : option TokenBucket) : Prop :=
  (∀ b, o2 = Some b → made_for user b) ∧
  (o1 = o2 ∨ ∃ b2, o2 = Some b2 ∧ full b2 now ∧
     (o1 = None ∨ ∃ b1, o1 = Some b1 ∧ full b1 now ∧ bucket_params b1 = bucket_params b2)).

Definition same_buckets (now : Z) (m1 m2 : buckets) : Prop := ∀ user, same_bucket now user (m1 !! user) (m2 !! user).

Lemma same_bucket_later t t' user o1 o2 : same_bucket t user o1 o2 → t <= t' → same_bucket t' user o1 o2.
Proof.
  intros [Hm [->|(b2 & -> & Hf & H1)]] Ht; split; [done|by left|done|]. right. exists b2. split; [done|].
  split; [by eapply full_later|]. destruct H1 as [->|(b1 & -> & Hf1 & ?)]; [by left|]. right. exists b1.
  split; [done|]. split; [by eapply full_later|done].
Qed.

Lemma clean_same t now m1 m2 : same_buckets t m1 m2 → t <= now → same_buckets now (clean m1 now) m2.
Proof.
  intros Hs Ht user. pose proof (same_bucket_later _ now _ _ _ (Hs user) Ht) as [Hm Hc]. split; [done|].
  unfold clean. rewrite map_lookup_filter. destruct (m1 !! user) as [b1|] eqn:E1; cbn [mbind option_bind]; [|done].
  case_guard as Hidle; cbn [mbind option_bind]; [done|]. right. cbn [snd last_consume] in Hidle. unfold last_consume in Hidle.
  assert (∀ b, made_for user b → time b <= now - CLEANER_TOKEN_BUCKET_IDLE → full b now) as Hfull.
  { intros b Hb Htime. pose proof (made_for_range _ _ Hb). unfold full. lia. }
  destruct Hc as [Heq|(b2 & Hb2 & Hf2 & _)]; [|by exists b2; auto].
  exists b1. split; [done|]. split; [|by left]. apply Hfull; [by apply Hm|lia].
Qed.

(** Taking a token from corresponding buckets. *)
Lemma take_token_same now m1 m2 user b1 b2 :
  0 <= now → made_for user b2 → same_buckets now m1 m2 →
  b1 = b2 ∨ full b1 now ∧ full b2 now ∧ bucket_params b1 = bucket_params b2 →
  match take_token l m1 user b1 now, take_token l m2 user b2 now with
  | Return (d1, m1'), Return (d2, m2') => d1 = d2 ∧ same_buckets now m1' m2'
  | Panic, Panic => True
  | _, _ => False
  end.
Proof.
  intros Hnow Hmade Hs Hb. unfold take_token.
  assert (∀ c1 c2, made_for user c2 → (c1 = c2 ∨ full c1 now ∧ full c2 now ∧ bucket_params c1 = bucket_params c2) →
    same_buckets now (<[user := c1]> m1) (<[user := c2]> m2)) as Hins.
  { intros c1 c2 Hc2 Hc u. destruct (decide (u = user)) as [->|Hu]; [|rewrite !lookup_insert_ne by done; apply Hs].
    rewrite !lookup_insert_eq. split; [intros ? [= <-]; done|]. destruct Hc as [->|(? & ? & ?)]; [by left|right].
    exists c2. split; [done|]. split; [done|]. right. by exists c1. }
  assert (∀ b now g c, consume b now 1 = Return (g, c) → bucket_params c = bucket_params b) as Hparams.
  { intros b t g c. unfold consume. destruct (duration_mul _ _); [|done]. cbn [mbind outcome_bind].
    destruct (attempt _ _ _ _) as [[]|]; [..|done]; intros [= <- <-]; done. }
  assert (∀ g c, consume b2 now 1 = Return (g, c) → made_for user c) as Hmade'.
  { intros g c Hc. destruct Hmade as (limit & t & b0 & ? & ? & ?). exists limit, t, b0. split; [done|]. split; [done|].
    by rewrite (Hparams _ _ _ _ Hc). }
  destruct Hb as [->|(Hf1 & Hf2 & Hp)].
  - destruct (consume b2 now 1) as [[g c]|] eqn:Ec; [|done]. cbn [mbind outcome_bind]. split; [done|].
    apply Hins; [by eapply Hmade'|by left].
  - pose proof (made_for_range _ _ Hmade) as Hrange. unfold CLEANER_TOKEN_BUCKET_IDLE, nanos_per_sec in Hrange.
    pose proof (full_consume b1 b2 now Hf1 Hf2 Hp ltac:(unfold instant_min, nanos_per_sec; lia)) as Hc.
    destruct (consume b1 now 1) as [[g1 c1]|] eqn:E1, (consume b2 now 1) as [[g2 c2]|] eqn:E2; try done.
    cbn [mbind outcome_bind]. destruct Hc as [-> Hc]. split; [done|]. apply Hins; [by eapply Hmade'|].
    destruct Hc as [->|[-> ->]]; auto.
Qed.

Lemma apply_request_same t made now m1 m2 request :
  0 <= t <= made → made <= now → same_buckets t m1 m2 →
  match user_apply_request l m1 made now request, user_apply_request l m2 made now request with
  | Return (d1, m1'), Return (d2, m2') => d1 = d2 ∧ same_buckets now m1' m2'
  | Panic, Panic => True
  | _, _ => False
  end.
Proof.
  intros Ht Hmade Hs0. assert (same_buckets now m1 m2) as Hs by (intros u; eapply same_bucket_later; [apply Hs0|lia]).
  unfold user_apply_request. destruct (user_of l request) as [user|]; [|done].
  pose proof (Hs user) as [Hm Hu].
  destruct (m2 !! user) as [b2|] eqn:E2.
  - pose proof (Hm b2 eq_refl) as Hfor. destruct Hu as [->|(b & [= <-] & Hf2 & Hu)]; [apply take_token_same; auto; lia|].
    destruct Hu as [->|(b1 & -> & Hf1 & Hp)]; [|apply take_token_same; auto; lia].
    pose proof Hfor as (limit & t0 & b0 & Hl & Hb & Hp0). rewrite Hl.
    destruct (bucket_for_shape _ _ _ Hb) as [_ Hany]. destruct (Hany made) as (b1 & Hb1 & Hp1). rewrite Hb1.
    cbn [mbind outcome_bind]. apply take_token_same; [lia|done|done|]. right. split_and!; [|done|by rewrite Hp1, Hp0].
    pose proof (Hquick _ _ _ _ Hl Hb1) as Hrange. destruct (bucket_for_shape _ _ _ Hb1) as [Htime _]. unfold full. rewrite Htime.
    unfold CLEANER_TOKEN_BUCKET_IDLE, nanos_per_sec in Hrange. unfold instant_checked_sub.
    rewrite (proj2 (Z.leb_le _ _)) by (unfold instant_min, nanos_per_sec; lia). cbn. lia.
  - destruct Hu as [->|(b2 & Hb2 & _)]; [|done]. destruct (limit_for l user) as [limit|] eqn:Hl; [|done].
    destruct (bucket_for limit made) as [[b|]|] eqn:Hb; cbn [mbind outcome_bind]; [|done|done].
    apply take_token_same; [lia| |done|by left]. by exists limit, made, b.
Qed.

Lemma user_run_same t events m1 m2 :
  0 <= t → in_order t events → same_buckets t m1 m2 → user_run l m1 events = user_run l m2 (filter is_arrival events).
Proof.
  revert t m1 m2. induction events as [|[request made now|now] events IH]; intros t m1 m2 Ht Ho Hs; [done| |].
  - destruct Ho as [Htimes Ho]. rewrite filter_cons_True by done. cbn [user_run].
    pose proof (apply_request_same t made now m1 m2 request ltac:(lia) ltac:(lia) Hs) as Ha.
    destruct (user_apply_request l m1 made now request) as [[d1 m1']|],
      (user_apply_request l m2 made now request) as [[d2 m2']|]; try done.
    destruct Ha as [-> Hs']. cbn [mbind outcome_bind]. by rewrite (IH now m1' m2') by (done || lia).
  - destruct Ho as [Htimes Ho]. rewrite filter_cons_False by (intros []). cbn [user_run].
    apply (IH now); [lia|done|]. by eapply clean_same.
Qed.
End simulation.

(** If every bucket fills up within a minute, the cleaner cannot be seen:
    the decisions about any sequence of requests are those of one bucket for
    each user that is never removed. *)
Theorem cleaning_unobservable l events :
  quick_refill l → in_order 0 events → user_run l ∅ events = user_run l ∅ (filter is_arrival events).
Proof.
  intros Hq Ho. apply (user_run_same l Hq 0); [lia|done|]. intros user. rewrite !lookup_empty. split; [done|by left].
Qed.

(** A bucket that takes longer to fill than the cleaner waits is removed
    although it was used a moment ago: what the cleaner takes for the time of
    the last use is the time up to which tokens are used up.  The user then
    starts with a full bucket again. *)
Theorem busy_user_forgotten l m user b now m' :
  full b now → instant_min <= now - time_per_bucket b →
  CLEANER_TOKEN_BUCKET_IDLE + time_per_token b <= time_per_bucket b →
  take_token l m user b now = Return (Continue, m') →
  clean m' now !! user = None.
Proof.
  intros Hfull Hmin Hslow E. unfold take_token, consume, min_time, instant_checked_sub, attempt, full in *.
  rewrite (proj2 (Z.leb_le _ _)) in E by done. cbn [from_option id default] in E.
  replace (if time b <? now - time_per_bucket b then now - time_per_bucket b else time b)
    with (now - time_per_bucket b) in E by (destruct (Z.ltb_spec (time b) (now - time_per_bucket b)); lia).
  destruct (duration_mul (time_per_token b) 1) as [d|] eqn:Ed; [|done]. cbn [mbind outcome_bind] in E.
  assert (d = time_per_token b) as ->.
  { unfold duration_mul, duration_checked_mul in Ed. destruct (_ <=? _); simplify_eq. lia. }
  unfold instant_add in E. destruct (_ <=? _); [|done]. cbn [mbind outcome_bind] in E. destruct (now <? _); [done|].
  simplify_eq.
  unfold clean. apply map_lookup_filter_None. right. intros c Hc. rewrite lookup_insert_eq in Hc. simplify_eq.
  unfold last_consume. cbn. lia.
Qed.
End limiter.

(** ** Witnesses *)

Section witnesses.
#[local] Existing Instance assoc_http.

Definition limiter (max_tokens rate : Z) : UserRateLimiter :=
  mk_user_rate_limiter 429 (lit "x-user") {[ None := SimpleLimit (mk_simple max_tokens rate) ]}.
Definition by_alice : Request := mk_request (lit "GET") (mk_uri None None None) [(lit "x-user", lit "alice")].
Definition at_second (t : Z) : user_event := Arrive by_alice (t * nanos_per_sec) (t * nanos_per_sec).

Lemma cleaning_unobservable_witness :
  let events := [at_second 1; at_second 1; at_second 1; Clean (70 * nanos_per_sec); at_second 70; at_second 70; at_second 70] in
  user_run Some (limiter 2 1) ∅ events = user_run Some (limiter 2 1) ∅ (filter is_arrival events) ∧
  user_run Some (limiter 2 1) ∅ events =
    Return [Continue; Continue; DirectResponse 429; Continue; Continue; DirectResponse 429].
Proof.
  intros events. split; [|vm_compute; reflexivity]. apply (cleaning_unobservable (H := assoc_http) Some (limiter 2 1) events).
  - intros user limit t b Hl Hb.
    assert (limit = SimpleLimit (mk_simple 2 1)) as ->.
    { unfold limit_for, limiter in Hl. cbn [user_rate_limits] in Hl. rewrite lookup_singleton_ne in Hl by discriminate.
      rewrite lookup_singleton_eq in Hl. congruence. }
    cbn in Hb. unfold with_rate_and_capacity, bucket_new in Hb. cbn in Hb.
    injection Hb as <-. vm_compute. split; discriminate.
  - vm_compute. repeat split; discriminate.
Defined.

(** How many requests are let through. *)
Definition let_through (r : outcome (list FilterDecision)) : option nat :=
  match r with
  | Return ds => Some (length (List.filter (λ d, match d with Continue => true | DirectResponse _ => false end) ds))
  | Panic => None
  end.

(** A bucket of 100 tokens, one of them a second: with the cleaner, 139 requests
    are let through within a second, without it 101. *)
Lemma busy_user_forgotten_witness :
  let b := mk_bucket 0 nanos_per_sec (100 * nanos_per_sec) 100 in
  let now := 1000 * nanos_per_sec in
  let m' := {[ lit "alice" := mk_bucket (901 * nanos_per_sec) nanos_per_sec (100 * nanos_per_sec) 100 ]} in
  clean m' now !! lit "alice" = None ∧
  let events := replicate 39 (at_second 1000) ++ [Clean (1001 * nanos_per_sec)] ++ replicate 101 (at_second 1001) in
  let_through (user_run Some (limiter 100 1) ∅ events) = Some 139%nat ∧
  let_through (user_run Some (limiter 100 1) ∅ (List.filter (λ e, bool_decide (is_arrival e)) events)) = Some 101%nat.
Proof.
  intros b now m'. split; [|split; vm_compute; reflexivity].
  apply (busy_user_forgotten (limiter 100 1) {[ lit "alice" := b ]} (lit "alice") b now m').
  - vm_compute. discriminate.
  - vm_compute. discriminate.
  - vm_compute. discriminate.
  - vm_compute. reflexivity.
Defined.
End witnesses.
End UserRateLimit.
