(* ===== verification/Xds.v ===== *)
(** The client of the delta xDS protocol: the data of
    arion-xds/src/xds/model.rs, the requests of arion-xds/src/xds/request.rs and
    the worker of arion-xds/src/xds/client.rs. *)

From S2P Require Import Prelude.
Local Open Scope Z_scope.

Module Xds.

Notation ResourceId := str (only parsing).
Notation ResourceVersion := str (only parsing).

(** ** Types of resources *)

Inductive TypeUrl : Type :=
  | TListener
  | TCluster
  | TRouteConfiguration
  | TClusterLoadAssignment
  | TSecret
  | TExtension (url : str).

#[global] Instance TypeUrl_eq_dec : EqDecision TypeUrl.
Proof. solve_decision. Defined.

#[global] Instance TypeUrl_countable : Countable TypeUrl.
Proof.
  refine (inj_countable'
    (λ t, match t with
          | TListener => inl 0%nat | TCluster => inl 1%nat | TRouteConfiguration => inl 2%nat
          | TClusterLoadAssignment => inl 3%nat | TSecret => inl 4%nat | TExtension url => inr url
          end)
    (λ c, match c with
          | inl 0%nat => TListener | inl 1%nat => TCluster | inl 2%nat => TRouteConfiguration
          | inl 3%nat => TClusterLoadAssignment | inl _ => TSecret | inr url => TExtension url
          end) _).
  by intros [].
Defined.

Definition LISTENER_URL : str := lit "type.googleapis.com/envoy.config.listener.v3.Listener".
Definition CLUSTER_URL : str := lit "type.googleapis.com/envoy.config.cluster.v3.Cluster".
Definition ROUTE_URL : str := lit "type.googleapis.com/envoy.config.route.v3.RouteConfiguration".
Definition ENDPOINT_URL : str := lit "type.googleapis.com/envoy.config.endpoint.v3.ClusterLoadAssignment".
Definition SECRET_URL : str := lit "type.googleapis.com/envoy.extensions.transport_sockets.tls.v3.Secret".

(** [Display for TypeUrl]. *)
Definition type_to_string (t : TypeUrl) : str :=
  match t with
  | TListener => LISTENER_URL
  | TCluster => CLUSTER_URL
  | TRouteConfiguration => ROUTE_URL
  | TClusterLoadAssignment => ENDPOINT_URL
  | TSecret => SECRET_URL
  | TExtension url => url
  end.

(** [From<&str> for TypeUrl]. *)
Definition type_from (s : str) : TypeUrl :=
  if bool_decide (s = LISTENER_URL) then TListener
  else if bool_decide (s = CLUSTER_URL) then TCluster
  else if bool_decide (s = ROUTE_URL) then TRouteConfiguration
  else if bool_decide (s = ENDPOINT_URL) then TClusterLoadAssignment
  else if bool_decide (s = SECRET_URL) then TSecret
  else TExtension s.

(** ** Errors *)

(** The errors of the worker; the texts of decoding and conversion errors are
    those of other crates. *)
Inductive XdsError : Type :=
  | GrpcStatus (code : Z) (message : str)
  | UnknownResourceType (s : str)
  | Decode (s : str)
  | MissingResource
  | InternalProcessingError (s : str)
  | BuilderFailed (s : str)
  | ConversionError (s : str).

(** [RejectedConfig], whose reason is always [RejectedReason::Custom]. *)
Record RejectedConfig : Type := mk_rejected { rejected_name : ResourceId; reason : str }.

(** [Display for RejectedConfig]. *)
Definition rejected_to_string (r : RejectedConfig) : str := rejected_name r ++ lit ": " ++ reason r.

(** [collect::<Vec<String>>().join("; ")]. *)
Fixpoint join_semicolon (l : list str) : str :=
  match l with
  | [] => []
  | [s] => s
  | s :: l => s ++ lit "; " ++ join_semicolon l
  end.

(** ** Messages of the protocol *)

Record Resource : Type := mk_resource {
  name : ResourceId;
  version : ResourceVersion;
  resource : option str;
}.

Record DeltaDiscoveryResponse : Type := mk_response {
  resources : list Resource;
  response_type_url : str;
  removed_resources : list ResourceId;
  nonce : str;
}.

Record Node : Type := mk_node { node_id : str; cluster_id : str }.

Record Status : Type := mk_status { code : Z; message : str }.

Record DeltaDiscoveryRequest : Type := mk_request {
  node : option Node;
  response_nonce : str;
  type_url : str;
  resource_names_subscribe : list ResourceId;
  resource_names_unsubscribe : list ResourceId;
  initial_resource_versions : gmap ResourceId ResourceVersion;
  error_detail : option Status;
}.

(** *** [StatusBuilder] *)

Definition unspecified_error : Status := mk_status 2 [].
Definition invalid_argument : Status := mk_status 3 [].
Definition with_message (b : Status) (m : str) : Status := mk_status (code b) m.

(** *** [DeltaDiscoveryRequestBuilder] *)

Record RequestBuilder : Type := mk_builder {
  b_node : option Node;
  b_nounce : option str;
  b_type_url : TypeUrl;
  b_error_detail : option Status;
  b_subscribe : list ResourceId;
  b_unsubscribe : list ResourceId;
  b_initial_versions : gmap ResourceId ResourceVersion;
}.

Definition for_resource (t : TypeUrl) : RequestBuilder := mk_builder None None t None [] [] ∅.
Definition with_node_id (n : Node) (b : RequestBuilder) : RequestBuilder :=
  mk_builder (Some n) (b_nounce b) (b_type_url b) (b_error_detail b) (b_subscribe b) (b_unsubscribe b) (b_initial_versions b).
Definition with_nounce (n : str) (b : RequestBuilder) : RequestBuilder :=
  mk_builder (b_node b) (Some n) (b_type_url b) (b_error_detail b) (b_subscribe b) (b_unsubscribe b) (b_initial_versions b).
Definition with_resource_names_subscribe (l : list ResourceId) (b : RequestBuilder) : RequestBuilder :=
  mk_builder (b_node b) (b_nounce b) (b_type_url b) (b_error_detail b) l (b_unsubscribe b) (b_initial_versions b).
Definition with_resource_names_unsubscribe (l : list ResourceId) (b : RequestBuilder) : RequestBuilder :=
  mk_builder (b_node b) (b_nounce b) (b_type_url b) (b_error_detail b) (b_subscribe b) l (b_initial_versions b).
Definition with_initial_resource_versions (m : gmap ResourceId ResourceVersion) (b : RequestBuilder) : RequestBuilder :=
  mk_builder (b_node b) (b_nounce b) (b_type_url b) (b_error_detail b) (b_subscribe b) (b_unsubscribe b) m.
Definition with_error_detail (e : option Status) (b : RequestBuilder) : RequestBuilder :=
  mk_builder (b_node b) (b_nounce b) (b_type_url b) e (b_subscribe b) (b_unsubscribe b) (b_initial_versions b).

Definition build_request (b : RequestBuilder) : DeltaDiscoveryRequest :=
  mk_request (b_node b) (default [] (b_nounce b)) (type_to_string (b_type_url b))
    (b_subscribe b) (b_unsubscribe b) (b_initial_versions b) (b_error_detail b).

(** ** Resources

    The generated decoders of the protocol's messages and the conversions of
    what they decode to the configuration are parameters. *)

Class Payloads : Type := {
  Listener : Type;
  Cluster : Type;
  RouteConfiguration : Type;
  ClusterLoadAssignment : Type;
  Secret : Type;
  decode_listener : str → result XdsError Listener;
  decode_cluster : str → result XdsError Cluster;
  decode_route : str → result XdsError RouteConfiguration;
  decode_endpoints : str → result XdsError ClusterLoadAssignment;
  decode_secret : str → result XdsError Secret;
  (** The text of an error under [Debug]. *)
  debug_error : XdsError → str;
}.

Inductive XdsResourcePayload `{Payloads} : Type :=
  | PListener (id : ResourceId) (l : Listener)
  | PCluster (id : ResourceId) (c : Cluster)
  | PEndpoints (id : ResourceId) (c : ClusterLoadAssignment)
  | PRouteConfiguration (id : ResourceId) (r : RouteConfiguration)
  | PSecret (id : ResourceId) (s : Secret)
  | PExtension (id : ResourceId) (url : str) (bytes : str).

Inductive XdsResourceUpdate `{Payloads} : Type :=
  | Update (id : ResourceId) (payload : XdsResourcePayload) (v : ResourceVersion)
  | Remove (id : ResourceId) (t : TypeUrl).

Section client.
Context `{Payloads}.

(** [XdsResourceUpdate::id]. *)
Definition update_id (u : XdsResourceUpdate) : ResourceId :=
  match u with Update id _ _ | Remove id _ => id end.

(** [TryFrom<(Resource, TypeUrl)> for XdsResourcePayload]. *)
Definition payload_try_from (r : Resource) (t : TypeUrl) : result XdsError XdsResourcePayload :=
  match resource r with
  | None => Err MissingResource
  | Some bytes =>
    match t with
    | TListener => PListener (name r) <$> decode_listener bytes
    | TCluster => PCluster (name r) <$> decode_cluster bytes
    | TRouteConfiguration => PRouteConfiguration (name r) <$> decode_route bytes
    | TClusterLoadAssignment => PEndpoints (name r) <$> decode_endpoints bytes
    | TSecret => PSecret (name r) <$> decode_secret bytes
    | TExtension url => Ok (PExtension (name r) url bytes)
    end
  end.

(** [decode_pending_updates]: all decode, or the errors. *)
Definition decode_error (r : Resource) (e : XdsError) : RejectedConfig :=
  mk_rejected (name r)
    (lit "problem decoding config update for " ++ name r ++ lit " : error Some(" ++ debug_error e ++ lit ")").

Fixpoint decode_loop (t : TypeUrl) (rs : list Resource) : list XdsResourceUpdate * list RejectedConfig :=
  match rs with
  | [] => ([], [])
  | r :: rs =>
    let '(us, es) := decode_loop t rs in
    match payload_try_from r t with
    | Ok p => (Update (name r) p (version r) :: us, es)
    | Err e => (us, decode_error r e :: es)
    end
  end.

Definition decode_pending_updates (response : DeltaDiscoveryResponse) (t : TypeUrl)
    : result (list RejectedConfig) (list XdsResourceUpdate) :=
  match decode_loop t (resources response) with
  | (us, []) => Ok us
  | (_, es) => Err es
  end.

(** [extract_update_versions]: a later update of a resource replaces an earlier
    one. *)
Definition extract_update_versions (us : list XdsResourceUpdate) : gmap ResourceId ResourceVersion :=
  foldl (λ m u, match u with Update id _ v => <[id := v]> m | Remove _ _ => m end) ∅ us.

(** ** The worker *)

(** Durations in seconds. *)
Definition INITIAL_BACKOFF : Z := 1.
Definition MAX_BACKOFF : Z := 20.
Definition BACKOFF_INTERVAL : Z := 2.

Record DiscoveryClientState : Type := mk_state {
  backoff : Z;
  tracked : gmap TypeUrl (gmap ResourceId ResourceVersion);
  subscriptions : gmap TypeUrl (gset ResourceId);
}.

Definition reset_backoff (s : DiscoveryClientState) : DiscoveryClientState :=
  mk_state INITIAL_BACKOFF (tracked s) (subscriptions s).

Inductive SubscriptionEvent : Type :=
  | Subscribe (t : TypeUrl) (id : ResourceId)
  | Unsubscribe (t : TypeUrl) (id : ResourceId).

(** The requests that were passed to the outbound stream of a connection;
    after the stream has been dropped the channel to it refuses. *)
Record Outbound : Type := mk_outbound { open : bool; sent : list DeltaDiscoveryRequest }.

Definition send (o : Outbound) (r : DeltaDiscoveryRequest) : result () () * Outbound :=
  if open o then (Ok (), mk_outbound true (sent o ++ [r])) else (Err (), o).

(** [process_resource_ids_for_removal]. *)
Definition process_resource_ids_for_removal (s : DiscoveryClientState) (response : DeltaDiscoveryResponse)
    (t : TypeUrl) : list ResourceId * DiscoveryClientState :=
  (removed_resources response,
   foldl (λ s id,
     match tracked s !! t with
     | Some rs => mk_state (backoff s) (<[t := delete id rs]> (tracked s)) (subscriptions s)
     | None => s
     end) s (removed_resources response)).

(** What becomes of a batch: the channel of the handler is closed, the handler
    answers with the configurations it rejects, it drops the acknowledgment, or
    it does not answer in time. *)
Inductive HandlerAnswer : Type :=
  | HandlerGone (e : str)
  | Acked (rejected : list RejectedConfig)
  | AckDropped
  | AckTimeout.

(** The binding's resource type, and the node. *)
Context (binding_type_url : option TypeUrl) (this_node : Node).

(** A batch, the type of the response it comes from, and its fate. *)
Record Batch : Type := mk_batch {
  batch_type : TypeUrl;
  updates : list XdsResourceUpdate;
  answer : HandlerAnswer;
}.

Definition ack_request (t : TypeUrl) (nonce : str) (e : option Status) : DeltaDiscoveryRequest :=
  build_request (with_error_detail e (with_nounce nonce (with_node_id this_node (for_resource t)))).

(** The pending versions become tracked when nothing was rejected. *)
Definition track (s : DiscoveryClientState) (t : TypeUrl) (pending : gmap ResourceId ResourceVersion)
    : DiscoveryClientState :=
  mk_state (backoff s) (<[t := pending ∪ default ∅ (tracked s !! t)]> (tracked s)) (subscriptions s).

(** [process_discovery_response]; the batch is what was handed to the handler. *)
Definition process_discovery_response (s : DiscoveryClientState) (o : Outbound)
    (response : DeltaDiscoveryResponse) (a : HandlerAnswer)
    : result XdsError () * DiscoveryClientState * Outbound * option Batch :=
  let t := type_from (response_type_url response) in
  let '(for_removal, s) := process_resource_ids_for_removal s response t in
  match decode_pending_updates response t with
  | Ok decoded_updates =>
    let pending_update_versions := extract_update_versions decoded_updates in
    let batched_updates := decoded_updates ++ ((λ id, Remove id t) <$> for_removal) in
    match a with
    | HandlerGone e => (Err (InternalProcessingError e), s, o, None)
    | Acked [] =>
      (Ok (), track s t pending_update_versions,
       (send o (ack_request t (nonce response) None)).2, Some (mk_batch t batched_updates a))
    | Acked rejected_configs =>
      let error_msg := join_semicolon (rejected_to_string <$> rejected_configs) in
      (Ok (), s,
       (send o (ack_request t (nonce response) (Some (with_message invalid_argument error_msg)))).2,
       Some (mk_batch t batched_updates a))
    | AckDropped => (Ok (), s, o, Some (mk_batch t batched_updates a))
    | AckTimeout =>
      let version_info := join_semicolon (map_to_list pending_update_versions).*1 in
      let error_msg := lit "timed out trying to apply resource updates for [" ++ version_info ++ lit "]" in
      (Ok (), s,
       (send o (ack_request t (nonce response) (Some (with_message unspecified_error error_msg)))).2,
       Some (mk_batch t batched_updates a))
    end
  | Err decoding_errors =>
    let error_msg := join_semicolon (rejected_to_string <$> decoding_errors) in
    (Ok (), s,
     (send o (ack_request t (nonce response) (Some (with_message invalid_argument error_msg)))).2, None)
  end.

(** [process_subscription_event]. *)
Definition process_subscription_event (s : DiscoveryClientState) (o : Outbound) (e : SubscriptionEvent)
    : DiscoveryClientState * Outbound :=
  match e with
  | Subscribe t id =>
    let ids := default ∅ (subscriptions s !! t) in
    let is_new := bool_decide (id ∉ ids) in
    (mk_state (backoff s) (tracked s) (<[t := {[ id ]} ∪ ids]> (subscriptions s)),
     if is_new
     then (send o (build_request (with_resource_names_subscribe [id] (with_node_id this_node (for_resource t))))).2
     else o)
  | Unsubscribe t id =>
    let ids := default ∅ (subscriptions s !! t) in
    let was_subscribed := bool_decide (id ∈ ids) in
    (mk_state (backoff s) (tracked s) (<[t := ids ∖ {[ id ]}]> (subscriptions s)),
     if was_subscribed
     then (send o (build_request (with_resource_names_unsubscribe [id] (with_node_id this_node (for_resource t))))).2
     else o)
  end.

(** [build_initial_discovery_requests]. *)
Definition resource_types : list TypeUrl :=
  match binding_type_url with
  | Some t => [t]
  | None => [TSecret; TCluster; TClusterLoadAssignment; TListener; TRouteConfiguration]
  end.

Definition initial_request (s : DiscoveryClientState) (t : TypeUrl) : DeltaDiscoveryRequest :=
  build_request
    (with_resource_names_subscribe (elements (default ∅ (subscriptions s !! t)))
      (with_initial_resource_versions (default ∅ (tracked s !! t)) (with_node_id this_node (for_resource t)))).

Definition build_initial_discovery_requests (s : DiscoveryClientState) : list DeltaDiscoveryRequest :=
  initial_request s <$> resource_types.

(** What wakes the loop of a connection: an event of a subscriber, a message of
    the server with the answer its batch gets, and, unseen by the loop, the end
    of the outbound stream. *)
Inductive Wakeup : Type :=
  | SubscriptionRecv (e : SubscriptionEvent)
  | Inbound (m : result (Z * str) (option DeltaDiscoveryResponse)) (a : HandlerAnswer)
  | OutboundDropped.

(** What a connection has done. *)
Record Connection : Type := mk_connection {
  state : DiscoveryClientState;
  outbound : Outbound;
  batches : list Batch;
}.

(** One turn of the [select!]: it goes on, or the connection ends with an error.
    The pattern of the inbound branch always matches, so that the [else] branch
    is not taken. *)
Definition turn (c : Connection) (w : Wakeup) : result XdsError () * Connection :=
  match w with
  | SubscriptionRecv e =>
    let '(s, o) := process_subscription_event (state c) (outbound c) e in
    (Ok (), mk_connection s o (batches c))
  | Inbound (Err (code, message)) _ => (Err (GrpcStatus code message), c)
  | Inbound (Ok None) _ => (Err (UnknownResourceType (lit "empty payload received")), c)
  | Inbound (Ok (Some response)) a =>
    let '(r, s, o, b) := process_discovery_response (state c) (outbound c) response a in
    (r, mk_connection s o (batches c ++ match b with Some b => [b] | None => [] end))
  | OutboundDropped => (Ok (), mk_connection (state c) (mk_outbound false (sent (outbound c))) (batches c))
  end.

(** The turns of a connection; it is still up when no turn has failed. *)
Fixpoint turns (c : Connection) (ws : list Wakeup) : result XdsError () * Connection :=
  match ws with
  | [] => (Ok (), c)
  | w :: ws => match turn c w with (Ok (), c) => turns c ws | r => r end
  end.

(** [continuously_discover_resources]: the call that opens the stream fails, or
    the loop runs. *)
Definition connected (s : DiscoveryClientState) : Connection :=
  mk_connection (reset_backoff s) (mk_outbound true (build_initial_discovery_requests s)) [].

Definition continuously_discover_resources (s : DiscoveryClientState) (call : result (Z * str) ())
    (ws : list Wakeup) : result XdsError () * Connection :=
  match call with
  | Err (code, message) => (Err (GrpcStatus code message), mk_connection s (mk_outbound false []) [])
  | Ok () => turns (connected s) ws
  end.

(** [persistently_connect] after the connection has ended: the new state and how
    long the worker sleeps. *)
Definition after_error (s : DiscoveryClientState) (e : XdsError) : DiscoveryClientState * Z :=
  match e with
  | GrpcStatus _ _ =>
    let backoff := Z.min MAX_BACKOFF (backoff s * 2) in
    (mk_state backoff (tracked s) (subscriptions s), backoff)
  | _ =>
    let backoff := Z.min MAX_BACKOFF (backoff s * 2) in
    let backoff_slowly := backoff + BACKOFF_INTERVAL in
    (mk_state backoff_slowly (tracked s) (subscriptions s), backoff_slowly)
  end.

Definition persistently_connect (s : DiscoveryClientState) (call : result (Z * str) ()) (ws : list Wakeup)
    : DiscoveryClientState * Connection * option Z :=
  match continuously_discover_resources s call ws with
  | (Err e, c) => let '(s, sleep) := after_error (state c) e in (s, c, Some sleep)
  | (Ok (), c) => (state c, c, None)
  end.

(** [run]: one attempt after the other. *)
Record Attempt : Type := mk_attempt { call : result (Z * str) (); wakeups : list Wakeup }.

Fixpoint run (s : DiscoveryClientState) (attempts : list Attempt)
    : DiscoveryClientState * list (Connection * option Z) :=
  match attempts with
  | [] => (s, [])
  | a :: attempts =>
    let '(s, c, sleep) := persistently_connect s (call a) (wakeups a) in
    let '(s, rest) := run s attempts in
    (s, (c, sleep) :: rest)
  end.

(** ** The builder *)

Record DiscoveryClientBuilder : Type := mk_client_builder {
  initial_subscriptions : gmap TypeUrl (gset ResourceId);
  error : option str;
}.

Definition client_builder_new : DiscoveryClientBuilder := mk_client_builder ∅ None.

Definition subscribe_resource_name_by_typeurl (b : DiscoveryClientBuilder) (id : ResourceId) (t : TypeUrl)
    : DiscoveryClientBuilder :=
  if match binding_type_url with None => true | Some set => bool_decide (set = t) end
  then mk_client_builder
         (<[t := {[ id ]} ∪ default ∅ (initial_subscriptions b !! t)]> (initial_subscriptions b)) (error b)
  else mk_client_builder (initial_subscriptions b)
         (Some (lit "can only subscribe by type_url when using a compatible typed binding")).

Definition subscribe_resource_name (b : DiscoveryClientBuilder) (id : ResourceId) : DiscoveryClientBuilder :=
  match binding_type_url with
  | Some t => subscribe_resource_name_by_typeurl b id t
  | None => mk_client_builder (initial_subscriptions b)
              (Some (lit "subscribe only works if typed binding provides a compatible type_url"))
  end.

(** [build] and the start of [run]: the state of a new worker. *)
Definition client_build (b : DiscoveryClientBuilder) : result XdsError DiscoveryClientState :=
  match error b with
  | Some e => Err (BuilderFailed e)
  | None => Ok (mk_state INITIAL_BACKOFF ∅ (initial_subscriptions b))
  end.

End client.
End Xds.
