(* ===== verification/XdsSpec.v ===== *)
(** What the xDS client promises to the server and to the data plane: the
    subscriptions the server sees, the versions the client reports, the answer to
    every response and the time between attempts. *)

From S2P Require Import Prelude Xds.
Import Xds.
Local Open Scope Z_scope.

Module XdsSpec.

(** ** Types of resources *)

(** A type whose text denotes it; an extension does not use the text of another
    type. *)
Definition wf_type (t : TypeUrl) : Prop := type_from (type_to_string t) = t.

Lemma wf_type_inj t t' : wf_type t → wf_type t' → type_to_string t = type_to_string t' → t = t'.
Proof. unfold wf_type. congruence. Qed.

Lemma type_to_string_from s : type_to_string (type_from s) = s.
Proof. unfold type_from. repeat case_bool_decide; by subst. Qed.

Section spec.
Context `{Payloads} (binding_type_url : option TypeUrl) (this_node : Node).

Notation turn := (turn this_node).
Notation turns := (turns this_node).
Notation connected := (connected binding_type_url this_node).
Notation run := (run binding_type_url this_node).
Notation persistently_connect := (persistently_connect binding_type_url this_node).
Notation process_discovery_response := (process_discovery_response this_node).
Notation process_subscription_event := (process_subscription_event this_node).

(** ** History *)

(** The wakeups a connection takes before it ends, and those of a run. *)
Fixpoint processed (c : Connection) (ws : list Wakeup) : list Wakeup :=
  match ws with
  | [] => []
  | w :: ws => w :: match turn c w with (Ok (), c) => processed c ws | _ => [] end
  end.

Fixpoint history (s : DiscoveryClientState) (attempts : list Attempt) : list Wakeup :=
  match attempts with
  | [] => []
  | a :: attempts =>
    match call a with Ok () => processed (connected s) (wakeups a) | Err _ => [] end ++
    history (persistently_connect s (call a) (wakeups a)).1.1 attempts
  end.

Lemma processed_up c ws c' : turns c ws = (Ok (), c') → processed c ws = ws.
Proof.
  revert c. induction ws as [|w ws IH]; intros c; [done|]. cbn [Xds.turns processed].
  destruct (turn c w) as [[[]|e] c1]; [|done]. intros. f_equal. eauto.
Qed.

(** What each turn does to a part of the state, a run does for its history. *)
Section projection.
Context {A : Type} (f : DiscoveryClientState → A) (g : A → Wakeup → A).
Hypothesis f_turn : ∀ c w, f (state (turn c w).2) = g (f (state c)) w.
Hypothesis f_backoff : ∀ b s, f (mk_state b (tracked s) (subscriptions s)) = f s.

Lemma turns_projection c ws : f (state (turns c ws).2) = foldl g (f (state c)) (processed c ws).
Proof.
  revert c. induction ws as [|w ws IH]; intros c; [done|]. cbn [Xds.turns processed foldl].
  specialize (f_turn c w). destruct (turn c w) as [[[]|e] c1]; simpl in *; rewrite <-f_turn; auto.
Qed.

Lemma attempt_projection s a :
  f (persistently_connect s (call a) (wakeups a)).1.1 =
  foldl g (f s) (match call a with Ok () => processed (connected s) (wakeups a) | Err _ => [] end).
Proof.
  assert (∀ s e, f (after_error s e).1 = f s) as Hafter by (intros ? []; apply f_backoff).
  destruct a as [[[]|[code m]] ws]; unfold Xds.persistently_connect, continuously_discover_resources; simpl.
  - pose proof (turns_projection (connected s) ws) as Ht.
    assert (f (state (connected s)) = f s) as <- by apply f_backoff.
    destruct (turns (connected s) ws) as [[[]|e] c]; simpl in *; [done|].
    rewrite <-Ht. specialize (Hafter (state c) e). by destruct (after_error (state c) e).
  - apply f_backoff.
Qed.

Lemma run_projection s attempts : f (run s attempts).1 = foldl g (f s) (history s attempts).
Proof.
  revert s. induction attempts as [|a attempts IH]; intros s; [done|].
  cbn [Xds.run history]. rewrite foldl_app, <-attempt_projection, <-IH.
  destruct (persistently_connect s (call a) (wakeups a)) as [[s1 c1] sl]. cbn [fst].
  by destruct (run s1 attempts).
Qed.
End projection.

(** ** Subscriptions *)

(** What the subscribers want of a type. *)
Definition wanted_step (t : TypeUrl) (v : gset str) (w : Wakeup) : gset str :=
  match w with
  | SubscriptionRecv (Subscribe t' id) => if decide (t' = t) then {[ id ]} ∪ v else v
  | SubscriptionRecv (Unsubscribe t' id) => if decide (t' = t) then v ∖ {[ id ]} else v
  | _ => v
  end.
Definition wanted (t : TypeUrl) (v : gset str) (ws : list Wakeup) : gset str := foldl (wanted_step t) v ws.

(** What the server takes the client to be subscribed to after the requests of
    a connection. *)
Definition view_step (t : str) (v : gset str) (r : DeltaDiscoveryRequest) : gset str :=
  if decide (type_url r = t)
  then (v ∪ list_to_set (resource_names_subscribe r)) ∖ list_to_set (resource_names_unsubscribe r)
  else v.
Definition server_view (t : str) (rs : list DeltaDiscoveryRequest) : gset str := foldl (view_step t) ∅ rs.

Definition subscribed (t : TypeUrl) (s : DiscoveryClientState) : gset str := default ∅ (subscriptions s !! t).

Definition event_type (w : Wakeup) : option TypeUrl :=
  match w with
  | SubscriptionRecv (Subscribe t _) | SubscriptionRecv (Unsubscribe t _) => Some t
  | _ => None
  end.

Definition wf_wakeup (w : Wakeup) : Prop := ∀ t, event_type w = Some t → wf_type t.

Lemma removal_state s response t :
  subscriptions (process_resource_ids_for_removal s response t).2 = subscriptions s ∧
  backoff (process_resource_ids_for_removal s response t).2 = backoff s.
Proof.
  unfold process_resource_ids_for_removal. simpl. generalize (removed_resources response) as ids.
  intros ids. revert s. induction ids as [|id ids IH]; intros s; [done|]. cbn [foldl].
  destruct (tracked s !! t); [|done]. destruct (IH (mk_state (backoff s) (<[t:=delete id g]> (tracked s)) (subscriptions s))) as [-> ->].
  done.
Qed.

(** A response changes neither the subscriptions nor the time. *)
Lemma response_state s o response a :
  subscriptions (process_discovery_response s o response a).1.1.2 = subscriptions s ∧
  backoff (process_discovery_response s o response a).1.1.2 = backoff s.
Proof.
  unfold Xds.process_discovery_response.
  pose proof (removal_state s response (type_from (response_type_url response))) as Hs.
  destruct (process_resource_ids_for_removal s response _) as [ids s1]. simpl in Hs.
  destruct (decode_pending_updates _ _); [|done]. by destruct a as [|[]| |].
Qed.

Lemma subscribed_turn t c w : subscribed t (state (turn c w).2) = wanted_step t (subscribed t (state c)) w.
Proof.
  destruct w as [[t' id|t' id]|[[response|]|[code m]] a|]; simpl; try done.
  - unfold subscribed. simpl. case_decide as Ht; [subst; by rewrite lookup_insert_eq|].
    by rewrite lookup_insert_ne.
  - unfold subscribed. simpl. case_decide as Ht; [subst; by rewrite lookup_insert_eq|].
    by rewrite lookup_insert_ne.
  - pose proof (response_state (state c) (outbound c) response a) as [Hs _].
    destruct (process_discovery_response _ _ _ _) as [[[r s] o] b]. simpl in *.
    unfold subscribed. by rewrite Hs.
Qed.

Lemma subscribed_run t s attempts : subscribed t (run s attempts).1 = wanted t (subscribed t s) (history s attempts).
Proof. apply run_projection; [apply subscribed_turn|done]. Qed.

(** *** The server's view *)

Lemma server_view_app t rs r : server_view t (rs ++ [r]) = view_step t (server_view t rs) r.
Proof. unfold server_view. by rewrite foldl_app. Qed.

Lemma view_ack t v t' n e : view_step t v (ack_request this_node t' n e) = v.
Proof. unfold view_step. simpl. case_decide; [set_solver|done]. Qed.

(** A response adds at most an acknowledgment. *)
Lemma response_sent s o response a :
  let o' := (process_discovery_response s o response a).1.2 in
  open o' = open o ∧
  (sent o' = sent o ∨ open o = true ∧ ∃ e, sent o' =
    sent o ++ [ack_request this_node (type_from (response_type_url response)) (nonce response) e]).
Proof.
  unfold Xds.process_discovery_response.
  destruct (process_resource_ids_for_removal s response _) as [ids s1].
  unfold send. destruct (decode_pending_updates _ _), (open o) eqn:Ho;
    try destruct a as [|[]| |]; simpl; eauto 6.
Qed.

Lemma view_response t s o response a :
  server_view t (sent (process_discovery_response s o response a).1.2) = server_view t (sent o).
Proof.
  destruct (response_sent s o response a) as [_ [->|(_ & e & ->)]]; [done|].
  by rewrite server_view_app, view_ack.
Qed.

(** As long as the outbound stream is up, a turn changes the view of a type as
    the subscribers want. *)
Lemma view_turn t c w :
  wf_type t → wf_wakeup w → open (outbound c) = true → w ≠ OutboundDropped →
  server_view (type_to_string t) (sent (outbound c)) = subscribed t (state c) →
  open (outbound (turn c w).2) = true ∧
  server_view (type_to_string t) (sent (outbound (turn c w).2)) = subscribed t (state (turn c w).2).
Proof.
  intros Ht Hw Ho Hd Hv. rewrite subscribed_turn.
  assert (∀ t', event_type w = Some t' → type_to_string t' = type_to_string t ↔ t' = t) as Hinj.
  { intros t' He. split; [|by intros ->]. apply wf_type_inj; [by apply Hw|done]. }
  destruct w as [[t' id|t' id]|[[response|]|[code m]] a|]; simpl in *; try done.
  - specialize (Hinj t' eq_refl). unfold send. rewrite Ho. case_bool_decide as Hid; simpl; split; try done.
    + rewrite server_view_app, Hv. unfold view_step. simpl. repeat case_decide; set_solver.
    + rewrite Hv. case_decide as E; [|done]. subst. unfold subscribed. set_solver.
  - specialize (Hinj t' eq_refl). unfold send. rewrite Ho. case_bool_decide as Hid; simpl; split; try done.
    + rewrite server_view_app, Hv. unfold view_step. simpl. repeat case_decide; set_solver.
    + rewrite Hv. case_decide as E; [|done]. subst. unfold subscribed. set_solver.
  - pose proof (response_sent (state c) (outbound c) response a) as [Ho' _].
    pose proof (view_response (type_to_string t) (state c) (outbound c) response a) as Hv'.
    destruct (process_discovery_response _ _ _ _) as [[[r s] o] b]. simpl in *. by rewrite Ho', Hv'.
Qed.

Lemma view_turns t c ws c' :
  wf_type t → Forall wf_wakeup ws → OutboundDropped ∉ ws → open (outbound c) = true →
  server_view (type_to_string t) (sent (outbound c)) = subscribed t (state c) →
  turns c ws = (Ok (), c') →
  server_view (type_to_string t) (sent (outbound c')) = subscribed t (state c').
Proof.
  intros Ht. revert c. induction ws as [|w ws IH]; intros c Hws Hd Ho Hv; cbn [Xds.turns].
  { by intros [= ->]. }
  apply Forall_cons in Hws as [Hw Hws]. apply not_elem_of_cons in Hd as [Hd Hds].
  destruct (view_turn t c w) as [Ho1 Hv1]; try done.
  destruct (turn c w) as [[[]|e] c1]; [|done]. simpl in *. eauto.
Qed.

(** *** The first requests *)

Lemma view_initial_other t s ts v :
  type_to_string t ∉ type_to_string <$> ts →
  foldl (view_step (type_to_string t)) v (initial_request this_node s <$> ts) = v.
Proof.
  revert v. induction ts as [|t' ts IH]; intros v Ht; [done|].
  rewrite fmap_cons in *. apply not_elem_of_cons in Ht as [Ht Hts]. cbn [foldl].
  unfold view_step at 2. rewrite decide_False; [auto|]. simpl. congruence.
Qed.

Lemma view_initial s t ts :
  Forall wf_type ts → NoDup ts → t ∈ ts →
  server_view (type_to_string t) (initial_request this_node s <$> ts) = subscribed t s.
Proof.
  intros Hwf Hnd Ht. destruct (list_elem_of_split _ _ Ht) as (ts1 & ts2 & ->).
  apply Forall_app in Hwf as [Hw1 [Hwt Hw2]%Forall_cons].
  apply NoDup_app in Hnd as (_ & Hd & [Hn2 _]%NoDup_cons).
  assert (∀ ts, Forall wf_type ts → t ∉ ts → type_to_string t ∉ type_to_string <$> ts) as Hne.
  { intros ts Hts Hin. rewrite list_elem_of_fmap. intros (t' & E & Ht').
    rewrite Forall_forall in Hts. apply wf_type_inj in E; [|done|by apply Hts]. by subst. }
  unfold server_view. rewrite fmap_app, fmap_cons, foldl_app. cbn [foldl].
  rewrite view_initial_other by (by apply Hne).
  unfold view_step at 1. rewrite decide_True by done. simpl.
  rewrite view_initial_other by (apply Hne; [done|intros Hin; apply (Hd t Hin); left]).
  unfold subscribed. set_solver.
Qed.

Definition wf_binding : Prop := ∀ t, binding_type_url = Some t → wf_type t.

Lemma resource_types_ok : wf_binding → Forall wf_type (resource_types binding_type_url) ∧ NoDup (resource_types binding_type_url).
Proof.
  unfold wf_binding, resource_types. intros Hb. destruct binding_type_url as [t|].
  - split; [|apply NoDup_singleton]. by apply Forall_singleton, Hb.
  - split; [by rewrite !Forall_cons|]. repeat constructor; set_solver.
Qed.

(** C7: the server knows what the subscribers want.  After any sequence of
    attempts, however they ended, a connection whose outbound stream is up has
    told the server, for each type it opens with, exactly the resources that all
    subscriptions and unsubscriptions so far leave, those of earlier connections
    included. *)
Theorem subscriptions_synced s attempts ws c t :
  wf_binding → t ∈ resource_types binding_type_url →
  Forall wf_wakeup ws → OutboundDropped ∉ ws →
  turns (connected (run s attempts).1) ws = (Ok (), c) →
  server_view (type_to_string t) (sent (outbound c)) =
  wanted t (subscribed t s) (history s attempts ++ ws).
Proof.
  intros Hb Ht Hws Hd Hc. pose proof (resource_types_ok Hb) as [Hwf Hnd].
  unfold wanted. rewrite foldl_app. fold (wanted t (subscribed t s) (history s attempts)).
  rewrite <-subscribed_run. pose proof (turns_projection (subscribed t) (wanted_step t) (subscribed_turn t)
    (connected (run s attempts).1) ws) as Hp.
  rewrite (processed_up _ _ _ Hc), Hc in Hp. simpl in Hp.
  change (subscribed t (reset_backoff (run s attempts).1)) with (subscribed t (run s attempts).1) in Hp.
  rewrite <-Hp. apply (view_turns t (connected (run s attempts).1) ws c); try done.
  - rewrite Forall_forall in Hwf. by apply Hwf.
  - exact (view_initial (run s attempts).1 t _ Hwf Hnd Ht).
Qed.

(** *** Types a connection does not open with *)

Lemma lost_turn t id c w c' r :
  wf_type t → wf_wakeup w → w ≠ SubscriptionRecv (Unsubscribe t id) →
  id ∈ subscribed t (state c) → id ∉ server_view (type_to_string t) (sent (outbound c)) →
  turn c w = (r, c') →
  id ∈ subscribed t (state c') ∧ id ∉ server_view (type_to_string t) (sent (outbound c')).
Proof.
  intros Ht Hw Hn Hin Hv Hc'. assert (c' = (turn c w).2) as -> by by rewrite Hc'.
  rewrite subscribed_turn. clear Hc'. split.
  { destruct w as [[t' i|t' i]|? ?|]; simpl; try case_decide; set_solver. }
  destruct w as [[t' i|t' i]|[[response|]|[code m]] a|]; simpl in *; try done.
  - unfold send. case_bool_decide as Hi; [|done]. destruct (open _); [|done]. simpl.
    rewrite server_view_app. unfold view_step. simpl. case_decide as E; [|done].
    apply wf_type_inj in E; [|by apply Hw|done]. subst. unfold subscribed in Hin. set_solver.
  - unfold send. case_bool_decide as Hi; [|done]. destruct (open _); [|done]. simpl.
    rewrite server_view_app. unfold view_step. simpl. case_decide; set_solver.
  - pose proof (view_response (type_to_string t) (state c) (outbound c) response a) as Hv'.
    destruct (process_discovery_response _ _ _ _) as [[[r' s] o] b]. simpl in *. by rewrite Hv'.
Qed.

(** A type the first requests leave out loses its subscriptions when the
    connection is renewed.  The aggregated client opens with five types; a
    resource of any other type that was subscribed to on an earlier connection
    stays subscribed in the client's state, so that a new subscription to it is
    not sent either, and the server never hears of it until it is unsubscribed
    from. *)
Theorem extension_subscription_lost s t id ws c :
  wf_binding → wf_type t → t ∉ resource_types binding_type_url →
  id ∈ subscribed t s → Forall wf_wakeup ws →
  SubscriptionRecv (Unsubscribe t id) ∉ ws →
  turns (connected s) ws = (Ok (), c) →
  id ∈ subscribed t (state c) ∧ id ∉ server_view (type_to_string t) (sent (outbound c)).
Proof.
  intros Hb Ht Hts Hin Hws Hn. pose proof (resource_types_ok Hb) as [Hwf _].
  assert (id ∉ server_view (type_to_string t) (sent (outbound (connected s)))) as Hv.
  { unfold server_view. simpl. unfold build_initial_discovery_requests. rewrite view_initial_other; [set_solver|].
    rewrite list_elem_of_fmap. intros (t' & E & Ht'). rewrite Forall_forall in Hwf.
    apply wf_type_inj in E; [|done|by apply Hwf]. by subst. }
  assert (id ∈ subscribed t (state (connected s))) as Hs by done. clear Hin.
  revert Hs Hv. generalize (connected s) as c0. induction ws as [|w ws IH]; intros c0 Hs Hv; cbn [Xds.turns].
  { by intros [= ->]. }
  apply Forall_cons in Hws as [Hw Hws]. apply not_elem_of_cons in Hn as [Hne Hn].
  destruct (turn c0 w) as [r c1] eqn:Hc1.
  destruct (lost_turn t id c0 w c1 r) as [Hs1 Hv1]; try done.
  destruct r as [[]|]; [|done]. by apply IH.
Qed.

(** ** Versions *)

(** A response that the data plane takes as a whole. *)
Definition decodes (response : DeltaDiscoveryResponse) : Prop :=
  Forall (λ r, ∃ p, payload_try_from r (type_from (response_type_url response)) = Ok p) (resources response).

Definition decodable (r : Resource) (t : TypeUrl) : bool :=
  match payload_try_from r t with Ok _ => true | Err _ => false end.

Definition accepted (response : DeltaDiscoveryResponse) (a : HandlerAnswer) : bool :=
  forallb (λ r, decodable r (type_from (response_type_url response))) (resources response) &&
  match a with Acked [] => true | _ => false end.

(** The version of the last of the resources with a name. *)
Definition last_version (id : str) (rs : list Resource) : option str :=
  find_map (λ r, if decide (name r = id) then Some (version r) else None) (reverse rs).

(** What a wakeup says of the version of a resource: its new version, that there
    is none, or nothing. *)
Definition says (t : TypeUrl) (id : str) (w : Wakeup) : option (option str) :=
  match w with
  | Inbound (Ok (Some response)) a =>
    if decide (type_from (response_type_url response) = t) then
      match (if accepted response a then last_version id (resources response) else None) with
      | Some v => Some (Some v)
      | None => if decide (id ∈ removed_resources response) then Some None else None
      end
    else None
  | _ => None
  end.

Definition tracked_version (t : TypeUrl) (id : str) (s : DiscoveryClientState) : option str :=
  default ∅ (tracked s !! t) !! id.

(** *** Decoding *)

Definition updates_of (t : TypeUrl) (rs : list Resource) : list XdsResourceUpdate := (decode_loop t rs).1.

Lemma decode_ok response :
  let t := type_from (response_type_url response) in
  match decode_pending_updates response t with
  | Ok us => forallb (λ r, decodable r t) (resources response) = true ∧ us = updates_of t (resources response)
  | Err es => forallb (λ r, decodable r t) (resources response) = false ∧ es ≠ []
  end.
Proof.
  intros t. unfold decode_pending_updates, updates_of.
  assert (forallb (λ r, decodable r t) (resources response) =
    match (decode_loop t (resources response)).2 with [] => true | _ => false end) as Hes.
  { induction (resources response) as [|r rs IH]; [done|]. cbn [forallb decode_loop].
    rewrite IH. unfold decodable. destruct (decode_loop t rs) as [us es], (payload_try_from r t); [|done].
    by destruct es. }
  rewrite Hes. destruct (decode_loop t (resources response)) as [us [|e es]]; done.
Qed.

Lemma last_version_app id rs r :
  last_version id (rs ++ [r]) = if decide (name r = id) then Some (version r) else last_version id rs.
Proof. unfold last_version. rewrite reverse_app. simpl. by case_decide. Qed.

Lemma extract_lookup t rs id :
  forallb (λ r, decodable r t) rs = true →
  extract_update_versions (updates_of t rs) !! id = last_version id rs.
Proof.
  unfold updates_of. induction rs as [|r rs IH] using rev_ind; [done|].
  rewrite forallb_app. intros [Hrs Hr]%andb_prop. specialize (IH Hrs).
  assert (∀ rs, (decode_loop t (rs ++ [r])).1 = (decode_loop t rs).1 ++ (decode_loop t [r]).1) as Happ.
  { clear. induction rs as [|r' rs IH]; [done|]. cbn [decode_loop app].
    destruct (decode_loop t (rs ++ [r])), (decode_loop t rs). simpl in *.
    destruct (payload_try_from r' t); simpl in *; congruence. }
  rewrite Happ, last_version_app. unfold extract_update_versions. rewrite foldl_app.
  simpl in Hr. rewrite andb_true_r in Hr. unfold decodable in Hr. simpl. destruct (payload_try_from r t); [|done].
  simpl. fold (extract_update_versions (decode_loop t rs).1). case_decide as E.
  - subst. by rewrite lookup_insert_eq.
  - by rewrite lookup_insert_ne.
Qed.

(** *** Removal *)

Lemma removal_tracked t t' id s response :
  tracked_version t id (process_resource_ids_for_removal s response t').2 =
  if decide (t' = t ∧ id ∈ removed_resources response) then None else tracked_version t id s.
Proof.
  unfold process_resource_ids_for_removal. simpl. generalize (removed_resources response) as ids.
  intros ids. revert s. induction ids as [|i ids IH]; intros s.
  { cbn [foldl]. rewrite decide_False by set_solver. done. }
  cbn [foldl]. rewrite IH. unfold tracked_version. destruct (tracked s !! t') as [rs|] eqn:Hrs; simpl.
  - destruct (decide (t' = t)) as [->|Hne].
    + rewrite lookup_insert_eq, Hrs. simpl. destruct (decide (i = id)) as [->|Hi].
      * rewrite lookup_delete_eq. repeat case_decide; set_solver.
      * rewrite lookup_delete_ne by done. repeat case_decide; set_solver.
    + rewrite lookup_insert_ne by done. repeat case_decide; naive_solver.
  - destruct (decide (t' = t)) as [->|Hne]; [|repeat case_decide; naive_solver].
    rewrite Hrs. simpl. rewrite lookup_empty. by repeat case_decide.
Qed.

Lemma tracked_track t t' id s pending :
  tracked_version t id (track s t' pending) =
  if decide (t' = t) then from_option Some (tracked_version t id s) (pending !! id) else tracked_version t id s.
Proof.
  unfold tracked_version, track. simpl. case_decide as E.
  - subst. rewrite lookup_insert_eq. simpl.
    rewrite lookup_union. destruct (pending !! id), (default ∅ (tracked s !! t) !! id); done.
  - by rewrite lookup_insert_ne.
Qed.

(** One turn moves the version of a resource to what it says. *)
Definition version_step (t : TypeUrl) (id : str) (v : option str) (w : Wakeup) : option str :=
  match says t id w with Some v' => v' | None => v end.

Lemma tracked_turn t id c w :
  tracked_version t id (state (turn c w).2) = version_step t id (tracked_version t id (state c)) w.
Proof.
  unfold version_step. destruct w as [[t' i|t' i]|[[response|]|[code m]] a|]; try done. cbn [Xds.turn].
  assert (tracked_version t id (process_discovery_response (state c) (outbound c) response a).1.1.2 =
    match says t id (Inbound (Ok (Some response)) a) with
    | Some v' => v' | None => tracked_version t id (state c) end) as <-.
  2: by destruct (process_discovery_response _ _ _ _) as [[[r s] o] b].
  unfold Xds.process_discovery_response, says, accepted.
  pose proof (removal_tracked t (type_from (response_type_url response)) id (state c) response) as Hr.
  destruct (process_resource_ids_for_removal _ response _) as [ids s1]. simpl in Hr.
  pose proof (decode_ok response) as Hd. simpl in Hd.
  destruct (decode_pending_updates _ _) as [us|es]; destruct Hd as [Hf Hus]; rewrite Hf; simpl.
  - destruct a as [|[]| |]; simpl; rewrite ?tracked_track, Hr; subst; rewrite ?extract_lookup by done;
      repeat case_decide; try naive_solver; by destruct (last_version id (resources response)).
  - rewrite Hr. repeat case_decide; naive_solver.
Qed.

Lemma tracked_run s attempts t id :
  tracked_version t id (run s attempts).1 =
  match find_map (says t id) (reverse (history s attempts)) with
  | Some v => v
  | None => tracked_version t id s
  end.
Proof.
  rewrite (run_projection (tracked_version t id) (version_step t id)) by (intros; first [apply tracked_turn|done]).
  generalize (tracked_version t id s) as v. generalize (history s attempts) as ws.
  intros ws v. induction ws as [|w ws IH] using rev_ind; [done|].
  rewrite foldl_app, reverse_app, IH. simpl. unfold version_step. by destruct (says t id w).
Qed.

(** The version a connection reports in its first request for a type. *)
Definition reported (t : TypeUrl) (id : str) (c : Connection) : option str :=
  find (λ r, bool_decide (type_url r = type_to_string t)) (sent (outbound c)) ≫= λ r,
  initial_resource_versions r !! id.

Lemma reported_initial s t id ts :
  wf_type t → Forall wf_type ts → t ∈ ts →
  (find (λ r, bool_decide (type_url r = type_to_string t)) (initial_request this_node s <$> ts) ≫= λ r,
    initial_resource_versions r !! id) = tracked_version t id s.
Proof.
  intros Ht Hts. induction Hts as [|t' ts Ht' Hts IH]; [by intros ?%not_elem_of_nil|].
  intros Hin. rewrite fmap_cons. cbn [find]. case_bool_decide as E; simpl in E.
  - apply wf_type_inj in E; [|done..]. by subst.
  - apply IH. apply elem_of_cons in Hin as [->|?]; [congruence|done].
Qed.

(** A connection reports the last word on each resource.  After any sequence
    of attempts, the version a new connection opens with is the one of the last
    response that was accepted as a whole with that resource in it, unless a
    later response removed the resource. *)
Theorem versions_reported s attempts t id :
  wf_binding → t ∈ resource_types binding_type_url →
  reported t id (connected (run s attempts).1) =
  match find_map (says t id) (reverse (history s attempts)) with
  | Some v => v
  | None => tracked_version t id s
  end.
Proof.
  intros Hb Ht. destruct (resource_types_ok Hb) as [Hwf _]. rewrite <-tracked_run.
  apply reported_initial; try done. rewrite Forall_forall in Hwf. by apply Hwf.
Qed.

(** a removal that comes with an update that does not decode is lost.  The
    response is refused and nothing is passed on, so the data plane keeps the
    resource; but the client forgets its version, and no later connection reports
    it, so the server has no reason to remove it again. *)
Theorem removal_forgotten s o response a id :
  let t := type_from (response_type_url response) in
  id ∈ removed_resources response →
  forallb (λ r, decodable r t) (resources response) = false →
  ∃ s' o', process_discovery_response s o response a = (Ok (), s', o', None) ∧
    tracked_version t id s' = None ∧
    initial_resource_versions (initial_request this_node s' t) !! id = None.
Proof.
  intros t Hid Hf. unfold Xds.process_discovery_response. fold t.
  pose proof (removal_tracked t t id s response) as Hr. rewrite decide_True in Hr by done.
  destruct (process_resource_ids_for_removal s response t) as [ids s1]. simpl in Hr.
  pose proof (decode_ok response) as Hd. cbv zeta in Hd. fold t in Hd.
  destruct (decode_pending_updates response t) as [us|es]; [destruct Hd; congruence|].
  eexists _, _. split; [reflexivity|]. by split.
Qed.

(** ** Acknowledgments *)

(** The handler's answer reaches the worker. *)
Definition answered (a : HandlerAnswer) : Prop :=
  match a with Acked _ | AckTimeout => True | HandlerGone _ | AckDropped => False end.

(** Every response is answered once, and accepted just when it should be.
    If the handler answers or times out, one request goes out, with the nonce
    and the type of the response; it carries no error just when every resource
    decoded and the handler rejected none.  The handler gets the updates in the
    order of the response, the removals after them, and only if all of them
    decode. *)
Theorem responses_answered s o response a :
  open o = true → answered a →
  let t := type_from (response_type_url response) in
  ∃ s' o' b r,
    process_discovery_response s o response a = (Ok (), s', o', b) ∧
    sent o' = sent o ++ [r] ∧ open o' = true ∧
    response_nonce r = nonce response ∧ type_url r = response_type_url response ∧
    resource_names_subscribe r = [] ∧ resource_names_unsubscribe r = [] ∧
    (error_detail r = None ↔ accepted response a = true) ∧
    updates <$> b = (if forallb (λ r, decodable r t) (resources response)
      then Some (updates_of t (resources response) ++ ((λ id, Remove id t) <$> removed_resources response))
      else None).
Proof.
  intros Ho Ha t. unfold Xds.process_discovery_response, accepted, send. fold t.
  assert ((process_resource_ids_for_removal s response t).1 = removed_resources response) as Hids by done.
  destruct (process_resource_ids_for_removal s response t) as [ids s1]. simpl in Hids. subst ids.
  pose proof (decode_ok response) as Hd. cbv zeta in Hd. fold t in Hd. rewrite Ho.
  pose proof (type_to_string_from (response_type_url response)) as Ht. fold t in Ht.
  destruct (decode_pending_updates response t) as [us|es]; destruct Hd as [Hf Hus]; rewrite Hf.
  - destruct a as [e|[|]| |]; try done; simpl; eexists _, _, _, _; subst; split_and!; try done; by split.
  - simpl. by eexists _, _, _, _; split_and!.
Qed.

(** ** Time between attempts *)

Definition backoff_ok (b : Z) : Prop := 1 <= b <= MAX_BACKOFF + BACKOFF_INTERVAL.

Lemma turns_backoff c ws : backoff (state (turns c ws).2) = backoff (state c).
Proof.
  assert (∀ c w, backoff (state (turn c w).2) = backoff (state c)) as Hturn.
  { intros c' [[]|[[response|]|[code m]] a|]; try done. cbn [Xds.turn].
    pose proof (response_state (state c') (outbound c') response a) as [_ Hb].
    by destruct (process_discovery_response _ _ _ _) as [[[r s] o] b]. }
  revert c. induction ws as [|w ws IH]; intros c; [done|]. cbn [Xds.turns].
  rewrite <-(Hturn c w). destruct (turn c w) as [[[]|e] c1]; simpl; auto.
Qed.

Lemma attempt_sleep s c cl ws s' sleep :
  backoff_ok (backoff s) → persistently_connect s cl ws = (s', c, sleep) →
  backoff_ok (backoff s') ∧
  from_option (λ d, 2 <= d <= MAX_BACKOFF + BACKOFF_INTERVAL ∧ (cl = Ok () → d <= 2 + BACKOFF_INTERVAL)) True sleep.
Proof.
  unfold backoff_ok, MAX_BACKOFF, BACKOFF_INTERVAL. intros Hb.
  unfold Xds.persistently_connect, continuously_discover_resources.
  destruct cl as [[]|[code m]].
  - pose proof (turns_backoff (connected s) ws) as Ht. simpl in Ht. unfold INITIAL_BACKOFF in Ht.
    destruct (turns (connected s) ws) as [[[]|e] c']; simpl in Ht.
    + intros [= <- <- <-]. rewrite Ht. simpl. lia.
    + unfold after_error, MAX_BACKOFF, BACKOFF_INTERVAL. rewrite Ht.
      destruct e; intros [= <- <- <-]; simpl; lia.
  - unfold after_error, MAX_BACKOFF. simpl. intros [= <- <- <-]. simpl. split; [lia|]. split; [lia|done].
Qed.

(** the worker neither spins nor stalls.  After an attempt that failed it
    sleeps for at least 2 seconds and at most 22, two more than the maximum of
    the backoff, and for at most 4 if the stream had been established. *)
Theorem sleeps_bounded s attempts :
  backoff_ok (backoff s) →
  Forall2 (λ a '(_, sleep),
    from_option (λ d, 2 <= d <= MAX_BACKOFF + BACKOFF_INTERVAL ∧ (call a = Ok () → d <= 2 + BACKOFF_INTERVAL)) True sleep)
    attempts (run s attempts).2.
Proof.
  revert s. induction attempts as [|a attempts IH]; intros s Hb; [constructor|]. cbn [Xds.run].
  destruct (persistently_connect s (call a) (wakeups a)) as [[s1 c1] sleep] eqn:E.
  apply attempt_sleep in E as [Hb1 Hs]; [|done]. specialize (IH s1 Hb1).
  destruct (run s1 attempts). by constructor.
Qed.

End spec.

(** ** Witnesses *)

Section examples.

(** Resources that are their bytes, which must not be empty. *)
Definition bytes_decode (s : str) : result XdsError str := match s with [] => Err (Decode (lit "empty")) | _ => Ok s end.

#[local] Instance bytes_payloads : Payloads := {|
  Listener := str; Cluster := str; RouteConfiguration := str; ClusterLoadAssignment := str; Secret := str;
  decode_listener := bytes_decode; decode_cluster := bytes_decode; decode_route := bytes_decode;
  decode_endpoints := bytes_decode; decode_secret := bytes_decode;
  debug_error := λ _, lit "Decode";
|}.

Let node0 : Node := mk_node (lit "node") (lit "cluster").
Let s0 : DiscoveryClientState := mk_state 1 ∅ ∅.
Let cluster1 (v : string) : Resource := mk_resource (lit "c1") (lit v) (Some (lit "x")).
Let response1 : DeltaDiscoveryResponse := mk_response [cluster1 "1"; cluster1 "2"] CLUSTER_URL [lit "c0"] (lit "n1").
Let bad : DeltaDiscoveryResponse :=
  mk_response [mk_resource (lit "c2") (lit "1") (Some [])] CLUSTER_URL [lit "c1"] (lit "n2").
Let tools : TypeUrl := TExtension (lit "type.googleapis.com/tools").
Let attempts1 : list Attempt :=
  [mk_attempt (Err (14, lit "unavailable")) [];
   mk_attempt (Ok ())
     [SubscriptionRecv (Subscribe TCluster (lit "c1")); SubscriptionRecv (Subscribe TCluster (lit "c2"));
      SubscriptionRecv (Subscribe tools (lit "*"));
      Inbound (Ok (Some response1)) (Acked []); Inbound (Ok None) (Acked [])]].
Let ws1 : list Wakeup := [SubscriptionRecv (Unsubscribe TCluster (lit "c2")); SubscriptionRecv (Subscribe tools (lit "*"))].

Lemma wf_binding_none : wf_binding None.
Proof. done. Qed.

Lemma wf_ws1 : Forall wf_wakeup ws1.
Proof.
  apply Forall_cons; split; [|apply Forall_cons; split; [|constructor]]; intros t [= <-]; unfold wf_type; by vm_compute.
Qed.

Lemma subscriptions_synced_witness :
  server_view CLUSTER_URL
    (sent (outbound (turns node0 (connected None node0 (run None node0 s0 attempts1).1) ws1).2)) = {[ lit "c1" ]}.
Proof.
  etrans.
  { apply (subscriptions_synced None node0 s0 attempts1 ws1 _ TCluster);
      [apply wf_binding_none|by (right; left)|apply wf_ws1| |by vm_compute].
    repeat (apply not_elem_of_cons; split; [done|]). apply not_elem_of_nil. }
  apply (bool_decide_unpack _). by vm_compute.
Defined.

Lemma extension_subscription_lost_witness :
  lit "*" ∉ server_view (lit "type.googleapis.com/tools")
    (sent (outbound (turns node0 (connected None node0 (run None node0 s0 attempts1).1) ws1).2)).
Proof.
  eapply (extension_subscription_lost None node0 (run None node0 s0 attempts1).1 tools (lit "*") ws1).
  - apply wf_binding_none.
  - unfold wf_type. by vm_compute.
  - repeat (apply not_elem_of_cons; split; [done|]). apply not_elem_of_nil.
  - apply (bool_decide_unpack _). by vm_compute.
  - apply wf_ws1.
  - repeat (apply not_elem_of_cons; split; [done|]). apply not_elem_of_nil.
  - by vm_compute.
Defined.

Lemma versions_reported_witness :
  reported TCluster (lit "c1") (connected None node0 (run None node0 s0 attempts1).1) = Some (lit "2").
Proof.
  etrans; [apply (versions_reported None node0 s0 attempts1 TCluster (lit "c1"));
    [apply wf_binding_none|by (right; left)]|by vm_compute].
Defined.

Lemma removal_forgotten_witness :
  ∃ s' o', process_discovery_response node0 (run None node0 s0 attempts1).1 (mk_outbound true []) bad (Acked []) =
      (Ok (), s', o', None) ∧
    tracked_version TCluster (lit "c1") s' = None ∧
    initial_resource_versions (initial_request node0 s' TCluster) !! lit "c1" = None.
Proof. apply (removal_forgotten node0 _ _ bad); [by left|by vm_compute]. Defined.

Lemma responses_answered_witness :
  ∃ s' o' b r,
    process_discovery_response node0 s0 (mk_outbound true []) response1 (Acked []) = (Ok (), s', o', b) ∧
    sent o' = [r] ∧ response_nonce r = lit "n1" ∧ error_detail r = None.
Proof.
  destruct (responses_answered node0 s0 (mk_outbound true []) response1 (Acked []) eq_refl I)
    as (s' & o' & b & r & Hp & Hs & _ & Hn & _ & _ & _ & He & _).
  exists s', o', b, r. split_and!; [done..|]. apply He. by vm_compute.
Defined.

Lemma sleeps_bounded_witness :
  Forall2 (λ a '(_, sleep),
    from_option (λ d, 2 <= d <= MAX_BACKOFF + BACKOFF_INTERVAL ∧ (call a = Ok () → d <= 2 + BACKOFF_INTERVAL)) True sleep)
    attempts1 (run None node0 s0 attempts1).2.
Proof. apply (sleeps_bounded None node0). unfold backoff_ok. by vm_compute. Defined.

End examples.
End XdsSpec.
