(* ===== verification/Body.v ===== *)
(** Bodies of messages as streams of frames, and the wrappers of
    arion-lib/src/body: the timeout (timeout_body.rs), the permit that runs at the
    end (on_end_body.rs), the measurement (instrumented_body.rs) and the body that
    is fed through a channel (channel_body.rs). *)

From S2P Require Import Prelude Http.
Import Http.
Local Open Scope Z_scope.

Module Body.

(** ** The interface

    The trait [Body] of the crate http-body: a body is polled at a point in
    time.  [content] is what it will deliver before it ends. *)

Inductive Frame `{HttpLib} : Type :=
  | Data (bytes : str)
  | Trailers (headers : HeaderMap).

Definition is_data `{HttpLib} (f : Frame) : bool := match f with Data _ => true | Trailers _ => false end.
Definition data_len `{HttpLib} (f : Frame) : Z := match f with Data bytes => Z.of_nat (length bytes) | Trailers _ => 0 end.

Inductive poll (A : Type) : Type :=
  | Ready (a : A)
  | Pending.
Arguments Ready {A} a.
Arguments Pending {A}.

Class Body `{HttpLib} (E B : Type) : Type := {
  poll_frame : Z → B → poll (option (result E Frame)) * B;
  is_end_stream : B → bool;
  content : B → list (result E Frame);
}.

Class BodySpec (E B : Type) `{Body E B} : Prop := {
  poll_some : ∀ now b f b', poll_frame now b = (Ready (Some f), b') → content b = f :: content b';
  poll_none : ∀ now b b', poll_frame now b = (Ready None, b') → content b = [] ∧ content b' = [];
  poll_pending : ∀ now b b', poll_frame now b = (Pending, b') → content b' = content b;
  end_of_stream : ∀ b, is_end_stream b = true → content b = [];
}.

(** The frames that a number of polls deliver; polls go on after the end. *)
Fixpoint delivered `{Body E B} (times : list Z) (b : B) : list (result E Frame) * B :=
  match times with
  | [] => ([], b)
  | now :: times =>
    let '(p, b) := poll_frame now b in
    let '(fs, b) := delivered times b in
    (match p with Ready (Some f) => f :: fs | _ => fs end, b)
  end.

Lemma delivered_content `{BodySpec E B} times b :
  (delivered times b).1 ++ content (delivered times b).2 = content b.
Proof.
  revert b. induction times as [|now times IH]; intros b; [done|]. cbn [delivered].
  destruct (poll_frame now b) as [p b1] eqn:Hp. specialize (IH b1).
  destruct (delivered times b1) as [fs b2]. simpl in *. destruct p as [[f|]|]; simpl.
  - rewrite IH. symmetry. by eapply poll_some.
  - rewrite IH. apply poll_none in Hp as [-> ->]. done.
  - rewrite IH. by eapply poll_pending.
Qed.

(** ** [TimeoutBody] *)

Inductive TimeoutBodyError (E : Type) : Type :=
  | TimedOut
  | BodyError (e : E).
Arguments TimedOut {E}.
Arguments BodyError {E} e.

Record TimeoutBody (B : Type) : Type := mk_timeout_body {
  timeout_inner : B;
  timeout : option Z;
  (** When the sleep that is running was started. *)
  sleep : option Z;
}.
Arguments mk_timeout_body {B} timeout_inner timeout sleep.
Arguments timeout_inner {B} t.
Arguments timeout {B} t.
Arguments sleep {B} t.

Definition timeout_new {B} (timeout : option Z) (body : B) : TimeoutBody B := mk_timeout_body body timeout None.

Definition map_body_error `{HttpLib} {E} (r : result E Frame) : result (TimeoutBodyError E) Frame :=
  match r with Ok f => Ok f | Err e => Err (BodyError e) end.

Section timeout.
Context {E B : Type} `{Body E B}.

(** The timer of the crate pingora-timeout: whether a sleep that was started at
    a time, for a duration, is over. *)
Context (elapsed : Z → Z → Z → bool).

Definition timeout_poll_frame (now : Z) (this : TimeoutBody B)
    : poll (option (result (TimeoutBodyError E) Frame)) * TimeoutBody B :=
  match timeout this with
  | Some timeout =>
    let started := default now (sleep this) in
    if elapsed started timeout now
    then (Ready (Some (Err TimedOut)), mk_timeout_body (timeout_inner this) (Some timeout) (Some started))
    else
      match poll_frame now (timeout_inner this) with
      | (Pending, inner) => (Pending, mk_timeout_body inner (Some timeout) (Some started))
      | (Ready frame, inner) => (Ready (map_body_error <$> frame), mk_timeout_body inner (Some timeout) None)
      end
  | None =>
    match poll_frame now (timeout_inner this) with
    | (Pending, inner) => (Pending, mk_timeout_body inner None (sleep this))
    | (Ready frame, inner) => (Ready (map_body_error <$> frame), mk_timeout_body inner None (sleep this))
    end
  end.

End timeout.

(** ** [OnEndBody] *)

(** The permit is held until the body ends; the flag says whether the body was
    read to its end. *)
Record OnEndBody (B P : Type) : Type := mk_on_end_body { body : B; on_end : option P }.
Arguments mk_on_end_body {B P} body on_end.
Arguments body {B P} o.
Arguments on_end {B P} o.

Section on_end.
Context {E B P : Type} `{Body E B}.

Definition on_end_new (inner : B) : OnEndBody B P := mk_on_end_body inner None.
Definition with_on_end (o : OnEndBody B P) (hook : P) : OnEndBody B P := mk_on_end_body (body o) (Some hook).

(** [notify_complete] and [notify_abort]: the permit is taken and run. *)
Definition notify (completed : bool) (o : OnEndBody B P) : option (P * bool) * OnEndBody B P :=
  ((λ p, (p, completed)) <$> on_end o, mk_on_end_body (body o) None).

Definition on_end_poll_frame (now : Z) (this : OnEndBody B P)
    : poll (option (result E Frame)) * option (P * bool) * OnEndBody B P :=
  let '(p, inner) := poll_frame now (body this) in
  let this := mk_on_end_body inner (on_end this) in
  match on_end this with
  | None => (p, None, this)
  | Some _ =>
    match p with
    | Ready None => let '(ran, this) := notify true this in (p, ran, this)
    | Ready (Some (Ok _)) =>
      if is_end_stream inner then let '(ran, this) := notify true this in (p, ran, this) else (p, None, this)
    | Ready (Some (Err _)) => let '(ran, this) := notify false this in (p, ran, this)
    | Pending => (p, None, this)
    end
  end.

(** [Drop]. *)
Definition on_end_drop (this : OnEndBody B P) : option (P * bool) := (notify false this).1.

#[global] Instance on_end_body : Body E (OnEndBody B P) := {|
  poll_frame now o := let '(p, _, o) := on_end_poll_frame now o in (p, o);
  is_end_stream o := is_end_stream (body o);
  content o := content (body o);
|}.

(** Polls and then the drop, with the permits that ran. *)
Fixpoint on_end_life (times : list Z) (o : OnEndBody B P) : list (P * bool) :=
  match times with
  | [] => option_list (on_end_drop o)
  | now :: times =>
    let '(_, ran, o) := on_end_poll_frame now o in option_list ran ++ on_end_life times o
  end.

(** What the consumer of the body sees: the first poll that ends it decides.
    Reading the end, or a frame after which the body says that it has ended,
    completes it; an error or the drop aborts it. *)
Fixpoint completes (times : list Z) (b : B) : bool :=
  match times with
  | [] => false
  | now :: times =>
    let '(p, b) := poll_frame now b in
    match p with
    | Ready None => true
    | Ready (Some (Ok _)) => is_end_stream b || completes times b
    | Ready (Some (Err _)) => false
    | Pending => completes times b
    end
  end.

Lemma on_end_life_none times (b : B) : on_end_life times (mk_on_end_body b None) = [].
Proof.
  revert b. induction times as [|now times IH]; intros b; [done|].
  cbn [on_end_life]. unfold on_end_poll_frame. simpl. destruct (poll_frame now b). apply IH.
Qed.

Lemma on_end_runs_once times (b : B) (p : P) :
  on_end_life times (mk_on_end_body b (Some p)) = [(p, completes times b)].
Proof.
  revert b. induction times as [|now times IH]; intros b; [done|].
  cbn [on_end_life completes]. unfold on_end_poll_frame. simpl.
  destruct (poll_frame now b) as [[[[f|e]|]|] b']; simpl; rewrite ?on_end_life_none; [|done|done|apply IH].
  destruct (is_end_stream b'); simpl; rewrite ?on_end_life_none; [done|apply IH].
Qed.

Context `{!BodySpec E B}.

#[global] Instance on_end_spec : BodySpec E (OnEndBody B P).
Proof.
  assert (∀ now (o : OnEndBody B P) p ran o', on_end_poll_frame now o = (p, ran, o') →
    poll_frame now (body o) = (p, body o')) as Hpoll.
  { intros now o p ran o'. unfold on_end_poll_frame, notify. destruct (poll_frame now (body o)) as [q inner]. simpl.
    repeat case_match; naive_solver. }
  split; simpl.
  - intros now o f o' Ho. destruct (on_end_poll_frame now o) as [[p ran] o1] eqn:E1. simplify_eq.
    apply Hpoll in E1. by eapply poll_some.
  - intros now o o' Ho. destruct (on_end_poll_frame now o) as [[p ran] o1] eqn:E1. simplify_eq.
    apply Hpoll in E1. by eapply poll_none.
  - intros now o o' Ho. destruct (on_end_poll_frame now o) as [[p ran] o1] eqn:E1. simplify_eq.
    apply Hpoll in E1. by eapply poll_pending.
  - intros o. apply end_of_stream.
Qed.

End on_end.

(** ** [InstrumentedBody] *)

(** The callback is run at most once, with the bytes so far and the error. *)
Record InstrumentedBody (B : Type) : Type := mk_instrumented {
  inst_inner : B;
  body_bytes : Z;
  stream_metrics : bool;
  on_complete : bool;
}.
Arguments mk_instrumented {B} inst_inner body_bytes stream_metrics on_complete.
Arguments inst_inner {B} i.
Arguments body_bytes {B} i.
Arguments stream_metrics {B} i.
Arguments on_complete {B} i.

Section instrumented.
Context {E B : Type} `{Body E B}.

Definition instrumented_new (inner : B) (stream_metrics : bool) : InstrumentedBody B :=
  mk_instrumented inner 0 stream_metrics true.

Definition instrumented_poll_frame (now : Z) (this : InstrumentedBody B)
    : poll (option (result E Frame)) * option (Z * option E) * InstrumentedBody B :=
  let '(p, inner) := poll_frame now (inst_inner this) in
  match p with
  | Ready (Some (Ok f)) =>
    (p, None, mk_instrumented inner ((body_bytes this + data_len f) mod 2 ^ 64) (stream_metrics this) (on_complete this))
  | Ready (Some (Err err)) =>
    (p, (if on_complete this && stream_metrics this then Some (body_bytes this, Some err) else None),
     mk_instrumented inner (body_bytes this) (stream_metrics this) false)
  | Ready None | Pending =>
    (p, None, mk_instrumented inner (body_bytes this) (stream_metrics this) (on_complete this))
  end.

(** [PinnedDrop]. *)
Definition instrumented_drop (this : InstrumentedBody B) : option (Z * option E) :=
  if on_complete this && stream_metrics this then Some (body_bytes this, None) else None.

Fixpoint instrumented_life (times : list Z) (i : InstrumentedBody B) : list (Z * option E) :=
  match times with
  | [] => option_list (instrumented_drop i)
  | now :: times =>
    let '(_, ran, i) := instrumented_poll_frame now i in option_list ran ++ instrumented_life times i
  end.

(** The bytes of the frames before the first error, and that error. *)
Fixpoint measured (fs : list (result E Frame)) : Z * option E :=
  match fs with
  | [] => (0, None)
  | Ok f :: fs => let '(n, e) := measured fs in (data_len f + n, e)
  | Err e :: _ => (0, Some e)
  end.

Lemma instrumented_life_done times (b : B) n : instrumented_life times (mk_instrumented b n true false) = [].
Proof.
  revert b n. induction times as [|now times IH]; intros b n; [done|].
  cbn [instrumented_life]. unfold instrumented_poll_frame. simpl.
  destruct (poll_frame now b) as [[[[f|e]|]|] b']; simpl; apply IH.
Qed.

Lemma instrumented_runs_once times (b : B) n :
  0 <= n < 2 ^ 64 →
  instrumented_life times (mk_instrumented b n true true) =
  [let '(k, e) := measured (delivered times b).1 in ((n + k) mod 2 ^ 64, e)].
Proof.
  revert b n. induction times as [|now times IH]; intros b n Hn.
  { simpl. by rewrite Z.add_0_r, Z.mod_small by done. }
  cbn [instrumented_life delivered]. unfold instrumented_poll_frame. cbn [inst_inner body_bytes stream_metrics on_complete andb].
  destruct (poll_frame now b) as [[[[f|e]|]|] b']; cbn [option_list app].
  - rewrite IH by (apply Z.mod_pos_bound; lia). destruct (delivered times b') as [fs b2]. cbn [fst measured].
    destruct (measured fs) as [k e]. rewrite Zplus_mod_idemp_l. by rewrite Z.add_assoc.
  - rewrite instrumented_life_done. destruct (delivered times b') as [fs b2]. cbn [fst measured].
    by rewrite Z.add_0_r, Z.mod_small by done.
  - rewrite IH by done. by destruct (delivered times b') as [fs b2].
  - rewrite IH by done. by destruct (delivered times b') as [fs b2].
Qed.

End instrumented.

(** ** The time limit *)

Section time_limit.
Context {E B : Type} `{Body E B} (elapsed : Z → Z → Z → bool).

(** The polls of a body with a time limit. *)
Fixpoint timed_polls (times : list Z) (t : TimeoutBody B)
    : list (Z * poll (option (result (TimeoutBodyError E) Frame))) * TimeoutBody B :=
  match times with
  | [] => ([], t)
  | now :: times =>
    let '(p, t) := timeout_poll_frame elapsed now t in
    let '(ps, t) := timed_polls times t in ((now, p) :: ps, t)
  end.

(** Since when the consumer has been waiting for a frame: the first poll after
    the last one that brought something. *)
Definition brings (p : poll (option (result (TimeoutBodyError E) Frame))) : bool :=
  match p with Pending | Ready (Some (Err TimedOut)) => false | _ => true end.

Definition waiting_since (ps : list (Z * poll (option (result (TimeoutBodyError E) Frame)))) : option Z :=
  foldl (λ since '(now, p), if brings p then None else Some (default now since)) None ps.

Lemma brings_map (r : option (result E Frame)) : brings (Ready (map_body_error <$> r)) = true.
Proof. by destruct r as [[]|]. Qed.

Lemma timed_polls_app times times' t :
  timed_polls (times ++ times') t =
  let '(ps, t) := timed_polls times t in let '(qs, t) := timed_polls times' t in (ps ++ qs, t).
Proof.
  revert t. induction times as [|now times IH]; intros t; simpl; [by destruct (timed_polls times' t)|].
  destruct (timeout_poll_frame elapsed now t) as [p t1]. rewrite IH.
  destruct (timed_polls times t1) as [ps t2]. by destruct (timed_polls times' t2).
Qed.

Lemma sleep_waiting times b limit :
  let '(ps, t) := timed_polls times (timeout_new (Some limit) b) in
  timeout t = Some limit ∧ sleep t = waiting_since ps.
Proof.
  induction times as [|now times IH] using rev_ind; [done|]. rewrite timed_polls_app.
  destruct (timed_polls times (timeout_new (Some limit) b)) as [ps t]. destruct IH as [Ht Hs].
  cbn [timed_polls]. destruct (timeout_poll_frame elapsed now t) as [p t'] eqn:Hp.
  unfold waiting_since. rewrite foldl_app. fold (waiting_since ps). cbn [foldl]. rewrite <-Hs.
  unfold timeout_poll_frame in Hp. rewrite Ht in Hp.
  destruct (elapsed (default now (sleep t)) limit now); [by simplify_eq/=|].
  destruct (poll_frame now (timeout_inner t)) as [[r|] inner]; simplify_eq; cbn [timeout sleep].
  - by rewrite brings_map.
  - done.
Qed.

(** A poll of a body with a limit fails just when the limit has passed since the
    consumer began to wait for the frame, and otherwise is the poll of the body
    itself. *)
Lemma timeout_when_waiting times b limit now :
  let '(ps, t) := timed_polls times (timeout_new (Some limit) b) in
  (timeout_poll_frame elapsed now t).1 =
  if elapsed (default now (waiting_since ps)) limit now then Ready (Some (Err TimedOut))
  else match (poll_frame now (timeout_inner t)).1 with
       | Ready r => Ready (map_body_error <$> r)
       | Pending => Pending
       end.
Proof.
  pose proof (sleep_waiting times b limit) as Hs.
  destruct (timed_polls times (timeout_new (Some limit) b)) as [ps t]. destruct Hs as [Ht <-].
  unfold timeout_poll_frame. rewrite Ht. destruct (elapsed (default now (sleep t)) limit now); [done|].
  by destruct (poll_frame now (timeout_inner t)) as [[r|] inner].
Qed.

End time_limit.

End Body.
