(* ===== verification/ChannelBody.v ===== *)
(** The body that is fed through a channel (arion-lib/src/body/channel_body.rs):
    the receiving [ChannelBody], the [FrameBridge] that feeds it, and the two
    together. *)

From stdpp Require Import relations.
From S2P Require Import Prelude Http Body.
Import Http Body.

Module ChannelBody.

Section channel_body.
Context {HL : HttpLib} {E : Type}.

Notation FrameResult := (result E Frame).

(** The channel: the frames in it, whether a sender is left and whether the
    receiver is.  A sender that finds it full waits. *)
Record Channel : Type := mk_channel { queue : list FrameResult; tx_open : bool; rx_open : bool }.

(** [ReceiverStream::poll_next]. *)
Definition poll_next (c : Channel) : poll (option FrameResult) * Channel :=
  match queue c with
  | f :: fs => (Ready (Some f), mk_channel fs (tx_open c) (rx_open c))
  | [] => (if tx_open c then Pending else Ready None, c)
  end.

(** ** [ChannelBody] *)

Record ChannelBody : Type := mk_channel_body {
  prefetch : list (option FrameResult);
  prefetch_num_frames : nat;
  prefetched_data_len : Z;
  is_end_stream : bool;
}.

Definition channel_body_new (prefetch_num_frames : nat) : ChannelBody :=
  mk_channel_body [] prefetch_num_frames 0 false.

Definition item_len (r : option FrameResult) : Z := match r with Some (Ok f) => data_len f | _ => 0 end.

(** The body of both loops that pull from the stream: [push_back]. *)
Definition push_back (b : ChannelBody) (r : option FrameResult) : ChannelBody :=
  mk_channel_body (prefetch b ++ [r]) (prefetch_num_frames b)
    ((prefetched_data_len b + item_len r) mod 2 ^ 64)
    (match r with None => true | Some _ => false end).

(** Both loops run until the number of frames is there, the stream ends or is
    not ready; [n] is the number that is missing. *)
Fixpoint pull (n : nat) (b : ChannelBody) (c : Channel) : ChannelBody * Channel :=
  match n with
  | 0 => (b, c)
  | S n =>
    match poll_next c with
    | (Ready something, c) =>
      let b := push_back b something in if is_end_stream b then (b, c) else pull n b c
    | (Pending, c) => (b, c)
    end
  end.

Definition missing (b : ChannelBody) : nat := prefetch_num_frames b - length (prefetch b).

(** [prefetch_frames], as far as it gets before it waits. *)
Definition prefetch_frames (b : ChannelBody) (c : Channel) : ChannelBody * Channel :=
  if bool_decide (missing b = 0) || is_end_stream b then (b, c) else pull (missing b) b c.

(** [poll_frame]. *)
Definition channel_poll_frame (b : ChannelBody) (c : Channel)
    : poll (option FrameResult) * ChannelBody * Channel :=
  let '(b, c) := pull (missing b) b c in
  match prefetch b with
  | frame :: rest =>
    (Ready frame,
     mk_channel_body rest (prefetch_num_frames b) ((prefetched_data_len b - item_len frame) mod 2 ^ 64) (is_end_stream b),
     c)
  | [] => (if is_end_stream b then Ready None else Pending, b, c)
  end.

(** [Body::is_end_stream] and [size_hint]: a lower and an upper bound. *)
Definition channel_is_end_stream (b : ChannelBody) : bool := is_end_stream b && bool_decide (prefetch b = []).

Definition size_hint (b : ChannelBody) : Z * option Z :=
  (prefetched_data_len b, if is_end_stream b then Some (prefetched_data_len b) else None).

(** ** [FrameBridge] *)

Record FrameBridge : Type := mk_bridge {
  body_stream : list FrameResult;
  injector : bool;
  injected_frames : nat;
}.

(** [Sender::send]. *)
Definition send (c : Channel) (f : FrameResult) : bool * Channel :=
  if rx_open c then (true, mk_channel (queue c ++ [f]) (tx_open c) (rx_open c)) else (false, c).

Definition next_frame (b : FrameBridge) : option FrameResult * FrameBridge :=
  match body_stream b with
  | f :: fs => (Some f, mk_bridge fs (injector b) (injected_frames b))
  | [] => (None, b)
  end.

Definition inject_frame (b : FrameBridge) (c : Channel) (f : FrameResult) : bool * FrameBridge * Channel :=
  if injector b then
    match send c f with
    | (true, c) => (true, mk_bridge (body_stream b) (injector b) (S (injected_frames b)), c)
    | (false, c) => (false, b, c)
    end
  else (false, b, c).

Definition observe_and_inject (b : FrameBridge) (c : Channel) : option FrameResult * FrameBridge * Channel :=
  match next_frame b with
  | (Some f, b) => let '(_, b, c) := inject_frame b c f in (Some f, b, c)
  | (None, b) => (None, b, c)
  end.

(** The loop of [drain_and_inject]. *)
Fixpoint drain_loop (fs : list FrameResult) (injected : nat) (c : Channel) : FrameBridge * Channel :=
  match fs with
  | [] => (mk_bridge [] true injected, c)
  | f :: fs =>
    match send c f with
    | (true, c) => drain_loop fs (S injected) c
    | (false, c) => (mk_bridge fs true injected, c)
    end
  end.

Definition drain_and_inject (b : FrameBridge) (c : Channel) : FrameBridge * Channel :=
  if injector b then drain_loop (body_stream b) (injected_frames b) c else (b, c).

(** [complete_data]: the frame that stopped it is not injected. *)
Fixpoint complete_data_loop (fs : list FrameResult) (injected : nat) (c : Channel)
    : option FrameResult * FrameBridge * Channel :=
  match fs with
  | [] => (None, mk_bridge [] true injected, c)
  | f :: fs =>
    if match f with Ok f => is_data f | Err _ => false end then
      match send c f with
      | (true, c) => complete_data_loop fs (S injected) c
      | (false, c) => (None, mk_bridge fs true injected, c)
      end
    else (Some f, mk_bridge fs true injected, c)
  end.

Definition complete_data (b : FrameBridge) (c : Channel) : option FrameResult * FrameBridge * Channel :=
  if injector b then complete_data_loop (body_stream b) (injected_frames b) c else (None, b, c).

(** [complete_with]: every frame is transformed on its way; the bridge is
    consumed. *)
Fixpoint complete_with (transform : Frame → Frame) (fs : list FrameResult) (c : Channel) : Channel :=
  match fs with
  | [] => mk_channel (queue c) false (rx_open c)
  | f :: fs =>
    match send c (transform <$> f) with
    | (true, c) => complete_with transform fs c
    | (false, c) => mk_channel (queue c) false (rx_open c)
    end
  end.

Definition close (b : FrameBridge) (c : Channel) : FrameBridge * Channel :=
  (mk_bridge (body_stream b) false (injected_frames b),
   if injector b then mk_channel (queue c) false (rx_open c) else c).

(** ** The two together

    The bridge is used, or has been dropped and a task forwards what is left. *)

Inductive Feeder : Type :=
  | Bridge (b : FrameBridge)
  | Task (rest : list FrameResult)
  | Gone.

Record Machine : Type := mk_machine {
  feeder : Feeder;
  channel : Channel;
  receiver : ChannelBody;
  (** What the consumer of the body has got, and whether it has seen the end. *)
  out : list FrameResult;
  saw_end : bool;
}.

Inductive step : Machine → Machine → Prop :=
  | SObserve b c cb out e f b' c' :
      observe_and_inject b c = (f, b', c') →
      step (mk_machine (Bridge b) c cb out e) (mk_machine (Bridge b') c' cb out e)
  | SForward b c cb out e f b1 ok b' c' :
      next_frame b = (Some f, b1) → inject_frame b1 c f = (ok, b', c') →
      step (mk_machine (Bridge b) c cb out e) (mk_machine (Bridge b') c' cb out e)
  | SCompleteData b c cb out e f b1 c1 ok b' c' :
      complete_data b c = (Some f, b1, c1) → inject_frame b1 c1 f = (ok, b', c') →
      step (mk_machine (Bridge b) c cb out e) (mk_machine (Bridge b') c' cb out e)
  | SDrain b c cb out e b' c' :
      drain_and_inject b c = (b', c') →
      step (mk_machine (Bridge b) c cb out e) (mk_machine (Bridge b') c' cb out e)
  (** [Drop for FrameBridge]. *)
  | SDrop b c cb out e :
      injector b = true →
      step (mk_machine (Bridge b) c cb out e) (mk_machine (Task (body_stream b)) c cb out e)
  | STaskSend f fs c cb out e c' :
      send c f = (true, c') →
      step (mk_machine (Task (f :: fs)) c cb out e) (mk_machine (Task fs) c' cb out e)
  | STaskEnd c cb out e :
      step (mk_machine (Task []) c cb out e)
           (mk_machine Gone (mk_channel (queue c) false (rx_open c)) cb out e)
  | SPrefetch fd c cb out e cb' c' :
      prefetch_frames cb c = (cb', c') →
      step (mk_machine fd c cb out e) (mk_machine fd c' cb' out e)
  | SPoll fd c cb out e p cb' c' :
      channel_poll_frame cb c = (p, cb', c') →
      step (mk_machine fd c cb out e)
           (mk_machine fd c' cb'
             (out ++ match p with Ready (Some f) => [f] | _ => [] end)
             (match p with Ready None => true | _ => e end)).

(** A body is wrapped, with the receiver in use. *)
Definition machine_new (frames : list FrameResult) (n : nat) : Machine :=
  mk_machine (Bridge (mk_bridge frames true 0)) (mk_channel [] true true) (channel_body_new n) [] false.

(** ** The receiver *)

(** The frames that were pulled, and the end if it was reached. *)
Definition prefetched (b : ChannelBody) : list FrameResult := omap (λ x, x) (prefetch b).

Definition len (fs : list FrameResult) : Z := zsum ((λ f, item_len (Some f)) <$> fs).

Record receiver_inv (b : ChannelBody) (c : Channel) : Prop := {
  inv_end : is_end_stream b = true → tx_open c = false ∧ queue c = [];
  inv_shape : ∃ k, prefetch b = (Some <$> prefetched b) ++ replicate k None ∧ (0 < k → is_end_stream b = true);
  inv_len : (prefetched_data_len b = len (prefetched b) mod 2 ^ 64)%Z;
}.

Lemma len_app fs gs : len (fs ++ gs) = (len fs + len gs)%Z.
Proof. unfold len. by rewrite fmap_app, zsum_app. Qed.

Lemma omap_some (fs : list FrameResult) k : omap (λ x, x) ((Some <$> fs) ++ replicate k None) = fs.
Proof.
  rewrite omap_app. induction fs as [|f fs IH]; [by induction k|]. rewrite fmap_cons. cbn. by f_equal.
Qed.

Lemma prefetched_push b r : prefetched (push_back b r) = prefetched b ++ option_list r.
Proof. unfold prefetched. simpl. rewrite omap_app. by destruct r. Qed.

(** What is on its way to the consumer. *)
Definition pending (b : ChannelBody) (c : Channel) : list FrameResult := prefetched b ++ queue c.

Lemma push_back_inv b c r c' :
  receiver_inv b c → poll_next c = (Ready r, c') →
  receiver_inv (push_back b r) c' ∧ pending (push_back b r) c' = pending b c ∧
  tx_open c' = tx_open c ∧ rx_open c' = rx_open c ∧ (is_end_stream b = true → is_end_stream (push_back b r) = true).
Proof.
  intros [He (k & Hs & Hk) Hl] Hp. unfold poll_next in Hp. unfold pending. rewrite prefetched_push.
  destruct (queue c) as [|f fs] eqn:Hq.
  - destruct (tx_open c) eqn:Htx; [done|]. simplify_eq. simpl. rewrite !Hq, !app_nil_r. split_and!; try done. split.
    + done.
    + exists (S k). rewrite prefetched_push, app_nil_r. simpl. split; [|done].
      rewrite Hs at 1. rewrite <-(assoc_L (++)). f_equal. symmetry. apply replicate_cons_app.
    + rewrite prefetched_push, app_nil_r. simpl. rewrite Hl, Z.add_0_r. apply Z.mod_mod. lia.
  - simplify_eq. simpl. destruct (is_end_stream b) eqn:Hend; [destruct (He eq_refl); congruence|].
    assert (k = 0) as -> by (destruct k; [done|]; specialize (Hk ltac:(lia)); done).
    rewrite app_nil_r in Hs. split_and!; try done; [|by rewrite <-(assoc_L (++))]. split.
    + done.
    + exists 0. rewrite prefetched_push. simpl. split; [|lia].
      rewrite fmap_app, app_nil_r. simpl. congruence.
    + rewrite prefetched_push, len_app. simpl. rewrite Hl, Zplus_mod_idemp_l. do 2 f_equal.
      unfold len. simpl. lia.
Qed.

Lemma pull_inv n b c :
  receiver_inv b c →
  let '(b', c') := pull n b c in
  receiver_inv b' c' ∧ pending b' c' = pending b c ∧ tx_open c' = tx_open c ∧ rx_open c' = rx_open c ∧
  (is_end_stream b = true → is_end_stream b' = true).
Proof.
  revert b c. induction n as [|n IH]; intros b c Hb; [done|]. cbn [pull].
  destruct (poll_next c) as [[r|] c1] eqn:Hp.
  - destruct (push_back_inv b c r c1 Hb Hp) as (Hb1 & Hp1 & Ht & Hr & He).
    destruct (is_end_stream (push_back b r)) eqn:Hend; [done|].
    specialize (IH _ _ Hb1). destruct (pull n (push_back b r) c1) as [b2 c2].
    destruct IH as (? & -> & -> & -> & ?). split_and!; try done. intros H1. specialize (He H1). congruence.
  - unfold poll_next in Hp. destruct (queue c), (tx_open c) eqn:?; by simplify_eq.
Qed.

(** Polling takes the next frame of those on their way; it finds the end only
    when all senders are gone and nothing is left. *)
Lemma poll_inv b c :
  receiver_inv b c →
  let '(p, b', c') := channel_poll_frame b c in
  receiver_inv b' c' ∧ tx_open c' = tx_open c ∧ rx_open c' = rx_open c ∧
  match p with
  | Ready (Some f) => pending b c = f :: pending b' c'
  | Ready None => pending b c = [] ∧ pending b' c' = [] ∧ tx_open c = false
  | Pending => pending b' c' = pending b c
  end.
Proof.
  intros Hb. unfold channel_poll_frame. pose proof (pull_inv (missing b) b c Hb) as Hpull.
  destruct (pull (missing b) b c) as [b1 c1]. destruct Hpull as (Hb1 & Hp & Ht & Hr & _).
  destruct Hb1 as [He (k & Hs & Hk) Hl] eqn:Eb1. clear Eb1.
  unfold pending in *. destruct (prefetched b1) as [|f fs] eqn:Hf; simpl in Hs.
  - destruct k as [|k]; simpl in Hs; rewrite Hs.
    + destruct (is_end_stream b1) eqn:Hend; (split_and!; [exact Hb1|done|done|..]); rewrite ?Hf; try done.
      * by destruct (He eq_refl) as [_ Hq]; rewrite <-Hp, Hq.
      * by destruct (He eq_refl) as [_ ->].
      * by destruct (He eq_refl) as [H1 _]; rewrite <-Ht.
    + destruct (He (Hk ltac:(lia))) as [Htx Hq].
      assert (∀ n l e, prefetched (mk_channel_body (replicate k None) n l e) = []) as Hnil
        by (intros; apply (omap_some [] k)).
      rewrite Hnil. split_and!; try done; [|by rewrite <-Hp, Hq|congruence]. split; simpl; rewrite ?Hnil.
      * done.
      * exists k. split; [done|]. intros. apply Hk. lia.
      * rewrite Hl, Z.sub_0_r. by vm_compute.
  - rewrite Hs. assert (∀ n l e, prefetched (mk_channel_body ((Some <$> fs) ++ replicate k None) n l e) = fs) as Hfs
      by (intros; apply omap_some).
    rewrite Hfs. split_and!; try done. split; simpl; rewrite ?Hfs.
    + done.
    + by exists k.
    + rewrite Hl, Zminus_mod_idemp_l. f_equal. change (len (f :: fs)) with (item_len (Some f) + len fs)%Z. simpl. lia.
Qed.

(** ** The machine *)

(** What the feeder will still send. *)
Definition unsent (fd : Feeder) : list FrameResult :=
  match fd with Bridge b => body_stream b | Task rest => rest | Gone => [] end.

Record machine_inv (frames : list FrameResult) (m : Machine) : Prop := {
  inv_receiver : receiver_inv (receiver m) (channel m);
  inv_frames : out m ++ pending (receiver m) (channel m) ++ unsent (feeder m) = frames;
  inv_rx : rx_open (channel m) = true;
  inv_feeder : match feeder m with
               | Bridge b => injector b = true ∧ tx_open (channel m) = true
               | Task _ => tx_open (channel m) = true
               | Gone => tx_open (channel m) = false
               end;
  inv_saw_end : saw_end m = true → out m = frames;
}.

(** The effect of sending some frames. *)
Definition feeds (fs : list FrameResult) (c c' : Channel) : Prop := c' = mk_channel (queue c ++ fs) (tx_open c) (rx_open c).

Lemma feeds_nil c : feeds [] c c.
Proof. unfold feeds. rewrite app_nil_r. by destruct c. Qed.

Lemma feeds_cons f fs c c' :
  feeds fs (mk_channel (queue c ++ [f]) (tx_open c) (rx_open c)) c' → feeds (f :: fs) c c'.
Proof. unfold feeds. simpl. by rewrite <-(assoc_L (++)). Qed.

Lemma receiver_feeds fs b c c' : tx_open c = true → receiver_inv b c → feeds fs c c' → receiver_inv b c'.
Proof. intros Htx [He Hs Hl] ->. split; try done. simpl. intros Hend. destruct (He Hend). congruence. Qed.

Lemma inject_feeds b c f :
  injector b = true → rx_open c = true →
  ∃ b' c', inject_frame b c f = (true, b', c') ∧ body_stream b' = body_stream b ∧ injector b' = true ∧ feeds [f] c c'.
Proof. intros Hi Hr. unfold inject_frame, send, feeds. rewrite Hi, Hr. by eexists _, _. Qed.

Lemma drain_feeds fs n c :
  rx_open c = true → ∃ c', drain_loop fs n c = (mk_bridge [] true (length fs + n), c') ∧ feeds fs c c'.
Proof.
  revert n c. induction fs as [|f fs IH]; intros n c Hr; cbn [drain_loop].
  { eexists. split; [done|apply feeds_nil]. }
  unfold send. rewrite Hr. destruct (IH (S n) (mk_channel (queue c ++ [f]) (tx_open c) true)) as (c' & -> & Hc'); [done|].
  eexists. split; [do 2 f_equal; simpl; lia|]. apply feeds_cons. by rewrite Hr.
Qed.

Lemma complete_data_feeds fs n c r b' c' :
  rx_open c = true → complete_data_loop fs n c = (Some r, b', c') →
  ∃ sent, feeds sent c c' ∧ fs = sent ++ r :: body_stream b' ∧ injector b' = true.
Proof.
  revert n c. induction fs as [|f fs IH]; intros n c Hr; cbn [complete_data_loop]; [done|].
  case_match; [|intros; simplify_eq; exists []; split; [apply feeds_nil|done]].
  unfold send. rewrite Hr. intros Hc. apply IH in Hc as (sent & Hf & -> & ?); [|done].
  exists (f :: sent). split_and!; [|done..]. apply feeds_cons. by rewrite Hr.
Qed.

(** A feeder that moves frames to the channel keeps the invariant. *)
Lemma fed_inv frames fs c c' cb o e fd fd' :
  machine_inv frames (mk_machine fd c cb o e) → tx_open c = true → feeds fs c c' →
  unsent fd = fs ++ unsent fd' →
  match fd' with Bridge b => injector b = true | Task _ => True | Gone => False end →
  machine_inv frames (mk_machine fd' c' cb o e).
Proof.
  intros [Hr Hf Hrx Hfd He] Htx Hc Hu Hfd'. simpl in *. split; simpl.
  - by eapply receiver_feeds.
  - rewrite <-Hf, Hu. unfold pending. rewrite Hc. simpl. by rewrite <-!(assoc_L (++)).
  - by rewrite Hc.
  - rewrite Hc. by destruct fd'.
  - done.
Qed.

Lemma machine_step frames m m' : machine_inv frames m → step m m' → machine_inv frames m'.
Proof.
  intros Hm Hs. pose proof Hm as [Hr _ Hrx Hfd He].
  destruct Hs as [b c cb o e f b' c' Ho|b c cb o e f b1 ok b' c' Hn Hi|b c cb o e f b1 c1 ok b' c' Hc Hi
    |b c cb o e b' c' Hd|b c cb o e Hi|f fs c cb o e c' Hs|c cb o e|fd c cb o e cb' c' Hp|fd c cb o e p cb' c' Hp];
    simpl in *.
  - unfold observe_and_inject, next_frame in Ho. destruct Hfd as [Hi Htx].
    destruct (body_stream b) as [|f' fs] eqn:Hfs; [by simplify_eq|].
    destruct (inject_feeds (mk_bridge fs (injector b) (injected_frames b)) c f') as (b2 & c2 & Hi2 & Hb2 & ? & ?); [done..|].
    rewrite Hi2 in Ho. simplify_eq. apply (fed_inv frames [f'] c c' cb o e (Bridge b)); try done.
    simpl. by rewrite Hb2, Hfs.
  - unfold next_frame in Hn. destruct Hfd as [Hinj Htx]. destruct (body_stream b) as [|f' fs] eqn:Hfs; simplify_eq.
    destruct (inject_feeds (mk_bridge fs (injector b) (injected_frames b)) c f) as (b2 & c2 & Hi2 & Hb2 & ? & ?); [done..|].
    rewrite Hi2 in Hi. simplify_eq. apply (fed_inv frames [f] c c' cb o e (Bridge b)); try done.
    simpl. by rewrite Hb2, Hfs.
  - destruct Hfd as [Hinj Htx]. unfold complete_data in Hc. rewrite Hinj in Hc.
    apply complete_data_feeds in Hc as (sent & Hs & Hb & Hi1); [|done].
    assert (machine_inv frames (mk_machine (Bridge (mk_bridge (f :: body_stream b1) true 0)) c1 cb o e)) as Hm1.
    { by apply (fed_inv frames sent c c1 cb o e (Bridge b)). }
    destruct (inject_feeds b1 c1 f) as (b2 & c2 & Hi2 & Hb2 & ? & ?); [done|by rewrite Hs|].
    rewrite Hi2 in Hi. simplify_eq.
    apply (fed_inv frames [f] c1 c' cb o e (Bridge (mk_bridge (f :: body_stream b1) true 0))); try done.
    + by rewrite Hs.
    + simpl. by rewrite Hb2.
  - destruct Hfd as [Hinj Htx]. unfold drain_and_inject in Hd. rewrite Hinj in Hd.
    destruct (drain_feeds (body_stream b) (injected_frames b) c Hrx) as (c2 & Hd2 & Hc2).
    rewrite Hd2 in Hd. simplify_eq.
    apply (fed_inv frames (body_stream b) c c' cb o e (Bridge b)); try done. simpl. by rewrite app_nil_r.
  - destruct Hfd as [_ Htx]. apply (fed_inv frames [] c c cb o e (Bridge b)); try done. apply feeds_nil.
  - unfold send in Hs. rewrite Hrx in Hs. simplify_eq.
    apply (fed_inv frames [f] c _ cb o e (Task (f :: fs))); try done. unfold feeds. by rewrite Hrx.
  - split; simpl; try done; [|apply (inv_frames _ _ Hm)]. destruct Hr as [He' ? ?]. split; try done. simpl. intros Hend. by destruct (He' Hend).
  - unfold prefetch_frames in Hp. destruct (bool_decide _ || _); [by simplify_eq|].
    pose proof (pull_inv (missing cb) cb c Hr) as Hpull. rewrite Hp in Hpull.
    destruct Hpull as (? & Hpe & Ht & Hrx' & _). split; simpl; try done; rewrite ?Hpe, ?Ht, ?Hrx'; try done. apply (inv_frames _ _ Hm).
  - pose proof (inv_frames _ _ Hm) as Hf. simpl in Hf. pose proof (poll_inv cb c Hr) as Hpoll. rewrite Hp in Hpoll. destruct Hpoll as (? & Ht & Hrx' & Hres).
    assert (∀ fd, match fd with Bridge b => injector b = true ∧ tx_open c = true | Task _ => tx_open c = true | Gone => tx_open c = false end →
      tx_open c = false → unsent fd = []) as Hgone 
      by (intros [|?|] Hx Hy; [destruct Hx; congruence|congruence|done]).
    split; simpl; rewrite ?Ht, ?Hrx'; try done.
    + destruct p as [[f|]|]; rewrite <-Hf.
      * rewrite Hres. by rewrite <-!(assoc_L (++)).
      * destruct Hres as (-> & -> & _). by rewrite app_nil_r.
      * by rewrite Hres, app_nil_r.
    + destruct p as [[f|]|]; rewrite ?app_nil_r; try done.
      * intros Hend. specialize (He Hend). rewrite Hres, He in Hf. exfalso.
        apply (f_equal length) in Hf. rewrite !length_app in Hf. simpl in Hf. lia.
      * intros _. destruct Hres as (Hn & _ & Htx). by rewrite Hn, (Hgone fd Hfd Htx), !app_nil_r in Hf.
Qed.

Lemma machine_reachable frames n m : rtc step (machine_new frames n) m → machine_inv frames m.
Proof.
  intros Hm. assert (machine_inv frames (machine_new frames n)) as H0.
  { split; try done. split; try done. exists 0. split; [done|lia]. }
  induction Hm; eauto using machine_step.
Qed.

(** ** Progress *)

Lemma pull_num n b c : prefetch_num_frames (pull n b c).1 = prefetch_num_frames b.
Proof.
  revert b c. induction n as [|n IH]; intros b c; [done|]. cbn [pull].
  destruct (poll_next c) as [[r|] c1]; [|done].
  destruct (is_end_stream (push_back b r)); [done|]. by rewrite IH.
Qed.

Lemma pull_nonempty n b c : prefetch b ≠ [] → prefetch (pull n b c).1 ≠ [].
Proof.
  revert b c. induction n as [|n IH]; intros b c Hb; [done|]. cbn [pull].
  destruct (poll_next c) as [[r|] c1]; [|done].
  assert (prefetch (push_back b r) ≠ []) by (simpl; by destruct (prefetch b)).
  destruct (is_end_stream (push_back b r)); [done|]. by apply IH.
Qed.

(** Without senders a poll does not wait. *)
Lemma poll_not_pending b c :
  0 < prefetch_num_frames b → tx_open c = false → (channel_poll_frame b c).1.1 ≠ Pending.
Proof.
  intros Hn Htx. unfold channel_poll_frame.
  assert (prefetch (pull (missing b) b c).1 ≠ []) as Hne.
  { destruct (prefetch b) as [|r rs] eqn:Hb; [|apply pull_nonempty; congruence].
    assert (missing b = S (pred (prefetch_num_frames b))) as -> by (unfold missing; rewrite Hb; simpl; lia).
    cbn [pull]. unfold poll_next. rewrite Htx.
    destruct (queue c) as [|f fs]; simpl; [by rewrite Hb|]. apply pull_nonempty. simpl. by rewrite Hb. }
  destruct (pull (missing b) b c) as [b1 c1]. simpl in *. by destruct (prefetch b1).
Qed.

Lemma poll_num b c : prefetch_num_frames (channel_poll_frame b c).1.2 = prefetch_num_frames b.
Proof.
  unfold channel_poll_frame. pose proof (pull_num (missing b) b c) as Hn.
  destruct (pull (missing b) b c) as [b1 c1]. by destruct (prefetch b1).
Qed.

(** The consumer polls until it has seen the end. *)
Fixpoint read_all (polls : nat) (b : ChannelBody) (c : Channel) : list FrameResult * bool :=
  match polls with
  | 0 => ([], false)
  | S polls =>
    match channel_poll_frame b c with
    | (Ready None, _, _) => ([], true)
    | (Ready (Some f), b, c) => let '(fs, e) := read_all polls b c in (f :: fs, e)
    | (Pending, b, c) => read_all polls b c
    end
  end.

Lemma read_all_pending b c :
  receiver_inv b c → 0 < prefetch_num_frames b → tx_open c = false →
  read_all (S (length (pending b c))) b c = (pending b c, true).
Proof.
  remember (length (pending b c)) as k eqn:Hk. revert b c Hk.
  induction k as [|k IH]; intros b c Hk Hb Hn Htx; cbn [read_all];
    pose proof (poll_inv b c Hb) as Hp; pose proof (poll_not_pending b c Hn Htx) as Hnp;
    pose proof (poll_num b c) as Hnum;
    destruct (channel_poll_frame b c) as [[[[f|]|] b1] c1]; simpl in *;
    destruct Hp as (Hb1 & Ht & _ & Hres); try done.
  - rewrite Hres in Hk. done.
  - by destruct Hres as (-> & _).
  - rewrite Hres in *. simpl in Hk. injection Hk as Hk.
    fold (read_all (S k) b1 c1). rewrite (IH b1 c1) by (done || congruence). done.
  - by destruct Hres as (Hp & _); rewrite Hp in Hk.
Qed.

Lemma reachable_num frames n m : rtc step (machine_new frames n) m → prefetch_num_frames (receiver m) = n.
Proof.
  intros Hm. assert (prefetch_num_frames (receiver (machine_new frames n)) = n) as H0 by done.
  revert H0. generalize (machine_new frames n) as m0, Hm. clear. intros m0.
  induction 1 as [|m1 m2 m3 Hs _ IH]; [done|]. intros H1. apply IH. revert H1.
  destruct Hs; simpl; try done; intros <-.
  - unfold prefetch_frames in *. destruct (bool_decide _ || _); simplify_eq; [done|].
    pose proof (pull_num (missing cb) cb c) as Hn. by rewrite H in Hn.
  - pose proof (poll_num cb c) as Hn. by rewrite H in Hn.
Qed.

(** C11: the channel passes a body on as it is.  However the bridge forwards the
    frames, in whatever order its calls, the task it leaves behind and the reads
    of the body are interleaved, the consumer gets a prefix of the frames of the
    original body, in order, and sees the end only after the last one; once the
    bridge is gone reading on delivers the rest and then the end; and a body that
    reports its exact size reports the number of bytes still to come. *)
Theorem channel_body_delivers frames n m :
  0 < n → rtc step (machine_new frames n) m →
  ∃ rest, frames = out m ++ rest ∧
    (saw_end m = true → rest = []) ∧
    (feeder m = Gone → read_all (S (length rest)) (receiver m) (channel m) = (rest, true)) ∧
    (∀ size, (size_hint (receiver m)).2 = Some size → size = (len rest mod 2 ^ 64)%Z).
Proof.
  intros Hn Hm. pose proof (reachable_num _ _ _ Hm) as Hnum.
  apply machine_reachable in Hm as [Hr Hf Hrx Hfd He].
  exists (pending (receiver m) (channel m) ++ unsent (feeder m)). split_and!.
  - done.
  - intros H1. specialize (He H1). rewrite He in Hf. apply (f_equal length) in Hf.
    rewrite length_app in Hf. apply length_zero_iff_nil. lia.
  - intros Hg. rewrite Hg in *. simpl. rewrite app_nil_r. apply read_all_pending; [done|lia|done].
  - unfold size_hint. intros size. destruct (is_end_stream (receiver m)) eqn:Hend; [|done].
    intros [= <-]. rewrite (inv_len _ _ Hr). destruct (inv_end _ _ Hr Hend) as [Htx Hq].
    unfold pending. rewrite Hq, app_nil_r. destruct (feeder m); [destruct Hfd; congruence|congruence|].
    by rewrite app_nil_r.
Qed.

End channel_body.

(** A body of one frame, forwarded and read. *)
#[local] Existing Instance assoc_http.

Lemma channel_body_delivers_witness :
  let f : result () Frame := Ok (Data (lit "x")) in
  let m := mk_machine Gone (mk_channel [f] false true) (channel_body_new 1) [] false in
  ∃ rest, [f] = out m ++ rest ∧
    (saw_end m = true → rest = []) ∧
    (feeder m = Gone → read_all (S (length rest)) (receiver m) (channel m) = (rest, true)) ∧
    (∀ size, (size_hint (receiver m)).2 = Some size → size = (len rest mod 2 ^ 64)%Z).
Proof.
  intros f m. apply (channel_body_delivers [f] 1 m); [lia|].
  eapply rtc_l; [by eapply SObserve|]. eapply rtc_l; [by apply SDrop|].
  eapply rtc_l; [apply STaskEnd|]. apply rtc_refl.
Defined.

End ChannelBody.
