(* ===== verification/Pools.v ===== *)
(** The connection pools of an endpoint (arion-lib/src/transport/http1_pool.rs and
    http2_pool.rs), one of each per thread.  The tasks of a thread take turns at
    the points where they wait, so a step of the machines below is what a task does
    between two of them.  Connections are numbered; whether one is closed or ready
    is up to the crate hyper. *)

From stdpp Require Import relations.
From S2P Require Import Prelude.
Local Open Scope Z_scope.

(** [quanta::Clock::delta]. *)
Definition delta (start now : Z) : Z := Z.max 0 (now - start).

(** ** HTTP/1 *)

Module Http1Pool.

Record IdleConn : Type := mk_idle { tx : nat; idle_at : Z }.

Section inner.
Context (idle_timeout : Z) (is_closed : nat → bool).

(** [cleanup_expired]. *)
Definition cleanup_expired (now : Z) (idle : list IdleConn) : list IdleConn :=
  filter (λ c, is_closed (tx c) = false ∧ delta (idle_at c) now <= idle_timeout) idle.

(** [pop]: the connection that was released last. *)
Definition pop (idle : list IdleConn) : option nat * list IdleConn :=
  match reverse idle with
  | [] => (None, idle)
  | c :: cs => (Some (tx c), reverse cs)
  end.

(** [release]. *)
Definition release (now : Z) (c : nat) (idle : list IdleConn) : list IdleConn :=
  if is_closed c then idle else idle ++ [mk_idle c now].

(** [Http1Permit::on_body_end]. *)
Definition on_body_end (is_ready : nat → bool) (now : Z) (c : nat) (completed : bool) (idle : list IdleConn) : list IdleConn :=
  if is_closed c then idle
  else if completed || is_ready c then release now c idle
  else idle.

(** [attach_permit]: the pool, and the connection if the body holds its permit. *)
Definition attach_permit (now : Z) (c : nat) (switching_protocols end_stream : bool) (idle : list IdleConn)
    : list IdleConn * option nat :=
  if switching_protocols then (idle, None)
  else if end_stream then (if is_closed c then idle else release now c idle, None)
  else (idle, Some c).

End inner.

(** A request waits for its connection to become ready, for its response, or its
    response is streamed. *)
Inductive task : Type :=
  | Waiting (c : nat)
  | Sending (c : nat)
  | Streaming (c : nat).

Definition conn (t : task) : nat := match t with Waiting c | Sending c | Streaming c => c end.

Record pool : Type := mk_pool { idle : list IdleConn; tasks : gmap nat task; fresh : nat }.

(** The loop of [checkout] looks at one idle connection at a time, and connects
    when there is none. *)
Inductive step (idle_timeout : Z) (is_closed is_ready : nat → bool) (now : Z) : pool → pool → Prop :=
  | CheckoutClosed p c rest :
      pop (idle p) = (Some c, rest) → is_closed c = true →
      step idle_timeout is_closed is_ready now p (mk_pool rest (tasks p) (fresh p))
  | CheckoutReady p c rest i :
      pop (idle p) = (Some c, rest) → is_closed c = false → is_ready c = true → tasks p !! i = None →
      step idle_timeout is_closed is_ready now p (mk_pool rest (<[i := Sending c]> (tasks p)) (fresh p))
  | CheckoutWait p c rest i :
      pop (idle p) = (Some c, rest) → is_closed c = false → is_ready c = false → tasks p !! i = None →
      step idle_timeout is_closed is_ready now p (mk_pool rest (<[i := Waiting c]> (tasks p)) (fresh p))
  | WaitOk p c i :
      tasks p !! i = Some (Waiting c) →
      step idle_timeout is_closed is_ready now p (mk_pool (idle p) (<[i := Sending c]> (tasks p)) (fresh p))
  | ConnectOne p i :
      tasks p !! i = None →
      step idle_timeout is_closed is_ready now p (mk_pool (idle p) (<[i := Sending (fresh p)]> (tasks p)) (S (fresh p)))
  | Respond p c i switching_protocols end_stream idle' permit :
      tasks p !! i = Some (Sending c) →
      attach_permit is_closed now c switching_protocols end_stream (idle p) = (idle', permit) →
      step idle_timeout is_closed is_ready now p
        (mk_pool idle' (match permit with Some c => <[i := Streaming c]> (tasks p) | None => delete i (tasks p) end) (fresh p))
  | BodyEnd p c i completed :
      tasks p !! i = Some (Streaming c) →
      step idle_timeout is_closed is_ready now p
        (mk_pool (on_body_end is_closed is_ready now c completed (idle p)) (delete i (tasks p)) (fresh p))
  (** An error while waiting or sending, or a request that is given up: the
      connection is dropped. *)
  | Dropped p t i :
      tasks p !! i = Some t → (∀ c, t ≠ Streaming c) →
      step idle_timeout is_closed is_ready now p (mk_pool (idle p) (delete i (tasks p)) (fresh p))
  | Cleanup p :
      step idle_timeout is_closed is_ready now p
        (mk_pool (cleanup_expired idle_timeout is_closed now (idle p)) (tasks p) (fresh p)).

(** The state of the connections and the time differ from step to step. *)
Definition any_step (idle_timeout : Z) (p p' : pool) : Prop :=
  ∃ is_closed is_ready now, step idle_timeout is_closed is_ready now p p'.

Definition pool_new : pool := mk_pool [] ∅ 0.

(** ** Exclusive use *)

Definition held (p : pool) (c : nat) : Prop := ∃ i t, tasks p !! i = Some t ∧ conn t = c.

Record pool_inv (p : pool) : Prop := {
  inv_idle : NoDup (tx <$> idle p);
  inv_tasks : ∀ i j t u, tasks p !! i = Some t → tasks p !! j = Some u → conn t = conn u → i = j;
  inv_apart : ∀ c, c ∈ tx <$> idle p → ¬ held p c;
  inv_fresh : ∀ c, c ∈ tx <$> idle p ∨ held p c → (c < fresh p)%nat;
}.

Lemma pop_Some l c rest : pop l = (Some c, rest) → ∃ t, l = rest ++ [mk_idle c t].
Proof.
  unfold pop. destruct (reverse l) as [|[c' t] cs] eqn:Hl; [done|]. intros [= <- <-].
  exists t. rewrite <-reverse_cons, <-Hl. by rewrite reverse_involutive.
Qed.

(** Tasks and idle connections exchange a connection. *)
Lemma take_inv p c rest i t :
  pool_inv p → pop (idle p) = (Some c, rest) → tasks p !! i = None → conn t = c →
  pool_inv (mk_pool rest (<[i := t]> (tasks p)) (fresh p)).
Proof.
  intros [Hn Ht Ha Hf] Hp Hi Hc. apply pop_Some in Hp as [at_ Hp]. rewrite Hp, fmap_app in *.
  apply NoDup_app in Hn as (Hn & Hd & _). assert (¬ held p c) as Hnc by (apply Ha; set_solver).
  split; simpl.
  - done.
  - intros j k t1 t2. rewrite !lookup_insert_Some.
    intros [[-> ->]|[? H1]] [[-> ->]|[? H2]] E; try done.
    + destruct Hnc. exists k, t2. split; [done|congruence].
    + destruct Hnc. exists j, t1. split; [done|congruence].
    + by eapply Ht.
  - intros c' Hc' (j & u & Hj & Hu). simpl in Hj. apply lookup_insert_Some in Hj as [[-> ->]|[? Hj]].
    + apply (Hd c'); [done|]. set_solver.
    + apply (Ha c'); [set_solver|]. by exists j, u.
  - intros c' [Hc'|(j & u & Hj & Hu)]; [apply Hf; set_solver|].
    simpl in Hj. apply lookup_insert_Some in Hj as [[-> ->]|[? Hj]].
    + apply Hf. left. set_solver.
    + apply Hf. right. by exists j, u.
Qed.

Lemma update_inv p i t u :
  pool_inv p → tasks p !! i = Some t → conn u = conn t →
  pool_inv (mk_pool (idle p) (<[i := u]> (tasks p)) (fresh p)).
Proof.
  intros [Hn Ht Ha Hf] Hi Hu.
  assert (∀ c, held (mk_pool (idle p) (<[i := u]> (tasks p)) (fresh p)) c → held p c) as Hheld.
  { intros c (j & v & Hj & Hv). simpl in Hj. apply lookup_insert_Some in Hj as [[-> ->]|[? Hj]]; [|by exists j, v].
    exists j, t. split; [done|congruence]. }
  split; simpl; try naive_solver.
  intros j k t1 t2. rewrite !lookup_insert_Some. intros [[-> ->]|[? H1]] [[-> ->]|[? H2]] E; try done.
  - apply (Ht j k t t2); congruence.
  - apply (Ht j k t1 t); congruence.
  - by eapply Ht.
Qed.

Lemma drop_inv p i : pool_inv p → pool_inv (mk_pool (idle p) (delete i (tasks p)) (fresh p)).
Proof.
  intros [Hn Ht Ha Hf].
  assert (∀ c, held (mk_pool (idle p) (delete i (tasks p)) (fresh p)) c → held p c) as Hheld.
  { intros c (j & v & Hj & Hv). simpl in Hj. apply lookup_delete_Some in Hj as [_ Hj]. by exists j, v. }
  split; simpl; try naive_solver.
  intros j k t1 t2. rewrite !lookup_delete_Some. naive_solver.
Qed.

Lemma shrink_inv p l : pool_inv p → l `sublist_of` idle p → pool_inv (mk_pool l (tasks p) (fresh p)).
Proof.
  intros [Hn Ht Ha Hf] Hl. assert ((tx <$> l) `sublist_of` (tx <$> idle p)) as Hs by by apply fmap_sublist.
  assert (∀ c, c ∈ tx <$> l → c ∈ tx <$> idle p) as Hin
    by (intros c Hc; by eapply elem_of_sublist).
  split; simpl; try done.
  - by eapply sublist_NoDup.
  - intros c Hc. by apply Ha, Hin.
  - intros c [Hc|Hc]; apply Hf; [left; by apply Hin|by right].
Qed.

(** A task gives its connection back. *)
Lemma give_inv p i t at_ :
  pool_inv p → tasks p !! i = Some t →
  pool_inv (mk_pool (idle p ++ [mk_idle (conn t) at_]) (delete i (tasks p)) (fresh p)).
Proof.
  intros Hp Hi. pose proof (drop_inv p i Hp) as [_ Ht _ _]. destruct Hp as [Hn Ht0 Ha Hf]. split; simpl.
  - rewrite fmap_app. apply NoDup_app. split_and!; [done| |apply NoDup_singleton].
    intros c Hc Hc'. apply (Ha c Hc). exists i, t. set_solver.
  - done.
  - intros c Hc (j & u & Hj & Hu). simpl in Hj. apply lookup_delete_Some in Hj as [Hne Hj].
    rewrite fmap_app in Hc. apply elem_of_app in Hc as [Hc|Hc].
    + apply (Ha c Hc). by exists j, u.
    + apply Hne. apply (Ht0 i j t u); [done..|set_solver].
  - intros c [Hc|(j & u & Hj & Hu)].
    + rewrite fmap_app in Hc. apply elem_of_app in Hc as [Hc|Hc]; apply Hf; [by left|].
      right. exists i, t. set_solver.
    + simpl in Hj. apply lookup_delete_Some in Hj as [_ Hj]. apply Hf. right. by exists j, u.
Qed.

Lemma http1_step idle_timeout p p' : pool_inv p → any_step idle_timeout p p' → pool_inv p'.
Proof.
  intros Hp (is_closed & is_ready & now & Hs).
  destruct Hs as [p c rest Hpop Hc|p c rest i Hpop Hc Hr Hi|p c rest i Hpop Hc Hr Hi|p c i Hi|p i Hi
    |p c i sp es idle' permit Hi Hat|p c i completed Hi|p t i Hi Ht|p].
  - apply shrink_inv; [done|]. apply pop_Some in Hpop as [t ->]. by apply sublist_inserts_r.
  - by eapply take_inv.
  - by eapply take_inv.
  - by eapply update_inv.
  - destruct Hp as [Hn Ht Ha Hf]. assert (¬ held p (fresh p)) as Hnf.
    { intros Hh. specialize (Hf (fresh p) (or_intror Hh)). lia. }
    split; simpl.
    + done.
    + intros j k t1 t2. rewrite !lookup_insert_Some. intros [[-> <-]|[? H1]] [[-> <-]|[? H2]] E; try done.
      * destruct Hnf. by exists k, t2.
      * destruct Hnf. by exists j, t1.
      * by eapply Ht.
    + intros c Hc (j & u & Hj & Hu). simpl in Hj. apply lookup_insert_Some in Hj as [[-> <-]|[? Hj]].
      * simpl in Hu. subst. specialize (Hf (fresh p) (or_introl Hc)). lia.
      * apply (Ha c Hc). by exists j, u.
    + intros c [Hc|(j & u & Hj & Hu)]; [specialize (Hf c (or_introl Hc)); lia|].
      simpl in Hj. apply lookup_insert_Some in Hj as [[-> <-]|[? Hj]]; [simpl in Hu; lia|].
      assert (held p c) as Hh by by exists j, u. specialize (Hf c (or_intror Hh)). lia.
  - unfold attach_permit, release in Hat. repeat case_match; simplify_eq;
      first [by apply drop_inv|by eapply update_inv|by apply (give_inv p i (Sending c))].
  - unfold on_body_end, release. repeat case_match; first [by apply drop_inv|by apply (give_inv p i (Streaming c))].
  - by apply drop_inv.
  - apply shrink_inv; [done|]. apply sublist_filter.
Qed.

Lemma http1_reachable idle_timeout p : rtc (any_step idle_timeout) pool_new p → pool_inv p.
Proof.
  intros Hp. assert (pool_inv pool_new) as H0.
  { split; try done; [constructor|intros ? ?%not_elem_of_nil; done|].
    intros c [?%not_elem_of_nil|(? & ? & ? & ?)]; done. }
  induction Hp; eauto using http1_step.
Qed.

(** C20: a connection serves one request at a time.  Whatever the order of
    requests, responses, ends of bodies, cancellations and clean-ups, no two
    requests hold the same connection, no connection is in the pool twice, and
    the pool does not hand out a connection while its response is still being
    streamed. *)
Theorem http1_exclusive idle_timeout p :
  rtc (any_step idle_timeout) pool_new p →
  (∀ i j t u, tasks p !! i = Some t → tasks p !! j = Some u → conn t = conn u → i = j) ∧
  (∀ c rest, pop (idle p) = (Some c, rest) →
    c ∉ tx <$> rest ∧ ∀ i t, tasks p !! i = Some t → conn t ≠ c).
Proof.
  intros [Hn Ht Ha Hf]%http1_reachable. split; [done|].
  intros c rest Hpop. apply pop_Some in Hpop as [at_ Hpop]. rewrite Hpop, fmap_app in *.
  apply NoDup_app in Hn as (_ & Hd & _). split.
  - intros Hc. apply (Hd c Hc). set_solver.
  - intros i t Hi Hc. apply (Ha c); [set_solver|]. by exists i, t.
Qed.

Lemma http1_exclusive_witness :
  let p := mk_pool [mk_idle 0 5] {[ 1%nat := Sending 1 ]} 2 in
  (∀ i j t u, tasks p !! i = Some t → tasks p !! j = Some u → conn t = conn u → i = j) ∧
  (∀ c rest, pop (idle p) = (Some c, rest) →
    c ∉ tx <$> rest ∧ ∀ i t, tasks p !! i = Some t → conn t ≠ c).
Proof.
  intros p. apply (http1_exclusive 60).
  apply (rtc_l _ _ (mk_pool [] {[ 0%nat := Sending 0 ]} 1)).
  { exists (λ _, false), (λ _, true), 1. exact (ConnectOne 60 (λ _, false) (λ _, true) 1 pool_new 0 eq_refl). }
  apply (rtc_l _ _ (mk_pool [] {[ 1%nat := Sending 1; 0%nat := Sending 0 ]} 2)).
  { exists (λ _, false), (λ _, true), 2. 
    exact (ConnectOne 60 (λ _, false) (λ _, true) 2 (mk_pool [] {[ 0%nat := Sending 0 ]} 1) 1 eq_refl). }
  apply (rtc_l _ _ p); [|apply rtc_refl].
  exists (λ _, false), (λ _, true), 5.
  exact (Respond 60 (λ _, false) (λ _, true) 5 (mk_pool [] {[ 1%nat := Sending 1; 0%nat := Sending 0 ]} 2) 0 0 false true
    [mk_idle 0 5] None eq_refl eq_refl).
Defined.

End Http1Pool.
