(* ===== verification/Http2Pool.v ===== *)
(** The HTTP/2 pool of an endpoint (arion-lib/src/transport/http2_pool.rs): many
    requests share a connection, and a counter for each connection says how many
    there are. *)

From stdpp Require Import relations.
From S2P Require Import Prelude Pools.
Local Open Scope Z_scope.

Module Http2Pool.

(** The counter of a connection is shared by the pool and the requests on it, so
    it is found by the connection. *)
Record H2Conn : Type := mk_conn { tx : nat; last_used : Z }.
Notation counters := (gmap nat Z).

Definition in_flight (k : counters) (c : nat) : Z := default 0 (k !! c).

(** [fetch_add] and [fetch_sub] on an [AtomicU32]. *)
Definition fetch_add (k : counters) (c : nat) : counters := <[c := Int.wrapping_incr 32 (in_flight k c)]> k.
Definition fetch_sub (k : counters) (c : nat) : counters := <[c := Int.wrapping_decr 32 (in_flight k c)]> k.

Section inner.
Context (idle_timeout : Z) (max_concurrent_streams : option Z).

(** [cleanup_expired]. *)
Definition cleanup_expired (is_closed : nat → bool) (now : Z) (k : counters) (conns : list H2Conn) : list H2Conn :=
  filter (λ c, is_closed (tx c) = false ∧ (0 < in_flight k (tx c) ∨ delta (last_used c) now <= idle_timeout)) conns.

Definition has_capacity (k : counters) (c : nat) : bool :=
  match max_concurrent_streams with Some max => in_flight k c <? max | None => true end.

(** [Http2PoolInner::checkout]: the first connection that has room. *)
Fixpoint checkout (is_closed : nat → bool) (now : Z) (k : counters) (conns : list H2Conn)
    : option (nat * counters * list H2Conn) :=
  match conns with
  | [] => None
  | c :: cs =>
    if negb (is_closed (tx c)) && has_capacity k (tx c)
    then Some (tx c, fetch_add k (tx c), mk_conn (tx c) now :: cs)
    else (λ '(x, k, cs), (x, k, c :: cs)) <$> checkout is_closed now k cs
  end.

(** [insert] of a connection that was made for a request. *)
Definition insert_conn (now : Z) (c : nat) (k : counters) (conns : list H2Conn) : counters * list H2Conn :=
  (<[c := 1]> k, conns ++ [mk_conn c now]).

(** [attach_stream_permit]: the stream has ended with the headers, or the body
    holds the permit. *)
Definition attach_stream_permit (c : nat) (end_stream : bool) (k : counters) : counters * bool :=
  if end_stream then (fetch_sub k c, false) else (k, true).

(** [Http2StreamPermit::on_body_end]. *)
Definition on_body_end (c : nat) (completed : bool) (k : counters) : counters := fetch_sub k c.

(** A request waits for its response or its response is streamed.  A request that
    was given up while it waited is kept in the model, for it was counted. *)
Inductive task : Type :=
  | Sending (c : nat)
  | Streaming (c : nat)
  | Cancelled (c : nat).

#[local] Instance task_eq_dec : EqDecision task.
Proof. solve_decision. Defined.

Definition conn (t : task) : nat := match t with Sending c | Streaming c | Cancelled c => c end.

Record pool : Type := mk_pool {
  conns : list H2Conn;
  counts : counters;
  tasks : gmap nat task;
  fresh : nat;
}.

Inductive step (is_closed : nat → bool) (now : Z) : pool → pool → Prop :=
  | Checkout p c k cs i :
      checkout is_closed now (counts p) (conns p) = Some (c, k, cs) → tasks p !! i = None →
      step is_closed now p (mk_pool cs k (<[i := Sending c]> (tasks p)) (fresh p))
  | ConnectOne p k cs i :
      insert_conn now (fresh p) (counts p) (conns p) = (k, cs) → tasks p !! i = None →
      step is_closed now p (mk_pool cs k (<[i := Sending (fresh p)]> (tasks p)) (S (fresh p)))
  (** [send_request] fails. *)
  | SendError p c i :
      tasks p !! i = Some (Sending c) →
      step is_closed now p (mk_pool (conns p) (fetch_sub (counts p) c) (delete i (tasks p)) (fresh p))
  | Respond p c i end_stream k permit :
      tasks p !! i = Some (Sending c) → attach_stream_permit c end_stream (counts p) = (k, permit) →
      step is_closed now p
        (mk_pool (conns p) k (if permit : bool then <[i := Streaming c]> (tasks p) else delete i (tasks p)) (fresh p))
  | BodyEnd p c i completed :
      tasks p !! i = Some (Streaming c) →
      step is_closed now p (mk_pool (conns p) (on_body_end c completed (counts p)) (delete i (tasks p)) (fresh p))
  (** The future of [send] is dropped, by a timeout for instance. *)
  | Cancel p c i :
      tasks p !! i = Some (Sending c) →
      step is_closed now p (mk_pool (conns p) (counts p) (<[i := Cancelled c]> (tasks p)) (fresh p))
  | Cleanup p :
      step is_closed now p
        (mk_pool (cleanup_expired is_closed now (counts p) (conns p)) (counts p) (tasks p) (fresh p)).

Definition any_step (p p' : pool) : Prop := ∃ is_closed now, step is_closed now p p'.

Definition pool_new : pool := mk_pool [] ∅ ∅ 0.

(** ** The counters *)

Definition on (c : nat) (p : pool) : Z := Z.of_nat (number (λ t, conn t = c) (tasks p)).
Definition cancelled (c : nat) (p : pool) : Z := Z.of_nat (number (λ t, t = Cancelled c) (tasks p)).

Section count.
Context (P : task → Prop) `{!∀ t, Decision (P t)} (m : gmap nat task) (i : nat).
Notation count m := (Z.of_nat (number P m)).
Notation one t := (if decide (P t) then 1 else 0).

Lemma count_insert t : m !! i = None → count (<[i := t]> m) = one t + count m.
Proof. intros Hi. rewrite number_insert by done. case_decide; lia. Qed.

Lemma count_delete t : m !! i = Some t → count (delete i m) = count m - one t.
Proof. intros Hi. rewrite (number_delete P m i t Hi). case_decide; lia. Qed.

Lemma count_replace t u : m !! i = Some t → count (<[i := u]> m) = count m - one t + one u.
Proof.
  intros Hi. rewrite <-insert_delete_eq. rewrite number_insert by apply lookup_delete_eq.
  rewrite (number_delete P m i t Hi). repeat case_decide; lia.
Qed.
End count.

Context (m : Z).
Hypothesis max_m : max_concurrent_streams = Some m.
Hypothesis m_range : Int.is_u32 m.

Record pool_inv (p : pool) : Prop := {
  inv_counts : ∀ c, in_flight (counts p) c = on c p;
  inv_bound : ∀ c, on c p <= Z.max 1 m;
  inv_tasks : ∀ i t, tasks p !! i = Some t → (conn t < fresh p)%nat;
  inv_conns : ∀ c, c ∈ tx <$> conns p → (c < fresh p)%nat;
}.

Lemma on_range p c : pool_inv p → 0 <= on c p < 2 ^ 32.
Proof.
  intros Hp. pose proof (inv_bound p Hp c). unfold Int.is_u32, Int.u32_max in m_range.
  unfold on in *. lia.
Qed.

Lemma on_fresh p : pool_inv p → on (fresh p) p = 0.
Proof.
  intros Hp. unfold on, number.
  assert (filter (λ kv : nat * task, conn kv.2 = fresh p) (tasks p) = ∅) as ->; [|done].
  apply map_empty. intros i. apply map_lookup_filter_None_2. right.
  intros t Hi ?. pose proof (inv_tasks p Hp i t Hi). simpl in *. lia.
Qed.

Lemma in_flight_insert k c c' x : in_flight (<[c := x]> k) c' = if decide (c = c') then x else in_flight k c'.
Proof.
  unfold in_flight. case_decide as E; [subst; by rewrite lookup_insert_eq|by rewrite lookup_insert_ne].
Qed.

(** One request less on a connection. *)
Lemma release_inv p i t :
  pool_inv p → tasks p !! i = Some t →
  pool_inv (mk_pool (conns p) (fetch_sub (counts p) (conn t)) (delete i (tasks p)) (fresh p)).
Proof.
  intros Hp Hi. pose proof (on_range p (conn t) Hp) as Hr. destruct Hp as [Hc Hb Ht Hcs].
  assert (∀ c, on c (mk_pool (conns p) (fetch_sub (counts p) (conn t)) (delete i (tasks p)) (fresh p)) =
    on c p - if decide (conn t = c) then 1 else 0) as Hon.
  { intros c. unfold on. simpl. by rewrite (count_delete _ _ i t Hi). }
  assert (1 <= on (conn t) p) as H1.
  { specialize (Hon (conn t)). rewrite decide_True in Hon by done. unfold on in *. lia. }
  split; simpl.
  - intros c. rewrite Hon. unfold fetch_sub. rewrite in_flight_insert, !Hc. case_decide as E; [|lia].
    subst. apply Int.wrapping_decr_small; lia.
  - intros c. rewrite Hon. specialize (Hb c). case_decide; lia.
  - intros j u [_ Hj]%lookup_delete_Some. eauto.
  - done.
Qed.

(** A request goes from one state to the next. *)
Lemma move_inv p i t u :
  pool_inv p → tasks p !! i = Some t → conn u = conn t →
  pool_inv (mk_pool (conns p) (counts p) (<[i := u]> (tasks p)) (fresh p)).
Proof.
  intros [Hc Hb Ht Hcs] Hi Hu.
  assert (∀ c, on c (mk_pool (conns p) (counts p) (<[i := u]> (tasks p)) (fresh p)) = on c p) as Hon.
  { intros c. unfold on. simpl. rewrite (count_replace _ _ i t u Hi), Hu. lia. }
  split; simpl.
  - intros c. by rewrite Hon, Hc.
  - intros c. by rewrite Hon.
  - intros j v [[-> <-]|[? Hj]]%lookup_insert_Some; [rewrite Hu|]; eauto.
  - done.
Qed.

(** One request more. *)
Lemma acquire_inv p i c k cs fr :
  pool_inv p → tasks p !! i = None →
  (∀ c', in_flight k c' = if decide (c = c') then on c p + 1 else on c' p) → on c p + 1 <= Z.max 1 m →
  (c < fr)%nat → (fresh p <= fr)%nat → (∀ c', c' ∈ tx <$> cs → (c' < fr)%nat) →
  pool_inv (mk_pool cs k (<[i := Sending c]> (tasks p)) fr).
Proof.
  intros [Hc Hb Ht Hcs] Hi Hk Hlt Hcf Hfr Hcs'.
  assert (∀ c', on c' (mk_pool cs k (<[i := Sending c]> (tasks p)) fr) =
    on c' p + if decide (c = c') then 1 else 0) as Hon.
  { intros c'. unfold on. simpl. rewrite (count_insert _ _ i _ Hi). simpl. case_decide; lia. }
  split; simpl.
  - intros c'. rewrite Hon, Hk. case_decide; subst; lia.
  - intros c'. rewrite Hon. specialize (Hb c'). case_decide; subst; lia.
  - intros j v [[-> <-]|[? Hj]]%lookup_insert_Some; [done|]. specialize (Ht j v Hj). lia.
  - done.
Qed.

Lemma checkout_Some is_closed now k l c k' l' :
  checkout is_closed now k l = Some (c, k', l') →
  c ∈ tx <$> l ∧ is_closed c = false ∧ in_flight k c < m ∧ k' = fetch_add k c ∧ tx <$> l' = tx <$> l.
Proof.
  revert c k' l'. induction l as [|d l IH]; intros c k' l'; cbn [checkout]; [done|].
  destruct (negb (is_closed (tx d)) && has_capacity k (tx d)) eqn:E.
  - intros [= <- <- <-]. apply andb_prop in E as [Hc Hh]. apply negb_true_iff in Hc.
    unfold has_capacity in Hh. rewrite max_m in Hh. split_and!; try done; [by left|lia].
  - destruct (checkout is_closed now k l) as [[[c1 k1] l1]|]; [|done]. intros [= <- <- <-].
    destruct (IH c1 k1 l1 eq_refl) as (? & ? & ? & ? & Hl). split_and!; try done; [by right|].
    by rewrite !fmap_cons, Hl.
Qed.

Lemma http2_step p p' : pool_inv p → any_step p p' → pool_inv p'.
Proof.
  intros Hp (is_closed & now & Hs).
  destruct Hs as [p c k cs i Hc Hi|p k cs i Hc Hi|p c i Hi|p c i es k permit Hi Hat|p c i completed Hi|p c i Hi|p].
  - apply checkout_Some in Hc as (Hin & _ & Hlt & -> & Hcs). pose proof (on_range p c Hp) as Hr.
    pose proof (inv_counts p Hp) as Hk. rewrite Hk in Hlt.
    apply (acquire_inv p); try done.
    + intros c'. unfold fetch_add. rewrite in_flight_insert, !Hk. case_decide; [|done].
      apply Int.wrapping_incr_small; [lia|]. unfold Int.is_u32, Int.u32_max in m_range. lia.
    + lia.
    + by apply (inv_conns p Hp).
    + rewrite Hcs. apply (inv_conns p Hp).
  - unfold insert_conn in Hc. simplify_eq. pose proof (on_fresh p Hp) as H0.
    apply (acquire_inv p); try done; try lia.
    + intros c'. rewrite in_flight_insert, (inv_counts p Hp), H0. by case_decide.
    + intros c'. rewrite fmap_app, elem_of_app. intros [Hc|Hc]; [|set_solver].
      pose proof (inv_conns p Hp c' Hc). lia.
  - by apply (release_inv p i (Sending c)).
  - unfold attach_stream_permit in Hat. destruct es; simplify_eq.
    + by apply (release_inv p i (Sending c)).
    + by eapply move_inv.
  - by apply (release_inv p i (Streaming c)).
  - by eapply move_inv.
  - destruct Hp as [Hc Hb Ht Hcs]. split; try done. simpl. intros c Hin. apply Hcs.
    apply list_elem_of_fmap in Hin as (d & -> & Hd). apply list_elem_of_filter in Hd as [_ Hd].
    by apply list_elem_of_fmap_2.
Qed.

Lemma http2_reachable p : rtc any_step pool_new p → pool_inv p.
Proof.
  intros Hp. assert (pool_inv pool_new) as H0.
  { assert (∀ c, on c pool_new = 0) as Hon by done.
    split; [done|intros c; rewrite Hon; lia|done|by intros c ?%not_elem_of_nil]. }
  induction Hp; eauto using http2_step.
Qed.

(** C31: the counter of a connection counts the requests on it, those included
    that were given up while they waited for their response, and the requests on
    a connection never exceed the limit of concurrent streams (a new connection
    gets its first request in any case). *)
Theorem http2_streams_bounded p c :
  rtc any_step pool_new p →
  in_flight (counts p) c = on c p ∧ on c p <= Z.max 1 m.
Proof. intros Hp%http2_reachable. split; [by apply inv_counts|by apply inv_bound]. Qed.

Lemma cancelled_on p c : cancelled c p <= on c p.
Proof.
  unfold cancelled, on, number. apply inj_le, map_subseteq_size, map_filter_subseteq_ext.
  intros i t _ ->. done.
Qed.

Lemma cancelled_step p p' c : any_step p p' → cancelled c p <= cancelled c p'.
Proof.
  intros (is_closed & now & Hs). unfold cancelled.
  destruct Hs as [p d k cs i Hc Hi|p k cs i Hc Hi|p d i Hi|p d i es k permit Hi Hat|p d i completed Hi|p d i Hi|p]; simpl;
    try destruct permit; rewrite ?(count_insert _ _ _ _ Hi), ?(count_delete _ _ _ _ Hi), ?(count_replace _ _ _ _ _ Hi);
    repeat case_decide; simplify_eq; lia.
Qed.

(** Requests that are given up while they wait use up a connection.  Their
    number never goes down again, whatever happens; once it has reached the limit
    of concurrent streams the connection is not given to any request, and as long
    as the peer keeps it open the clean-up does not remove it either. *)
Theorem cancelled_streams_leak p p' c :
  rtc any_step pool_new p → 1 <= m → m <= cancelled c p → rtc any_step p p' →
  m <= cancelled c p' ∧
  (∀ is_closed now d k cs, checkout is_closed now (counts p') (conns p') = Some (d, k, cs) → d ≠ c) ∧
  (∀ is_closed now, is_closed c = false → c ∈ tx <$> conns p' →
    c ∈ tx <$> cleanup_expired is_closed now (counts p') (conns p')).
Proof.
  intros Hp Hm1 Hm Hp'. pose proof (http2_reachable p' ltac:(by etrans)) as Hinv.
  assert (m <= cancelled c p') as Hm'.
  { clear Hp Hinv. induction Hp' as [|p1 p2 p3 H1 _ IH]; [done|]. apply IH.
    pose proof (cancelled_step p1 p2 c H1). lia. }
  pose proof (cancelled_on p' c) as Hon. pose proof (inv_counts p' Hinv c) as Hc. split_and!; [done| |].
  - intros is_closed now d k cs (_ & _ & Hlt & _)%checkout_Some ->. lia.
  - intros is_closed now Hcl Hin. apply list_elem_of_fmap in Hin as (x & -> & Hx).
    apply list_elem_of_fmap_2. apply list_elem_of_filter. split; [|done]. split; [done|left; lia].
Qed.

End inner.

Section examples.

Let p1 : pool := mk_pool [mk_conn 0 1] {[ 0%nat := 1 ]} {[ 0%nat := Sending 0 ]} 1.
Let p2 : pool := mk_pool [mk_conn 0 1] {[ 0%nat := 1 ]} {[ 0%nat := Cancelled 0 ]} 1.

Lemma connect_step : any_step 60 (Some 1) pool_new p1.
Proof. exists (λ _, false), 1. exact (ConnectOne 60 (Some 1) (λ _, false) 1 pool_new _ _ 0 eq_refl eq_refl). Qed.

Lemma http2_streams_bounded_witness : in_flight (counts p1) 0 = on 0 p1 ∧ on 0 p1 <= Z.max 1 1.
Proof.
  apply (http2_streams_bounded 60 (Some 1) 1 eq_refl); [by vm_compute|].
  apply rtc_once, connect_step.
Defined.

Lemma cancelled_streams_leak_witness :
  1 <= cancelled 0 p2 ∧
  (∀ is_closed now d k cs, checkout (Some 1) is_closed now (counts p2) (conns p2) = Some (d, k, cs) → d ≠ 0%nat) ∧
  (∀ is_closed now, is_closed 0%nat = false → 0%nat ∈ tx <$> conns p2 →
    0%nat ∈ tx <$> cleanup_expired 60 is_closed now (counts p2) (conns p2)).
Proof.
  apply (cancelled_streams_leak 60 (Some 1) 1 eq_refl ltac:(by vm_compute) p2 p2 0).
  - eapply rtc_l; [apply connect_step|]. apply rtc_once. exists (λ _, false), 2.
    exact (Cancel 60 (Some 1) (λ _, false) 2 p1 0 0 eq_refl).
  - lia.
  - by vm_compute.
  - apply rtc_refl.
Defined.

End examples.
End Http2Pool.
