(* ===== verification/RingHash.v ===== *)
(** The ring-hash balancer (arion-lib/src/clusters/balancers/ring.rs).  How many
    slots an endpoint gets is computed in floating point from its weight; here it
    is any number, so that what is shown holds for every size of the ring. *)

From S2P Require Import Prelude Balancer.
Import Balancer.
Local Open Scope Z_scope.

Module RingHash.

(** ** [slice::binary_search_by_key] *)

Inductive search : Type :=
  | Found (i : nat)
  | Insert (i : nat).

(** The loop of the standard library halves the size until it is one. *)
Fixpoint search_loop (fuel : nat) (keys : list Z) (h : Z) (base size : nat) : nat :=
  match fuel with
  | 0%nat => base
  | S fuel =>
    if (size <=? 1)%nat then base
    else
      let half := (size / 2)%nat in
      let mid := (base + half)%nat in
      let base := if h <? default 0 (keys !! mid) then base else mid in
      search_loop fuel keys h base (size - half)
  end.

Definition binary_search (keys : list Z) (h : Z) : search :=
  if bool_decide (keys = []) then Insert 0
  else
    let base := search_loop (length keys) keys h 0 (length keys) in
    let key := default 0 (keys !! base) in
    if key =? h then Found base
    else Insert (if key <? h then S base else base).

(** ** The ring *)

(** A slot: its hash and the index of its item. *)
Notation slot := (Z * nat)%type.

(** [sort_by_key], which is stable. *)
Fixpoint insert_by_hash (x : slot) (l : list slot) : list slot :=
  match l with
  | [] => [x]
  | y :: l => if x.1 <=? y.1 then x :: y :: l else y :: insert_by_hash x l
  end.

Definition sort_by_hash (l : list slot) : list slot := foldr insert_by_hash [] l.

Record RingHashBalancer (E : Type) : Type := mk_ring_balancer {
  items : list (WeightedItem E);
  ring : list slot;
}.
Arguments mk_ring_balancer {E} _ _.
Arguments items {E} _.
Arguments ring {E} _.

Section ring.
Context {E : Type} `{EndpointWithAuthority E, WeightedEndpoint E}.
(** The hash of an authority and the number of a slot. *)
Context (hash_slot : str → nat → Z).
(** The slots of each item, from the items and their total weight. *)
Context (slot_counts : list (WeightedItem E) → Z → list nat).

Definition item_ring_slots (index : nat) (it : WeightedItem E) (n : nat) : list slot :=
  (λ slot_index, (hash_slot (authority (w_item it)) slot_index, index)) <$> seq 0 n.

(** [new_with_settings]. *)
Definition ring_new (l : list (WeightedItem E)) : RingHashBalancer E :=
  let '(items, total_weight) := take_checked l 0 in
  mk_ring_balancer items
    (sort_by_hash (concat (imap (λ index '(it, n), item_ring_slots index it n)
      (zip items (slot_counts items total_weight))))).

Definition ring_from_iter (l : list E) : RingHashBalancer E :=
  ring_new ((λ e, weighted_new (endpoint_weight e) e) <$> l).

(** The entry for a hash; [len() - 1] of an empty ring wraps around. *)
Definition ring_index (r : list slot) (h : Z) : nat :=
  match binary_search r.*1 h with
  | Found matching_index => matching_index
  | Insert closest_index => if bool_decide (r = []) then closest_index else closest_index `min` (length r - 1)
  end.

(** [Balancer::next_item]; [random] is what the thread's generator returns. *)
Definition ring_next_item (random : Z) (b : RingHashBalancer E) (hash : option Z) : option E :=
  if bool_decide (length (items b) <= 1)%nat then w_item <$> head (items b)
  else
    '(_, index) ← ring b !! ring_index (ring b) (default random hash);
    w_item <$> items b !! index.

End ring.

(** ** The binary search *)

Section search.
Context (keys : list Z) (h : Z).
Hypothesis sorted : ∀ i j x y, (i <= j)%nat → keys !! i = Some x → keys !! j = Some y → x <= y.

Lemma search_loop_spec fuel base size :
  (size <= fuel)%nat → (0 < size)%nat → (base + size <= length keys)%nat →
  (∀ j x, (j < base)%nat → keys !! j = Some x → x <= h) →
  (∀ x, keys !! base = Some x → base = 0%nat ∨ x <= h) →
  (∀ j x, (base + size <= j)%nat → keys !! j = Some x → h < x) →
  let r := search_loop fuel keys h base size in
  (r < length keys)%nat ∧
  (∀ x, keys !! r = Some x → r = 0%nat ∨ x <= h) ∧
  (∀ j x, (r < j)%nat → keys !! j = Some x → h < x).
Proof.
  revert base size. induction fuel as [|fuel IH]; intros base size Hf Hs Hlen Hlo Hb Hhi; [lia|].
  cbn [search_loop]. destruct (Nat.leb_spec size 1).
  { assert (size = 1%nat) as -> by lia. split_and!; [lia|done|]. intros j x Hj. apply Hhi. lia. }
  pose proof (Nat.div_lt size 2 ltac:(lia) ltac:(lia)). pose proof (Nat.mul_div_le size 2 ltac:(lia)).
  pose proof (Nat.div_le_lower_bound size 2 1 ltac:(lia) ltac:(lia)). set (half := (size / 2)%nat) in *.
  destruct (keys !! (base + half)%nat) as [k|] eqn:Hk.
  2: { apply lookup_ge_None in Hk. lia. }
  simpl. destruct (Z.ltb_spec h k).
  - apply IH; [lia..|done|done|]. intros j x Hj Hx.
    specialize (sorted (base + half) j k x ltac:(lia) Hk Hx). lia.
  - apply IH; [lia..| | |].
    + intros j x Hj Hx. specialize (sorted j (base + half) x k ltac:(lia) Hx Hk). lia.
    + intros x Hx. simplify_eq. by right.
    + intros j x Hj. apply Hhi. lia.
Qed.

Lemma binary_search_spec :
  match binary_search keys h with
  | Found i => keys !! i = Some h
  | Insert i =>
    (i <= length keys)%nat ∧ (∀ j x, (j < i)%nat → keys !! j = Some x → x < h) ∧
    (∀ j x, (i <= j)%nat → keys !! j = Some x → h < x)
  end.
Proof.
  unfold binary_search. case_bool_decide as Hne; [subst; split_and!; [done|intros; lia|done]|].
  assert (0 < length keys)%nat as Hpos by (destruct keys; simpl; [done|lia]).
  destruct (search_loop_spec (length keys) 0 (length keys)) as (Hr & Hle & Hgt);
    [lia..|intros; lia|by left|intros j x Hj; by rewrite lookup_ge_None_2 by lia|].
  set (r := search_loop _ _ _ _ _) in *. destruct (lookup_lt_is_Some_2 keys r Hr) as [k Hk].
  rewrite Hk. simpl. destruct (Z.eqb_spec k h); [by subst|]. destruct (Z.ltb_spec k h).
  - split_and!; [lia| |intros; apply (Hgt j); [lia|done]].
    intros j x Hj Hx. specialize (sorted j r x k ltac:(lia) Hx Hk). lia.
  - destruct (Hle k Hk) as [Hr0|?]; [|lia]. rewrite Hr0 in *. split_and!; [lia|intros; lia|].
    intros j x _ Hx. specialize (sorted 0%nat j k x ltac:(lia) Hk Hx). lia.
Qed.

End search.

(** ** The slot that is chosen *)

Definition ring_sorted (r : list slot) : Prop := StronglySorted (λ x y : slot, x.1 <= y.1) r.

Lemma ring_sorted_lookup r i j x y :
  ring_sorted r → (i <= j)%nat → r.*1 !! i = Some x → r.*1 !! j = Some y → x <= y.
Proof.
  intros Hs. revert i j. induction Hs as [|s r Hs IH Hx]; intros [|i] [|j] Hij; simpl; try done; try lia.
  - intros [= <-] [= <-]. lia.
  - intros [= <-] Hy. apply list_lookup_fmap_Some in Hy as (z & -> & Hz).
    rewrite Forall_forall in Hx. by apply Hx, list_elem_of_lookup_2 with j.
  - intros. apply (IH i j); [lia|done..].
Qed.

Lemma insert_by_hash_perm x l : insert_by_hash x l ≡ₚ x :: l.
Proof.
  induction l as [|y l IH]; simpl; [done|]. case_match; [done|]. rewrite IH. apply Permutation_swap.
Qed.

Lemma insert_by_hash_sorted x l : ring_sorted l → ring_sorted (insert_by_hash x l).
Proof.
  unfold ring_sorted. induction 1 as [|y l Hl IH Hy]; simpl; [by repeat constructor|].
  destruct (Z.leb_spec x.1 y.1).
  - constructor; [by constructor|]. constructor; [done|]. eapply Forall_impl; [done|]. simpl. lia.
  - constructor; [done|]. rewrite insert_by_hash_perm. constructor; [lia|done].
Qed.

Lemma sort_by_hash_spec l : ring_sorted (sort_by_hash l) ∧ sort_by_hash l ≡ₚ l.
Proof.
  induction l as [|x l [Hs Hp]]; simpl; [by repeat constructor|]. split.
  - by apply insert_by_hash_sorted.
  - by rewrite insert_by_hash_perm, Hp.
Qed.

(** The slot whose hash is the next one, or the one with the greatest hash when
    there is none. *)
Definition closest (r : list slot) (h : Z) (s : slot) : Prop :=
  s ∈ r ∧
  ((h <= s.1 ∧ ∀ s', s' ∈ r → h <= s'.1 → s.1 <= s'.1) ∨
   ((∀ s', s' ∈ r → s'.1 < h) ∧ ∀ s', s' ∈ r → s'.1 <= s.1)).

Lemma ring_index_closest r h :
  ring_sorted r → r ≠ [] → ∃ s, r !! ring_index r h = Some s ∧ closest r h s.
Proof.
  intros Hs Hne. unfold ring_index.
  assert (∀ i j x y, (i <= j)%nat → r.*1 !! i = Some x → r.*1 !! j = Some y → x <= y) as Hsorted
    by (intros *; by apply ring_sorted_lookup).
  pose proof (binary_search_spec r.*1 h Hsorted) as Hb.
  assert (∀ s, s ∈ r → ∃ j, r.*1 !! j = Some s.1) as Hin.
  { intros s [j Hj]%list_elem_of_lookup_1. exists j. by rewrite list_lookup_fmap, Hj. }
  destruct (binary_search r.*1 h) as [i|i].
  - apply list_lookup_fmap_Some in Hb as (s & -> & Hi). exists s. split; [done|].
    split; [by eapply list_elem_of_lookup_2|]. left. split; [lia|done].
  - rewrite bool_decide_false by done. destruct Hb as (Hi & Hlt & Hgt). rewrite length_fmap in Hi.
    assert (0 < length r)%nat as Hpos by (destruct r; simpl; [done|lia]).
    destruct (decide (i = length r)) as [->|].
    + destruct (lookup_lt_is_Some_2 r (length r - 1)) as [s Hsr]; [lia|].
      rewrite Nat.min_r by lia. exists s. split; [done|]. split; [by eapply list_elem_of_lookup_2|]. right.
      split; intros s' (j & Hj)%Hin; (assert (j < length r)%nat by (apply lookup_lt_Some in Hj; by rewrite length_fmap in Hj)).
      * by apply (Hlt j).
      * apply (Hsorted j (length r - 1)%nat); [lia|done|]. by rewrite list_lookup_fmap, Hsr.
    + destruct (lookup_lt_is_Some_2 r i) as [s Hsr]; [lia|].
      assert (r.*1 !! i = Some s.1) as Hk by by rewrite list_lookup_fmap, Hsr.
      rewrite Nat.min_l by lia. exists s. split; [done|]. split; [by eapply list_elem_of_lookup_2|]. left.
      split; [specialize (Hgt i s.1 ltac:(lia) Hk); lia|].
      intros s' (j & Hj)%Hin Hh. destruct (decide (j < i)%nat) as [Hji|].
      * specialize (Hlt j s'.1 Hji Hj). lia.
      * apply (Hsorted i j); [lia|done..].
Qed.

(** ** Consistency *)

Lemma same_hash r (s s' : slot) : NoDup r.*1 → s ∈ r → s' ∈ r → s.1 = s'.1 → s = s'.
Proof.
  induction r as [|x r IH]; [by intros _ ?%not_elem_of_nil|]. rewrite fmap_cons, NoDup_cons. intros [Hx Hn].
  rewrite !elem_of_cons. intros [->|Hs] [->|Hs'] E; try done.
  - destruct Hx. rewrite E. by apply list_elem_of_fmap_2.
  - destruct Hx. rewrite <-E. by apply list_elem_of_fmap_2.
  - by apply IH.
Qed.

Lemma closest_unique r h s s' : NoDup r.*1 → closest r h s → closest r h s' → s = s'.
Proof.
  intros Hn [Hs Hc] [Hs' Hc']. apply (same_hash r); try done.
  destruct Hc as [[Hh Hmin]|[Hlt Hmax]], Hc' as [[Hh' Hmin']|[Hlt' Hmax']].
  - specialize (Hmin s' Hs' Hh'). specialize (Hmin' s Hs Hh). lia.
  - specialize (Hlt' s Hs). lia.
  - specialize (Hlt s' Hs'). lia.
  - specialize (Hmax s' Hs'). specialize (Hmax' s Hs). lia.
Qed.

Lemma closest_filter (keep : slot → Prop) `{!∀ s, Decision (keep s)} r h s :
  closest r h s → keep s → closest (filter keep r) h s.
Proof.
  intros [Hs Hc] Hk. split; [by apply list_elem_of_filter|].
  destruct Hc as [[Hh Hmin]|[Hlt Hmax]]; [left|right]; split; try done;
    intros s' [_ Hs']%list_elem_of_filter; auto.
Qed.

Lemma filter_keys_NoDup (keep : slot → Prop) `{!∀ s, Decision (keep s)} (r : list slot) :
  NoDup r.*1 → NoDup (filter keep r).*1.
Proof. intros Hn. eapply sublist_NoDup; [done|]. apply fmap_sublist, sublist_filter. Qed.

(** The ring is consistent.  With distinct hashes, taking slots out of the
    ring (those of an endpoint that is gone) moves only the requests whose slot
    was taken out: every other hash is still answered by the same slot. *)
Theorem ring_consistent (slots : list slot) (keep : slot → Prop) `{!∀ s, Decision (keep s)} h s :
  NoDup slots.*1 →
  let r := sort_by_hash slots in
  r !! ring_index r h = Some s → keep s →
  let r' := sort_by_hash (filter keep slots) in
  r' !! ring_index r' h = Some s.
Proof.
  intros Hn r Hr Hk r'.
  destruct (sort_by_hash_spec slots) as [Hs Hp]. destruct (sort_by_hash_spec (filter keep slots)) as [Hs' Hp'].
  fold r in Hs, Hp. fold r' in Hs', Hp'.
  assert (r ≠ []) as Hne by (intros E; by rewrite E in Hr).
  destruct (ring_index_closest r h Hs Hne) as (s1 & Hs1 & Hc). simplify_eq.
  assert (r' ≡ₚ filter keep r) as Hf by by rewrite Hp', Hp.
  assert (closest r' h s) as Hc'.
  { apply (closest_filter keep) in Hc; [|done]. unfold closest in *. by setoid_rewrite Hf. }
  assert (r' ≠ []) as Hne' by (destruct Hc' as [Hin _]; intros E; rewrite E in Hin; by apply not_elem_of_nil in Hin).
  destruct (ring_index_closest r' h Hs' Hne') as (s2 & Hs2 & Hc2). rewrite Hs2. f_equal.
  apply (closest_unique r' h); try done. rewrite Hf. apply filter_keys_NoDup. by rewrite Hp.
Qed.

(** *** The slots of the balancer *)

Section built.
Context {E : Type} `{EndpointWithAuthority E, WeightedEndpoint E} (hash_slot : str → nat → Z).

Lemma slot_index_lt (its : list (WeightedItem E)) (counts : list nat) (s : slot) :
  s ∈ concat (imap (λ index '(it, n), item_ring_slots hash_slot index it n) (zip its counts)) →
  (s.2 < length its)%nat.
Proof.
  rewrite list_elem_of_In, in_concat. intros (l & Hl & Hs). apply list_elem_of_In in Hl, Hs.
  apply list_elem_of_lookup_1 in Hl as [i Hi].
  rewrite list_lookup_imap in Hi. apply fmap_Some in Hi as ([it n] & Hi & ->).
  assert (i < length its)%nat as Hlt.
  { apply lookup_lt_Some in Hi. rewrite length_zip_with in Hi. lia. }
  unfold item_ring_slots in Hs. apply list_elem_of_fmap in Hs as (j & -> & _). done.
Qed.

Lemma ring_items_sub (slot_counts : list (WeightedItem E) → Z → list nat) (l : list E) it :
  it ∈ items (ring_from_iter hash_slot slot_counts l) → w_item it ∈ l.
Proof.
  unfold ring_from_iter, ring_new.
  pose proof (take_checked_sub ((λ e, weighted_new (endpoint_weight e) e) <$> l) 0 it) as Hsub.
  destruct (take_checked _ 0) as [its total]. simpl in *. intros Hit%Hsub.
  apply list_elem_of_fmap in Hit as (e & -> & He). done.
Qed.
End built.

(** a request goes to the endpoint of the next slot.  A balancer with at
    least two endpoints and some slot answers every hash, with an endpoint it was
    built from, namely the one of a slot whose hash is the least one not below the
    hash of the request, or the greatest one when there is none. *)
Theorem ring_serves_closest {E} `{EndpointWithAuthority E, WeightedEndpoint E} (hash_slot : str → nat → Z)
    (slot_counts : list (WeightedItem E) → Z → list nat) (l : list E) (random : Z) (hash : option Z) :
  let b := ring_from_iter hash_slot slot_counts l in
  (1 < length (items b))%nat → ring b ≠ [] →
  ∃ s e, ring_next_item random b hash = Some e ∧ e ∈ l ∧ closest (ring b) (default random hash) s ∧
    w_item <$> items b !! s.2 = Some e.
Proof.
  intros b Hlen Hne. unfold ring_next_item. rewrite bool_decide_false by lia.
  assert (ring_sorted (ring b) ∧ ∀ s, s ∈ ring b → (s.2 < length (items b))%nat) as [Hs Hidx].
  { unfold b, ring_from_iter, ring_new. destruct (take_checked _ 0) as [its total]. simpl.
    match goal with |- context [sort_by_hash ?x] => destruct (sort_by_hash_spec x) as [Hs Hp] end.
    split; [done|]. intros s. rewrite Hp. apply slot_index_lt. }
  destruct (ring_index_closest (ring b) (default random hash) Hs Hne) as ([k i] & -> & Hc).
  destruct (lookup_lt_is_Some_2 (items b) i) as [it Hit]; [exact (Hidx _ (proj1 Hc))|].
  simpl. rewrite Hit. exists (k, i), (w_item it). split_and!; try done.
  - apply ring_items_sub with hash_slot slot_counts. by eapply list_elem_of_lookup_2.
  - simpl. by rewrite Hit.
Qed.

(** Two endpoints with two slots each, and a hash that is the length of the name
    and the number of the slot. *)
Section examples.

#[local] Instance name_authority : EndpointWithAuthority str := λ a, a.
#[local] Instance name_weight : WeightedEndpoint str := λ _, 1.

Let hash_slot (a : str) (i : nat) : Z := Z.of_nat (length a + 10 * i).
Let counts (l : list (WeightedItem str)) (_ : Z) : list nat := (λ _, 2%nat) <$> l.
Let l : list str := [lit "a"; lit "bbb"].

Lemma ring_consistent_witness :
  let r' := sort_by_hash (filter (λ s : slot, s.1 ≠ 1) [(1, 0%nat); (11, 0%nat); (3, 1%nat)]) in
  r' !! ring_index r' 2 = Some (3, 1%nat).
Proof.
  apply (ring_consistent [(1, 0%nat); (11, 0%nat); (3, 1%nat)] (λ s, s.1 ≠ 1) 2 (3, 1%nat)).
  - simpl. repeat constructor; set_solver.
  - by vm_compute.
  - done.
Defined.

Lemma ring_serves_closest_witness :
  ∃ s e, ring_next_item 0 (ring_from_iter hash_slot counts l) (Some 2) = Some e ∧ e ∈ l ∧
    closest (ring (ring_from_iter hash_slot counts l)) 2 s ∧
    w_item <$> items (ring_from_iter hash_slot counts l) !! s.2 = Some e.
Proof. apply (ring_serves_closest hash_slot counts l 0 (Some 2)); [vm_compute; lia|by vm_compute]. Defined.

End examples.

End RingHash.
