(* ===== verification/RandomLb.v ===== *)
(** The balancers that choose at random: arion-lib/src/clusters/balancers/random.rs
    and least.rs.  What the crate rand draws is a parameter. *)

From S2P Require Import Prelude Balancer F64.
Import Balancer.

(** ** The crate rand *)

(** [gen_range(0..n)], [IteratorRandom::choose_multiple] as the positions it
    chooses among [n], and [WeightedIndex::sample] for some weights. *)
Class RandLib (R : Type) : Type := {
  gen_range : nat → R → nat * R;
  choose_multiple : nat → nat → R → list nat * R;
  sample_weighted : list Z → R → nat * R;
}.

Class RandSpec (R : Type) `{RandLib R} : Prop := {
  gen_range_lt : ∀ n r, 0 < n → (gen_range n r).1 < n;
  choose_NoDup : ∀ n k r, NoDup (choose_multiple n k r).1;
  choose_lt : ∀ n k r i, i ∈ (choose_multiple n k r).1 → i < n;
  choose_length : ∀ n k r, length (choose_multiple n k r).1 = k `min` n;
  (** An index is drawn with a probability proportional to its weight. *)
  sample_positive : ∀ ws r, (∃ w, w ∈ ws ∧ 0 < w)%Z → ∃ w, ws !! (sample_weighted ws r).1 = Some w ∧ (0 < w)%Z;
}.

Module RandomLb.

(** ** [RandomBalancer] *)

(** [WeightedIndex::new(..).ok()]: it refuses weights that are all zero. *)
Definition weighted_index_new (ws : list Z) : option (list Z) :=
  if bool_decide (Exists (λ w, 0 < w)%Z ws) then Some ws else None.

Record RandomBalancer (E R : Type) : Type := mk_random {
  items : list (WeightedItem E);
  weighted_index : option (list Z);
  rng : R;
}.
Arguments mk_random {E R} _ _ _.
Arguments items {E R} _.
Arguments weighted_index {E R} _.
Arguments rng {E R} _.

Section random.
Context {E R : Type} `{WeightedEndpoint E, RandLib R}.

Definition new_with_rng (l : list (WeightedItem E)) (rng : R) : RandomBalancer E R :=
  let '(items, _) := take_checked l 0 in
  mk_random items (weighted_index_new (w_weight <$> items)) rng.

Definition random_from_iter (l : list E) (rng : R) : RandomBalancer E R :=
  new_with_rng ((λ e, weighted_new (endpoint_weight e) e) <$> l) rng.

Definition random_next_item (b : RandomBalancer E R) : option E * RandomBalancer E R :=
  match weighted_index b with
  | None => (None, b)
  | Some ws =>
    let '(i, rng) := sample_weighted ws (rng b) in
    (w_item <$> items b !! i, mk_random (items b) (weighted_index b) rng)
  end.

Context `{!RandSpec R}.

Lemma random_next_Some (l : list E) (rng rng' : R) :
  let b := mk_random (items (random_from_iter l rng)) (weighted_index (random_from_iter l rng)) rng' in
  (∃ it, it ∈ items b ∧ (0 < w_weight it)%Z) →
  ∃ it, (random_next_item b).1 = Some (w_item it) ∧ it ∈ items b ∧ (0 < w_weight it)%Z.
Proof.
  unfold random_from_iter, new_with_rng. destruct (take_checked _ 0) as [its total]. simpl.
  intros (it & Hit & Hw). unfold random_next_item, weighted_index_new. simpl.
  rewrite bool_decide_true by (apply Exists_exists; exists (w_weight it); split; [by apply list_elem_of_fmap_2|done]).
  destruct (sample_positive (w_weight <$> its) rng') as (w & Hs & Hpos).
  { exists (w_weight it). split; [by apply list_elem_of_fmap_2|done]. }
  destruct (sample_weighted (w_weight <$> its) rng') as [i rng2]. simpl in *.
  apply list_lookup_fmap_Some in Hs as (it' & -> & Hi). exists it'. rewrite Hi.
  split_and!; [done|by eapply list_elem_of_lookup_2|done].
Qed.

End random.

(** ** [WeightedLeastRequestBalancer] *)

Record LbItem (E : Type) : Type := mk_item {
  weight : Z;
  current_weight : F64.f64;
  item : E;
}.
Arguments mk_item {E} _ _ _.
Arguments weight {E} _.
Arguments current_weight {E} _.
Arguments item {E} _.

Record LeastRequestBalancer (E R : Type) : Type := mk_least {
  l_items : list (LbItem E);
  active_request_bias : F64.f64;
  p2c_choice_count : nat;
  all_weights_equal : bool;
  l_rng : R;
}.
Arguments mk_least {E R} _ _ _ _ _.
Arguments l_items {E R} _.
Arguments active_request_bias {E R} _.
Arguments p2c_choice_count {E R} _.
Arguments all_weights_equal {E R} _.
Arguments l_rng {E R} _.

Definition DEFAULT_P2C_CHOICE_COUNT : nat := 2.

Section least.
Context {E R : Type} `{EndpointWithLoad E, WeightedEndpoint E, RandLib R}.
(** [f64::powf]. *)
Context (powf : F64.f64 → F64.f64 → F64.f64).

Definition adjust_current_weight (value : F64.f64) (it : LbItem E) : LbItem E :=
  mk_item (weight it) (F64.add (current_weight it) value) (item it).

Definition load (it : LbItem E) : Z := http_load (item it).

(** [LbItem::weight]; [load() + 1] is on [u32]. *)
Definition weight_with (active_request_bias : F64.f64) (it : LbItem E) : F64.f64 :=
  if SpecFloat.SFeqb active_request_bias (F64.of_Z 0) then F64.of_Z (weight it)
  else F64.div (F64.of_Z (weight it)) (powf (F64.of_Z (Int.wrapping_incr 32 (load it))) active_request_bias).

Definition all_equal (l : list (LbItem E)) : bool :=
  match l with [] => true | first :: l => forallb (λ it, Z.eqb (weight it) (weight first)) l end.

Definition least_new (l : list E) (rng : R) : LeastRequestBalancer E R :=
  let items := (λ e, mk_item (endpoint_weight e) (F64.of_Z 0) e) <$> l in
  mk_least items (F64.of_Z 1) DEFAULT_P2C_CHOICE_COUNT (all_equal items) rng.

(** The loop that looks for the greatest current weight, the first one among
    equals. *)
Definition best_of (l : list (LbItem E)) : nat :=
  (foldl (λ '(idx, best_index, best_weight) it,
    if F64.ltb best_weight (current_weight it) then (S idx, idx, current_weight it) else (S idx, best_index, best_weight))
    (0, 0, SpecFloat.S754_infinity true) l).1.2.

Definition next_item_wrr (b : LeastRequestBalancer E R) : option E * LeastRequestBalancer E R :=
  if bool_decide (length (l_items b) ≤ 1) then (item <$> head (l_items b), b)
  else
    let weights := weight_with (active_request_bias b) <$> l_items b in
    let items := zip_with adjust_current_weight weights (l_items b) in
    let total := F64.sum weights in
    let best_index := best_of items in
    match items !! best_index with
    | None => (None, b)
    | Some it =>
      (Some (item it),
       mk_least (<[best_index := adjust_current_weight (SpecFloat.SFopp total) it]> items)
         (active_request_bias b) (p2c_choice_count b) (all_weights_equal b) (l_rng b))
    end.

(** [cycle().skip(offset).take(count)] of a list that is not empty. *)
Definition rotated {A} (l : list A) (offset count : nat) : list A :=
  omap (λ j, l !! ((offset + j) mod length l)) (seq 0 count).

(** The fold over the items that were chosen. *)
Definition least_loaded (first : LbItem E) (rest : list (LbItem E)) : LbItem E :=
  (foldl (λ '(best_item, best_item_load) it,
    if (load it <? best_item_load)%Z then (it, load it) else (best_item, best_item_load))
    (first, load first) rest).1.

Definition next_item_p2c (b : LeastRequestBalancer E R) : option E * LeastRequestBalancer E R :=
  if bool_decide (length (l_items b) ≤ 1) then (item <$> head (l_items b), b)
  else
    let '(chosen, rng) := choose_multiple (length (l_items b)) (p2c_choice_count b) (l_rng b) in
    let '(random_offset, rng) := gen_range (length chosen) rng in
    let chosen_items := omap (λ i, l_items b !! i) chosen in
    (match rotated chosen_items random_offset (p2c_choice_count b) with
     | [] => None
     | first :: rest => Some (item (least_loaded first rest))
     end,
     mk_least (l_items b) (active_request_bias b) (p2c_choice_count b) (all_weights_equal b) rng).

Definition least_next_item (b : LeastRequestBalancer E R) : option E * LeastRequestBalancer E R :=
  if all_weights_equal b then next_item_p2c b else next_item_wrr b.

(** *** The least loaded of those that were chosen *)

Lemma least_loaded_spec first rest :
  least_loaded first rest ∈ first :: rest ∧
  ∀ it, it ∈ first :: rest → (load (least_loaded first rest) <= load it)%Z.
Proof.
  unfold least_loaded.
  assert (∀ best, let r := foldl (λ '(best_item, best_item_load) it,
      if (load it <? best_item_load)%Z then (it, load it) else (best_item, best_item_load)) (best, load best) rest in
    r.1 ∈ best :: rest ∧ r.2 = load r.1 ∧ ∀ it, it ∈ best :: rest → (load r.1 <= load it)%Z) as Hf.
  { induction rest as [|x rest IH]; intros best; simpl.
    { split_and!; [by left|done|]. intros it ->%list_elem_of_singleton. lia. }
    destruct (Z.ltb_spec (load x) (load best)) as [Hlt|Hge].
    - destruct (IH x) as (Hin & He & Hle). split_and!; [set_solver|done|].
      intros it [->|Hit]%elem_of_cons; [|auto]. specialize (Hle x ltac:(left)). lia.
    - destruct (IH best) as (Hin & He & Hle). split_and!; [set_solver|done|].
      intros it [->|[->|Hit]%elem_of_cons]%elem_of_cons.
      + apply Hle. left.
      + specialize (Hle best ltac:(left)). lia.
      + apply Hle. by right. }
  destruct (Hf first) as (? & ? & ?). done.
Qed.

Lemma rotated_two {A} (x y : A) offset :
  offset < 2 → rotated [x; y] offset 2 = [x; y] ∨ rotated [x; y] offset 2 = [y; x].
Proof. destruct offset as [|[|]]; [by left|by right|lia]. Qed.

Context `{!RandSpec R}.

Lemma p2c_two (b : LeastRequestBalancer E R) :
  1 < length (l_items b) → p2c_choice_count b = 2 →
  ∃ i j x y best, i ≠ j ∧ l_items b !! i = Some x ∧ l_items b !! j = Some y ∧
    (next_item_p2c b).1 = Some (item best) ∧ (best = x ∨ best = y) ∧
    (load best <= load x)%Z ∧ (load best <= load y)%Z.
Proof.
  intros Hlen Hk. unfold next_item_p2c. rewrite bool_decide_false by lia. rewrite Hk.
  pose proof (choose_NoDup (length (l_items b)) 2 (l_rng b)) as Hn.
  pose proof (choose_lt (length (l_items b)) 2 (l_rng b)) as Hlt.
  pose proof (choose_length (length (l_items b)) 2 (l_rng b)) as Hl. rewrite Nat.min_l in Hl by lia.
  destruct (choose_multiple (length (l_items b)) 2 (l_rng b)) as [chosen rng]. simpl in *.
  destruct chosen as [|i [|j [|]]]; try done. clear Hl.
  apply NoDup_cons in Hn as [Hij _]. assert (i ≠ j) as Hne by set_solver.
  destruct (lookup_lt_is_Some_2 (l_items b) i) as [x Hx]; [apply Hlt; set_solver|].
  destruct (lookup_lt_is_Some_2 (l_items b) j) as [y Hy]; [apply Hlt; set_solver|].
  pose proof (gen_range_lt 2 rng ltac:(lia)) as Hoff. destruct (gen_range _ rng) as [offset rng2]. simpl in *.
  rewrite Hx, Hy. exists i, j, x, y.
  destruct (rotated_two x y offset Hoff) as [-> | ->].
  - destruct (least_loaded_spec x [y]) as [Hin Hle]. exists (least_loaded x [y]).
    split_and!; try done; [set_solver|apply Hle; set_solver..].
  - destruct (least_loaded_spec y [x]) as [Hin Hle]. exists (least_loaded y [x]).
    split_and!; try done; [set_solver|apply Hle; set_solver..].
Qed.

Lemma least_new_items (l : list E) (rng : R) : item <$> l_items (least_new l rng) = l.
Proof. unfold least_new. simpl. rewrite <-list_fmap_compose. apply list_fmap_id. Qed.

(** of endpoints with equal weights the balancer picks one that is not the
    busiest.  It compares two distinct endpoints and takes the one with fewer
    requests: the answer is an endpoint it was built from, and some other one has
    at least as many requests. *)
Theorem least_request_avoids_busiest (l : list E) (rng : R) :
  1 < length l → all_weights_equal (least_new l rng) = true →
  ∃ i j e e', i ≠ j ∧ l !! i = Some e ∧ l !! j = Some e' ∧
    (least_next_item (least_new l rng)).1 = Some e ∧ (http_load e <= http_load e')%Z.
Proof.
  intros Hlen Heq. unfold least_next_item. rewrite Heq.
  assert (1 < length (l_items (least_new l rng))) as Hlen' by (simpl; by rewrite length_fmap).
  destruct (p2c_two (least_new l rng) Hlen' eq_refl) as (i & j & x & y & best & Hne & Hx & Hy & Hb & Hor & Hlx & Hly).
  assert (∀ i it, l_items (least_new l rng) !! i = Some it → l !! i = Some (item it)) as Hl.
  { intros k it Hk. rewrite <-(least_new_items l rng) at 1. by rewrite list_lookup_fmap, Hk. }
  destruct Hor as [-> | ->].
  - exists i, j, (item x), (item y). split_and!; auto.
  - exists j, i, (item y), (item x). split_and!; auto.
Qed.

End least.

(** A generator that always draws the first. *)
Section examples.

#[local] Instance first_rand : RandLib () := {
  gen_range _ r := (0, r);
  choose_multiple n k r := (seq 0 (k `min` n), r);
  sample_weighted ws r := ((default (0, 0%Z) (list_find (λ w, 0 < w)%Z ws)).1, r);
}.

#[local] Instance first_rand_spec : RandSpec ().
Proof.
  split; simpl.
  - done.
  - intros. apply NoDup_seq.
  - intros n k _ i Hi%elem_of_seq. lia.
  - intros. apply length_seq.
  - intros ws _ (w & Hw & Hpos). destruct (list_find (λ w, 0 < w)%Z ws) as [[i x]|] eqn:Hf.
    + apply list_find_Some in Hf as (Hi & Hx & _). by exists x.
    + apply list_find_None in Hf. rewrite Forall_forall in Hf. by destruct (Hf w Hw).
Qed.

#[local] Instance pair_load : EndpointWithLoad (Z * Z) := snd.
#[local] Instance pair_weight : WeightedEndpoint (Z * Z) := fst.

Lemma least_request_avoids_busiest_witness :
  ∃ i j e e', i ≠ j ∧ [(1, 5); (1, 3)]%Z !! i = Some e ∧ [(1, 5); (1, 3)]%Z !! j = Some e' ∧
    (least_next_item (λ x _, x) (least_new [(1, 5); (1, 3)]%Z ())).1 = Some e ∧ (http_load e <= http_load e')%Z.
Proof. apply (least_request_avoids_busiest (λ x _, x) [(1, 5); (1, 3)]%Z ()); [simpl; lia|done]. Defined.

End examples.
End RandomLb.
