(* ===== verification/ExtProcMutation.v ===== *)
(** Changes of headers that an external processor asks for
    (arion-lib/src/listeners/http_connection_manager/ext_proc/mutation.rs) and the
    rules that limit them (arion-configuration/.../http_filters/ext_proc.rs). *)

From S2P Require Import Prelude RustStr Http StringMatch Fmt.
Import Http StringMatch.

Module ExtProcMutation.

(** ** [String::from_utf8_lossy] *)

Definition in_range (c : Ascii.ascii) (lo hi : N) : bool :=
  let n := Ascii.N_of_ascii c in (lo <=? n)%N && (n <=? hi)%N.

(** U+FFFD. *)
Definition replacement : str := [Str.byte 239; Str.byte 191; Str.byte 189].

(** Whether a byte may follow the first one of a sequence of three or four. *)
Definition second_ok (c d : Ascii.ascii) : bool :=
  if in_range c 224 224 then in_range d 160 191
  else if in_range c 225 236 || in_range c 238 239 then in_range d 128 191
  else if in_range c 237 237 then in_range d 128 159
  else if in_range c 240 240 then in_range d 144 191
  else if in_range c 241 243 then in_range d 128 191
  else if in_range c 244 244 then in_range d 128 143
  else false.

Fixpoint from_utf8_lossy (s : str) : str :=
  match s with
  | [] => []
  | c :: s1 =>
    if in_range c 0 127 then c :: from_utf8_lossy s1
    else if in_range c 194 223 then
      match s1 with
      | d :: s2 => if Str.is_continuation d then c :: d :: from_utf8_lossy s2 else replacement ++ from_utf8_lossy s1
      | [] => replacement
      end
    else if in_range c 224 239 then
      match s1 with
      | d :: s2 =>
        if second_ok c d then
          match s2 with
          | e :: s3 => if Str.is_continuation e then c :: d :: e :: from_utf8_lossy s3 else replacement ++ from_utf8_lossy s2
          | [] => replacement
          end
        else replacement ++ from_utf8_lossy s1
      | [] => replacement
      end
    else if in_range c 240 244 then
      match s1 with
      | d :: s2 =>
        if second_ok c d then
          match s2 with
          | e :: s3 =>
            if Str.is_continuation e then
              match s3 with
              | f :: s4 =>
                if Str.is_continuation f then c :: d :: e :: f :: from_utf8_lossy s4
                else replacement ++ from_utf8_lossy s3
              | [] => replacement
              end
            else replacement ++ from_utf8_lossy s2
          | [] => replacement
          end
        else replacement ++ from_utf8_lossy s1
      | [] => replacement
      end
    else replacement ++ from_utf8_lossy s1
  end.

(** ** The rules *)

Section rules.
Context `{RegexLib}.

Inductive MutationPolicy : Type :=
  | AllowAll
  | Standard (allow_routing allow_envoy allow_system : bool)
  | DenyAll.

Definition policy_default : MutationPolicy := Standard false false true.

Record PatternOverrides : Type := mk_overrides { allow : list StringMatcher; deny : list StringMatcher }.

Record HeaderMutationRules : Type := mk_rules {
  policy : MutationPolicy;
  overrides : option PatternOverrides;
  disallow_is_error : bool;
}.

Definition rules_default : HeaderMutationRules := mk_rules policy_default None false.

Definition METHOD : str := lit ":method".
Definition SCHEME : str := lit ":scheme".
Definition AUTHORITY : str := lit ":authority".
Definition PATH : str := lit ":path".
Definition STATUS : str := lit ":status".

Definition is_pseudo (key : str) : bool := Str.starts_with key [Str.colon].

Definition policy_permits (p : MutationPolicy) (header : str) : bool :=
  match p with
  | DenyAll => false
  | AllowAll => true
  | Standard allow_routing allow_envoy allow_system =>
    if bool_decide (header = lit "host") then allow_routing
    else if is_pseudo header && negb allow_system then false
    else if is_pseudo header && bool_decide (header ∈ [AUTHORITY; SCHEME; METHOD]) then allow_routing
    else if Str.starts_with header (lit "x-envoy-") then allow_envoy
    else true
  end.

Definition is_modification_permitted (r : HeaderMutationRules) (header : str) : bool :=
  match overrides r with
  | Some o =>
    if existsb (λ m, string_matches m header) (deny o) then false
    else if existsb (λ m, string_matches m header) (allow o) then true
    else policy_permits (policy r) header
  | None => policy_permits (policy r) header
  end.

(** Without rules every change is permitted. *)
Definition permitted (rules : option HeaderMutationRules) (header : str) : bool :=
  match rules with Some r => is_modification_permitted r header | None => true end.

End rules.

(** ** The changes *)

(** [HeaderAppendAction] of the protocol. *)
Inductive HeaderAppendAction : Type :=
  | AppendIfExistsOrAdd | AddIfAbsent | OverwriteIfExistsOrAdd | OverwriteIfExists.

Record ProtoHeader : Type := mk_header { key : str; value : str; raw_value : str }.

Record HeaderValueOption : Type := mk_option {
  header : option ProtoHeader;
  (** The deprecated field. *)
  append : option bool;
  append_action : HeaderAppendAction;
}.

Record HeaderMutation : Type := mk_mutation {
  set_headers : list HeaderValueOption;
  remove_headers : list str;
}.

(** What the crate http makes of bytes: names in lower case, values, methods and
    the parts of a URI, with the URI that is put together from them. *)
Class HttpBytes `{HttpLib} : Type := {
  name_from_bytes : str → option HeaderName;
  value_from_bytes : str → option HeaderValue;
  (** [HeaderValue::as_bytes] and [HeaderMap::new]. *)
  value_as_bytes : HeaderValue → str;
  header_map_new : HeaderMap;
  method_from_bytes : str → option str;
  scheme_try_from : str → option str;
  authority_try_from : str → option str;
  path_try_from : str → option PathAndQuery;
  uri_from_parts : Uri → option Uri;
}.

Class HttpBytesSpec `{HttpBytes} : Prop := {
  (** The name is in lower case. *)
  name_from_bytes_str : ∀ s n, name_from_bytes s = Some n → name_as_str n = Str.to_ascii_lowercase <$> s;
  name_from_bytes_case : ∀ s, name_from_bytes (Str.to_ascii_lowercase <$> s) = name_from_bytes s;
}.

Section mutation.
Context {HL : HttpLib} {RL : RegexLib} {HB : HttpBytes}.

(** [extract_header_value_as_str]. *)
Definition extract_header_value_as_str (o : HeaderValueOption) : option str :=
  h ← header o;
  Some (if bool_decide (raw_value h = []) then value h else from_utf8_lossy (raw_value h)).

Record PseudoHeaders : Type := mk_pseudo {
  p_method : option HeaderValueOption;
  p_scheme : option HeaderValueOption;
  p_authority : option HeaderValueOption;
  p_path : option HeaderValueOption;
  p_status : option HeaderValueOption;
}.

Definition option_is_pseudo (o : HeaderValueOption) : bool :=
  match header o with Some h => is_pseudo (key h) | None => false end.

Definition store_pseudo (p : PseudoHeaders) (o : HeaderValueOption) : PseudoHeaders :=
  let k := match header o with Some h => key h | None => [] end in
  if bool_decide (k = METHOD) then mk_pseudo (Some o) (p_scheme p) (p_authority p) (p_path p) (p_status p)
  else if bool_decide (k = SCHEME) then mk_pseudo (p_method p) (Some o) (p_authority p) (p_path p) (p_status p)
  else if bool_decide (k = AUTHORITY) then mk_pseudo (p_method p) (p_scheme p) (Some o) (p_path p) (p_status p)
  else if bool_decide (k = PATH) then mk_pseudo (p_method p) (p_scheme p) (p_authority p) (Some o) (p_status p)
  else if bool_decide (k = STATUS) then mk_pseudo (p_method p) (p_scheme p) (p_authority p) (p_path p) (Some o)
  else p.

(** [extract_pseudo_headers]: they are taken out, the last one of a kind wins. *)
Definition extract_pseudo_headers (m : HeaderMutation) : PseudoHeaders * HeaderMutation :=
  (foldl store_pseudo (mk_pseudo None None None None None) (filter (λ o, option_is_pseudo o = true) (set_headers m)),
   mk_mutation (filter (λ o, option_is_pseudo o = false) (set_headers m)) (remove_headers m)).

Context (rules : option HeaderMutationRules).

Definition disallowed_is_error : bool := match rules with Some r => disallow_is_error r | None => false end.

(** The removals of [apply_header_mutations]; the headers are changed in place,
    so what was done before an error stays. *)
Fixpoint remove_loop (hs : HeaderMap) (l : list str) : HeaderMap * result str () :=
  match l with
  | [] => (hs, Ok ())
  | k :: l =>
    if permitted rules k then
      remove_loop (match name_from_bytes k with Some n => header_remove hs n | None => hs end) l
    else if disallowed_is_error then (hs, Err (lit "Header removal not permitted by configuration: " ++ k))
    else remove_loop hs l
  end.

(** The action that is taken. *)
Definition effective_action (o : HeaderValueOption) : HeaderAppendAction :=
  match append o with
  | Some true => AppendIfExistsOrAdd
  | Some false => OverwriteIfExistsOrAdd
  | None => match append_action o with AppendIfExistsOrAdd => OverwriteIfExistsOrAdd | action => action end
  end.

Definition set_header (hs : HeaderMap) (n : HeaderName) (v : HeaderValue) (a : HeaderAppendAction) : HeaderMap :=
  match a with
  | AppendIfExistsOrAdd => header_append hs n v
  | AddIfAbsent => if contains_key hs n then hs else header_append hs n v
  | OverwriteIfExistsOrAdd => header_insert hs n v
  | OverwriteIfExists => if contains_key hs n then header_insert hs n v else hs
  end.

Fixpoint set_loop (hs : HeaderMap) (l : list HeaderValueOption) : HeaderMap * result str () :=
  match l with
  | [] => (hs, Ok ())
  | o :: l =>
    match header o with
    | None => set_loop hs l
    | Some h =>
      if permitted rules (key h) then
        match name_from_bytes (key h),
              value_from_bytes (if bool_decide (raw_value h = []) then value h else raw_value h) with
        | Some n, Some v => set_loop (set_header hs n v (effective_action o)) l
        | _, _ => set_loop hs l
        end
      else if disallowed_is_error then (hs, Err (lit "Header modification not permitted by configuration: " ++ key h))
      else set_loop hs l
    end
  end.

(** [apply_header_mutations]. *)
Definition apply_header_mutations (hs : HeaderMap) (m : HeaderMutation) : HeaderMap * result str () :=
  match remove_loop hs (remove_headers m) with
  | (hs, Ok ()) => set_loop hs (set_headers m)
  | r => r
  end.

(** A pseudo-header that may be changed, parsed; one that does not parse is
    ignored. *)
Definition parsed {A} (name : str) (o : option HeaderValueOption) (parse : str → option A) : option A :=
  o ← o; if permitted rules name then s ← extract_header_value_as_str o; parse s else None.

(** [apply_request_header_mutations]. *)
Definition apply_request_header_mutations (r : Request) (m : HeaderMutation) : Request * result str () :=
  let '(p, m) := extract_pseudo_headers m in
  let new_method := default (method r) (parsed METHOD (p_method p) method_from_bytes) in
  let new_uri :=
    if bool_decide (is_Some (p_scheme p) ∨ is_Some (p_authority p) ∨ is_Some (p_path p)) then
      let parts :=
        mk_uri
          (match parsed SCHEME (p_scheme p) scheme_try_from with Some s => Some s | None => scheme_str (uri r) end)
          (match parsed AUTHORITY (p_authority p) authority_try_from with Some a => Some a | None => authority (uri r) end)
          (match parsed PATH (p_path p) path_try_from with Some pq => Some pq | None => path_and_query (uri r) end) in
      default (uri r) (uri_from_parts parts)
    else uri r in
  let '(hs, res) := apply_header_mutations (headers r) m in
  (mk_request new_method new_uri hs, res).

(** [parse::<u16>] and [StatusCode::from_u16]. *)
Definition status_from (s : str) : option Z :=
  n ← Fmt.from_str_radix 10 Int.u16_max s; if (100 <=? n)%Z && (n <=? 999)%Z then Some n else None.

(** [apply_response_header_mutations]. *)
Definition apply_response_header_mutations (r : Response) (m : HeaderMutation) : Response * result str () :=
  let '(p, m) := extract_pseudo_headers m in
  let new_status := default (status r) (parsed STATUS (p_status p) status_from) in
  let '(hs, res) := apply_header_mutations (response_headers r) m in
  (mk_response new_status hs, res).

End mutation.

(** [apply_trailer_mutations]. *)
Definition apply_trailer_mutations {HL : HttpLib} {RL : RegexLib} {HB : HttpBytes}
    (trailers : HeaderMap) (m : HeaderMutation) (rules : option HeaderMutationRules) : HeaderMap * result str () :=
  apply_header_mutations rules trailers m.

(** [concat_header_mutations]. *)
Definition concat_header_mutations (l r : option HeaderMutation) : option HeaderMutation :=
  match l, r with
  | None, r => r
  | l, None => l
  | Some l, Some r => Some (mk_mutation (set_headers l ++ set_headers r) (remove_headers l ++ remove_headers r))
  end.

(** ** What a mutation does to the values of one header *)

Section effect.
Context {HL : HttpLib} {RL : RegexLib} {HB : HttpBytes} `{!HttpSpec HL}.
Context (rules : option HeaderMutationRules) (name : HeaderName).

Definition removes (k : str) : bool := permitted rules k && bool_decide (name_from_bytes k = Some name).

Definition set_values (v : HeaderValue) (a : HeaderAppendAction) (vs : list HeaderValue) : list HeaderValue :=
  match a with
  | AppendIfExistsOrAdd => vs ++ [v]
  | AddIfAbsent => if bool_decide (vs = []) then [v] else vs
  | OverwriteIfExistsOrAdd => [v]
  | OverwriteIfExists => if bool_decide (vs = []) then [] else [v]
  end.

(** The value an option sets the header to, if it is for this header and
    permitted. *)
Definition sets (o : HeaderValueOption) : option HeaderValue :=
  h ← header o;
  if permitted rules (key h) && bool_decide (name_from_bytes (key h) = Some name)
  then value_from_bytes (if bool_decide (raw_value h = []) then value h else raw_value h) else None.

Definition set_effect (vs : list HeaderValue) (o : HeaderValueOption) : list HeaderValue :=
  match sets o with Some v => set_values v (effective_action o) vs | None => vs end.

Definition effect (m : HeaderMutation) (vs : list HeaderValue) : list HeaderValue :=
  foldl set_effect (if existsb removes (remove_headers m) then [] else vs) (set_headers m).

Lemma get_all_set_header hs n v a :
  get_all (set_header hs n v a) name = if decide (name = n) then set_values v a (get_all hs name) else get_all hs name.
Proof.
  destruct a; simpl; unfold contains_key.
  - by rewrite get_all_append.
  - case_bool_decide as Hc; [|rewrite get_all_append]; case_decide; subst; try done.
    + by rewrite bool_decide_false.
    + by rewrite Hc, bool_decide_true.
  - by rewrite get_all_insert.
  - case_bool_decide as Hc; [rewrite get_all_insert|]; case_decide; subst; try done.
    + by rewrite bool_decide_false.
    + by rewrite Hc, bool_decide_true.
Qed.

Lemma remove_loop_effect hs l hs' :
  remove_loop rules hs l = (hs', Ok ()) →
  get_all hs' name = if existsb removes l then [] else get_all hs name.
Proof.
  revert hs. induction l as [|k l IH]; intros hs; cbn [remove_loop existsb]; [by intros [= ->]|].
  unfold removes at 1. destruct (permitted rules k); simpl.
  - intros Hl. rewrite (IH _ Hl). destruct (name_from_bytes k) as [n|]; simpl.
    + rewrite get_all_remove. repeat case_bool_decide; case_decide; simplify_eq; by destruct (existsb removes l).
    + done.
  - destruct (disallowed_is_error rules); [done|]. auto.
Qed.

Lemma set_loop_effect hs l hs' :
  set_loop rules hs l = (hs', Ok ()) → get_all hs' name = foldl set_effect (get_all hs name) l.
Proof.
  revert hs. induction l as [|o l IH]; intros hs; cbn [set_loop foldl]; [by intros [= ->]|].
  assert (set_effect (get_all hs name) o = match sets o with Some v => set_values v (effective_action o) (get_all hs name) | None => get_all hs name end) as -> by done.
  unfold sets. destruct (header o) as [h|]; cbn [mbind option_bind]; [|apply IH].
  destruct (permitted rules (key h)); cbn [andb]; [|destruct (disallowed_is_error rules); [done|apply IH]].
  destruct (name_from_bytes (key h)) as [n|]; [|rewrite bool_decide_false by done; apply IH].
  destruct (value_from_bytes _) as [v|]; [|case_bool_decide; apply IH].
  intros Hl. rewrite (IH _ Hl), get_all_set_header. case_decide as E; case_bool_decide; naive_solver.
Qed.

Lemma apply_effect hs m hs' :
  apply_header_mutations rules hs m = (hs', Ok ()) → get_all hs' name = effect m (get_all hs name).
Proof.
  unfold apply_header_mutations. destruct (remove_loop rules hs (remove_headers m)) as [hs1 [[]|e]] eqn:Hr; [|done].
  intros Hs. rewrite (set_loop_effect _ _ _ Hs). unfold effect. by rewrite (remove_loop_effect _ _ _ Hr).
Qed.

(** Whether a mutation touches the header at all. *)
Definition touches (m : HeaderMutation) : Prop :=
  Exists (λ k, permitted rules k = true ∧ name_from_bytes k = Some name) (remove_headers m) ∨
  Exists (λ o, ∃ h, header o = Some h ∧ permitted rules (key h) = true ∧ name_from_bytes (key h) = Some name) (set_headers m).

Lemma remove_loop_untouched hs l :
  ¬ Exists (λ k, permitted rules k = true ∧ name_from_bytes k = Some name) l →
  get_all (remove_loop rules hs l).1 name = get_all hs name.
Proof.
  revert hs. induction l as [|k l IH]; intros hs; cbn [remove_loop]; [done|]. rewrite Exists_cons. intros Hn.
  destruct (permitted rules k) eqn:Hk; [|destruct (disallowed_is_error rules); [done|apply IH; tauto]].
  rewrite IH by tauto. destruct (name_from_bytes k) as [n|]; [|done].
  rewrite get_all_remove. case_decide; [|done]. subst. tauto.
Qed.

Lemma set_loop_untouched hs l :
  ¬ Exists (λ o, ∃ h, header o = Some h ∧ permitted rules (key h) = true ∧ name_from_bytes (key h) = Some name) l →
  get_all (set_loop rules hs l).1 name = get_all hs name.
Proof.
  revert hs. induction l as [|o l IH]; intros hs; cbn [set_loop]; [done|]. rewrite Exists_cons. intros Hn.
  destruct (header o) as [h|] eqn:Ho; [|apply IH; tauto].
  destruct (permitted rules (key h)) eqn:Hk; [|destruct (disallowed_is_error rules); [done|apply IH; tauto]].
  destruct (name_from_bytes (key h)) as [n|] eqn:Hname; [|apply IH; tauto].
  destruct (value_from_bytes _) as [v|]; [|apply IH; tauto].
  rewrite IH by tauto. rewrite get_all_set_header. case_decide; [|done]. subst. destruct Hn. left. by exists h.
Qed.

Lemma apply_untouched hs m :
  ¬ touches m → get_all (apply_header_mutations rules hs m).1 name = get_all hs name.
Proof.
  unfold touches, apply_header_mutations. intros Hn.
  pose proof (remove_loop_untouched hs (remove_headers m)) as Hr.
  destruct (remove_loop rules hs (remove_headers m)) as [hs1 [[]|e]]; simpl in *; [|tauto].
  rewrite set_loop_untouched by tauto. tauto.
Qed.

End effect.


(** ** An instance for examples *)

Section example.
#[local] Existing Instance assoc_http.

Definition assoc_bytes : HttpBytes := {|
  name_from_bytes s := Some (Str.to_ascii_lowercase <$> s);
  value_from_bytes s := Some s;
  value_as_bytes s := s;
  header_map_new := [];
  method_from_bytes s := Some s;
  scheme_try_from s := Some s;
  authority_try_from s := Some s;
  path_try_from s := Some (mk_pq s None);
  uri_from_parts u := Some u;
|}.

Lemma to_lower_idem c : Str.to_ascii_lowercase (Str.to_ascii_lowercase c) = Str.to_ascii_lowercase c.
Proof. by destruct c as [[] [] [] [] [] [] [] []]. Qed.

#[local] Existing Instance assoc_bytes.

Lemma assoc_bytes_spec : HttpBytesSpec.
Proof.
  split; simpl; [by intros s n [= <-]|].
  intros s. f_equal. rewrite <-list_fmap_compose. apply list_fmap_ext. intros i c _. apply to_lower_idem.
Qed.

End example.
End ExtProcMutation.

(** What the rules for changes by an external processor guarantee, where they can
    be evaded, and what merging two changes does. *)

Import Http StringMatch ExtProcMutation.

Module ExtProcMutationSpec.

Section rules.
Context {HL : HttpLib} {RL : RegexLib} {HB : HttpBytes} `{!HttpSpec HL, !HttpBytesSpec}.
Context (rules : option HeaderMutationRules).

Lemma parsed_not_permitted {A} name o (parse : str → option A) :
  permitted rules name = false → parsed rules name o parse = None.
Proof. intros Hp. unfold parsed. destruct o; simpl; [|done]. by rewrite Hp. Qed.


(** The keys a mutation names, pseudo-headers apart. *)
Definition mutation_keys (m : HeaderMutation) : list str :=
  remove_headers m ++ omap (λ o, key <$> header o) (set_headers m).

Lemma remove_loop_ok hs l :
  disallowed_is_error rules = true →
  (∃ e, (remove_loop rules hs l).2 = Err e) ↔ Exists (λ k, permitted rules k = false) l.
Proof.
  intros Hd. revert hs. induction l as [|k l IH]; intros hs; cbn [remove_loop]; rewrite ?Exists_nil, ?Exists_cons.
  { split; [by intros [e He]|done]. }
  destruct (permitted rules k) eqn:Hk; [rewrite IH; naive_solver|]. rewrite Hd. simpl. naive_solver.
Qed.

Lemma set_loop_ok hs l :
  disallowed_is_error rules = true →
  (∃ e, (set_loop rules hs l).2 = Err e) ↔ Exists (λ k, permitted rules k = false) (omap (λ o, key <$> header o) l).
Proof.
  intros Hd. revert hs. induction l as [|o l IH]; intros hs; cbn [set_loop].
  { simpl. rewrite Exists_nil. split; [by intros [e He]|done]. }
  change (omap (λ o, key <$> header o) (o :: l)) with
    (match key <$> header o with Some k => k :: omap (λ o, key <$> header o) l | None => omap (λ o, key <$> header o) l end).
  destruct (header o) as [h|]; simpl; [|apply IH]. rewrite Exists_cons.
  destruct (permitted rules (key h)) eqn:Hk; [|rewrite Hd; simpl; naive_solver].
  transitivity (Exists (λ k, permitted rules k = false) (omap (λ o, key <$> header o) l)); [|naive_solver].
  destruct (name_from_bytes (key h)); [|apply IH]. destruct (value_from_bytes _); apply IH.
Qed.

(** With [disallow_is_error], a change fails just when it names a key that is
    not permitted. *)
Lemma disallowed_fails hs m :
  disallowed_is_error rules = true →
  (∃ e, (apply_header_mutations rules hs m).2 = Err e) ↔ Exists (λ k, permitted rules k = false) (mutation_keys m).
Proof.
  intros Hd. unfold apply_header_mutations, mutation_keys. rewrite Exists_app.
  pose proof (remove_loop_ok hs (remove_headers m) Hd) as Hr.
  destruct (remove_loop rules hs (remove_headers m)) as [hs1 [[]|e]]; simpl in *.
  - rewrite (set_loop_ok hs1 _ Hd). naive_solver.
  - naive_solver.
Qed.

(** Without it a change never fails. *)
Lemma allowed_succeeds hs m :
  disallowed_is_error rules = false → (apply_header_mutations rules hs m).2 = Ok ().
Proof.
  intros Hd. unfold apply_header_mutations.
  assert (∀ l hs, (remove_loop rules hs l).2 = Ok ()) as Hr.
  { induction l as [|k l IH]; intros hs'; cbn [remove_loop]; [done|]. rewrite Hd. destruct (permitted rules k); apply IH. }
  assert (∀ l hs, (set_loop rules hs l).2 = Ok ()) as Hs.
  { induction l as [|o l IH]; intros hs'; cbn [set_loop]; [done|]. rewrite Hd.
    destruct (header o) as [h|]; [|apply IH]. destruct (permitted rules (key h)); [|apply IH].
    destruct (name_from_bytes (key h)); [|apply IH]. destruct (value_from_bytes _); apply IH. }
  specialize (Hr (remove_headers m) hs). destruct (remove_loop rules hs (remove_headers m)) as [hs1 [[]|e]]; [|done].
  apply Hs.
Qed.

(** ** Merging *)

(** Two changes, one after the other. *)
Definition in_turn (hs : HeaderMap) (l r : HeaderMutation) : HeaderMap :=
  (apply_header_mutations rules (apply_header_mutations rules hs l).1 r).1.

(** The second change does not remove what the first one sets. *)
Definition independent (l r : HeaderMutation) : Prop :=
  ∀ name, existsb (removes rules name) (remove_headers r) = true →
    Forall (λ o, sets rules name o = None) (set_headers l).

Lemma foldl_set_none name vs l :
  Forall (λ o, sets rules name o = None) l → foldl (set_effect rules name) vs l = vs.
Proof.
  intros Hl. revert vs. induction Hl as [|o l Ho _ IH]; intros vs; [done|]. cbn [foldl].
  unfold set_effect at 2. rewrite Ho. apply IH.
Qed.

(** merging two changes is doing one after the other, as long as the second
    does not remove a header that the first one sets; the headers answer of the
    processor and its body answer are merged before they are applied. *)
Theorem merged_mutations_in_turn hs l r m name :
  disallowed_is_error rules = false → independent l r →
  concat_header_mutations (Some l) (Some r) = Some m →
  get_all (apply_header_mutations rules hs m).1 name = get_all (in_turn hs l r) name.
Proof.
  intros Hd Hi [= <-]. unfold in_turn.
  assert (∀ hs m, get_all (apply_header_mutations rules hs m).1 name = effect rules name m (get_all hs name)) as He.
  { intros hs' m. apply apply_effect. pose proof (allowed_succeeds hs' m Hd) as Hok.
    destruct (apply_header_mutations rules hs' m) as [hs1 res]. simpl in *. by subst. }
  rewrite !He. unfold effect. simpl. rewrite existsb_app, foldl_app. f_equal.
  specialize (Hi name). destruct (existsb (removes rules name) (remove_headers r)); [|by rewrite orb_false_r].
  rewrite orb_true_r. by rewrite (foldl_set_none name) by auto.
Qed.

End rules.

(** ** Evading the rules *)

Section evade.
Context {HL : HttpLib} {RL : RegexLib} {HB : HttpBytes} `{!HttpSpec HL, !HttpBytesSpec}.

(** the rules compare keys as they are written, but header names are in lower
    case.  Rules that forbid changes of routing do not permit the key "host", yet
    the processor replaces the host with the key "Host". *)
Theorem rules_evaded_by_case allow_envoy allow_system is_error hs v n value :
  let rules := Some (mk_rules (Standard false allow_envoy allow_system) None is_error) in
  name_from_bytes (lit "host") = Some n → value_from_bytes v = Some value → v ≠ [] →
  permitted rules (lit "host") = false ∧
  ∃ hs', apply_header_mutations rules hs
      (mk_mutation [mk_option (Some (mk_header (lit "Host") v [])) None AppendIfExistsOrAdd] []) = (hs', Ok ()) ∧
    get_all hs' n = [value].
Proof.
  intros rules Hn Hv Hne. split; [done|].
  pose proof (name_from_bytes_case (lit "Host")) as Hcase.
  change (Str.to_ascii_lowercase <$> lit "Host") with (lit "host") in Hcase. rewrite Hn in Hcase.
  unfold apply_header_mutations. cbn [remove_loop remove_headers set_headers set_loop header key].
  change (permitted rules (lit "Host")) with true. cbn [raw_value]. rewrite bool_decide_true by done.
  rewrite <-Hcase. cbn [ExtProcMutation.value]. rewrite Hv. eexists. split; [done|].
  unfold effective_action. simpl. by rewrite get_all_insert, decide_True.
Qed.

End evade.

(** ** Witnesses *)

Section examples.
#[local] Existing Instances assoc_http assoc_http_spec no_regex assoc_bytes assoc_bytes_spec.

Let request : Request := mk_request (lit "GET") (mk_uri None None (Some (mk_pq (lit "/") None))) [(lit "host", lit "a")].
Let set (k v : string) : HeaderValueOption := mk_option (Some (mk_header (lit k) (lit v) [])) None AppendIfExistsOrAdd.


Lemma merged_mutations_in_turn_witness :
  get_all (apply_header_mutations None [(lit "a", lit "0")] (mk_mutation [set "a" "1"; set "b" "2"] [lit "c"])).1 (lit "a") =
  get_all (in_turn None [(lit "a", lit "0")] (mk_mutation [set "a" "1"] []) (mk_mutation [set "b" "2"] [lit "c"])) (lit "a").
Proof.
  apply (merged_mutations_in_turn None _ (mk_mutation [set "a" "1"] []) (mk_mutation [set "b" "2"] [lit "c"])); try done.
  intros name Hr. unfold removes in Hr. simpl in Hr. rewrite orb_false_r in Hr.
  apply bool_decide_eq_true in Hr as [= <-]. apply Forall_singleton. by vm_compute.
Defined.

Lemma rules_evaded_by_case_witness :
  permitted (Some rules_default) (lit "host") = false ∧
  ∃ hs', apply_header_mutations (Some rules_default) [(lit "host", lit "a")] (mk_mutation [set "Host" "evil"] []) = (hs', Ok ()) ∧
    get_all hs' (lit "host") = [lit "evil"].
Proof. by apply (rules_evaded_by_case (HL := assoc_http) false true false [(lit "host", lit "a")] (lit "evil") (lit "host")). Defined.

End examples.
End ExtProcMutationSpec.
