(* ===== verification/ExtProcModes.v ===== *)
(** Which parts of a message the external processor sees: the processing modes of
    the configuration (arion-configuration, http_filters/ext_proc.rs), the modes
    that it may override while it runs (ext_proc/override.rs), the settings of a
    worker (ext_proc/worker_config.rs, ext_proc.rs) and the headers it is sent. *)

From S2P Require Import Prelude RustStr Http StringMatch ExtProcMutation.
Import Http StringMatch ExtProcMutation.
Local Open Scope Z_scope.

Module ExtProcModes.

(** ** The modes

    The overridable modes have the constructors of the configured ones and are
    converted constructor by constructor: one type stands for both. *)

Inductive HeaderProcessingMode : Type := HeaderDefault | HeaderSend | HeaderSkip.
Inductive BodyProcessingMode : Type := BodyNone | Streamed | Buffered | BufferedPartial | FullDuplexStreamed.
Inductive TrailerProcessingMode : Type := TrailerDefault | TrailerSkip | TrailerSend.
Inductive RouteCacheAction : Type := RouteDefault | RouteClear | RouteRetain.

#[export] Instance header_mode_eq_dec : EqDecision HeaderProcessingMode.
Proof. solve_decision. Defined.
#[export] Instance body_mode_eq_dec : EqDecision BodyProcessingMode.
Proof. solve_decision. Defined.
#[export] Instance trailer_mode_eq_dec : EqDecision TrailerProcessingMode.
Proof. solve_decision. Defined.

(** The numbers of the protocol; 5 is the mode for gRPC, which is not supported. *)
Definition header_mode_try_from (value : Z) : option HeaderProcessingMode :=
  match value with 0 => Some HeaderDefault | 1 => Some HeaderSend | 2 => Some HeaderSkip | _ => None end.

Definition body_mode_try_from (value : Z) : option BodyProcessingMode :=
  match value with
  | 0 => Some BodyNone
  | 1 => Some Streamed
  | 2 => Some Buffered
  | 3 => Some BufferedPartial
  | 4 => Some FullDuplexStreamed
  | _ => None
  end.

Definition trailer_mode_try_from (value : Z) : option TrailerProcessingMode :=
  match value with 0 => Some TrailerDefault | 1 => Some TrailerSend | 2 => Some TrailerSkip | _ => None end.

Definition route_cache_action_try_from (value : Z) : option RouteCacheAction :=
  match value with 0 => Some RouteDefault | 1 => Some RouteClear | 2 => Some RouteRetain | _ => None end.

Record ProcessingMode : Type := mk_processing_mode {
  request_header_mode : HeaderProcessingMode;
  response_header_mode : HeaderProcessingMode;
  request_body_mode : BodyProcessingMode;
  response_body_mode : BodyProcessingMode;
  request_trailer_mode : TrailerProcessingMode;
  response_trailer_mode : TrailerProcessingMode;
}.

Definition processing_mode_default : ProcessingMode :=
  mk_processing_mode HeaderDefault HeaderDefault BodyNone BodyNone TrailerDefault TrailerDefault.

(** The message of the protocol. *)
Record EnvoyProcessingMode : Type := mk_envoy_mode {
  envoy_request_header_mode : Z;
  envoy_response_header_mode : Z;
  envoy_request_body_mode : Z;
  envoy_response_body_mode : Z;
  envoy_request_trailer_mode : Z;
  envoy_response_trailer_mode : Z;
}.

Definition processing_mode_try_from (value : EnvoyProcessingMode) : option ProcessingMode :=
  rqh ← header_mode_try_from (envoy_request_header_mode value);
  rsh ← header_mode_try_from (envoy_response_header_mode value);
  rqb ← body_mode_try_from (envoy_request_body_mode value);
  rsb ← body_mode_try_from (envoy_response_body_mode value);
  rqt ← trailer_mode_try_from (envoy_request_trailer_mode value);
  rst ← trailer_mode_try_from (envoy_response_trailer_mode value);
  Some (mk_processing_mode rqh rsh rqb rsb rqt rst).

(** ** The modes of a worker *)

Record OverridableModes : Type := mk_modes {
  header_mode : HeaderProcessingMode;
  body_mode : BodyProcessingMode;
  trailer_mode : TrailerProcessingMode;
}.

Definition should_process_headers (m : OverridableModes) : bool :=
  match header_mode m with HeaderDefault | HeaderSend => true | HeaderSkip => false end.
Definition should_process_body (m : OverridableModes) : bool :=
  match body_mode m with BodyNone => false | _ => true end.
Definition should_process_trailers (m : OverridableModes) : bool :=
  match trailer_mode m with TrailerDefault | TrailerSkip => false | TrailerSend => true end.

(** [matches!(body_mode, Buffered | BufferedPartial)]. *)
Definition is_buffered (m : BodyProcessingMode) : bool :=
  match m with Buffered | BufferedPartial => true | _ => false end.

(** The two kinds of messages. *)
Inductive MessageKind : Type := RequestMsg | ResponseMsg.

#[export] Instance message_kind_eq_dec : EqDecision MessageKind.
Proof. solve_decision. Defined.

Record OverridableGlobalModes : Type := mk_global_modes { request : OverridableModes; response : OverridableModes }.

(** [OverridableModeSelector::get]. *)
Definition modes_of (k : MessageKind) (g : OverridableGlobalModes) : OverridableModes :=
  match k with RequestMsg => request g | ResponseMsg => response g end.

Definition set_header_mode (k : MessageKind) (mode : HeaderProcessingMode) (g : OverridableGlobalModes) : OverridableGlobalModes :=
  match k with
  | RequestMsg => {| g with request := {| (request g) with header_mode := mode |} |}
  | ResponseMsg => {| g with response := {| (response g) with header_mode := mode |} |}
  end.

Definition set_body_mode (k : MessageKind) (mode : BodyProcessingMode) (g : OverridableGlobalModes) : OverridableGlobalModes :=
  match k with
  | RequestMsg => {| g with request := {| (request g) with body_mode := mode |} |}
  | ResponseMsg => {| g with response := {| (response g) with body_mode := mode |} |}
  end.

Definition set_trailer_mode (k : MessageKind) (mode : TrailerProcessingMode) (g : OverridableGlobalModes) : OverridableGlobalModes :=
  match k with
  | RequestMsg => {| g with request := {| (request g) with trailer_mode := mode |} |}
  | ResponseMsg => {| g with response := {| (response g) with trailer_mode := mode |} |}
  end.

(** [allowed_override_modes.is_empty() || any(...)]. *)
Definition allowed {A} `{EqDecision A} (select : ProcessingMode → A) (modes : list ProcessingMode) (mode : A) : bool :=
  bool_decide (modes = []) || existsb (λ m, bool_decide (select m = mode)) modes.

(** [apply_mode_overrides] of the request. *)
Definition apply_request_mode_overrides (envoy_mode : EnvoyProcessingMode) (allowed_override_modes : list ProcessingMode)
    (g : OverridableGlobalModes) : OverridableGlobalModes :=
  let g :=
    match body_mode_try_from (envoy_request_body_mode envoy_mode) with
    | Some mode => if allowed request_body_mode allowed_override_modes mode then set_body_mode RequestMsg mode g else g
    | None => g
    end in
  match trailer_mode_try_from (envoy_request_trailer_mode envoy_mode) with
  | Some mode =>
    if bool_decide (mode ≠ TrailerDefault) && allowed request_trailer_mode allowed_override_modes mode
    then set_trailer_mode RequestMsg mode g else g
  | None => g
  end.

(** [apply_mode_overrides] of the response. *)
Definition apply_response_mode_overrides (envoy_mode : EnvoyProcessingMode) (allowed_override_modes : list ProcessingMode)
    (g : OverridableGlobalModes) : OverridableGlobalModes :=
  let g :=
    match header_mode_try_from (envoy_response_header_mode envoy_mode) with
    | Some mode =>
      if bool_decide (mode ≠ HeaderDefault) && allowed response_header_mode allowed_override_modes mode
      then set_header_mode ResponseMsg mode g else g
    | None => g
    end in
  let g :=
    match body_mode_try_from (envoy_response_body_mode envoy_mode) with
    | Some mode => if allowed response_body_mode allowed_override_modes mode then set_body_mode ResponseMsg mode g else g
    | None => g
    end in
  match trailer_mode_try_from (envoy_response_trailer_mode envoy_mode) with
  | Some mode =>
    if bool_decide (mode ≠ TrailerDefault) && allowed response_trailer_mode allowed_override_modes mode
    then set_trailer_mode ResponseMsg mode g else g
  | None => g
  end.

(** ** The settings of a worker *)

Section config.
Context {HL : HttpLib} {RL : RegexLib}.

Inductive GrpcServiceSpecifier : Type :=
  | ClusterGrpc (cluster_name : str) (max_receive_message_length : option Z)
  | GoogleGrpc (target_uri : str).

Record HeaderForwardingRules : Type := mk_forwarding {
  allowed_headers : list StringMatcher;
  disallowed_headers : list StringMatcher;
}.

Record ExternalProcessorConfig : Type := mk_config {
  config_grpc_service : GrpcServiceSpecifier;
  config_failure_mode_allow : bool;
  config_message_timeout : option Z;
  config_max_message_timeout : option Z;
  config_processing_mode : option ProcessingMode;
  config_mutation_rules : option HeaderMutationRules;
  config_forward_rules : option HeaderForwardingRules;
  config_allow_mode_override : bool;
  config_route_cache_action : RouteCacheAction;
  config_allowed_override_modes : list ProcessingMode;
  config_send_body_without_waiting : bool;
  config_observability_mode : bool;
  config_disable_immediate_response : bool;
  (** [metadata_options.forwarding_namespaces.untyped], if there are options. *)
  config_forwarding_namespaces : option (list str);
}.

Record ExtProcOverrides : Type := mk_overrides {
  override_processing_mode : option ProcessingMode;
  override_grpc_service : option GrpcServiceSpecifier;
  override_failure_mode_allow : option bool;
}.

Record ExtProcPerRoute : Type := mk_per_route { disabled : bool; route_overrides : option ExtProcOverrides }.

Record ExternalProcessorConfigExt : Type := mk_config_ext { ext_frame_merge_limit : Z; ext_frame_merge_window : Z }.

(** Durations are in nanoseconds. *)
Record ExternalProcessingWorkerConfig : Type := mk_worker_config {
  grpc_service_specifier : GrpcServiceSpecifier;
  message_timeout : Z;
  max_message_timeout : option Z;
  observability_mode : bool;
  failure_mode_allow : bool;
  disable_immediate_response : bool;
  mutation_rules : option HeaderMutationRules;
  processing_mode : ProcessingMode;
  allowed_override_modes : list ProcessingMode;
  allow_mode_override : bool;
  route_cache_action : RouteCacheAction;
  send_body_without_waiting_for_header_response : bool;
  forward_served_endpoint : bool;
  frame_merge_limit : Z;
  frame_merge_window : Z;
  max_receive_message_length : Z;
}.

Definition LB_NAMESPACE : str := lit "envoy.lb".

(** The defaults of the constants that the build can change. *)
Definition CHANNEL_BODY_PREFETCH_FRAMES : nat := 4.
Definition EXT_PROC_BUFFERED_BODY_LIMIT : Z := 104857600.
Definition EXT_PROC_MERGE_WINDOW : Z := 100000.
Definition EXT_PROC_FRAME_MERGE_LIMIT : Z := 4.

(** The overrides of a route that is not disabled. *)
Definition route_override {A} (per_route : option ExtProcPerRoute) (select : ExtProcOverrides → option A) (initial : A) : A :=
  match per_route with
  | Some p =>
    if disabled p then initial
    else match route_overrides p with Some o => default initial (select o) | None => initial end
  | None => initial
  end.

Definition worker_config_from (config : ExternalProcessorConfig) (per_route : option ExtProcPerRoute)
    (ext : option ExternalProcessorConfigExt) : ExternalProcessingWorkerConfig :=
  let grpc_service := route_override per_route override_grpc_service (config_grpc_service config) in
  {| grpc_service_specifier := grpc_service;
     message_timeout := default 200000000 (config_message_timeout config);
     max_message_timeout := config_max_message_timeout config;
     observability_mode := config_observability_mode config;
     failure_mode_allow := route_override per_route override_failure_mode_allow (config_failure_mode_allow config);
     disable_immediate_response := config_disable_immediate_response config;
     mutation_rules := config_mutation_rules config;
     processing_mode :=
       route_override per_route override_processing_mode (default processing_mode_default (config_processing_mode config));
     allowed_override_modes := config_allowed_override_modes config;
     allow_mode_override := config_allow_mode_override config;
     route_cache_action := config_route_cache_action config;
     send_body_without_waiting_for_header_response := config_send_body_without_waiting config;
     forward_served_endpoint :=
       match config_forwarding_namespaces config with
       | Some ns => existsb (λ n, bool_decide (n = LB_NAMESPACE)) ns
       | None => false
       end;
     frame_merge_limit := from_option ext_frame_merge_limit EXT_PROC_FRAME_MERGE_LIMIT ext;
     frame_merge_window := from_option ext_frame_merge_window EXT_PROC_MERGE_WINDOW ext;
     max_receive_message_length :=
       match grpc_service with
       | ClusterGrpc _ (Some v) => v
       | _ => EXT_PROC_BUFFERED_BODY_LIMIT
       end |}.

Definition global_modes_from (config : ExternalProcessingWorkerConfig) : OverridableGlobalModes :=
  let m := processing_mode config in
  mk_global_modes (mk_modes (request_header_mode m) (request_body_mode m) (request_trailer_mode m))
    (mk_modes (response_header_mode m) (response_body_mode m) (response_trailer_mode m)).

(** ** What is forwarded *)

Definition should_forward_header (forward_rules : option HeaderForwardingRules) (header_name : str) : bool :=
  match forward_rules with
  | Some r =>
    if bool_decide (disallowed_headers r ≠ []) then negb (existsb (λ m, string_matches m header_name) (disallowed_headers r))
    else if bool_decide (allowed_headers r ≠ []) then existsb (λ m, string_matches m header_name) (allowed_headers r)
    else true
  | None => true
  end.

End config.
End ExtProcModes.
