(* ===== verification/ExtProcProcessing.v ===== *)
(** The processing of one message by an external processor
    (arion-lib/src/listeners/http_connection_manager/ext_proc/processing.rs): the
    buffer that merges frames, the bridge to the body, the reply to the filter
    and the answers of the processor. *)

From S2P Require Import Prelude RustStr Http StringMatch Body ChannelBody ExtProcMutation ExtProcModes.
Import Http StringMatch Body ChannelBody ExtProcMutation ExtProcModes.
Local Open Scope Z_scope.

Module ExtProcProcessing.

(** ** The messages of the protocol *)

Section messages.
Context {HL : HttpLib}.

Record ProtocolConfiguration : Type := mk_protocol {
  protocol_request_body_mode : BodyProcessingMode;
  protocol_response_body_mode : BodyProcessingMode;
  protocol_send_body_without_waiting : bool;
}.

(** [ProcessingRequestType], with the kind of the message as an argument. *)
Inductive RequestPayload : Type :=
  | HttpHeaders (k : MessageKind) (headers : list ProtoHeader) (end_of_stream : bool)
  | HttpBody (k : MessageKind) (body : str) (end_of_stream : bool)
  | HttpTrailers (k : MessageKind) (trailers : list ProtoHeader).

Record ProcessingRequest : Type := mk_processing_request {
  payload : RequestPayload;
  (** The endpoint in the metadata of the load balancer. *)
  metadata_context : option str;
  request_observability_mode : bool;
  protocol_config : option ProtocolConfiguration;
}.

Inductive Mutation : Type :=
  | MutationBody (bytes : str)
  | ClearBody (clear : bool)
  | StreamedResponse (body : str).

(** [CommonResponse]; [status] is its number, 1 for [ContinueAndReplace]. *)
Record CommonResponse : Type := mk_common {
  common_status : Z;
  header_mutation : option HeaderMutation;
  body_mutation : option Mutation;
  common_trailers : option (list ProtoHeader);
  clear_route_cache : bool;
}.

Record ImmediateResponse : Type := mk_immediate {
  immediate_status : option Z;
  immediate_headers : option HeaderMutation;
  immediate_body : str;
  grpc_status : option Z;
}.

Inductive ResponsePayload : Type :=
  | Immediate (r : ImmediateResponse)
  | HeadersResponse (k : MessageKind) (response : option CommonResponse)
  | BodyResponse (k : MessageKind) (response : option CommonResponse)
  | TrailersResponse (k : MessageKind) (header_mutation : option HeaderMutation).

Record ProcessingResponse : Type := mk_processing_response {
  response_payload : option ResponsePayload;
  mode_override : option EnvoyProcessingMode;
  (** Seconds and nanoseconds. *)
  override_message_timeout : option (Z * Z);
}.

(** ** The status that is returned to the filter *)

Record ReadyStatus : Type := mk_ready { headers_modifications : option HeaderMutation; ready_clear_route_cache : bool }.

Definition ready_default : ReadyStatus := mk_ready None false.

(** [SyntheticHttpResponse], or an answer made up by the processor. *)
Inductive DirectResponse : Type :=
  | Synthetic (http_status : Z) (body : str) (close_connection : bool)
  | Direct (response : Response) (body : str).

Inductive ProcessingStatus : Type :=
  | RequestReady (r : ReadyStatus)
  | ResponseReady (r : ReadyStatus)
  | HaltedOnError
  | EndWithDirectResponse (r : DirectResponse).

(** [ProcessingStatus::RequestReady] or [ResponseReady], by the kind. *)
Definition ready_with (k : MessageKind) (r : ReadyStatus) : ProcessingStatus :=
  match k with RequestMsg => RequestReady r | ResponseMsg => ResponseReady r end.

Definition ready (k : MessageKind) : ProcessingStatus := ready_with k ready_default.

Inductive ExtProcError : Type :=
  | Timeout (what : str)
  | UnsupportedResponseType (what : str)
  | UnexpectedEof
  | GrpcError (message : str).

(** [BodyError], with the errors of other crates left abstract. *)
Inductive BodyError {Foreign : Type} : Type :=
  | Other (e : Foreign)
  | ExtProc (e : ExtProcError)
  | BodyTimedOut
  | TrailersNotSupported (body_type : str).

(** ** [FramesBuffer]

    [BufferedData] holds the same bytes in one of two representations. *)

Record FramesBuffer : Type := mk_frames_buffer {
  data_buffer : option str;
  trailers_buffer : option Frame;
  last_merge : option Z;
  count : Z;
  buffer_merge_limit : Z;
  buffer_merge_window : Z;
}.

Definition buffer_new (frame_merge_limit frame_merge_window : Z) : FramesBuffer :=
  mk_frames_buffer None None None 0 frame_merge_limit frame_merge_window.

(** The first part of [push] for data. *)
Definition merge (b : FramesBuffer) (new_data : str) : FramesBuffer :=
  match trailers_buffer b with
  | Some _ => b
  | None =>
    match data_buffer b with
    | Some old_data => {| b with count := (count b + 1) mod 2 ^ 32; data_buffer := Some (old_data ++ new_data) |}
    | None => {| b with count := 1; data_buffer := Some new_data |}
    end
  end.

Definition push (b : FramesBuffer) (frame : Frame) (now : Z) (mode : BodyProcessingMode) : option Frame * FramesBuffer :=
  match frame with
  | Data new_data =>
    let b := merge b new_data in
    let emit := negb (is_buffered mode) &&
      (bool_decide (buffer_merge_limit b <= count b) ||
       bool_decide (buffer_merge_window b <= Z.max 0 (now - default now (last_merge b)))) in
    let b := {| b with last_merge := Some now |} in
    if emit then (Data <$> data_buffer b, {| b with count := 0; data_buffer := None |}) else (None, b)
  | Trailers _ =>
    (if is_buffered mode then None else Data <$> data_buffer b,
     {| b with data_buffer := if is_buffered mode then data_buffer b else None;
        count := 0; last_merge := Some now; trailers_buffer := Some frame |})
  end.

Definition take (b : FramesBuffer) : option Frame * FramesBuffer :=
  match data_buffer b with
  | Some data => (Some (Data data), {| b with count := 0; last_merge := None; data_buffer := None |})
  | None => (trailers_buffer b, {| b with count := 0; last_merge := None; trailers_buffer := None |})
  end.

Definition push_end_of_stream (b : FramesBuffer) : FramesBuffer :=
  match data_buffer b, trailers_buffer b with
  | None, None => {| b with data_buffer := Some [] |}
  | _, _ => b
  end.

Definition has_trailers (b : FramesBuffer) : bool := bool_decide (is_Some (trailers_buffer b)).

(** ** The bridge to the body *)

Section bridge.
Context {E : Type}.

Record Bridge : Type := mk_frame_bridge {
  inner : FrameBridge (E := E);
  chan : Channel (E := E);
  source_has_body : option bool;
  source_has_trailers : option bool;
  source_has_body_or_trailers : bool;
}.

(** [FrameBridge::default]: no source, closed. *)
Definition bridge_default : Bridge :=
  mk_frame_bridge (mk_bridge [] false 0) (mk_channel [] false false) (Some false) (Some false) false.

Inductive BodyType : Type := TypeEmpty | TypeBody | TypeTrailers | TypeBodyAndTrailers.

(** [FrameBridge::new]; [end_of_stream] is what the body says at that time. *)
Definition bridge_new (frames : list (result E Frame)) (end_of_stream : bool) (body_type : option BodyType) : Bridge :=
  let '(has_body, has_trailers) :=
    match end_of_stream, body_type with
    | false, Some TypeBody => (Some true, Some false)
    | false, Some TypeTrailers => (Some false, Some true)
    | false, Some TypeBodyAndTrailers => (Some true, Some true)
    | false, None => (None, None)
    | _, _ => (Some false, Some false)
    end in
  mk_frame_bridge (mk_bridge frames true 0) (mk_channel [] true true) has_body has_trailers (negb end_of_stream).

Definition bridge_inject (b : Bridge) (f : result E Frame) : Bridge :=
  let '(_, i, c) := ChannelBody.inject_frame (inner b) (chan b) f in {| b with inner := i; chan := c |}.

Definition bridge_drain (b : Bridge) : Bridge :=
  let '(i, c) := ChannelBody.drain_and_inject (inner b) (chan b) in {| b with inner := i; chan := c |}.

Definition bridge_close (b : Bridge) : Bridge :=
  let '(i, c) := ChannelBody.close (inner b) (chan b) in {| b with inner := i; chan := c |}.

Definition bridge_next (b : Bridge) : option (result E Frame) * Bridge :=
  let '(f, i) := ChannelBody.next_frame (inner b) in (f, {| b with inner := i |}).

Definition is_open (b : Bridge) : bool := injector (inner b).

Definition drain_and_close (b : Bridge) (frames : list Frame) (trailers : option Frame) : Bridge :=
  let b := foldl (λ b f, bridge_inject b (Ok f)) b frames in
  let b := bridge_drain b in
  let b := match trailers with Some t => bridge_inject b (Ok t) | None => b end in
  bridge_close b.

End bridge.
End messages.
Arguments BodyError : clear implicits.

(** ** [Processing] *)

Section processing.
Context {HL : HttpLib} {RL : RegexLib} {HB : HttpBytes} {Foreign : Type}.

Notation BridgeT := (Bridge (E := BodyError Foreign)).

(** [reply_channel] says whether the sender is still there, and [replies] is what
    went through it. *)
Record Processing : Type := mk_processing {
  http_headers : option (list ProtoHeader);
  trailers : option HeaderMap;
  frame_bridge : BridgeT;
  reply_channel : bool;
  replies : list ProcessingStatus;
  send_without_waiting : bool;
  allow_failure : bool;
  streaming_body_enabled : bool;
  end_of_stream : bool;
  frames_buffer : FramesBuffer;
  inflight_frames : list Frame;
  parked_trailers : option Frame;
  headers_ready_status : option ReadyStatus;
  served_endpoint : option str;
}.

Definition processing_from (config : ExternalProcessingWorkerConfig) : Processing :=
  {| http_headers := None; trailers := None; frame_bridge := bridge_default; reply_channel := false; replies := [];
     send_without_waiting := send_body_without_waiting_for_header_response config;
     allow_failure := failure_mode_allow config;
     streaming_body_enabled := false; end_of_stream := false;
     frames_buffer := buffer_new (frame_merge_limit config) (frame_merge_window config);
     inflight_frames := []; parked_trailers := None; headers_ready_status := None; served_endpoint := None |}.

(** *** Replies *)

Definition return_status (p : Processing) (status : ProcessingStatus) : Processing :=
  if reply_channel p then {| p with reply_channel := false; replies := replies p ++ [status] |} else p.

Definition status_timeout (failure_mode_allow : bool) : ProcessingStatus :=
  if failure_mode_allow then HaltedOnError else EndWithDirectResponse (Synthetic 504 [] false).

Definition status_error (msg : str) (failure_mode_allow : bool) : ProcessingStatus :=
  if failure_mode_allow then HaltedOnError else EndWithDirectResponse (Synthetic 500 msg false).

Definition status_internal_error (msg : str) : ProcessingStatus := EndWithDirectResponse (Synthetic 500 msg false).

(** *** The body *)

Definition on_bridge (f : BridgeT → BridgeT) (p : Processing) : Processing :=
  {| p with frame_bridge := f (frame_bridge p) |}.

Definition inject (p : Processing) (f : result (BodyError Foreign) Frame) : Processing :=
  on_bridge (λ b, bridge_inject b f) p.

Definition set_streaming_body (value : bool) (p : Processing) : Processing :=
  {| p with streaming_body_enabled := value; end_of_stream := if value then end_of_stream p else true |}.

Definition try_enable_streaming_body (p : Processing) : bool * Processing :=
  if source_has_body_or_trailers (frame_bridge p) then (true, {| p with streaming_body_enabled := true |})
  else (false, on_bridge bridge_close p).

Inductive Phase : Type := PhaseHeaders | PhaseBody | PhaseTrailers.

Definition update_end_stream (phase : Phase) (modes : OverridableModes) (p : Processing) : Processing :=
  let will_send_trailers :=
    should_process_trailers modes && default true (source_has_trailers (frame_bridge p)) in
  let will_send_body := should_process_body modes && default true (source_has_body (frame_bridge p)) in
  {| p with end_of_stream :=
       match phase with
       | PhaseHeaders => negb will_send_body && negb will_send_trailers
       | PhaseBody => negb will_send_trailers
       | PhaseTrailers => true
       end |}.

(** [buffer_end_of_stream]. *)
Definition buffer_end_of_stream (modes : OverridableModes) (p : Processing) : Processing :=
  if should_process_body modes && negb (end_of_stream p) then
    let p :=
      if should_process_trailers modes then p
      else {| p with parked_trailers := trailers_buffer (frames_buffer p);
              frames_buffer := {| (frames_buffer p) with trailers_buffer := None |} |} in
    {| p with frames_buffer := push_end_of_stream (frames_buffer p) |}
  else p.

(** *** Messages to the processor *)

(** [for (name, value) in &headers]. *)
Definition header_iter (h : HeaderMap) : list (HeaderName * HeaderValue) :=
  keys h ≫= λ n, (λ v, (n, v)) <$> get_all h n.

Definition proto_header (nv : HeaderName * HeaderValue) : ProtoHeader :=
  match to_str nv.2 with
  | Some value_str => mk_header (name_as_str nv.1) value_str []
  | None => mk_header (name_as_str nv.1) [] (value_as_bytes nv.2)
  end.

(** [From<EnvoyHeaderMap> for http::HeaderMap]. *)
Definition headers_from (l : list ProtoHeader) : HeaderMap :=
  foldl (λ h p,
    match name_from_bytes (key p) with
    | None => h
    | Some header_name =>
      match value_from_bytes (if bool_decide (value p = []) then raw_value p else value p) with
      | Some header_value => header_append h header_name header_value
      | None => h
      end
    end) header_map_new l.

Definition handle_outgoing_body_chunk (k : MessageKind) (observability : bool) (chunk : Frame) (eos : bool)
    (p : Processing) : ProcessingRequest * Processing :=
  match chunk with
  | Data data => (mk_processing_request (HttpBody k data eos) None observability None, p)
  | Trailers data =>
    (mk_processing_request (HttpTrailers k (proto_header <$> header_iter data)) None observability None,
     {| p with trailers := Some data |})
  end.

(** [process_headers]; without headers nothing is sent. *)
Definition process_headers (k : MessageKind) (observability : bool) (modes : OverridableModes) (p : Processing)
    : option ProcessingRequest * Processing :=
  match http_headers p with
  | None =>
    let p := return_status p (status_error (lit "process_request: Unexpected missing headers!") (allow_failure p)) in
    (None, set_streaming_body false (on_bridge bridge_close (on_bridge bridge_drain p)))
  | Some envmap =>
    let p := update_end_stream PhaseHeaders modes {| p with http_headers := None |} in
    let '(metadata, p) :=
      match k with
      | RequestMsg => (None, p)
      | ResponseMsg => (served_endpoint p, {| p with served_endpoint := None |})
      end in
    let request := mk_processing_request (HttpHeaders k envmap (end_of_stream p)) metadata observability None in
    (Some request,
     if observability || (send_without_waiting p && negb (end_of_stream p)) then set_streaming_body true p else p)
  end.

Definition process_body_and_trailers (k : MessageKind) (observability : bool) (modes : OverridableModes) (p : Processing)
    : Processing :=
  let '(streaming_enabled, p) := try_enable_streaming_body p in
  if observability then return_status p (ready k)
  else if is_buffered (body_mode modes) && bool_decide (source_has_body (frame_bridge p) = Some true) &&
          should_process_body modes && streaming_enabled
  then p
  else return_status p (ready k).

(** [process]. *)
Definition process (k : MessageKind) (observability : bool) (modes : OverridableModes)
    (headers : option (list ProtoHeader)) (bridge : BridgeT) (p : Processing) : option ProcessingRequest * Processing :=
  let p := {| p with reply_channel := true; http_headers := headers; frame_bridge := bridge |} in
  if bool_decide (is_Some headers) && should_process_headers modes then process_headers k observability modes p
  else if source_has_body_or_trailers (frame_bridge p) && (should_process_body modes || should_process_trailers modes)
  then (None, process_body_and_trailers k observability modes p)
  else
    let p := return_status p (ready k) in
    (None, on_bridge bridge_close (on_bridge bridge_drain p)).

(** *** Answers of the processor *)

Definition is_continue_and_replace (r : CommonResponse) : bool := bool_decide (common_status r = 1).

(** The body or the chunk that an answer puts in place. *)
Definition replacement (m : option Mutation) : option Frame :=
  match m with
  | Some (MutationBody bytes) => Some (Data bytes)
  | Some (ClearBody true) => Some (Data [])
  | Some (ClearBody false) | None => None
  | Some (StreamedResponse body) => Some (Data body)
  end.

Definition should_clear (action : RouteCacheAction) (r : CommonResponse) : bool :=
  match action with RouteClear => true | RouteRetain => false | RouteDefault => clear_route_cache r end.

Definition inject_opt (f : option Frame) (p : Processing) : Processing :=
  match f with Some f => inject p (Ok f) | None => p end.

(** [handle_headers_response]: the message timeout is off afterwards, and an
    answer without a response panics. *)
Definition handle_headers_response (k : MessageKind) (response : option CommonResponse) (action : RouteCacheAction)
    (modes : OverridableModes) (p : Processing) : outcome Processing :=
  match response with
  | None => Panic
  | Some r =>
    let ready_status := mk_ready (header_mutation r) (should_clear action r) in
    if is_buffered (body_mode modes) && should_process_body modes &&
       bool_decide (source_has_body (frame_bridge p) = Some true) && negb (is_continue_and_replace r)
    then Return (try_enable_streaming_body {| p with headers_ready_status := Some ready_status |}).2
    else
      let p := return_status p (ready_with k ready_status) in
      if is_continue_and_replace r then
        let p := inject_opt (replacement (body_mutation r)) p in
        let p := inject_opt ((λ t, Trailers (headers_from t)) <$> common_trailers r) p in
        Return (set_streaming_body false (on_bridge bridge_close p))
      else if negb (source_has_body_or_trailers (frame_bridge p)) ||
              (negb (should_process_body modes) && negb (should_process_trailers modes))
      then Return (set_streaming_body false (on_bridge bridge_close (on_bridge bridge_drain p)))
      else Return (try_enable_streaming_body p).2
  end.

(** The status that is returned with the answer to the body. *)
Definition body_status (k : MessageKind) (action : option RouteCacheAction) (r : CommonResponse) (p : Processing)
    : Processing :=
  if reply_channel p then
    let clear := match action with Some a => should_clear a r | None => false end in
    let parked := headers_ready_status p in
    return_status {| p with headers_ready_status := None |}
      (ready_with k (mk_ready (concat_header_mutations (parked ≫= headers_modifications) (header_mutation r))
        (clear || from_option ready_clear_route_cache false parked)))
  else p.

(** [handle_body_response]: whether the message timeout is to be switched off. *)
Definition handle_body_response (k : MessageKind) (response : option CommonResponse) (action : option RouteCacheAction)
    (p : Processing) : outcome (Processing * bool) :=
  match response with
  | None => Panic
  | Some r =>
    let p := body_status k action r p in
    let p := inject_opt (match replacement (body_mutation r) with Some f => Some f | None => head (inflight_frames p) end) p in
    let p := {| p with inflight_frames := tail (inflight_frames p) |} in
    if is_continue_and_replace r then Return (set_streaming_body false (on_bridge bridge_close p), true)
    else if end_of_stream p && bool_decide (inflight_frames p = []) then
      let p := on_bridge (λ b, drain_and_close b [] (parked_trailers p)) {| p with parked_trailers := None |} in
      Return (set_streaming_body false p, true)
    else Return (p, false)
  end.

(** [handle_trailers_response]: the message timeout is off afterwards. *)
Definition handle_trailers_response (k : MessageKind) (mutation : option HeaderMutation) (p : Processing) : Processing :=
  let p :=
    match trailers p with
    | Some t =>
      let p := return_status {| p with trailers := None |} (ready k) in
      inject p (Ok (Trailers (match mutation with Some m => (apply_trailer_mutations t m None).1 | None => t end)))
    | None =>
      return_status p (status_error (lit "handle_trailers_response: No trailers to process") (allow_failure p))
    end in
  set_streaming_body false (on_bridge bridge_close p).

End processing.
Arguments Processing {_} Foreign.
End ExtProcProcessing.
