(* ===== verification/ExtProcWorker.v ===== *)
(** The worker that talks to an external processor
    (arion-lib/src/listeners/http_connection_manager/ext_proc.rs): what it does
    with tasks, frames of the bodies, answers of the processor and timeouts, in
    processing and in observability mode. *)

From S2P Require Import Prelude RustStr Http StringMatch Fmt Body ChannelBody ExtProcMutation ExtProcModes ExtProcProcessing.
Import Http StringMatch Body ChannelBody ExtProcMutation ExtProcModes ExtProcProcessing.
Local Open Scope Z_scope.

Module ExtProcWorker.

Section worker.
Context {HL : HttpLib} {RL : RegexLib} {HB : HttpBytes} {Foreign : Type}.
(** [Debug] of a message of the protocol. *)
Context (debug : ProcessingResponse → str).

Notation Processing := (Processing Foreign).
Notation BridgeT := (Bridge (E := BodyError Foreign)).

(** What becomes of a message to the processor: no connection can be made, the
    connection is lost, or it is sent. *)
Inductive Transport : Type := Unreachable | Lost | Sent.

(** [outbox] is what was sent; [network] is what will become of the next
    messages, which are sent when it is used up.  [complete] are the two local
    variables of the loops. *)
Record Worker : Type := mk_worker {
  config : ExternalProcessingWorkerConfig;
  overridable_modes : OverridableGlobalModes;
  connected : bool;
  request_processing : Processing;
  response_processing : Processing;
  handshake : option ProtocolConfiguration;
  duration : Z;
  active : bool;
  extended : bool;
  request_complete : bool;
  response_complete : bool;
  running : bool;
  outbox : list ProcessingRequest;
  network : list Transport;
}.

(** [ExternalProcessingWorker::new]; in observability mode there is no message
    timeout, which is never active there. *)
Definition worker_new (config : ExternalProcessingWorkerConfig) (modes : OverridableGlobalModes) (network : list Transport)
    : Worker :=
  {| config := config; overridable_modes := modes; connected := false;
     request_processing := processing_from config; response_processing := processing_from config;
     handshake := Some (mk_protocol (request_body_mode (processing_mode config)) (response_body_mode (processing_mode config))
       (send_body_without_waiting_for_header_response config));
     duration := message_timeout config; active := false; extended := false;
     request_complete := false; response_complete := false; running := true; outbox := []; network := network |}.

Definition side (k : MessageKind) (w : Worker) : Processing :=
  match k with RequestMsg => request_processing w | ResponseMsg => response_processing w end.

Definition on_side (k : MessageKind) (f : Processing → Processing) (w : Worker) : Worker :=
  match k with
  | RequestMsg => {| w with request_processing := f (request_processing w) |}
  | ResponseMsg => {| w with response_processing := f (response_processing w) |}
  end.

Definition on_sides (f : MessageKind → Processing → Processing) (w : Worker) : Worker :=
  on_side ResponseMsg (f ResponseMsg) (on_side RequestMsg (f RequestMsg) w).

Definition complete (k : MessageKind) (w : Worker) : bool :=
  match k with RequestMsg => request_complete w | ResponseMsg => response_complete w end.

Definition set_complete (k : MessageKind) (w : Worker) : Worker :=
  match k with
  | RequestMsg => {| w with request_complete := true |}
  | ResponseMsg => {| w with response_complete := true |}
  end.

Definition worker_modes (k : MessageKind) (w : Worker) : OverridableModes := modes_of k (overridable_modes w).

Definition timeout_off (w : Worker) : Worker := {| w with active := false |}.
Definition stop (w : Worker) : Worker := {| w with running := false |}.

(** ** Messages to the processor *)

(** [forward_to_external_processor]: without a connection the status that says so
    is made, but it is not returned. *)
Definition forward_to_external_processor (req : ProcessingRequest) (w : Worker) : Worker :=
  let req := {| req with protocol_config := handshake w |} in
  let fate := default Sent (head (network w)) in
  let w := {| w with handshake := None; network := tail (network w) |} in
  match connected w, fate with
  | false, Unreachable => w
  | true, Lost =>
    timeout_off (on_sides (λ _ p, return_status p
      (status_error (lit "Lost connection to external processor") (failure_mode_allow (config w)))) w)
  | _, _ => {| w with connected := true; outbox := outbox w ++ [req]; active := negb (observability_mode (config w)) |}
  end.

Definition forward_opt (req : option ProcessingRequest) (w : Worker) : Worker :=
  match req with Some req => forward_to_external_processor req w | None => w end.

(** A chunk is sent and kept until it is answered. *)
Definition send_chunk (k : MessageKind) (f : Frame) (eos : bool) (w : Worker) : Worker :=
  let '(req, p) := handle_outgoing_body_chunk k false f eos (side k w) in
  let w := forward_to_external_processor req (on_side k (λ _, p) w) in
  on_side k (λ p, {| p with inflight_frames := inflight_frames p ++ [f] |}) w.

(** ** Failures *)

(** [recover_or_failure]. *)
Definition recover_or_failure (err : ExtProcError) (log_msg : str) (w : Worker) : Worker :=
  let allow := failure_mode_allow (config w) in
  let status := match err with Timeout _ => status_timeout allow | _ => status_error log_msg allow end in
  let w := on_sides (λ _ p, return_status p status) w in
  let w :=
    if allow then
      on_sides (λ _ p, on_bridge (λ b, drain_and_close b (inflight_frames p) (parked_trailers p))
        {| p with inflight_frames := []; parked_trailers := None |}) w
    else on_sides (λ _ p, on_bridge bridge_close (inject p (Err (ExtProc err)))) w in
  timeout_off (on_sides (λ _, set_streaming_body false) w).

(** ** Tasks *)

Record ProcessingTask : Type := mk_task {
  task_kind : MessageKind;
  task_headers : option (list ProtoHeader);
  task_bridge : BridgeT;
  task_served_endpoint : option str;
}.

Definition handle_task (t : ProcessingTask) (w : Worker) : Worker :=
  let k := task_kind t in
  let p :=
    match k with
    | RequestMsg => side k w
    | ResponseMsg => {| (side k w) with served_endpoint := task_served_endpoint t |}
    end in
  let '(req, p) := process k (observability_mode (config w)) (worker_modes k w) (task_headers t) (task_bridge t) p in
  forward_opt req (on_side k (λ _, p) w).

(** ** Frames of a body *)

(** A frame that came out of the buffer before the end. *)
Definition emit_frame (k : MessageKind) (f : Frame) (w : Worker) : Worker :=
  match body_mode (worker_modes k w) with
  | BodyNone => on_side k (λ p, inject (return_status p (ready k)) (Ok f)) w
  | _ => send_chunk k f false w
  end.

(** One turn of the loop that empties the buffer at the end. *)
Definition flush_frame (k : MessageKind) (f : Frame) (w : Worker) : Worker :=
  match f with
  | Data _ =>
    if should_process_body (worker_modes k w)
    then send_chunk k f (negb (has_trailers (frames_buffer (side k w)))) w
    else on_side k (λ p, inject (return_status p (ready k)) (Ok f)) w
  | Trailers _ =>
    if should_process_trailers (worker_modes k w) then send_chunk k f true w
    else on_side k (λ p, {| p with parked_trailers := Some f |}) w
  end.

Fixpoint flush (fuel : nat) (k : MessageKind) (w : Worker) : Worker :=
  match fuel with
  | O => w
  | S fuel =>
    match take (frames_buffer (side k w)) with
    | (Some f, buffer) => flush fuel k (flush_frame k f (on_side k (λ p, {| p with frames_buffer := buffer |}) w))
    | (None, buffer) => on_side k (λ p, {| p with frames_buffer := buffer |}) w
    end
  end.

(** The buffer holds data, trailers or both. *)
Definition flush_fuel : nat := 3.

(** The end of a body. *)
Definition body_ended (k : MessageKind) (w : Worker) : Worker :=
  let w := set_complete k w in
  let w := on_side k (buffer_end_of_stream (worker_modes k w)) w in
  let w := flush flush_fuel k w in
  let w :=
    if bool_decide (inflight_frames (side k w) = []) then
      timeout_off (on_side k (λ p, on_bridge (λ b, drain_and_close b [] (parked_trailers p))
        {| (return_status p (ready k)) with parked_trailers := None |}) w)
    else w in
  on_side k (set_streaming_body false) w.

(** The branch of the loop for the next frame of a body; the status that is made
    for an error is not returned. *)
Definition handle_frame (k : MessageKind) (now : Z) (w : Worker) : Worker :=
  let '(next, bridge) := bridge_next (frame_bridge (side k w)) in
  let w := on_side k (λ p, {| p with frame_bridge := bridge |}) w in
  match next with
  | Some (Ok frame) =>
    let '(to_send, buffer) := push (frames_buffer (side k w)) frame now (body_mode (worker_modes k w)) in
    let w := on_side k (λ p, {| p with frames_buffer := buffer |}) w in
    match to_send with Some f => emit_frame k f w | None => w end
  | Some (Err _) => set_complete k w
  | None => body_ended k w
  end.

(** ** Answers of the processor *)

(** [handle_timeout_extension], false if the loop is to be left; the sum of two
    durations panics when it overflows. *)
Definition handle_timeout_extension (seconds nanos : Z) (w : Worker) : outcome (bool * Worker) :=
  if extended w then
    let status := status_error (lit "External processor attempted multiple timeout extensions") (failure_mode_allow (config w)) in
    Return (false, on_sides (λ _ p, return_status p status) w)
  else
    let total := seconds mod 2 ^ 64 * 10 ^ 9 + nanos mod 2 ^ 64 in
    if bool_decide (2 ^ 64 * 10 ^ 9 <= total) then Panic
    else
      let t := if bool_decide (total < 10 ^ 6) then message_timeout (config w) else total in
      let t := match max_message_timeout (config w) with Some m => Z.min t m | None => t end in
      Return (true, {| w with duration := t; extended := true |}).

(** [StatusCode::from_u16]. *)
Definition status_code (code : Z) : option Z :=
  if bool_decide (100 <= code < 1000) then Some code else None.

Definition build_direct_response (r : ImmediateResponse) (w : Worker) : DirectResponse :=
  let status := default 200 (immediate_status r ≫= λ c, status_code (c mod 2 ^ 16)) in
  let response := mk_response status header_map_new in
  let response :=
    match immediate_headers r with
    | Some m => (apply_response_header_mutations (mutation_rules (config w)) response m).1
    | None => response
    end in
  let response :=
    match grpc_status r with
    | Some s =>
      match value_from_str (Fmt.fmt_dec s) with
      | Some v => mk_response (Http.status response)
          (header_insert (response_headers response) (name_from_static (lit "grpc-status")) v)
      | None => response
      end
    | None => response
    end in
  Direct response (immediate_body r).

Definition can_handle_immediate_response (w : Worker) : option MessageKind :=
  if reply_channel (request_processing w) then Some RequestMsg
  else if reply_channel (response_processing w) then Some ResponseMsg
  else None.

(** An immediate answer where it is not allowed. *)
Definition refuse_immediate (w : Worker) : Worker :=
  if failure_mode_allow (config w) then
    let pass k := on_side k (λ p, on_bridge bridge_close (on_bridge bridge_drain (return_status p (ready k)))) w in
    if is_open (frame_bridge (request_processing w)) then pass RequestMsg
    else if is_open (frame_bridge (response_processing w)) then pass ResponseMsg
    else w
  else
    on_sides (λ _ p, inject
      (return_status p (status_internal_error (lit "ext_proc returned an immediate response despite being disabled by configuration")))
      (Err (ExtProc (Timeout (lit "immediate response disabled"))))) w.

(** On the response the trailers of the request are injected. *)
Definition accept_immediate (r : ImmediateResponse) (w : Worker) : Worker :=
  match can_handle_immediate_response w with
  | Some k =>
    let status := EndWithDirectResponse (build_direct_response r w) in
    let parked := parked_trailers (request_processing w) in
    let w := on_side RequestMsg (λ p, {| p with parked_trailers := None |}) w in
    timeout_off (on_side k (λ p, set_streaming_body false (on_bridge (λ b, drain_and_close b (inflight_frames p) parked)
      {| (return_status p status) with inflight_frames := [] |})) w)
  | None =>
    timeout_off (on_sides (λ _ p, set_streaming_body false (on_bridge bridge_close (return_status p HaltedOnError))) w)
  end.

(** The overrides of the modes that come with the answer to the headers. *)
Definition override_modes (k : MessageKind) (o : option EnvoyProcessingMode) (w : Worker) : Worker :=
  match o with
  | Some o =>
    if allow_mode_override (config w) then
      let allowed := allowed_override_modes (config w) in
      let modes :=
        match k with
        | RequestMsg => apply_response_mode_overrides o allowed (apply_request_mode_overrides o allowed (overridable_modes w))
        | ResponseMsg => apply_response_mode_overrides o allowed (overridable_modes w)
        end in
      {| w with overridable_modes := modes |}
    else w
  | None => w
  end.

Definition handle_response (r : ProcessingResponse) (w : Worker) : outcome Worker :=
  match override_message_timeout r with
  | Some (seconds, nanos) =>
    '(ok, w) ← handle_timeout_extension seconds nanos w;
    Return (if ok : bool then w else stop w)
  | None =>
    match response_payload r with
    | Some (Immediate i) =>
      Return (stop (if disable_immediate_response (config w) then refuse_immediate w else accept_immediate i w))
    | Some (HeadersResponse k response) =>
      let w := override_modes k (mode_override r) w in
      p ← handle_headers_response k response (route_cache_action (config w)) (worker_modes k w) (side k w);
      Return (timeout_off (on_side k (λ _, p) w))
    | Some (BodyResponse k response) =>
      let action := match k with RequestMsg => Some (route_cache_action (config w)) | ResponseMsg => None end in
      '(p, off) ← handle_body_response k response action (side k w);
      let w := on_side k (λ _, p) w in
      Return (if off : bool then timeout_off w else w)
    | Some (TrailersResponse k mutation) =>
      Return (timeout_off (on_side k (handle_trailers_response k mutation) w))
    | None =>
      Return (stop (recover_or_failure (UnsupportedResponseType (debug r))
        (lit "unsupported response message received: " ++ debug r) w))
    end
  end.

(** A message, the end of the stream or an error of the connection. *)
Definition handle_inbound (m : result str (option ProcessingResponse)) (w : Worker) : outcome Worker :=
  match m with
  | Ok (Some r) => handle_response r w
  | Ok None => Return (stop (recover_or_failure UnexpectedEof (lit "stream closed by the external processor") w))
  | Err e =>
    Return (stop (recover_or_failure (GrpcError e) (lit "gRPC error received from external processor: " ++ e) w))
  end.

(** ** The loop *)

Inductive Event : Type :=
  | ETask (t : option ProcessingTask)
  | EInbound (m : result str (option ProcessingResponse))
  | EFrame (k : MessageKind) (now : Z)
  | ETimeout.

Definition streaming_enabled (w : Worker) : bool :=
  streaming_body_enabled (request_processing w) || streaming_body_enabled (response_processing w).

Definition outbound_enabled (k : MessageKind) (w : Worker) : bool :=
  streaming_body_enabled (side k w) && negb (complete k w).

(** The conditions of the branches of [select!]. *)
Definition enabled (e : Event) (w : Worker) : bool :=
  match e with
  | ETask _ => negb (streaming_enabled w)
  | EInbound _ => connected w
  | EFrame k _ => outbound_enabled k w
  | ETimeout => active w
  end.

(** One turn of [processing_loop]. *)
Definition turn (e : Event) (w : Worker) : outcome Worker :=
  match e with
  | ETask (Some t) => Return (handle_task t w)
  | ETask None => Return (stop w)
  | EInbound m => handle_inbound m w
  | EFrame k now => Return (handle_frame k now w)
  | ETimeout =>
    Return (stop (recover_or_failure (Timeout (lit "message timeout")) (lit "processing_loop: message timeout") w))
  end.

(** The worker is dropped: a bridge that is still open forwards what is left of
    its source. *)
Definition drop_worker (w : Worker) : Worker :=
  on_sides (λ _ p, if is_open (frame_bridge p) then on_bridge bridge_close (on_bridge bridge_drain p) else p) w.

(** ** Observability *)

Definition observe_frame (k : MessageKind) (f : Frame) (w : Worker) : Worker :=
  let w := on_side k (λ p, inject (return_status p (ready k)) (Ok f)) w in
  if should_process_body (worker_modes k w) then
    let '(req, p) := handle_outgoing_body_chunk k true f false (side k w) in
    forward_to_external_processor req (on_side k (λ _, p) w)
  else w.

Definition observe_last (k : MessageKind) (f : Frame) (w : Worker) : Worker :=
  let eos := match f with Data _ => negb (has_trailers (frames_buffer (side k w))) | Trailers _ => true end in
  let w := on_side k (λ p, inject p (Ok f)) w in
  if match f with
     | Data _ => should_process_body (worker_modes k w)
     | Trailers _ => should_process_trailers (worker_modes k w)
     end
  then
    let '(req, p) := handle_outgoing_body_chunk k true f eos (side k w) in
    forward_to_external_processor req (on_side k (λ _, p) w)
  else w.

Fixpoint observe_flush (fuel : nat) (k : MessageKind) (w : Worker) : Worker :=
  match fuel with
  | O => w
  | S fuel =>
    match take (frames_buffer (side k w)) with
    | (Some f, buffer) => observe_flush fuel k (observe_last k f (on_side k (λ p, {| p with frames_buffer := buffer |}) w))
    | (None, buffer) => on_side k (λ p, {| p with frames_buffer := buffer |}) w
    end
  end.

Definition observe_ended (k : MessageKind) (w : Worker) : Worker :=
  let w := set_complete k w in
  let w := on_side k (λ p, buffer_end_of_stream (worker_modes k w) (return_status p (ready k))) w in
  let w := observe_flush flush_fuel k w in
  timeout_off (on_side k (λ p, set_streaming_body false (on_bridge (λ b, drain_and_close b [] (parked_trailers p))
    {| p with parked_trailers := None |})) w).

Definition handle_observed (k : MessageKind) (now : Z) (w : Worker) : Worker :=
  let '(next, bridge) := bridge_next (frame_bridge (side k w)) in
  let w := on_side k (λ p, {| p with frame_bridge := bridge |}) w in
  match next with
  | Some (Ok frame) =>
    let '(to_send, buffer) := push (frames_buffer (side k w)) frame now (body_mode (worker_modes k w)) in
    let w := on_side k (λ p, {| p with frames_buffer := buffer |}) w in
    match to_send with Some f => observe_frame k f w | None => w end
  | Some (Err _) => set_complete k w
  | None => observe_ended k w
  end.

(** One turn of [observability_loop]: nothing is read from the processor, and it
    ends when a body that is streamed has no more frames. *)
Inductive ObservedEvent : Type :=
  | OTask (t : option ProcessingTask)
  | OFrame (k : MessageKind) (now : Z)
  | OEnd.

Definition observed_enabled (e : ObservedEvent) (w : Worker) : bool :=
  match e with
  | OTask _ => negb (streaming_enabled w)
  | OFrame k _ => outbound_enabled k w
  | OEnd => streaming_enabled w && negb (outbound_enabled RequestMsg w) && negb (outbound_enabled ResponseMsg w)
  end.

Definition observed_turn (e : ObservedEvent) (w : Worker) : Worker :=
  match e with
  | OTask (Some t) => handle_task t w
  | OTask None | OEnd => stop w
  | OFrame k now => handle_observed k now w
  end.

End worker.
Arguments Worker {_ _} Foreign.
Arguments ProcessingTask {_} Foreign.
End ExtProcWorker.
