(* ===== verification/ExtProcSide.v ===== *)
(** One message in the worker of an external processor: what the worker does to
    it while the processor and the connection do nothing unusual, as a machine on
    the message alone.  The messages to the processor that wait for an answer are
    told apart by their shape. *)

From stdpp Require Import relations.
From S2P Require Import Prelude RustStr Http StringMatch Body ChannelBody ExtProcMutation ExtProcModes ExtProcProcessing ExtProcWorker.
Import Http StringMatch Body ChannelBody ExtProcMutation ExtProcModes ExtProcProcessing ExtProcWorker.

Module ExtProcSide.

Section side.
Context {HL : HttpLib} {RL : RegexLib} {HB : HttpBytes} {Foreign : Type}.
Context (debug : ProcessingResponse → str).

Notation Processing := (Processing Foreign).
Notation Worker := (Worker Foreign).
Notation ProcessingTask := (ProcessingTask Foreign).

(** ** An environment where nothing unusual happens *)

Inductive Shape : Type := SHeaders | SBody | STrailers.

Definition kind_of (r : ProcessingRequest) : MessageKind :=
  match payload r with HttpHeaders k _ _ | HttpBody k _ _ | HttpTrailers k _ => k end.

Definition shape_of (r : ProcessingRequest) : Shape :=
  match payload r with HttpHeaders _ _ _ => SHeaders | HttpBody _ _ _ => SBody | HttpTrailers _ _ => STrailers end.

(** The answer that changes nothing. *)
Definition neutral : CommonResponse := mk_common 0 None None None false.

Definition answer (r : ProcessingRequest) : ProcessingResponse :=
  mk_processing_response
    (Some match payload r with
          | HttpHeaders k _ _ => HeadersResponse k (Some neutral)
          | HttpBody k _ _ => BodyResponse k (Some neutral)
          | HttpTrailers k _ => TrailersResponse k None
          end) None None.

(** The worker and the number of messages that were answered, in their order;
    the task of kind [k] was given before. *)
Inductive step (k : MessageKind) : Worker * nat → Worker * nat → Prop :=
  | StepTask t w n w' :
      task_kind t ≠ k → enabled (ETask (Some t)) w = true → turn debug (ETask (Some t)) w = Return w' →
      step k (w, n) (w', n)
  | StepFrame k' now w n w' :
      enabled (EFrame k' now) w = true → turn debug (EFrame k' now) w = Return w' → step k (w, n) (w', n)
  | StepAnswer r w n w' :
      outbox w !! n = Some r → turn debug (EInbound (Ok (Some (answer r)))) w = Return w' → step k (w, n) (w', S n).

(** The messages of a kind that wait for an answer. *)
Definition pending (k : MessageKind) (w : Worker) (n : nat) : list Shape :=
  shape_of <$> filter (λ r, kind_of r = k) (drop n (outbox w)).

(** What is seen of one message. *)
Record sees (M : OverridableModes) (k : MessageKind) (w : Worker) (n : nat)
    (p : Processing) (c : bool) (U : list Shape) : Prop := mk_sees {
  sees_modes : worker_modes k w = M;
  sees_observe : observability_mode (config w) = false;
  sees_network : network w = [];
  sees_answered : n ≤ length (outbox w);
  sees_side : side k w = p;
  sees_complete : complete k w = c;
  sees_pending : pending k w n = U;
}.

(** ** Projections *)

Lemma side_on_side k f (w : Worker) : side k (on_side k f w) = f (side k w).
Proof. by destruct k. Qed.
Lemma side_on_other k k' f (w : Worker) : k ≠ k' → side k (on_side k' f w) = side k w.
Proof. by destruct k, k'. Qed.

(** The rest of the worker is not changed. *)
Lemma on_side_rest k f (w : Worker) :
  overridable_modes (on_side k f w) = overridable_modes w ∧ config (on_side k f w) = config w ∧
  network (on_side k f w) = network w ∧ outbox (on_side k f w) = outbox w ∧
  ∀ k', complete k' (on_side k f w) = complete k' w.
Proof. destruct k; split_and!; done || by intros []. Qed.

Lemma sees_on_side M k w n p c U f : sees M k w n p c U → sees M k (on_side k f w) n (f p) c U.
Proof.
  intros []. destruct (on_side_rest k f w) as (Hm & Hc & Hn & Ho & Hk).
  split; unfold worker_modes, pending; rewrite ?Hm, ?Hc, ?Hn, ?Ho, ?Hk, ?side_on_side; subst; done.
Qed.

Lemma sees_on_other M k k' w n p c U f : k ≠ k' → sees M k w n p c U → sees M k (on_side k' f w) n p c U.
Proof.
  intros Hne []. destruct (on_side_rest k' f w) as (Hm & Hc & Hn & Ho & Hk).
  split; unfold worker_modes, pending; rewrite ?Hm, ?Hc, ?Hn, ?Ho, ?Hk, ?side_on_other by done; subst; done.
Qed.

Lemma sees_timeout_off M k w n p c U : sees M k w n p c U → sees M k (timeout_off w) n p c U.
Proof. intros []. by split; destruct k. Qed.

Lemma sees_set_complete M k w n p c U : sees M k w n p c U → sees M k (set_complete k w) n p true U.
Proof. intros []. by split; destruct k. Qed.
Lemma sees_set_complete_other M k k' w n p c U :
  k ≠ k' → sees M k w n p c U → sees M k (set_complete k' w) n p c U.
Proof. intros ? []. by split; destruct k, k'. Qed.

(** Messages are sent. *)
Lemma sees_forward M k w n p c U req :
  sees M k w n p c U →
  sees M k (forward_to_external_processor req w) n p c
    (U ++ if decide (kind_of req = k) then [shape_of req] else []).
Proof.
  intros [Hm Ho Hn Ha Hs Hc Hp]. unfold forward_to_external_processor. rewrite Hn.
  assert (∀ w' : Worker, overridable_modes w' = overridable_modes w → config w' = config w → network w' = [] →
    outbox w' = outbox w ++ [{| req with protocol_config := handshake w |}] →
    request_processing w' = request_processing w → response_processing w' = response_processing w →
    request_complete w' = request_complete w → response_complete w' = response_complete w →
    sees M k w' n p c (U ++ if decide (kind_of req = k) then [shape_of req] else [])) as H.
  { intros w' E1 E2 E3 E4 E5 E6 E7 E8. split.
    - unfold worker_modes. by rewrite E1.
    - by rewrite E2.
    - done.
    - rewrite E4, length_app. simpl. lia.
    - destruct k; simpl in *; congruence.
    - destruct k; simpl in *; congruence.
    - unfold pending in *. rewrite E4, drop_app_le, filter_app, fmap_app, Hp by done. f_equal.
      rewrite filter_cons, filter_nil.
      destruct (decide (kind_of req = k)); [rewrite decide_True by done|rewrite decide_False by done]; done. }
  cbn [connected default head from_option]. destruct (connected w); by apply H.
Qed.

(** ** The machine *)

Definition push_inflight (f : Frame) (p : Processing) : Processing :=
  {| p with inflight_frames := inflight_frames p ++ [f];
     trailers := match f with Trailers t => Some t | Data _ => trailers p end |}.

(** A frame that leaves the buffer. *)
Definition out_frame (k : MessageKind) (M : OverridableModes) (f : Frame) (p : Processing) : Processing * list Shape :=
  match f with
  | Data _ =>
    if should_process_body M then (push_inflight f p, [SBody])
    else (inject (return_status p (ready k)) (Ok f), [])
  | Trailers _ =>
    if should_process_trailers M then (push_inflight f p, [STrailers])
    else ({| p with parked_trailers := Some f |}, [])
  end.

Lemma sees_send_chunk M k w n p c U f eos :
  sees M k w n p c U →
  sees M k (send_chunk k f eos w) n (push_inflight f p) c (U ++ [match f with Data _ => SBody | Trailers _ => STrailers end]).
Proof.
  intros Hs. unfold send_chunk. rewrite (sees_side _ _ _ _ _ _ _ Hs).
  destruct (handle_outgoing_body_chunk k false f eos p) as [req q] eqn:Hq.
  pose proof (sees_on_side _ _ _ _ _ _ _ (λ q, {| q with inflight_frames := inflight_frames q ++ [f] |})
    (sees_forward _ _ _ _ _ _ _ req (sees_on_side _ _ _ _ _ _ _ (λ _, q) Hs))) as Hf.
  destruct f as [d|t]; injection Hq as <- <-; cbn [kind_of payload] in Hf; rewrite decide_True in Hf by done; exact Hf.
Qed.

(** What is seen afterwards, with the messages that were sent. *)
Definition after (M : OverridableModes) (k : MessageKind) (w : Worker) (n : nat) (r : Processing * list Shape) (c : bool)
    (U : list Shape) : Prop :=
  sees M k w n r.1 c (U ++ r.2).

Lemma sees_after M k w n p c U : sees M k w n p c U → after M k w n (p, []) c U.
Proof. unfold after. simpl. by rewrite app_nil_r. Qed.

Lemma sees_flush_frame M k w n p c U f :
  sees M k w n p c U → after M k (flush_frame k f w) n (out_frame k M f p) c U.
Proof.
  intros Hs. unfold flush_frame, out_frame. rewrite (sees_modes _ _ _ _ _ _ _ Hs).
  destruct f as [d|t].
  - destruct (should_process_body M); [by apply (sees_send_chunk _ _ _ _ _ _ _ (Data d))|].
    by apply sees_after, (sees_on_side _ _ _ _ _ _ _ (λ p, inject (return_status p (ready k)) (Ok (Data d)))).
  - destruct (should_process_trailers M); [by apply (sees_send_chunk _ _ _ _ _ _ _ (Trailers t))|].
    by apply sees_after, (sees_on_side _ _ _ _ _ _ _ (λ p, {| p with parked_trailers := Some (Trailers t) |})).
Qed.

Lemma sees_emit_frame M k w n p c U d :
  sees M k w n p c U → after M k (emit_frame k (Data d) w) n (out_frame k M (Data d) p) c U.
Proof.
  intros Hs. unfold emit_frame, out_frame, should_process_body. rewrite (sees_modes _ _ _ _ _ _ _ Hs).
  destruct (body_mode M); try by apply (sees_send_chunk _ _ _ _ _ _ _ (Data d)).
  by apply sees_after, (sees_on_side _ _ _ _ _ _ _ (λ p, inject (return_status p (ready k)) (Ok (Data d)))).
Qed.

Fixpoint flush_side (fuel : nat) (k : MessageKind) (M : OverridableModes) (p : Processing) : Processing * list Shape :=
  match fuel with
  | O => (p, [])
  | S fuel =>
    match take (frames_buffer p) with
    | (Some f, buffer) =>
      let '(p, u) := out_frame k M f {| p with frames_buffer := buffer |} in
      let '(p, u') := flush_side fuel k M p in (p, u ++ u')
    | (None, buffer) => ({| p with frames_buffer := buffer |}, [])
    end
  end.

Lemma sees_flush fuel M k w n p c U :
  sees M k w n p c U → after M k (flush fuel k w) n (flush_side fuel k M p) c U.
Proof.
  revert w p U. induction fuel as [|fuel IH]; intros w p U Hs; [by apply sees_after|]. cbn [flush flush_side].
  rewrite (sees_side _ _ _ _ _ _ _ Hs). destruct (take (frames_buffer p)) as [[f|] buffer].
  - pose proof (sees_flush_frame _ _ _ _ _ _ _ f
      (sees_on_side _ _ _ _ _ _ _ (λ p, {| p with frames_buffer := buffer |}) Hs)) as Hf.
    cbv beta in Hf. destruct (out_frame k M f {| p with frames_buffer := buffer |}) as [p1 u1].
    apply IH in Hf. unfold after in *. simpl in Hf. destruct (flush_side fuel k M p1) as [p2 u2]. simpl in *.
    by rewrite app_assoc.
  - by apply sees_after, (sees_on_side _ _ _ _ _ _ _ (λ p, {| p with frames_buffer := buffer |})).
Qed.

(** The end of the source, and its next frame: whether the source is complete. *)
Definition close_side (k : MessageKind) (p : Processing) : Processing :=
  on_bridge (λ b, drain_and_close b [] (parked_trailers p)) {| (return_status p (ready k)) with parked_trailers := None |}.

Definition ended_side (k : MessageKind) (M : OverridableModes) (p : Processing) : Processing * list Shape :=
  let '(p, u) := flush_side flush_fuel k M (buffer_end_of_stream M p) in
  (set_streaming_body false (if bool_decide (inflight_frames p = []) then close_side k p else p), u).

Lemma sees_body_ended M k w n p c U :
  sees M k w n p c U → after M k (body_ended k w) n (ended_side k M p) true U.
Proof.
  intros Hs. unfold body_ended, ended_side. apply sees_set_complete in Hs.
  rewrite (sees_modes _ _ _ _ _ _ _ Hs).
  pose proof (sees_flush flush_fuel _ _ _ _ _ _ _ (sees_on_side _ _ _ _ _ _ _ (buffer_end_of_stream M) Hs)) as Hf.
  destruct (flush_side flush_fuel k M (buffer_end_of_stream M p)) as [p1 u]. unfold after in *. simpl in *.
  rewrite (sees_side _ _ _ _ _ _ _ Hf). apply (sees_on_side _ _ _ _ _ _ _ (set_streaming_body false)).
  case_bool_decide; [|done]. by apply sees_timeout_off, (sees_on_side _ _ _ _ _ _ _ (close_side k)).
Qed.

Definition frame_side (k : MessageKind) (M : OverridableModes) (now : Z) (p : Processing)
    : Processing * list Shape * bool :=
  let '(next, bridge) := bridge_next (frame_bridge p) in
  let p := {| p with frame_bridge := bridge |} in
  match next with
  | Some (Ok frame) =>
    let '(to_send, buffer) := push (frames_buffer p) frame now (body_mode M) in
    let p := {| p with frames_buffer := buffer |} in
    (match to_send with Some f => out_frame k M f p | None => (p, []) end, false)
  | Some (Err _) => (p, [], true)
  | None => (ended_side k M p, true)
  end.

(** Only data leaves the buffer before the end. *)
Lemma push_data b f now mode g b' : push b f now mode = (Some g, b') → ∃ d, g = Data d.
Proof.
  unfold push. destruct f as [d|t].
  - case_match; [|done]. intros [= Hg _]. cbn [data_buffer] in Hg. destruct (data_buffer (merge b d)); simplify_eq/=; eauto.
  - destruct (is_buffered mode), (data_buffer b); intros; simplify_eq/=; eauto.
Qed.

Lemma sees_handle_frame M k w n p c U now :
  sees M k w n p c U →
  after M k (handle_frame k now w) n (frame_side k M now p).1 (c || (frame_side k M now p).2) U.
Proof.
  intros Hs. unfold handle_frame, frame_side. rewrite (sees_side _ _ _ _ _ _ _ Hs).
  destruct (bridge_next (frame_bridge p)) as [next bridge].
  apply (sees_on_side _ _ _ _ _ _ _ (λ p, {| p with frame_bridge := bridge |})) in Hs. cbv beta in Hs.
  destruct next as [[frame|e]|]; simpl.
  - rewrite (sees_side _ _ _ _ _ _ _ Hs), (sees_modes _ _ _ _ _ _ _ Hs).
    cbn [frames_buffer]. destruct (push (frames_buffer p) frame now (body_mode M)) as [to_send buffer] eqn:Hp.
    apply (sees_on_side _ _ _ _ _ _ _ (λ p, {| p with frames_buffer := buffer |})) in Hs. cbv beta in Hs. simpl.
    rewrite orb_false_r. destruct to_send as [f|]; [|by apply sees_after].
    apply push_data in Hp as [d ->]. by apply sees_emit_frame.
  - rewrite orb_true_r. by apply sees_after, (sees_set_complete _ _ _ _ _ c).
  - rewrite orb_true_r. by apply (sees_body_ended _ _ _ _ _ c).
Qed.

(** ** The other message *)

Definition quiet (k : MessageKind) (w w' : Worker) : Prop :=
  ∀ M n p c U, sees M k w n p c U → sees M k w' n p c U.

#[local] Instance quiet_preorder k : PreOrder (quiet k).
Proof. split; [by intros w M n p c U|]. intros w1 w2 w3 H1 H2 M n p c U Hs. by apply H2, H1. Qed.

Lemma quiet_on_side k k' f w : k ≠ k' → quiet k w (on_side k' f w).
Proof. intros ? M n p c U Hs. by apply sees_on_other. Qed.
Lemma quiet_timeout_off k w : quiet k w (timeout_off w).
Proof. intros M n p c U Hs. by apply sees_timeout_off. Qed.
Lemma quiet_set_complete k k' w : k ≠ k' → quiet k w (set_complete k' w).
Proof. intros ? M n p c U Hs. by apply sees_set_complete_other. Qed.
Lemma quiet_forward k w req : kind_of req ≠ k → quiet k w (forward_to_external_processor req w).
Proof.
  intros Hk M n p c U Hs. apply (sees_forward _ _ _ _ _ _ _ req) in Hs.
  by rewrite decide_False, app_nil_r in Hs.
Qed.

Lemma outgoing_kind k obs f eos (p : Processing) : kind_of (handle_outgoing_body_chunk k obs f eos p).1 = k.
Proof. by destruct f. Qed.

Lemma quiet_send_chunk k k' f eos w : k ≠ k' → quiet k w (send_chunk k' f eos w).
Proof.
  intros Hne. unfold send_chunk. pose proof (outgoing_kind k' false f eos (side k' w)) as Hk.
  destruct (handle_outgoing_body_chunk k' false f eos (side k' w)) as [req q]. simpl in Hk.
  etrans; [|by apply quiet_on_side]. etrans; [by apply (quiet_on_side k k')|]. apply quiet_forward. congruence.
Qed.

Lemma quiet_flush_frame k k' f w : k ≠ k' → quiet k w (flush_frame k' f w).
Proof.
  intros Hne. unfold flush_frame.
  destruct f; (case_match; [by apply quiet_send_chunk|by apply quiet_on_side]).
Qed.

Lemma quiet_flush fuel k k' w : k ≠ k' → quiet k w (flush fuel k' w).
Proof.
  intros Hne. revert w. induction fuel as [|fuel IH]; intros w; [done|]. cbn [flush].
  destruct (take (frames_buffer (side k' w))) as [[f|] buffer]; [|by apply quiet_on_side].
  etrans; [|apply IH]. etrans; [|by apply quiet_flush_frame]. by apply quiet_on_side.
Qed.

Lemma quiet_handle_frame k k' now w : k ≠ k' → quiet k w (handle_frame k' now w).
Proof.
  intros Hne. unfold handle_frame.
  destruct (bridge_next (frame_bridge (side k' w))) as [[[frame|e]|] bridge].
  - destruct (push _ _ _ _) as [[f|] buffer].
    + etrans; [by apply (quiet_on_side k k')|]. etrans; [by apply (quiet_on_side k k')|].
      unfold emit_frame. case_match; by apply quiet_send_chunk || by apply quiet_on_side.
    + etrans; [by apply (quiet_on_side k k')|]. by apply quiet_on_side.
  - etrans; [by apply (quiet_on_side k k')|]. by apply quiet_set_complete.
  - etrans; [by apply (quiet_on_side k k')|]. unfold body_ended. etrans; [|by apply quiet_on_side].
    etrans; [by apply (quiet_set_complete k k')|]. etrans; [by apply (quiet_on_side k k')|].
    etrans; [by apply (quiet_flush flush_fuel k k')|]. case_bool_decide; [|done].
    etrans; [|apply quiet_timeout_off]. by apply quiet_on_side.
Qed.

(** The message that the processing of a task sends is of its kind. *)
Lemma process_kind k obs M headers bridge p req :
  (process (Foreign := Foreign) k obs M headers bridge p).1 = Some req → kind_of req = k.
Proof.
  unfold process. destruct (bool_decide (is_Some headers) && should_process_headers M); [|by destruct (_ && _)].
  unfold process_headers. destruct headers as [h|]; [|done]. simpl. destruct k; by intros [= <-].
Qed.

Lemma quiet_handle_task k t w : task_kind t ≠ k → quiet k w (handle_task t w).
Proof.
  intros Hne. unfold handle_task.
  destruct (process _ _ _ _ _ _) as [req q] eqn:Hp.
  etrans; [apply (quiet_on_side k (task_kind t) (λ _, q)); congruence|].
  destruct req as [req|]; [|done]. apply quiet_forward.
  pose proof (f_equal fst Hp) as Hk. apply process_kind in Hk. congruence.
Qed.

(** ** Answers *)

Definition answer_side (k : MessageKind) (M : OverridableModes) (action : RouteCacheAction) (sh : Shape) (p : Processing)
    : outcome Processing :=
  match sh with
  | SHeaders => handle_headers_response k (Some neutral) action M p
  | SBody =>
    '(p, _) ← handle_body_response k (Some neutral) (match k with RequestMsg => Some action | ResponseMsg => None end) p;
    Return p
  | STrailers => Return (handle_trailers_response k None p)
  end.

Lemma pending_next k (w : Worker) n r :
  outbox w !! n = Some r →
  pending k w n = (if decide (kind_of r = k) then [shape_of r] else []) ++ pending k w (S n).
Proof.
  intros Hr. unfold pending. rewrite (drop_S _ _ _ Hr), filter_cons. by case_decide.
Qed.

Lemma sees_answered_more M k w n p c U r :
  outbox w !! n = Some r → sees M k w n p c U →
  ∃ U', U = (if decide (kind_of r = k) then [shape_of r] else []) ++ U' ∧ sees M k w (S n) p c U'.
Proof.
  intros Hr [Hm Ho Hn Ha Hs Hc Hp]. exists (pending k w (S n)). split; [by rewrite <-Hp; apply pending_next|].
  split; try done. apply lookup_lt_Some in Hr. lia.
Qed.

(** The answer is handled on its own side. *)
Lemma handle_answer r (w w' : Worker) :
  handle_response debug (answer r) w = Return w' →
  ∃ p', answer_side (kind_of r) (worker_modes (kind_of r) w) (route_cache_action (config w)) (shape_of r) (side (kind_of r) w) = Return p' ∧
    (w' = on_side (kind_of r) (λ _, p') w ∨ w' = timeout_off (on_side (kind_of r) (λ _, p') w)).
Proof.
  unfold handle_response, answer, answer_side, kind_of, shape_of. cbn [override_message_timeout response_payload mode_override].
  destruct (payload r) as [k h e|k b e|k t]; cbn [override_modes].
  - destruct (handle_headers_response _ _ _ _ _) as [p'|]; [|done]. simpl. intros [= <-]. eauto.
  - destruct (handle_body_response _ _ _ _) as [[p' []]|]; simpl; [| |done]; intros [= <-]; eauto.
  - intros [= <-]. eexists. split; [done|]. right. by destruct k.
Qed.

Lemma sees_answer M k w n p c U r w' :
  sees M k w n p c U → outbox w !! n = Some r → handle_response debug (answer r) w = Return w' →
  (kind_of r ≠ k ∧ sees M k w' (S n) p c U) ∨
  (kind_of r = k ∧ ∃ U' action p', U = shape_of r :: U' ∧ sees M k w' (S n) p' c U' ∧
    answer_side k M action (shape_of r) p = Return p').
Proof.
  intros Hs Hr Hw. destruct (sees_answered_more _ _ _ _ _ _ _ _ Hr Hs) as (U' & -> & Hs').
  destruct (handle_answer _ _ _ Hw) as (p' & Ha & Hw').
  destruct (decide (kind_of r = k)) as [<-|Hne].
  - right. split; [done|]. exists U', (route_cache_action (config w)), p'. split; [done|].
    rewrite (sees_side _ _ _ _ _ _ _ Hs), (sees_modes _ _ _ _ _ _ _ Hs) in Ha. split; [|done].
    pose proof (sees_on_side _ _ _ _ _ _ _ (λ _, p') Hs') as H1. destruct Hw' as [->| ->]; [done|].
    by apply sees_timeout_off.
  - left. split; [done|]. simpl.
    pose proof (sees_on_other _ _ (kind_of r) _ _ _ _ _ (λ _, p') (not_eq_sym Hne) Hs') as H1.
    destruct Hw' as [->| ->]; [done|]. by apply sees_timeout_off.
Qed.

End side.

(** ** Runs *)

Section runs.
Context {HL : HttpLib} {RL : RegexLib} {HB : HttpBytes} {Foreign : Type}.
Context (debug : ProcessingResponse → str).

Notation Worker := (Worker Foreign).

(** A schedule: the next frame of the body at a time, or the answer to the next
    message. *)
Definition schedule_step (k : MessageKind) (e : option Z) (s : Worker * nat) : option (Worker * nat) :=
  match e with
  | Some now =>
    if enabled (EFrame k now) s.1 then
      match turn debug (EFrame k now) s.1 with Return w => Some (w, s.2) | Panic => None end
    else None
  | None =>
    r ← outbox s.1 !! s.2;
    match turn debug (EInbound (Ok (Some (answer r)))) s.1 with Return w => Some (w, S s.2) | Panic => None end
  end.

Fixpoint schedule (k : MessageKind) (l : list (option Z)) (s : Worker * nat) : option (Worker * nat) :=
  match l with
  | [] => Some s
  | e :: l => s ← schedule_step k e s; schedule k l s
  end.

Lemma schedule_reachable k l s s' : schedule k l s = Some s' → rtc (step debug k) s s'.
Proof.
  revert s. induction l as [|e l IH]; intros [w n]; simpl; [by intros [= ->]|].
  destruct (schedule_step k e (w, n)) as [s1|] eqn:Hs; simpl; [|done]. intros Hl.
  eapply rtc_l; [|by apply IH]. destruct e as [now|]; simpl in Hs.
  - destruct (outbound_enabled k w) eqn:He; [|done]. simplify_eq. by eapply (StepFrame debug k k now).
  - destruct (outbox w !! n) as [r|] eqn:Hr; [|done]. simpl in Hs.
    destruct (handle_response debug (answer r) w) as [w'|] eqn:Ha; simplify_eq. by eapply StepAnswer.
Qed.

(** Any events, as long as the loop runs and their branches are enabled. *)
Fixpoint run (l : list Event) (w : Worker) : option Worker :=
  match l with
  | [] => Some w
  | e :: l =>
    if running w && enabled e w then match turn debug e w with Return w => run l w | Panic => None end else None
  end.

(** The headers of a request are sent, and its body in a mode; durations are those
    of the defaults. *)
Definition example_config (mode : BodyProcessingMode) (limit : Z) (allow_override allow_failure : bool)
    : ExternalProcessingWorkerConfig :=
  {| grpc_service_specifier := GoogleGrpc []; message_timeout := 200000000; max_message_timeout := None;
     observability_mode := false; failure_mode_allow := allow_failure; disable_immediate_response := false;
     mutation_rules := None;
     processing_mode := {| processing_mode_default with request_body_mode := mode |};
     allowed_override_modes := []; allow_mode_override := allow_override; route_cache_action := RouteDefault;
     send_body_without_waiting_for_header_response := false; forward_served_endpoint := false;
     frame_merge_limit := limit; frame_merge_window := EXT_PROC_MERGE_WINDOW;
     max_receive_message_length := EXT_PROC_BUFFERED_BODY_LIMIT |}.

Definition example_worker (conf : ExternalProcessingWorkerConfig) : Worker := worker_new conf (global_modes_from conf) [].

Definition example_task (fs : list Frame) : ProcessingTask Foreign :=
  mk_task RequestMsg (Some []) (bridge_new (Ok <$> fs) false None) None.

Definition example_start (conf : ExternalProcessingWorkerConfig) (fs : list Frame) : Worker :=
  handle_task (example_task fs) (example_worker conf).

Definition answered (r : ResponsePayload) (o : option EnvoyProcessingMode) : Event (Foreign := Foreign) :=
  EInbound (Ok (Some (mk_processing_response (Some r) o None))).

End runs.
End ExtProcSide.
