(* ===== verification/ExtProcTransparent.v ===== *)
(** A processor that changes nothing leaves the body alone: whatever the order of
    frames and answers, the frames that come out of the worker carry the bytes and
    the trailers of the source. *)

From stdpp Require Import relations.
From S2P Require Import Prelude RustStr Http StringMatch Body ChannelBody ExtProcMutation ExtProcModes ExtProcProcessing ExtProcWorker ExtProcSide.
Import Http StringMatch Body ChannelBody ExtProcMutation ExtProcModes ExtProcProcessing ExtProcWorker ExtProcSide.

Module ExtProcTransparent.

(** The fields of a record that was just built. *)
Ltac fields :=
  cbn [fst snd http_headers trailers frame_bridge reply_channel replies send_without_waiting allow_failure
    streaming_body_enabled end_of_stream frames_buffer inflight_frames parked_trailers headers_ready_status
    served_endpoint data_buffer trailers_buffer count last_merge push_inflight inject on_bridge set_streaming_body option_list
    from_option default] in *.

Section transparent.
Context {HL : HttpLib} {RL : RegexLib} {HB : HttpBytes} {Foreign : Type}.
Context (debug : ProcessingResponse → str).

Notation Processing := (Processing Foreign).
Notation Worker := (Worker Foreign).
Notation BridgeT := (Bridge (E := BodyError Foreign)).

(** ** Contents *)

Definition data_of (l : list Frame) : str := l ≫= λ f, match f with Data d => d | Trailers _ => [] end.
Definition trailers_of (l : list Frame) : list HeaderMap := l ≫= λ f, match f with Data _ => [] | Trailers t => [t] end.

Lemma data_of_app l l' : data_of (l ++ l') = data_of l ++ data_of l'.
Proof. apply bind_app. Qed.
Lemma trailers_of_app l l' : trailers_of (l ++ l') = trailers_of l ++ trailers_of l'.
Proof. apply bind_app. Qed.
Lemma data_of_data ds : data_of (Data <$> ds) = concat ds.
Proof. induction ds as [|d ds IH]; [done|]. cbn. by rewrite <-IH. Qed.
Lemma data_of_trailers ts : data_of (Trailers <$> ts) = [].
Proof. by induction ts. Qed.
Lemma trailers_of_data ds : trailers_of (Data <$> ds) = [].
Proof. by induction ds. Qed.
Lemma trailers_of_trailers ts : trailers_of (Trailers <$> ts) = ts.
Proof. induction ts as [|t ts IH]; [done|]. cbn. by f_equal. Qed.

(** A body is data, then trailers if there are any. *)
Definition body_frames (l : list Frame) : Prop := ∃ ds t, l = (Data <$> ds) ++ (Trailers <$> option_list t).

Lemma body_frames_data d l : body_frames (Data d :: l) → body_frames l.
Proof. intros ([|d' ds] & t & Hl); [by destruct t|]. injection Hl as -> ->. by exists ds, t. Qed.
Lemma body_frames_trailers t l : body_frames (Trailers t :: l) → l = [].
Proof. intros ([|d' ds] & [t'|] & Hl); try done. by injection Hl. Qed.

(** ** The bridge *)

Record open_bridge (b : BridgeT) (Q S : list Frame) : Prop := {
  open_inner : body_stream (inner b) = Ok <$> S;
  open_injector : injector (inner b) = true;
  open_chan : chan b = mk_channel (Ok <$> Q) true true;
}.

Record closed_bridge (b : BridgeT) (Q : list Frame) : Prop := {
  closed_injector : injector (inner b) = false;
  closed_chan : chan b = mk_channel (Ok <$> Q) false true;
}.

(** What does not change. *)
Definition same_source (b b' : BridgeT) : Prop :=
  source_has_body b' = source_has_body b ∧ source_has_trailers b' = source_has_trailers b ∧
  source_has_body_or_trailers b' = source_has_body_or_trailers b.

Lemma open_inject b Q S f :
  open_bridge b Q S → open_bridge (bridge_inject b (Ok f)) (Q ++ [f]) S ∧ same_source b (bridge_inject b (Ok f)).
Proof.
  intros [Hi Hj Hc]. unfold bridge_inject, ChannelBody.inject_frame, send. rewrite Hj, Hc. simpl.
  by split; [split; simpl; rewrite ?fmap_app|].
Qed.

Lemma drain_loop_ok (S Q : list Frame) i :
  ∃ i', drain_loop (E := BodyError Foreign) (Ok <$> S) i (mk_channel (Ok <$> Q) true true) =
    (mk_bridge [] true i', mk_channel (Ok <$> Q ++ S) true true).
Proof.
  revert Q i. induction S as [|f S IH]; intros Q i; [exists i; by rewrite app_nil_r|].
  destruct (IH (Q ++ [f]) (Datatypes.S i)) as [i' Hi]. exists i'.
  rewrite fmap_cons. cbn [drain_loop]. unfold send. cbn [rx_open queue tx_open].
  rewrite fmap_app in Hi. rewrite <-app_assoc in Hi. exact Hi.
Qed.

Lemma open_drain b Q S :
  open_bridge b Q S → open_bridge (bridge_drain b) (Q ++ S) [] ∧ same_source b (bridge_drain b).
Proof.
  intros [Hi Hj Hc]. unfold bridge_drain, ChannelBody.drain_and_inject. rewrite Hj, Hi, Hc.
  destruct (drain_loop_ok S Q (injected_frames (inner b))) as [i' ->]. by split; [split|].
Qed.

Lemma open_close b Q S : open_bridge b Q S → closed_bridge (bridge_close b) Q ∧ same_source b (bridge_close b).
Proof. intros [Hi Hj Hc]. unfold bridge_close, close. rewrite Hj, Hc. by split; [split|]. Qed.

Lemma open_next b Q S :
  open_bridge b Q S →
  (bridge_next b).1 = Ok <$> head S ∧ open_bridge (bridge_next b).2 Q (tail S) ∧ same_source b (bridge_next b).2.
Proof.
  intros [Hi Hj Hc]. unfold bridge_next, ChannelBody.next_frame. rewrite Hi.
  destruct S as [|f S]; simpl; split_and!; try done; split; simpl; rewrite ?Hi; done.
Qed.

Lemma open_drain_and_close b Q S t :
  open_bridge b Q S → closed_bridge (drain_and_close b [] t) (Q ++ S ++ option_list t).
Proof.
  intros Ho. unfold drain_and_close. simpl. apply open_drain in Ho as [Ho _]. rewrite app_assoc.
  destruct t as [t|]; [apply (open_inject _ _ _ t) in Ho as [Ho _]|rewrite app_nil_r]; by apply open_close in Ho as [Ho _].
Qed.

(** A closed bridge stays as it is. *)
Lemma closed_inject b Q f : closed_bridge b Q → bridge_inject b f = b.
Proof. intros [Hj Hc]. unfold bridge_inject, ChannelBody.inject_frame. rewrite Hj. by destruct b. Qed.
Lemma closed_drain b Q : closed_bridge b Q → bridge_drain b = b.
Proof. intros [Hj Hc]. unfold bridge_drain, ChannelBody.drain_and_inject. rewrite Hj. by destruct b. Qed.
Lemma closed_close b Q : closed_bridge b Q → bridge_close b = b.
Proof. intros [Hj Hc]. unfold bridge_close, close. rewrite Hj. by destruct b as [[? []] ?]. Qed.
Lemma closed_drain_and_close b Q t : closed_bridge b Q → drain_and_close b [] t = b.
Proof.
  intros Hc. unfold drain_and_close. simpl. rewrite (closed_drain _ _ Hc).
  destruct t; rewrite ?(closed_inject _ _ _ Hc); by eapply closed_close.
Qed.

(** ** Emptying the buffer *)

Definition frame_shape (f : Frame) : Shape := match f with Data _ => SBody | Trailers _ => STrailers end.

(** The frames that are sent, and those that are injected at once. *)
Definition sent_frames (M : OverridableModes) (db : option str) (tb : option HeaderMap) : list Frame :=
  (if should_process_body M then Data <$> option_list db else []) ++
  (if should_process_trailers M then Trailers <$> option_list tb else []).
Definition passed_frames (M : OverridableModes) (db : option str) : list Frame :=
  if should_process_body M then [] else Data <$> option_list db.

Record flushed (M : OverridableModes) (p : Processing) (Q S : list Frame) (db : option str) (tb : option HeaderMap)
    (p' : Processing) (u : list Shape) : Prop := {
  fl_sent : u = frame_shape <$> sent_frames M db tb;
  fl_bridge : open_bridge (frame_bridge p') (Q ++ passed_frames M db) S;
  fl_source : same_source (frame_bridge p) (frame_bridge p');
  fl_inflight : inflight_frames p' = inflight_frames p ++ sent_frames M db tb;
  fl_trailers : trailers p' = if should_process_trailers M then from_option Some (trailers p) tb else trailers p;
  fl_parked :
    parked_trailers p' =
      if should_process_trailers M then parked_trailers p else from_option (λ t, Some (Trailers t)) (parked_trailers p) tb;
  fl_reply : reply_channel p' = true → reply_channel p = true ∧ passed_frames M db = [];
  fl_data : data_buffer (frames_buffer p') = None;
  fl_buffer : trailers_buffer (frames_buffer p') = None;
  fl_eos : end_of_stream p' = end_of_stream p;
}.

Lemma return_status_bridge (p : Processing) s : frame_bridge (return_status p s) = frame_bridge p.
Proof. unfold return_status. by destruct (reply_channel p). Qed.

Lemma flush_flushed k M p Q S db tb :
  open_bridge (frame_bridge p) Q S →
  data_buffer (frames_buffer p) = db → trailers_buffer (frames_buffer p) = Trailers <$> tb →
  flushed M p Q S db tb (flush_side flush_fuel k M p).1 (flush_side flush_fuel k M p).2.
Proof.
  intros Ho Hdb Htb. destruct p as [hh tr fb rc rp sw af st eos [db' tb' lm ct li wi] inf pk hr se].
  simpl in Hdb, Htb, Ho. subst db' tb'. unfold flush_fuel.
  assert (∀ d, open_bridge (bridge_inject fb (Ok (Data d))) (Q ++ [Data d]) S ∧ same_source fb (bridge_inject fb (Ok (Data d))))
    as Hi by (intros; by apply open_inject).
  unfold sent_frames, passed_frames.
  destruct db as [d|], tb as [t|], rc, (should_process_body M) eqn:Hb, (should_process_trailers M) eqn:Ht;
    cbn -[bridge_inject]; unfold take, out_frame; cbn -[bridge_inject]; rewrite ?Hb, ?Ht; cbn -[bridge_inject];
    unfold out_frame; cbn -[bridge_inject]; rewrite ?Hb, ?Ht; cbn -[bridge_inject];
    split; unfold sent_frames, passed_frames; rewrite ?Hb, ?Ht; cbn -[bridge_inject];
    rewrite ?app_nil_r, <-?app_assoc; try done; try apply Hi.
Qed.

(** ** The invariant *)

(** Nothing of the body was touched yet. *)
Definition untouched (p : Processing) (c : bool) (Q : list Frame) (ds : list str) : Prop :=
  c = false ∧ streaming_body_enabled p = false ∧ Q = [] ∧ ds = [] ∧
  data_buffer (frames_buffer p) = None ∧ trailers_buffer (frames_buffer p) = None.

Definition processed (M : OverridableModes) (p : Processing) : Prop :=
  should_process_body M || should_process_trailers M = true ∧ source_has_body_or_trailers (frame_bridge p) = true.

(** The source has ended: the rest is with the processor. *)
Record source_done (p : Processing) (S : list Frame) (fs : list Frame) : Prop := {
  done_source : S = [];
  done_data : data_buffer (frames_buffer p) = None;
  done_buffer : trailers_buffer (frames_buffer p) = None;
  done_eos : end_of_stream p = true;
  done_inflight : inflight_frames p ≠ [];
  done_trailers : ∃ t, parked_trailers p = Trailers <$> t ∧ option_list (trailers p) ++ option_list t = trailers_of fs;
}.

(** The source goes on. *)
Record source_open (M : OverridableModes) (p : Processing) (S : list Frame) (ds : list str) (hdr : bool) (fs : list Frame)
    : Prop := {
  so_trailers : trailers p = None;
  so_parked : parked_trailers p = None;
  so_frames : body_frames S;
  so_buffer : ∃ t, trailers_buffer (frames_buffer p) = Trailers <$> t ∧
    option_list t ++ trailers_of S = trailers_of fs ∧ (t ≠ None → S = []);
  so_streaming : hdr = false → streaming_body_enabled p = true;
  so_eos : end_of_stream p = true → ds = [] ∧
    (should_process_body M = true → data_buffer (frames_buffer p) = None ∧ ∃ t, S = Trailers <$> option_list t);
}.

(** [Q] was injected, [S] is left of the source, [ds] was sent, and [hdr] says
    whether the headers wait for an answer. *)
Record open_inv (M : OverridableModes) (fs : list Frame) (p : Processing) (c : bool) (U : list Shape)
    (Q S : list Frame) (ds : list str) (hdr : bool) : Prop := {
  oi_bridge : open_bridge (frame_bridge p) Q S;
  oi_source : source_has_body (frame_bridge p) = Some true → source_has_body_or_trailers (frame_bridge p) = true;
  oi_queue : trailers_of Q = [];
  oi_reply : reply_channel p = true → Q = [];
  oi_inflight : inflight_frames p = (Data <$> ds) ++ (Trailers <$> option_list (trailers p));
  oi_pending : U = (if hdr then [SHeaders] else []) ++ (frame_shape <$> inflight_frames p);
  oi_data : data_of Q ++ concat ds ++ default [] (data_buffer (frames_buffer p)) ++ data_of S = data_of fs;
  oi_none : should_process_body M = false → ds = [];
  oi_hdr : hdr = true → untouched p c Q ds ∨ processed M p;
  oi_state : if c then source_done p S fs else source_open M p S ds hdr fs;
}.

Record closed_inv (fs : list Frame) (p : Processing) (c : bool) (U : list Shape) (Q : list Frame) : Prop := {
  ci_bridge : closed_bridge (frame_bridge p) Q;
  ci_data : data_of Q = data_of fs;
  ci_trailers : trailers_of Q = trailers_of fs;
  ci_reply : reply_channel p = false;
  ci_end : c = true ∨ streaming_body_enabled p = false ∧ U = [];
}.

Definition inv (M : OverridableModes) (fs : list Frame) (p : Processing) (c : bool) (U : list Shape) : Prop :=
  (∃ Q S ds hdr, open_inv M fs p c U Q S ds hdr) ∨ (∃ Q, closed_inv fs p c U Q).

(** *** Frames *)

Lemma reply_after (p : Processing) s : reply_channel (return_status p s) = false.
Proof. unfold return_status. by destruct (reply_channel p) eqn:H. Qed.

(** Data leaves the buffer before the end. *)
Lemma out_data_inv k M fs p U Q S ds hdr d :
  open_inv M fs p false U Q S ds hdr → streaming_body_enabled p = true →
  data_buffer (frames_buffer p) = Some d →
  let p' := {| p with frames_buffer := {| (frames_buffer p) with count := 0%Z; data_buffer := None |} |} in
  inv M fs (out_frame k M (Data d) p').1 false (U ++ (out_frame k M (Data d) p').2).
Proof.
  intros [Hb Hsrc Hq Hr Hi Hu Hd Hn Hh [Ht Hpk Hf Htb Hst Heos]] Hs Hdb. cbv zeta. left.
  rewrite Hdb in Hd. rewrite Ht in Hi. fields. rewrite app_nil_r in Hi.
  unfold out_frame. destruct (should_process_body M) eqn:HbM.
  - exists Q, S, (ds ++ [d]), hdr. split; fields; try done.
    + by rewrite Hi, Ht, app_nil_r, fmap_app.
    + by rewrite Hu, Hi, fmap_app, app_assoc.
    + by rewrite concat_app, <-!app_assoc, concat_cons, app_nil_r.
    + congruence.
    + intros E. destruct (Hh E) as [(_ & ? & _)|Hp]; [congruence|by right].
    + split; try done. fields. intros E. destruct (Heos E) as [_ []]; [done|congruence].
  - destruct (open_inject _ _ _ (Data d) Hb) as [Hb' (E1 & E2 & E3)]. rewrite Hn in Hd, Hi by done.
    exists (Q ++ [Data d]), S, [], hdr. unfold return_status. fields.
    destruct (reply_channel p) eqn:Hrc; fields; rewrite app_nil_r; split; fields; try done.
    all: rewrite ?E1, ?E3, ?trailers_of_app, ?data_of_app, ?Hq, <-?app_assoc, ?Ht; try done.
    all: try congruence.
    all: try (intros E; destruct (Hh E) as [(_ & ? & _)|[? ?]]; [congruence|right; split; fields; congruence]).
    all: try (rewrite <-Hd; change (data_of [Data d]) with (d ++ []); by rewrite app_nil_r).
    all: split; fields; try done.
    all: intros E; destruct (Heos E); split; [done|congruence].
Qed.

(** A frame moves from the source to the buffer. *)
Lemma buffer_frame_inv M fs p U Q f S ds hdr b' (B : FramesBuffer) :
  open_inv M fs p false U Q (f :: S) ds hdr → streaming_body_enabled p = true →
  open_bridge b' Q S → same_source (frame_bridge p) b' →
  match f with
  | Data x => data_buffer B = Some (default [] (data_buffer (frames_buffer p)) ++ x) ∧
      trailers_buffer B = trailers_buffer (frames_buffer p)
  | Trailers t => data_buffer B = data_buffer (frames_buffer p) ∧ trailers_buffer B = Some (Trailers t)
  end →
  open_inv M fs {| p with frame_bridge := b'; frames_buffer := B |} false U Q S ds hdr.
Proof.
  intros [Hb Hsrc Hq Hr Hi Hu Hd Hn Hh [Ht Hpk Hf (tb & Htb & Htf & Hts) Hst Heos]] Hs Hb' (E1 & E2 & E3) HB'.
  assert (tb = None) as -> by (destruct tb; [by discriminate Hts|done]).
  split; fields; try done.
  - by rewrite E1, E3.
  - rewrite <-Hd. destruct f as [x|t]; destruct HB' as [-> _]; simpl; by rewrite <-?app_assoc.
  - intros E. destruct (Hh E) as [(_ & ? & _)|[? ?]]; [congruence|]. right. split; [done|]. fields. congruence.
  - split; fields; try done.
    + destruct f; [by eapply body_frames_data|]. apply body_frames_trailers in Hf as ->. by exists [], None.
    + destruct f as [x|t]; destruct HB' as [_ ->]; [by exists None|].
      exists (Some t). split_and!; [done|done|]. intros _. by eapply body_frames_trailers.
    + intros E. destruct (Heos E) as [-> Hp]. split; [done|]. intros HM. destruct (Hp HM) as [Hdb [t Hl]].
      destruct f as [x|t']; [by destruct t|]. destruct HB' as [-> _]. split; [done|].
      apply body_frames_trailers in Hf as ->. by exists None.
Qed.

Lemma push_inv k M fs p U Q f S ds hdr b' now :
  open_inv M fs p false U Q (f :: S) ds hdr → streaming_body_enabled p = true →
  open_bridge b' Q S → same_source (frame_bridge p) b' →
  let r := push (frames_buffer p) f now (body_mode M) in
  let p' := {| p with frame_bridge := b'; frames_buffer := r.2 |} in
  let r' := match r.1 with Some g => out_frame k M g p' | None => (p', []) end in
  inv M fs r'.1 false (U ++ r'.2).
Proof.
  intros Ho Hs Hb' Hsrc.
  assert (f = Trailers (match f with Trailers t => t | Data _ => header_map_new end) ∨
    trailers_buffer (frames_buffer p) = None) as Htb.
  { destruct f; [right|by left]. destruct (oi_state _ _ _ _ _ _ _ _ _ Ho) as [_ _ _ (tb & -> & _ & Hts) _ _].
    destruct tb; [by discriminate Hts|done]. }
  destruct f as [x|t]; cbn [push].
  - destruct Htb as [|Htb]; [done|].
    assert (data_buffer (merge (frames_buffer p) x) = Some (default [] (data_buffer (frames_buffer p)) ++ x) ∧
      trailers_buffer (merge (frames_buffer p) x) = trailers_buffer (frames_buffer p)) as [Hmd Hmt].
    { unfold merge. rewrite Htb. by destruct (data_buffer (frames_buffer p)). }
    pose proof (buffer_frame_inv _ _ _ _ _ _ _ _ _ _ {| (merge (frames_buffer p) x) with last_merge := Some now |} Ho Hs Hb'
      Hsrc (conj Hmd Hmt)) as Ho'.
    destruct (negb (is_buffered (body_mode M)) && _); cbn [fst snd].
    + fields. rewrite Hmd. pose proof (out_data_inv k _ _ _ _ _ _ _ _ _ Ho' Hs Hmd) as Hout. fields. exact Hout.
    + rewrite app_nil_r. left. eauto 6.
  - pose proof (buffer_frame_inv _ _ _ _ _ _ _ _ _ _
      {| (frames_buffer p) with count := 0%Z; last_merge := Some now; trailers_buffer := Some (Trailers t) |} Ho Hs Hb'
      Hsrc (conj eq_refl eq_refl)) as Ho'.
    fields. destruct (is_buffered (body_mode M)); fields; [rewrite app_nil_r; left; eauto 6|].
    destruct (data_buffer (frames_buffer p)) as [d|] eqn:Hdb; cbn [fmap option_fmap option_map]; fields.
    + pose proof (out_data_inv k _ _ _ _ _ _ _ _ _ Ho' Hs eq_refl) as Hout. fields. exact Hout.
    + rewrite app_nil_r. left. eauto 6.
Qed.

(** The buffer when the source has ended. *)
Lemma buffer_end M (p : Processing) tb :
  parked_trailers p = None → trailers_buffer (frames_buffer p) = Trailers <$> tb →
  let p0 := buffer_end_of_stream M p in
  ∃ db0 tb0,
    data_buffer (frames_buffer p0) = db0 ∧ trailers_buffer (frames_buffer p0) = Trailers <$> tb0 ∧
    default [] db0 = default [] (data_buffer (frames_buffer p)) ∧
    (should_process_trailers M = true → tb0 = tb ∧ parked_trailers p0 = None) ∧
    (should_process_trailers M = false → from_option (λ t, Some (Trailers t)) (parked_trailers p0) tb0 = Trailers <$> tb) ∧
    frame_bridge p0 = frame_bridge p ∧ inflight_frames p0 = inflight_frames p ∧ trailers p0 = trailers p ∧
    reply_channel p0 = reply_channel p ∧ (tb0 = None ∨ parked_trailers p0 = None).
Proof.
  intros Hpk Htb. unfold buffer_end_of_stream.
  destruct (should_process_body M && negb (end_of_stream p)); cbv zeta.
  - exists (match data_buffer (frames_buffer p), (if should_process_trailers M then tb else None) with
            | None, None => Some [] | d, _ => d end), (if should_process_trailers M then tb else None).
    unfold push_end_of_stream. destruct (should_process_trailers M); fields; rewrite ?Htb;
      destruct (data_buffer (frames_buffer p)) eqn:Hdb, tb; fields; rewrite ?Hdb; split_and!; done || by auto.
  - eexists _, tb. split_and!; auto. intros _. rewrite Hpk. by destruct tb.
Qed.

(** The state once the buffer is empty: [Q] was injected, [ds] was sent, [pk] is
    parked. *)
Record drained (M : OverridableModes) (fs : list Frame) (p p1 : Processing) (u : list Shape)
    (Q : list Frame) (ds : list str) (pk : option HeaderMap) : Prop := {
  dr_bridge : open_bridge (frame_bridge p1) Q [];
  dr_source : same_source (frame_bridge p) (frame_bridge p1);
  dr_queue : trailers_of Q = [];
  dr_reply : reply_channel p1 = true → Q = [];
  dr_inflight : inflight_frames p1 = (Data <$> ds) ++ (Trailers <$> option_list (trailers p1));
  dr_pending : frame_shape <$> inflight_frames p1 = (frame_shape <$> inflight_frames p) ++ u;
  dr_data : data_of Q ++ concat ds = data_of fs;
  dr_none : should_process_body M = false → ds = [];
  dr_buffer : data_buffer (frames_buffer p1) = None ∧ trailers_buffer (frames_buffer p1) = None;
  dr_parked : parked_trailers p1 = Trailers <$> pk;
  dr_trailers : option_list (trailers p1) ++ option_list pk = trailers_of fs;
}.

Lemma flush_drained k M fs p U Q ds hdr :
  open_inv M fs p false U Q [] ds hdr →
  let r := flush_side flush_fuel k M (buffer_end_of_stream M p) in
  ∃ Q' ds' pk, drained M fs p r.1 r.2 Q' ds' pk.
Proof.
  intros [Hb Hsrc Hq Hr Hi Hu Hd Hn Hh [Ht Hpk Hf (tb & Htb & Htf & Hts) Hst Heos]]. cbv zeta.
  destruct (buffer_end M p tb Hpk Htb) as (db & tb0 & Hdb0 & Htb0 & Hdd & HT & HF & Eb & Ei & Et & Er & _).
  set (p0 := buffer_end_of_stream M p) in *. rewrite <-Eb in Hb.
  pose proof (flush_flushed k M p0 Q [] db tb0 Hb Hdb0 Htb0) as [Fu Fb Fs Fi Ft Fp Fr Fd Fbuf Fe].
  destruct (flush_side flush_fuel k M p0) as [p1 u]. fields.
  rewrite Et, Ht in Ft. rewrite Ht in Hi. fields. rewrite app_nil_r in Hi.
  change (data_of []) with ([] : str) in Hd. change (trailers_of []) with ([] : list HeaderMap) in Htf.
  rewrite app_nil_r in Hd, Htf.
  exists (Q ++ passed_frames M db), (ds ++ if should_process_body M then option_list db else []),
    (if should_process_trailers M then None else tb).
  split; try done.
  - by rewrite <-Eb.
  - rewrite trailers_of_app, Hq. unfold passed_frames. destruct (should_process_body M); [done|apply trailers_of_data].
  - intros E. destruct (Fr E) as [E' ->]. rewrite Er in E'. by rewrite Hr.
  - rewrite Fi, Ei, Hi, Ft, fmap_app, <-app_assoc. f_equal. unfold sent_frames.
    by destruct (should_process_body M), (should_process_trailers M), tb0.
  - by rewrite Fi, Ei, Fu, fmap_app.
  - rewrite <-Hd, <-Hdd, data_of_app, concat_app, <-app_assoc. f_equal. unfold passed_frames.
    destruct (should_process_body M) eqn:HM; [by destruct db; simpl; rewrite ?app_nil_r|].
    rewrite Hn by done. by destruct db; simpl; rewrite ?app_nil_r.
  - intros HM. by rewrite HM, Hn.
  - rewrite Fp. destruct (should_process_trailers M); [by apply HT|by apply HF].
  - rewrite Ft. destruct (should_process_trailers M); [|by rewrite Htf]. destruct (HT eq_refl) as [-> _].
    rewrite app_nil_r, <-Htf. by destruct tb.
Qed.

Lemma ended_inv k M fs p U Q ds hdr :
  open_inv M fs p false U Q [] ds hdr → streaming_body_enabled p = true →
  inv M fs (ended_side k M p).1 true (U ++ (ended_side k M p).2).
Proof.
  intros Ho Hs. unfold ended_side. destruct (flush_drained k _ _ _ _ _ _ _ Ho) as (Q' & ds' & pk & Hdr).
  destruct (flush_side flush_fuel k M (buffer_end_of_stream M p)) as [p1 u]. fields.
  destruct Hdr as [Db Ds Dq Dr Di Du Dd Dn [Dd1 Dd2] Dp Dt].
  case_bool_decide as Hinf; cbn [fst snd].
  - right. rewrite Hinf in Di. symmetry in Di. apply app_nil in Di as [Hds Htn].
    apply fmap_nil_inv in Hds as ->. apply fmap_nil_inv in Htn. rewrite Htn in Dt.
    exists (Q' ++ [] ++ option_list (parked_trailers p1)).
    assert (option_list (parked_trailers p1) = Trailers <$> option_list pk) as Hop by (rewrite Dp; by destruct pk).
    split; unfold close_side; fields; [rewrite return_status_bridge; by apply open_drain_and_close| | |apply reply_after|by left].
    + rewrite Hop, data_of_app, <-Dd. simpl. by rewrite data_of_trailers.
    + rewrite Hop, trailers_of_app, Dq. simpl. by rewrite trailers_of_trailers.
  - left. exists Q', [], ds', hdr. destruct Ds as (S1 & S2 & S3). destruct Ho as [_ Hsrc _ _ _ Hu _ _ Hh _].
    split; fields; try done.
    + by rewrite S1, S3.
    + by rewrite Hu, Du, app_assoc.
    + rewrite Dd1. simpl. by rewrite app_nil_r.
    + intros E. right. destruct (Hh E) as [(_ & ? & _)|[? ?]]; [congruence|]. split; [done|]. fields. congruence.
    + split; fields; try done. by exists pk.
Qed.

Lemma frame_inv k M fs p U now :
  inv M fs p false U → streaming_body_enabled p = true →
  inv M fs (frame_side k M now p).1.1 (frame_side k M now p).2 (U ++ (frame_side k M now p).1.2).
Proof.
  intros [(Q & S & ds & hdr & Ho)|[Q Hc]] Hs.
  2: { destruct Hc as [_ _ _ _ [?|[? _]]]; congruence. }
  unfold frame_side. destruct (open_next _ _ _ (oi_bridge _ _ _ _ _ _ _ _ _ Ho)) as (Hn & Hb & Hsrc).
  destruct (bridge_next (frame_bridge p)) as [next bridge]. simpl in Hn, Hb, Hsrc. subst next.
  destruct S as [|f S]; simpl.
  - eapply (ended_inv k M fs _ U Q ds hdr); [|done].
    destruct Ho as [_ ? ? ? ? ? ? ? Hh Hso]. destruct Hsrc as (E1 & E2 & E3).
    split; fields; try done; [by rewrite E1, E3| |by destruct Hso].
    intros E. destruct (Hh E) as [?|[? ?]]; [by left|right]. split; [done|]. fields. congruence.
  - pose proof (push_inv k _ _ _ _ _ _ _ _ _ _ now Ho Hs Hb Hsrc) as Hp. cbv zeta in Hp. fields.
    destruct (push (frames_buffer p) f now (body_mode M)) as [[g|] buffer]; exact Hp.
Qed.

(** *** Answers *)

(** A closed bridge stays closed whatever the processor answers. *)
Lemma closed_same fs (p p' : Processing) U U' Q :
  closed_inv fs p true U Q → frame_bridge p' = frame_bridge p → reply_channel p' = false → closed_inv fs p' true U' Q.
Proof. intros [Hb Hd Ht Hr _] Eb Er. split; rewrite ?Eb; try done. by left. Qed.

Lemma return_status_replied (p : Processing) s : reply_channel p = false → return_status p s = p.
Proof. intros Hr. unfold return_status. by rewrite Hr. Qed.

Lemma closed_answer k M action fs sh (p : Processing) U Q p' :
  closed_inv fs p true (sh :: U) Q → answer_side k M action sh p = Return p' → closed_inv fs p' true U Q.
Proof.
  intros Hc Ha. pose proof Hc as [Hb Hd Ht Hr _].
  assert (∀ b f, b = frame_bridge p → bridge_inject b f = b) as Hinj by (intros ? ? ->; by eapply closed_inject).
  destruct sh; cbn [answer_side] in Ha.
  - unfold handle_headers_response in Ha. rewrite (return_status_replied _ _ Hr) in Ha. simpl in Ha.
    unfold try_enable_streaming_body in Ha. fields.
    repeat (case_match; simplify_eq; try done); eapply (closed_same _ p); try done; fields;
      rewrite ?(closed_drain _ _ Hb), ?(closed_close _ _ Hb); done.
  - unfold handle_body_response, body_status in Ha. rewrite Hr in Ha.
    change (replacement (body_mutation neutral)) with (@None Frame) in Ha. simpl in Ha.
    assert (∀ o, frame_bridge (inject_opt o p) = frame_bridge p ∧ reply_channel (inject_opt o p) = false) as Hio.
    { intros [f|]; [|done]. simpl. fields. by rewrite Hinj. }
    destruct (Hio (head (inflight_frames p))) as [Eb Er]. fields.
    case_match; simplify_eq/=; eapply (closed_same _ p); try done; fields.
    by rewrite Eb, (closed_drain_and_close _ _ _ Hb).
  - injection Ha as <-. unfold handle_trailers_response.
    destruct (trailers p); rewrite !return_status_replied by done; eapply (closed_same _ p); try done; fields;
      rewrite ?Hinj by done; by eapply closed_close.
Qed.

(** The headers were answered, and the body is streamed. *)
Lemma headers_answered M fs (p p' : Processing) c U Q S ds hdr :
  open_inv M fs p c U Q S ds hdr →
  frame_bridge p' = frame_bridge p → frames_buffer p' = frames_buffer p → inflight_frames p' = inflight_frames p →
  trailers p' = trailers p → parked_trailers p' = parked_trailers p → end_of_stream p' = end_of_stream p →
  (reply_channel p' = true → reply_channel p = true) → streaming_body_enabled p' = true →
  inv M fs p' c (frame_shape <$> inflight_frames p).
Proof.
  intros [Hb Hsrc Hq Hr Hi Hu Hd Hn Hh Hst] E1 E2 E3 E4 E5 E6 E7 E8. left. exists Q, S, ds, false.
  split; rewrite ?E1, ?E2, ?E3, ?E4; try done; [by auto|].
  destruct c; destruct Hst; split; rewrite ?E2, ?E3, ?E4, ?E5, ?E6; done.
Qed.

Lemma headers_answer_inv k M action fs p c U Q S ds hdr p' :
  open_inv M fs p c (SHeaders :: U) Q S ds hdr → answer_side k M action SHeaders p = Return p' → inv M fs p' c U.
Proof.
  intros Ho Ha. pose proof Ho as [Hb Hsrc Hq Hr Hi Hu Hd Hn Hh Hst].
  assert (hdr = true ∧ U = frame_shape <$> inflight_frames p) as [-> ->].
  { destruct hdr; [by injection Hu as ->|]. simpl in Hu. by destruct (inflight_frames p) as [|[] ?]. }
  cbn [answer_side] in Ha. unfold handle_headers_response in Ha. simpl in Ha.
  destruct (is_buffered (body_mode M) && should_process_body M && _ && true) eqn:Hpark.
  - rewrite andb_true_r, !andb_true_iff, bool_decide_eq_true in Hpark. destruct Hpark as [_ Hbody].
    unfold try_enable_streaming_body in Ha. fields. rewrite Hsrc in Ha by done. injection Ha as <-.
    by eapply headers_answered.
  - rewrite return_status_bridge in Ha. destruct (_ || _) eqn:Hnone in Ha; injection Ha as <-.
    + assert (untouched p c Q ds) as (-> & Hs & -> & -> & Hdb & Htb).
      { destruct (Hh eq_refl) as [|[Hp Hsh]]; [done|]. rewrite Hsh in Hnone.
        by destruct (should_process_body M), (should_process_trailers M). }
      destruct Hst as [Ht _ _ (t & Ht' & Htf & _) _ _]. rewrite Htb in Ht'. destruct t; [done|].
      right. exists S. apply open_drain in Hb as [Hb _]. apply open_close in Hb as [Hb _].
      rewrite Hdb in Hd. rewrite Hi, Ht. split; fields; rewrite ?return_status_bridge; try done.
      * apply reply_after.
      * by right.
    + apply orb_false_iff in Hnone as [Hsh _]. apply negb_false_iff in Hsh.
      unfold try_enable_streaming_body. rewrite return_status_bridge, Hsh. fields.
      unfold return_status. destruct (reply_channel p); by eapply headers_answered.
Qed.

(** The first chunk was answered. *)
Definition answered_chunk (p : Processing) (d : str) (p' : Processing) : Prop :=
  frame_bridge p' = bridge_inject (frame_bridge p) (Ok (Data d)) ∧ reply_channel p' = false ∧
  inflight_frames p' = tl (inflight_frames p) ∧
  frames_buffer p' = frames_buffer p ∧ trailers p' = trailers p ∧ parked_trailers p' = parked_trailers p ∧
  end_of_stream p' = end_of_stream p ∧ streaming_body_enabled p' = streaming_body_enabled p.

Lemma body_answered M fs p c U Q S d ds p' :
  open_inv M fs p c U Q S (d :: ds) false → answered_chunk p d p' → (c = true → inflight_frames p' ≠ []) →
  open_inv M fs p' c (frame_shape <$> inflight_frames p') (Q ++ [Data d]) S ds false.
Proof.
  intros [Hb Hsrc Hq Hr Hi Hu Hd Hn Hh Hst] (A1 & A2 & A3 & A4 & A5 & A6 & A7 & A8) Hne.
  destruct (open_inject _ _ _ (Data d) Hb) as [Hb' (E1 & E2 & E3)].
  split; rewrite ?A1, ?A4, ?E1, ?E3; try done.
  - by rewrite trailers_of_app, Hq.
  - congruence.
  - by rewrite A3, A5, Hi.
  - rewrite <-Hd, data_of_app. cbn. by rewrite app_nil_r, <-!app_assoc.
  - intros HM. by specialize (Hn HM).
  - destruct c; destruct Hst as [H1 H2 H3 H4 H5 H6]; split; rewrite ?A4, ?A5, ?A6, ?A7, ?A8; try done; [by apply Hne|].
    intros E. by destruct (H6 E).
Qed.

Lemma body_answer_side k (action : option RouteCacheAction) (p : Processing) p' off :
  inflight_frames p ≠ [] → handle_body_response k (Some neutral) action p = Return (p', off) →
  ∃ q, (∀ d rest, inflight_frames p = Data d :: rest → answered_chunk p d q) ∧
    p' = if end_of_stream p && bool_decide (inflight_frames q = [])
         then set_streaming_body false (on_bridge (λ b, drain_and_close b [] (parked_trailers q)) {| q with parked_trailers := None |})
         else q.
Proof.
  intros Hne Ha. unfold handle_body_response in Ha.
  change (replacement (body_mutation neutral)) with (@None Frame) in Ha.
  change (is_continue_and_replace neutral) with false in Ha. cbv zeta in Ha.
  assert (∃ r h, body_status k action neutral p =
    {| p with reply_channel := false; replies := r; headers_ready_status := h |}) as (r & h & Hbs).
  { unfold body_status, return_status. fields. destruct (reply_channel p) eqn:Hrc; [by eexists _, _|].
    exists (replies p), (headers_ready_status p). destruct p; simpl in *; by subst. }
  rewrite Hbs in Ha. clear Hbs. fields. destruct (inflight_frames p) as [|f rest] eqn:Hi; [done|].
  cbn [head inject_opt] in Ha. fields. cbn [tl] in Ha.
  exists {| p with frame_bridge := bridge_inject (frame_bridge p) (Ok f); reply_channel := false; replies := r;
     inflight_frames := rest; headers_ready_status := h |}.
  fields. split; [|by destruct (end_of_stream p && bool_decide (rest = [])); injection Ha as <- _].
  intros d rest' [= -> ->]. unfold answered_chunk. fields. by rewrite Hi.
Qed.

Lemma body_answer_inv k M action fs p c U Q S ds hdr p' :
  open_inv M fs p c (SBody :: U) Q S ds hdr → answer_side k M action SBody p = Return p' → inv M fs p' c U.
Proof.
  intros Ho Ha. pose proof Ho as [Hb Hsrc Hq Hr Hi Hu Hd Hn Hh Hst].
  destruct hdr; [done|]. destruct ds as [|d ds]; rewrite Hi in Hu; [by destruct (trailers p)|].
  cbn [answer_side] in Ha.
  destruct (handle_body_response _ _ _ _) as [[p1 off]|] eqn:Hh'; [|done]. injection Ha as ->.
  apply body_answer_side in Hh' as (q & Hq' & ->); [|by rewrite Hi]. specialize (Hq' _ _ Hi).
  pose proof Hq' as (A1 & A2 & A3 & A4 & A5 & A6 & A7 & A8). rewrite Hi in A3. cbn [fmap list_fmap app tl] in A3.
  assert (U = frame_shape <$> inflight_frames q) as -> by (rewrite A3; by injection Hu).
  destruct (end_of_stream p && bool_decide (inflight_frames q = [])) eqn:He.
  - apply andb_true_iff in He as [He Hinf]. apply bool_decide_eq_true in Hinf. rewrite Hinf.
    destruct c; [|destruct Hst as [_ _ _ _ _ H6]; by destruct (H6 He)].
    destruct Hst as [-> Hdb Htb _ _ (t & Hpk & Htr)]. rewrite A3 in Hinf. apply app_nil in Hinf as [Hds Htn].
    apply fmap_nil_inv in Hds as ->. apply fmap_nil_inv in Htn. rewrite Htn in Htr.
    right. destruct (open_inject _ _ _ (Data d) Hb) as [Hb' _]. rewrite <-A1 in Hb'.
    exists ((Q ++ [Data d]) ++ [] ++ option_list (parked_trailers q)).
    assert (option_list (parked_trailers q) = Trailers <$> option_list t) as Hop by (rewrite A6, Hpk; by destruct t).
    split; fields; try done; [by apply open_drain_and_close| | |by left].
    + rewrite Hop, <-Hd, Hdb, !data_of_app, data_of_trailers. cbn. by rewrite !app_nil_r.
    + by rewrite Hop, !trailers_of_app, Hq, trailers_of_trailers.
  - left. exists (Q ++ [Data d]), S, ds, false. eapply body_answered; [done..|].
    intros ->. destruct Hst as [_ _ _ Heos _ _]. rewrite Heos in He. by apply bool_decide_eq_false in He.
Qed.

Lemma trailers_answer_inv k M action fs p c U Q S ds hdr p' :
  body_frames fs →
  open_inv M fs p c (STrailers :: U) Q S ds hdr → answer_side k M action STrailers p = Return p' → inv M fs p' c U.
Proof.
  intros (fd & ft & Hfs) [Hb Hsrc Hq Hr Hi Hu Hd Hn Hh Hst] Ha.
  destruct hdr; [done|]. rewrite Hi in Hu. destruct ds; [|done].
  destruct (trailers p) as [t|] eqn:Ht; [|done]. injection Hu as ->.
  destruct c; [|destruct Hst; congruence]. destruct Hst as [-> Hdb _ _ _ (t' & _ & Htr)]. rewrite Ht, Hfs in Htr.
  rewrite trailers_of_app, trailers_of_data, trailers_of_trailers in Htr. destruct ft as [ft|]; [|done].
  injection Htr as <- Ht'. destruct t'; [done|].
  injection Ha as <-. unfold handle_trailers_response. rewrite Ht.
  right. exists (Q ++ [Trailers t]). apply (open_inject _ _ _ (Trailers t)) in Hb as [Hb _]. apply open_close in Hb as [Hb _].
  split; fields; rewrite ?return_status_bridge; try done.
  - rewrite <-Hd, Hdb, data_of_app. cbn. by rewrite !app_nil_r.
  - by rewrite trailers_of_app, Hq, Hfs, trailers_of_app, trailers_of_data, trailers_of_trailers.
  - apply reply_after.
  - by left.
Qed.

(** ** The task *)

(** What the filter says of a body is true: the flag of a body that has ended, and
    the type of a body that was collected. *)
Definition honest (ended : bool) (body_type : option BodyType) (fs : list Frame) : Prop :=
  (ended = true → fs = []) ∧
  (body_type = Some TypeEmpty ∨ body_type = Some TypeTrailers → ∃ t, fs = Trailers <$> option_list t).

Lemma bridge_new_facts fs ended body_type :
  honest ended body_type fs →
  let b := bridge_new (E := BodyError Foreign) (Ok <$> fs) ended body_type in
  open_bridge b [] fs ∧
  (source_has_body b = Some true → source_has_body_or_trailers b = true) ∧
  (source_has_body b = Some false → ∃ t, fs = Trailers <$> option_list t) ∧
  (source_has_body_or_trailers b = false → source_has_body b = Some false ∧ source_has_trailers b = Some false).
Proof.
  intros [He Ht]. unfold bridge_new.
  destruct ended; [rewrite (He eq_refl)|destruct body_type as [[]|]]; simpl; split_and!; try done; try (by split);
    try (by exists None); try (intros _; apply Ht; by auto).
Qed.

(** A message that was not processed yet. *)
Record fresh (p : Processing) : Prop := {
  fresh_trailers : trailers p = None;
  fresh_streaming : streaming_body_enabled p = false;
  fresh_eos : end_of_stream p = false;
  fresh_buffer : data_buffer (frames_buffer p) = None ∧ trailers_buffer (frames_buffer p) = None;
  fresh_inflight : inflight_frames p = [];
  fresh_parked : parked_trailers p = None;
}.

(** A worker that takes a message of kind [k]: it processes, messages go out, and
    those of this kind were answered. *)
Record idle (k : MessageKind) (w : Worker) (n : nat) : Prop := {
  idle_observe : observability_mode (config w) = false;
  idle_network : network w = [];
  idle_answered : n ≤ length (outbox w);
  idle_complete : complete k w = false;
  idle_pending : pending k w n = [];
  idle_fresh : fresh (side k w);
}.

(** The body is there, and nothing was done with it. *)
Lemma start_inv M fs p bridge hdr :
  fresh p → body_frames fs → open_bridge bridge [] fs →
  (source_has_body bridge = Some true → source_has_body_or_trailers bridge = true) →
  ∀ p', frame_bridge p' = bridge → frames_buffer p' = frames_buffer p → inflight_frames p' = inflight_frames p →
  trailers p' = trailers p → parked_trailers p' = parked_trailers p →
  (end_of_stream p' = true → should_process_body M = true → ∃ t, fs = Trailers <$> option_list t) →
  (if hdr : bool then streaming_body_enabled p' = false ∨ processed M p' else streaming_body_enabled p' = true) →
  inv M fs p' false (if hdr then [SHeaders] else []).
Proof.
  intros [F1 F2 F3 [F4 F5] F6 F7] Hf Hb Hsrc p' E1 E2 E3 E4 E5 Heos Hst. left. exists [], fs, [], hdr.
  split; rewrite ?E1, ?E2, ?E3, ?E4, ?F1, ?F4, ?F6; try done.
  - by rewrite app_nil_r.
  - intros ->. destruct Hst as [Hst|Hst]; [left|by right].
    unfold untouched. by rewrite E2, F4, F5.
  - split; rewrite ?E2, ?E4, ?E5, ?F1, ?F5, ?F7; try done.
    + by exists None.
    + by intros ->.
    + intros E. split; [done|]. intros HM. split; [done|]. by apply Heos.
Qed.

Lemma process_inv k M headers fs ended body_type p :
  fresh p → body_frames fs → honest ended body_type fs →
  let r := process k false M headers (bridge_new (Ok <$> fs) ended body_type) p in
  inv M fs r.2 false (match r.1 with Some req => [shape_of req] | None => [] end).
Proof.
  intros Hfr Hf Hho. destruct (bridge_new_facts fs ended body_type Hho) as (Hb & Hb1 & Hb2 & Hb3).
  set (b := bridge_new (Ok <$> fs) ended body_type) in *. unfold process.
  destruct (bool_decide (is_Some headers) && should_process_headers M) eqn:Hhd; [|destruct (_ && (_ || _)) eqn:Hbt]; cbv zeta; cbn [fst snd].
  - unfold process_headers. fields. destruct headers as [h|]; [|done].
    set (eos := negb (should_process_body M && default true (source_has_body b)) &&
      negb (should_process_trailers M && default true (source_has_trailers b))).
    assert (eos = true → should_process_body M = true → ∃ t, fs = Trailers <$> option_list t) as Heos.
    { intros He HM. apply Hb2. apply andb_true_iff in He as [He _]. rewrite HM in He.
      by destruct (source_has_body b) as [[]|]. }
    assert (eos = false → should_process_body M || should_process_trailers M = true ∧ source_has_body_or_trailers b = true)
      as Hpr.
    { intros He. unfold eos in He. destruct (source_has_body_or_trailers b) eqn:Hs.
      - by destruct (should_process_body M), (should_process_trailers M).
      - destruct (Hb3 eq_refl) as [E1 E2]. rewrite E1, E2 in He. simpl in He. by rewrite !andb_false_r in He. }
    destruct k; unfold update_end_stream; fields; fold b eos;
      (destruct (false || _) eqn:Hsw; fields;
       [apply andb_true_iff in Hsw as [_ He]; apply negb_true_iff in He|]);
      eapply (start_inv M fs p b true); try done; fields; try done;
      first [right; split; fields; by apply Hpr | left; by apply Hfr].
  - apply andb_true_iff in Hbt as [Hs HM]. unfold process_body_and_trailers, try_enable_streaming_body. fields. rewrite Hs.
    match goal with |- inv _ _ (if ?c then _ else _) _ _ => destruct c end;
      [|unfold return_status; fields]; eapply (start_inv M fs p b false); try done; fields; rewrite (fresh_eos p Hfr); done.
  - right. exists fs. apply open_drain in Hb as [Hb _]. apply open_close in Hb as [Hb _].
    split; fields; try done. right. by split; [apply Hfr|].
Qed.

(** ** The worker *)

Definition seen (M : OverridableModes) (k : MessageKind) (fs : list Frame) (s : Worker * nat) : Prop :=
  ∃ p c U, sees M k s.1 s.2 p c U ∧ inv M fs p c U.

Lemma seen_task M k w n fs t ended body_type p :
  sees M k w n p false [] → fresh p → task_kind t = k →
  task_bridge t = bridge_new (Ok <$> fs) ended body_type → honest ended body_type fs → body_frames fs →
  seen M k fs (handle_task t w, n).
Proof.
  intros Hs Hfr Hk Ht Hho Hf. unfold handle_task. rewrite Hk, Ht, (sees_side _ _ _ _ _ _ _ Hs).
  rewrite (sees_observe _ _ _ _ _ _ _ Hs), (sees_modes _ _ _ _ _ _ _ Hs).
  set (q := match k with RequestMsg => p | ResponseMsg => {| p with served_endpoint := task_served_endpoint t |} end).
  assert (fresh q) as Hq by (destruct k; [done|]; destruct Hfr; by split).
  pose proof (process_inv k M (task_headers t) fs ended body_type q Hq Hf Hho) as Hinv. cbv zeta in Hinv.
  pose proof (process_kind k false M (task_headers t) (bridge_new (Ok <$> fs) ended body_type) q) as Hkind.
  destruct (process _ _ _ _ _ _) as [req p']. simpl in *.
  pose proof (sees_on_side _ _ _ _ _ _ _ (λ _, p') Hs) as Hs'. destruct req as [req|]; simpl.
  - eexists p', false, [shape_of req]. split; [|done]. apply (sees_forward _ _ _ _ _ _ _ req) in Hs'.
    by rewrite decide_True in Hs' by by apply Hkind.
  - by exists p', false, [].
Qed.

Lemma seen_step M k fs s s' : body_frames fs → seen M k fs s → step debug k s s' → seen M k fs s'.
Proof.
  intros Hf (p & c & U & Hs & Hi) Hst. destruct Hst as [t w n w' Hne _ Ht|k' now w n w' He Ht|r w n w' Hr Ht]; simpl in *.
  - injection Ht as <-. exists p, c, U. split; [by apply quiet_handle_task|done].
  - injection Ht as <-. destruct (decide (k = k')) as [<-|Hne]; [|exists p, c, U; split; [by apply quiet_handle_frame|done]].
    unfold outbound_enabled in He. rewrite (sees_side _ _ _ _ _ _ _ Hs), (sees_complete _ _ _ _ _ _ _ Hs) in He.
    apply andb_true_iff in He as [He Hc]. apply negb_true_iff in Hc as ->.
    eexists _, _, _. split; [exact (sees_handle_frame _ _ _ _ _ _ _ now Hs)|]. by apply frame_inv.
  - destruct (sees_answer _ _ _ _ _ _ _ _ _ _ Hs Hr Ht) as [[_ Hs']|(_ & U' & action & p' & -> & Hs' & Ha)]; [by exists p, c, U|].
    exists p', c, U'. split; [done|]. destruct Hi as [(Q & S & ds & hdr & Ho)|[Q Hc]].
    + destruct (shape_of r); [by eapply headers_answer_inv|by eapply body_answer_inv|by eapply trailers_answer_inv].
    + right. exists Q. destruct c; [by eapply closed_answer|]. by destruct (ci_end _ _ _ _ _ Hc) as [?|[_ ?]].
Qed.

Lemma reachable_seen k w0 n0 t fs ended body_type s :
  idle k w0 n0 → task_kind t = k →
  task_bridge t = bridge_new (Ok <$> fs) ended body_type → honest ended body_type fs → body_frames fs →
  rtc (step debug k) (handle_task t w0, n0) s → seen (worker_modes k w0) k fs s.
Proof.
  intros [Ho Hn Ha Hc Hp Hfr] Hk Ht Hho Hf Hrtc.
  eapply (rtc_ind_r (λ s, seen (worker_modes k w0) k fs s)); [by eapply seen_task| |exact Hrtc].
  intros s1 s2 _ Hstep Hseen. by eapply seen_step.
Qed.

(** C3: a processor that changes nothing leaves the body alone.  In whatever order
    the frames of the bodies and the answers come, what was injected carries a
    prefix of the bytes of the source; when the body is closed it carries all of
    them and the trailers, and the filter has its status; and it is closed once no
    message waits for an answer and the source has no frame to give. *)
Theorem processor_transparent k w0 n0 t fs ended body_type w n :
  idle k w0 n0 → task_kind t = k →
  task_bridge t = bridge_new (Ok <$> fs) ended body_type → honest ended body_type fs → body_frames fs →
  rtc (step debug k) (handle_task t w0, n0) (w, n) →
  let c := chan (frame_bridge (side k w)) in
  ∃ Q, queue c = Ok <$> Q ∧ data_of Q `prefix_of` data_of fs ∧
    (tx_open c = false → data_of Q = data_of fs ∧ trailers_of Q = trailers_of fs ∧ reply_channel (side k w) = false) ∧
    (pending k w n = [] → outbound_enabled k w = false → tx_open c = false).
Proof.
  intros Hidle Hk Ht Hho Hf Hrtc c.
  destruct (reachable_seen k w0 n0 t fs ended body_type (w, n)) as (p & cc & U & Hs' & Hi); try done.
  simpl in Hs'. subst c. rewrite (sees_side _ _ _ _ _ _ _ Hs'), (sees_pending _ _ _ _ _ _ _ Hs').
  unfold outbound_enabled. rewrite (sees_side _ _ _ _ _ _ _ Hs'), (sees_complete _ _ _ _ _ _ _ Hs').
  destruct Hi as [(Q & S & ds & hdr & [[_ _ Hc] _ _ _ Hin Hu Hd _ _ Hst])|[Q [[_ Hc] Hd Htr Hr _]]]; exists Q; rewrite Hc; simpl.
  - split_and!; [done|by eexists|done|]. intros -> Hout. destruct hdr; [done|].
    symmetry in Hu. apply fmap_nil_inv in Hu. destruct cc; [by destruct Hst|].
    destruct Hst as [_ _ _ _ Hstr _]. by rewrite Hstr in Hout.
  - split_and!; try done. by rewrite Hd.
Qed.

End transparent.

(** ** Witnesses *)

Section examples.
#[local] Existing Instances assoc_http no_regex assoc_bytes.

Let conf : ExternalProcessingWorkerConfig := example_config Streamed 1 false false.
Let fs : list Frame := [Data (lit "a"); Data (lit "b"); Trailers [(lit "t", lit "1")]].

(** The headers are answered, two frames are sent before the first is answered,
    and the trailers are kept until the end. *)
Let final : option (Worker () * nat) :=
  schedule (λ _, []) RequestMsg [None; Some 0%Z; Some 0%Z; None; Some 0%Z; Some 0%Z; None; None] (example_start conf fs, 0).

Lemma processor_transparent_witness :
  match final with
  | Some (w, n) =>
    ∃ Q, queue (chan (frame_bridge (side RequestMsg w))) = Ok <$> Q ∧ data_of Q = lit "ab" ∧
      trailers_of Q = [[(lit "t", lit "1")]]
  | None => False
  end.
Proof.
  assert (match final with Some (w, _) => tx_open (chan (frame_bridge (side RequestMsg w))) = false | None => False end)
    as Hc by (vm_compute; reflexivity).
  destruct final as [[w n]|] eqn:Hs; [|done]. apply schedule_reachable in Hs.
  destruct (processor_transparent (λ _, []) RequestMsg (example_worker conf) 0 (example_task fs) fs false None w n)
    as (Q & Hq & _ & Hclosed & _).
  - clear. by split.
  - done.
  - done.
  - clear. split; [done|]. by intros [].
  - by exists [lit "a"; lit "b"], (Some [(lit "t", lit "1")]).
  - exact Hs.
  - exists Q. destruct (Hclosed Hc) as (Hd & Ht & _). by rewrite Hd, Ht.
Defined.

End examples.
End ExtProcTransparent.
