(* ===== verification/ExtProcSpec.v ===== *)
(** What happens when the external processor fails: what of the body survives,
    what the filter is told, and the cases in which the worker gets it wrong. *)

From stdpp Require Import relations.
From S2P Require Import Prelude RustStr Http StringMatch Body ChannelBody ExtProcMutation ExtProcModes ExtProcProcessing ExtProcWorker ExtProcSide ExtProcTransparent.
Import Http StringMatch Body ChannelBody ExtProcMutation ExtProcModes ExtProcProcessing ExtProcWorker ExtProcSide ExtProcTransparent.

Module ExtProcSpec.

Section failures.
Context {HL : HttpLib} {RL : RegexLib} {HB : HttpBytes} {Foreign : Type}.
Context (debug : ProcessingResponse → str).

Notation Processing := (Processing Foreign).
Notation Worker := (Worker Foreign).

(** ** Failures that are allowed *)

Lemma open_inject_all (b : Bridge (E := BodyError Foreign)) Q S l :
  open_bridge b Q S → open_bridge (foldl (λ b f, bridge_inject b (Ok f)) b l) (Q ++ l) S.
Proof.
  revert b Q. induction l as [|f l IH]; intros b Q Hb; [by rewrite app_nil_r|]. simpl.
  apply (open_inject _ _ _ f) in Hb as [Hb _]. apply IH in Hb. by rewrite <-app_assoc in Hb.
Qed.

Lemma open_drain_and_close_all (b : Bridge (E := BodyError Foreign)) Q S l t :
  open_bridge b Q S → closed_bridge (drain_and_close b l t) (Q ++ l ++ S ++ option_list t).
Proof.
  intros Hb. apply (open_inject_all _ _ _ l) in Hb.
  pose proof (open_drain_and_close _ _ _ t Hb) as Hc. by rewrite <-app_assoc in Hc.
Qed.

(** A side after a failure that is allowed. *)
Lemma recover_side err msg (w : Worker) k :
  failure_mode_allow (config w) = true →
  frame_bridge (side k (recover_or_failure err msg w)) =
    drain_and_close (frame_bridge (side k w)) (inflight_frames (side k w)) (parked_trailers (side k w)).
Proof.
  intros Ha. unfold recover_or_failure. rewrite Ha.
  destruct k; simpl; unfold return_status; by destruct (reply_channel _).
Qed.

(** A failure that is allowed drops what is being merged.  When the processor
    fails while it changes nothing, the rest of the body is passed on and closed,
    but the bytes in the buffer that merges frames are left out. *)
Theorem failure_drops_buffer k (w0 : Worker) n0 t fs ended body_type (w : Worker) n err msg :
  idle k w0 n0 → task_kind t = k →
  task_bridge t = bridge_new (Ok <$> fs) ended body_type → honest ended body_type fs → body_frames fs →
  rtc (step debug k) (handle_task t w0, n0) (w, n) →
  failure_mode_allow (config w) = true → is_open (frame_bridge (side k w)) = true →
  let c := chan (frame_bridge (side k (recover_or_failure err msg w))) in
  ∃ Q before after, queue c = Ok <$> Q ∧ tx_open c = false ∧
    data_of Q = before ++ after ∧
    data_of fs = before ++ default [] (data_buffer (frames_buffer (side k w))) ++ after.
Proof.
  intros Hidle Hk Ht Hho Hf Hrtc Hallow Hopen c.
  destruct (reachable_seen debug k w0 n0 t fs ended body_type (w, n)) as (p & cc & U & Hs' & Hi); try done.
  subst c. rewrite recover_side by done. simpl in Hs'. rewrite (sees_side _ _ _ _ _ _ _ Hs') in *.
  destruct Hi as [(Q & S & ds & hdr & [Hb _ _ _ Hin _ Hd _ _ Hst])|[Q [[Hc _] _ _ _ _]]];
    [|unfold is_open in Hopen; congruence].
  apply (open_drain_and_close_all _ _ _ (inflight_frames p) (parked_trailers p)) in Hb as [_ Hc]. rewrite Hc. simpl.
  eexists _, (data_of Q ++ concat ds), (data_of S). split; [done|]. split; [done|].
  rewrite <-Hd, !data_of_app, Hin, data_of_app, data_of_data, data_of_trailers, app_nil_r, <-!app_assoc.
  split; [|done]. do 3 f_equal. destruct (parked_trailers p) as [[]|] eqn:Hpk; simpl; rewrite ?app_nil_r; try done.
  destruct cc; [destruct Hst as [_ _ _ _ _ ([] & Hp & _)]|destruct Hst as [_ Hp _ _ _ _]]; rewrite Hpk in Hp; by simplify_eq/=.
Qed.

(** ** Failures that are not allowed *)

(** a failure that is not allowed is seen: the filter that still waits gets an
    error response, and a body that is still open ends with the error, never as if
    it were complete. *)
Theorem failure_aborts err msg (w : Worker) k :
  failure_mode_allow (config w) = false →
  let p := side k w in let p' := side k (recover_or_failure err msg w) in
  (reply_channel p = true → ∃ code body,
    replies p' = replies p ++ [EndWithDirectResponse (Synthetic code body false)] ∧
    (code = match err with Timeout _ => 504 | _ => 500 end)%Z) ∧
  reply_channel p' = false ∧
  (is_open (frame_bridge p) = true → rx_open (chan (frame_bridge p)) = true →
    chan (frame_bridge p') = mk_channel (queue (chan (frame_bridge p)) ++ [Err (ExtProc err)]) false true).
Proof.
  intros Ha p p'.
  assert (p' = set_streaming_body false (on_bridge bridge_close (inject (return_status p
    (match err with Timeout _ => status_timeout false | _ => status_error msg false end)) (Err (ExtProc err))))) as ->.
  { unfold p', p, recover_or_failure. rewrite Ha. by destruct k. }
  fields. rewrite reply_after, return_status_bridge. split_and!; [|done|].
  - intros Hr. unfold return_status. rewrite Hr. fields. destruct err; by eexists _, _.
  - unfold is_open, bridge_inject, ChannelBody.inject_frame, bridge_close, close, send. intros -> Hrx. rewrite Hrx. simpl. done.
Qed.

(** ** Where the worker fails by itself *)

(** A processor that cannot be reached is not noticed.  When no connection can
    be made for the headers of a message, the error is made but not returned: the
    filter has no answer, whatever [failure_mode_allow] says, and the only branch
    of the loop that is left waits for another task, which the filter gives only
    after it has its answer. *)
Theorem unreachable_processor_hangs conf modes rest t :
  send_body_without_waiting_for_header_response conf = false → observability_mode conf = false →
  task_headers t ≠ None → should_process_headers (modes_of (task_kind t) modes) = true →
  let w := handle_task t (worker_new (Foreign := Foreign) conf modes (Unreachable :: rest)) in
  running w = true ∧ reply_channel (side (task_kind t) w) = true ∧ replies (side (task_kind t) w) = [] ∧
  ∀ e, enabled e w = true → ∃ t', e = ETask t'.
Proof.
  intros Hsend Hobs Hh Hm. destruct t as [k [h|] b se]; [|done]. cbn [task_kind] in *.
  unfold handle_task, process, worker_modes, process_headers. cbn.
  destruct k; cbn in Hm |- *; rewrite Hm, Hobs, Hsend; cbn; split_and!; try done;
    intros [t'|m|[] now|]; cbn; try done; eauto.
Qed.

End failures.

(** ** Runs that go wrong *)

Section runs.
Context {HL : HttpLib} {RL : RegexLib} {HB : HttpBytes} {Foreign : Type}.
Context (debug : ProcessingResponse → str).

Notation Worker := (Worker Foreign).

(** a body whose streaming is switched on by the processor is cut.  The body is
    not sent at first, so that the headers end the stream; the processor asks for
    a streamed body and changes nothing.  When four frames that came together are
    answered, the fifth, which is being merged, is left out, and the rest is
    passed on without the processor. *)
Theorem override_drops_frame a b c d e f :
  ∃ w : Worker,
    run debug (answered (HeadersResponse RequestMsg (Some neutral)) (Some (mk_envoy_mode 0 0 1 0 0 0)) ::
         replicate 5 (EFrame RequestMsg 0) ++ [answered (BodyResponse RequestMsg (Some neutral)) None])
      (example_start (example_config BodyNone EXT_PROC_FRAME_MERGE_LIMIT true false)
        [Data a; Data b; Data c; Data d; Data e; Data f]) = Some w ∧
    chan (frame_bridge (request_processing w)) =
      mk_channel [Ok (Data (((a ++ b) ++ c) ++ d)); Ok (Data f)] false true.
Proof. eexists. split; [vm_compute; reflexivity|]. done. Qed.

(** the message timeout is not switched off when a chunk is answered.  When the
    processor has answered all that it was sent, the timeout still runs, and a
    source that pauses for that long has its body aborted. *)
Theorem timeout_without_debt a rest :
  ∃ w w' : Worker,
    run debug [answered (HeadersResponse RequestMsg (Some neutral)) None; EFrame RequestMsg 0;
         answered (BodyResponse RequestMsg (Some neutral)) None]
      (example_start (example_config Streamed 1 false false) (Data a :: rest)) = Some w ∧
    length (outbox w) = 2 ∧ enabled ETimeout w = true ∧
    body_stream (inner (frame_bridge (request_processing w))) = Ok <$> rest ∧
    turn debug ETimeout w = Return w' ∧
    chan (frame_bridge (request_processing w')) =
      mk_channel [Ok (Data a); Err (ExtProc (Timeout (lit "message timeout")))] false true.
Proof. eexists _, _. split; [vm_compute; reflexivity|]. split_and!; try (vm_compute; reflexivity). Qed.

(** The status is returned before the headers are answered when trailers are sent
    to the processor, the body is not, and the answer is not waited for: what the
    processor does to the headers is lost, and no further task is taken. *)
Lemma early_status a m :
  ∃ w : Worker, run debug [EFrame RequestMsg 0; EFrame RequestMsg 0; answered (HeadersResponse RequestMsg (Some (mk_common 0 (Some m) None None false))) None]
      (example_start
        {| (example_config BodyNone 1 false false) with send_body_without_waiting_for_header_response := true;
           processing_mode := {| processing_mode_default with request_trailer_mode := TrailerSend |} |} [Data a]) = Some w ∧
    replies (request_processing w) = [RequestReady ready_default] ∧
    ∀ t, enabled (ETask t) w = false.
Proof. eexists. split; [vm_compute; reflexivity|]. by split. Qed.

End runs.

(** ** Witnesses *)

Section examples.
#[local] Existing Instances assoc_http no_regex assoc_bytes.

Let conf : ExternalProcessingWorkerConfig := example_config Streamed 4 false true.
Let fs : list Frame := [Data (lit "lost"); Data (lit "kept")].

(** The first frame is being merged when the processor fails. *)
Let merging : option (Worker () * nat) := schedule (λ _, []) RequestMsg [None; Some 0%Z] (example_start conf fs, 0).

Lemma failure_drops_buffer_witness :
  match merging with
  | Some (w, _) =>
    ∃ Q before after,
      queue (chan (frame_bridge (side RequestMsg (recover_or_failure UnexpectedEof [] w)))) = Ok <$> Q ∧
      data_of Q = before ++ after ∧ lit "lostkept" = before ++ lit "lost" ++ after
  | None => False
  end.
Proof.
  assert (match merging with
    | Some (w, _) => failure_mode_allow (config w) = true ∧ is_open (frame_bridge (side RequestMsg w)) = true ∧
        data_buffer (frames_buffer (side RequestMsg w)) = Some (lit "lost")
    | None => False
    end) as Hc by (vm_compute; auto).
  destruct merging as [[w n]|] eqn:Hs; [|done]. apply schedule_reachable in Hs. destruct Hc as (Ha & Ho & Hb).
  destruct (failure_drops_buffer (λ _, []) RequestMsg (example_worker conf) 0 (example_task fs) fs false None w n
    UnexpectedEof []) as (Q & before & after & Hq & _ & Hd & Hf).
  - clear. by split.
  - done.
  - done.
  - clear. split; [done|]. by intros [].
  - by exists [lit "lost"; lit "kept"], None.
  - exact Hs.
  - exact Ha.
  - exact Ho.
  - exists Q, before, after. rewrite Hb in Hf. by rewrite Hq.
Defined.

Let strict : ExternalProcessingWorkerConfig := example_config Streamed 4 false false.

Lemma failure_aborts_witness :
  let w := example_start (Foreign := ()) strict fs in
  let p' := side RequestMsg (recover_or_failure (Timeout []) [] w) in
  ∃ code body, replies p' = [EndWithDirectResponse (Synthetic code body false)] ∧ code = 504%Z.
Proof.
  intros w p'. destruct (failure_aborts (Timeout []) [] w RequestMsg eq_refl) as [Hr _].
  destruct (Hr eq_refl) as (code & body & H1 & H2). by exists code, body.
Defined.

Lemma unreachable_processor_hangs_witness :
  let w := handle_task (example_task fs) (worker_new (Foreign := ()) conf (global_modes_from conf) [Unreachable]) in
  failure_mode_allow conf = true ∧ replies (side RequestMsg w) = [] ∧ ∀ e, enabled e w = true → ∃ t, e = ETask t.
Proof.
  destruct (unreachable_processor_hangs (Foreign := ()) conf (global_modes_from conf) [] (example_task fs)) as (_ & _ & Hr & He);
    try done.
Defined.

End examples.
End ExtProcSpec.
