(* ===== verification/ExtProcFilter.v ===== *)
(** The filter in front of the worker of an external processor
    (arion-lib/src/listeners/http_connection_manager/ext_proc.rs): the headers and
    the body that it hands over, and what it does with the status it gets. *)

From S2P Require Import Prelude RustStr Http StringMatch Fmt Body ChannelBody ExtProcMutation ExtProcModes ExtProcProcessing ExtProcWorker ExtProcSide ExtProcTransparent.
Import Http StringMatch Body ChannelBody ExtProcMutation ExtProcModes ExtProcProcessing ExtProcWorker ExtProcSide ExtProcTransparent.

Module ExtProcFilter.

(** [Limited::new(body, limit).collect()] of the crate http-body-util: the bytes
    and the trailers, or whether it failed because of the limit. *)
Class Collect `{HttpLib} (E : Type) : Type :=
  collect : Z → list (result E Frame) → result bool (str * option HeaderMap).

Class CollectSpec `{HL : HttpLib} (E : Type) (C : Collect E) : Prop := {
  collect_ok : ∀ limit fs bytes t, collect limit fs = Ok (bytes, t) →
    ∃ fs', fs = Ok <$> fs' ∧ bytes = data_of fs' ∧ (body_frames fs' → option_list t = trailers_of fs');
  collect_limit : ∀ limit fs, (limit < Z.of_nat (length (data_of fs)))%Z → collect limit (Ok <$> fs) = Err true;
}.

Section filter.
Context {HL : HttpLib} {RL : RegexLib} {HB : HttpBytes} {Foreign : Type}.
Context {C : Collect (BodyError Foreign)}.

Notation FrameResult := (result (BodyError Foreign) Frame).

Inductive FilterDecision : Type :=
  | Continue
  | Reroute
  | DirectResponse (r : DirectResponse).

(** The filter: the settings of its worker, what may be forwarded, and the modes. *)
Record ExternalProcessor : Type := mk_external_processor {
  worker_config : ExternalProcessingWorkerConfig;
  forward_rules : option HeaderForwardingRules;
  overridable : OverridableGlobalModes;
}.

(** [From<(ExternalProcessorConfig, Option<ExtProcPerRoute>, ...)>]. *)
Definition external_processor_from (c : ExternalProcessorConfig) (per_route : option ExtProcPerRoute)
    (ext : option ExternalProcessorConfigExt) : ExternalProcessor :=
  let wc := worker_config_from c per_route ext in
  mk_external_processor wc (config_forward_rules c) (global_modes_from wc).

Definition on_filter_error (f : ExternalProcessor) (msg : str) (status_code : option Z) : FilterDecision :=
  if failure_mode_allow (worker_config f) then Continue
  else DirectResponse (Synthetic (default 500%Z status_code) msg true).

(** ** Headers *)

Definition pseudo (name value : str) : ProtoHeader := mk_header name value [].

Definition pq_as_str (pq : PathAndQuery) : str :=
  pq_path pq ++ match pq_query pq with Some q => lit "?" ++ q | None => [] end.

Definition forwarded (f : ExternalProcessor) (h : HeaderMap) : list ProtoHeader :=
  proto_header <$> filter (λ nv, should_forward_header (forward_rules f) (name_as_str nv.1) = true) (header_iter h).

Definition request_headers (f : ExternalProcessor) (r : Request) : list ProtoHeader :=
  [pseudo METHOD (method r)] ++
  (pseudo SCHEME <$> option_list (scheme_str (uri r))) ++
  (pseudo AUTHORITY <$> option_list (authority (uri r))) ++
  [pseudo PATH (from_option pq_as_str (uri_path (uri r)) (path_and_query (uri r)))] ++
  forwarded f (headers r).

Definition response_headers_vec (f : ExternalProcessor) (r : Response) : list ProtoHeader :=
  pseudo STATUS (Fmt.fmt_dec (status r)) :: forwarded f (response_headers r).

(** ** The body *)

(** [to_buffered]: a body of one chunk, which is left out when it is empty, and
    the trailers. *)
Definition to_buffered (bytes : str) (t : option HeaderMap) : list Frame :=
  (if bool_decide (bytes = []) then [] else [Data bytes]) ++ (Trailers <$> option_list t).

Definition buffered_type (bytes : str) (t : option HeaderMap) : BodyType :=
  match bool_decide (0 < length bytes), from_option (λ t, bool_decide (keys t ≠ [])) false t with
  | true, true => TypeBodyAndTrailers
  | true, false => TypeBody
  | false, true => TypeTrailers
  | false, false => TypeEmpty
  end.

(** The bridge that is made for a body, or the decision when it cannot be
    collected; [what] is the kind of the message in the text of the error. *)
Definition prepare_bridge (f : ExternalProcessor) (modes : OverridableModes) (what : str) (body : list FrameResult)
    (ended : bool) : result FilterDecision (Bridge (E := BodyError Foreign)) :=
  if is_buffered (body_mode modes) then
    if ended then Ok (bridge_new body true (Some TypeEmpty))
    else
      match collect (max_receive_message_length (worker_config f)) body with
      | Ok (bytes, t) =>
        let frames := to_buffered bytes t in
        Ok (bridge_new (Ok <$> frames) (bool_decide (frames = [])) (Some (buffered_type bytes t)))
      | Err true => Err (on_filter_error f (what ++ lit " body: length limit exceeded") (Some 413%Z))
      | Err false => Err (on_filter_error f (lit "Error collecting " ++ what ++ lit " body") None)
      end
  else Ok (bridge_new body ended None).

(** What the message is left with: its own body, the one that the bridge feeds, or
    the empty body that [mem::take] leaves. *)
Inductive BodyLeft : Type := OwnBody | ChannelFed | EmptyBody.

Definition processes (m : OverridableModes) : bool :=
  should_process_headers m || should_process_body m || should_process_trailers m.

(** [apply_request_prepare_processing_data]. *)
Definition prepare_request (f : ExternalProcessor) (r : Request) (body : list FrameResult) (ended : bool)
    : result FilterDecision (ProcessingTask Foreign) * BodyLeft :=
  let modes := request (overridable f) in
  if negb (processes modes) then (Err Continue, OwnBody)
  else
    let hs := if should_process_headers modes then Some (request_headers f r) else None in
    match prepare_bridge f modes (lit "Request") body ended with
    | Ok b => (Ok (mk_task RequestMsg hs b None), ChannelFed)
    | Err d => (Err d, EmptyBody)
    end.

(** [apply_response_prepare_processing_data]; [endpoint] is the extension with the
    endpoint that served the response. *)
Definition prepare_response (f : ExternalProcessor) (r : Response) (endpoint : option str) (body : list FrameResult)
    (ended : bool) : result FilterDecision (ProcessingTask Foreign) * BodyLeft :=
  let modes := response (overridable f) in
  if negb (processes modes) then (Err Continue, OwnBody)
  else
    let hs := if should_process_headers modes then Some (response_headers_vec f r) else None in
    let served :=
      if should_process_headers modes && forward_served_endpoint (worker_config f) then endpoint else None in
    match prepare_bridge f modes (lit "Response") body ended with
    | Ok b => (Ok (mk_task ResponseMsg hs b served), ChannelFed)
    | Err d => (Err d, EmptyBody)
    end.

(** ** The status *)

Definition CONTENT_LENGTH : HeaderName := name_from_static (lit "content-length").

Definition apply_modification_on_request (f : ExternalProcessor) (r : Request) (s : ProcessingStatus)
    : Request * FilterDecision :=
  match s with
  | HaltedOnError => (r, Continue)
  | EndWithDirectResponse d => (r, DirectResponse d)
  | RequestReady ready =>
    let '(r, res) :=
      match headers_modifications ready with
      | Some m => apply_request_header_mutations (mutation_rules (worker_config f)) r m
      | None => (r, Ok ())
      end in
    match res with
    | Err _ => (r, on_filter_error f (lit "Invalid header modifications received from external processor") None)
    | Ok _ =>
      (mk_request (method r) (uri r) (header_remove (headers r) CONTENT_LENGTH),
       if ready_clear_route_cache ready then Reroute else Continue)
    end
  | ResponseReady _ =>
    (r, on_filter_error f (lit "Unexpected ResponseReady status received during request processing") None)
  end.

Definition apply_modification_on_response (f : ExternalProcessor) (r : Response) (s : ProcessingStatus)
    : Response * FilterDecision :=
  match s with
  | HaltedOnError => (r, Continue)
  | EndWithDirectResponse d => (r, DirectResponse d)
  | ResponseReady ready =>
    let '(r, res) :=
      match headers_modifications ready with
      | Some m => apply_response_header_mutations (mutation_rules (worker_config f)) r m
      | None => (r, Ok ())
      end in
    match res with
    | Err _ => (r, on_filter_error f (lit "Invalid header modifications received from external processor") None)
    | Ok _ =>
      (mk_response (status r) (header_remove (response_headers r) CONTENT_LENGTH),
       if ready_clear_route_cache ready then Reroute else Continue)
    end
  | RequestReady _ =>
    (r, on_filter_error f (lit "Unexpected RequestReady status received during response processing") None)
  end.

(** What comes back from the worker: the task could not be sent, the reply
    channel was dropped, or a status. *)
Inductive Reply : Type := NotScheduled | Dropped | Replied (s : ProcessingStatus).

(** [apply_request] after the message was prepared. *)
Definition finish_request (f : ExternalProcessor) (r : Request) (reply : Reply) : Request * FilterDecision :=
  match reply with
  | NotScheduled => (r, on_filter_error f (lit "Failed to schedule sending request data to external processor") None)
  | Dropped => (r, on_filter_error f (lit "External processor: RecvError(())") None)
  | Replied s => apply_modification_on_request f r s
  end.

Definition finish_response (f : ExternalProcessor) (r : Response) (reply : Reply) : Response * FilterDecision :=
  match reply with
  | NotScheduled => (r, on_filter_error f (lit "Failed to schedule sending response data to external processor") None)
  | Dropped => (r, on_filter_error f (lit "External processor response processing: RecvError(())") None)
  | Replied s => apply_modification_on_response f r s
  end.

(** ** Properties *)

Context `{!CollectSpec (BodyError Foreign) C}.

#[local] Instance ok_inj {E A} : Inj (=) (=) (@Ok E A).
Proof. by intros x y [= ->]. Qed.

Lemma to_buffered_honest bytes t :
  honest (bool_decide (to_buffered bytes t = [])) (Some (buffered_type bytes t)) (to_buffered bytes t) ∧
  body_frames (to_buffered bytes t) ∧ data_of (to_buffered bytes t) = bytes ∧
  trailers_of (to_buffered bytes t) = option_list t.
Proof.
  unfold to_buffered. split_and!.
  - split; [by intros ?%bool_decide_eq_true|]. unfold buffered_type. destruct bytes as [|c bytes]; [by exists t|].
    rewrite bool_decide_true by (simpl; lia). destruct (from_option _ false t); by intros [].
  - case_bool_decide; [by exists [], t|by exists [bytes], t].
  - rewrite data_of_app, data_of_trailers, app_nil_r. case_bool_decide as Hb; [by rewrite Hb|]. cbn. by rewrite app_nil_r.
  - rewrite trailers_of_app, trailers_of_trailers. by case_bool_decide.
Qed.

(** what the filter hands over is the body.  Whatever the modes, the bridge
    carries the bytes and the trailers of the body as data and then trailers, and
    what it says about the source is true: the worker can rely on it. *)
Theorem prepared_body f modes what fs ended b :
  body_frames fs → (ended = true → fs = []) →
  prepare_bridge f modes what (Ok <$> fs) ended = Ok b →
  ∃ fs' ended' body_type, b = bridge_new (Ok <$> fs') ended' body_type ∧ honest ended' body_type fs' ∧
    body_frames fs' ∧ data_of fs' = data_of fs ∧ trailers_of fs' = trailers_of fs.
Proof.
  intros Hf He. unfold prepare_bridge. destruct (is_buffered (body_mode modes)).
  - destruct ended.
    + intros [= <-]. rewrite He by done. exists [], true, (Some TypeEmpty). split_and!; try done; [|by exists [], None].
      split; [done|]. by exists None.
    + destruct (collect _ _) as [[bytes t]|[]] eqn:Hc; try done. intros [= <-].
      apply collect_ok in Hc as (fs1 & Hfs & -> & Ht). apply (inj (fmap Ok)) in Hfs as <-.
      destruct (to_buffered_honest (data_of fs) t) as (H1 & H2 & H3 & H4).
      eexists _, _, _. split; [done|]. rewrite H3, H4, Ht by done. done.
  - intros [= <-]. exists fs, ended, None. split_and!; try done. split; [done|]. by intros [].
Qed.

(** a body that is too large for a processor that may fail is lost.  The
    decision is to continue, but the body was taken out of the request: it goes on
    with an empty one. *)
Theorem oversized_body_lost f r fs :
  is_buffered (body_mode (request (overridable f))) = true → failure_mode_allow (worker_config f) = true →
  (max_receive_message_length (worker_config f) < Z.of_nat (length (data_of fs)))%Z →
  prepare_request f r (Ok <$> fs) false = (Err Continue, EmptyBody).
Proof.
  intros Hb Ha Hl. unfold prepare_request, prepare_bridge, processes.
  replace (should_process_body (request (overridable f))) with true
    by (unfold should_process_body; by destruct (body_mode (request (overridable f)))).
  rewrite orb_true_r, Hb, collect_limit by done. simpl. unfold on_filter_error. by rewrite Ha.
Qed.

End filter.

(** ** Witnesses *)

Section examples.
#[local] Existing Instances assoc_http no_regex assoc_bytes.

(** Bodies without errors are collected. *)
#[local] Instance collect_frames : Collect (BodyError ()) := λ limit fs,
  match mapM (λ f : result (BodyError ()) Frame, match f with Ok f => Some f | Err _ => None end) fs with
  | Some fs =>
    if bool_decide (limit < Z.of_nat (length (data_of fs)))%Z then Err true
    else Ok (data_of fs, head (trailers_of fs))
  | None => Err false
  end.

Lemma collect_mapM (fs : list (result (BodyError ()) Frame)) fs' :
  mapM (λ f, match f with Ok f => Some f | Err _ => None end) fs = Some fs' ↔ fs = Ok <$> fs'.
Proof.
  rewrite mapM_Some. split.
  - intros Hf. induction Hf as [|x y l l' Hxy Hl IH]; [done|]. rewrite fmap_cons, <-IH. destruct x; by simplify_eq.
  - intros ->. induction fs' as [|f fs' IH]; constructor; done.
Qed.

#[local] Instance collect_frames_spec : CollectSpec (BodyError ()) collect_frames.
Proof.
  split; unfold collect, collect_frames.
  - intros limit fs bytes t. destruct (mapM _ fs) as [fs'|] eqn:Hm; [|done]. apply collect_mapM in Hm as ->.
    case_bool_decide; [done|]. intros [= <- <-]. exists fs'. split_and!; try done.
    intros (ds & t & ->). rewrite trailers_of_app, trailers_of_data, trailers_of_trailers. by destruct t.
  - intros limit fs Hl. by rewrite (proj2 (collect_mapM _ fs)), bool_decide_true.
Qed.

Let f : ExternalProcessor :=
  let c := example_config Buffered 4 false true in
  mk_external_processor {| c with max_receive_message_length := 3 |} None (global_modes_from c).
Let r : Request := mk_request (lit "POST") (mk_uri None None None) [].

Lemma prepared_body_witness :
  ∃ b, prepare_bridge f (request (overridable f)) [] [Ok (Data (lit "a")); Ok (Data (lit "b"))] false = Ok b ∧
    ∃ fs' ended' body_type, b = bridge_new (Ok <$> fs') ended' body_type ∧ honest ended' body_type fs' ∧
      body_frames fs' ∧ data_of fs' = lit "ab" ∧ trailers_of fs' = [].
Proof.
  eexists. split; [reflexivity|].
  apply (prepared_body f (request (overridable f)) [] [Data (lit "a"); Data (lit "b")] false); try done.
  by exists [lit "a"; lit "b"], None.
Defined.

Lemma oversized_body_lost_witness : prepare_request f r [Ok (Data (lit "large"))] false = (Err Continue, EmptyBody).
Proof. by apply (oversized_body_lost f r [Data (lit "large")]). Defined.

End examples.
End ExtProcFilter.
