(* ===== verification/ExtProcObserve.v ===== *)
(** The worker in observability mode: whatever becomes of the external processor,
    the bodies pass unchanged. *)

From stdpp Require Import relations.
From S2P Require Import Prelude RustStr Http StringMatch Body ChannelBody ExtProcMutation ExtProcModes ExtProcProcessing ExtProcWorker ExtProcSide ExtProcTransparent.
Import Http StringMatch Body ChannelBody ExtProcMutation ExtProcModes ExtProcProcessing ExtProcWorker ExtProcSide ExtProcTransparent.

Module ExtProcObserve.

Section observe.
Context {HL : HttpLib} {RL : RegexLib} {HB : HttpBytes} {Foreign : Type}.

Notation Processing := (Processing Foreign).
Notation Worker := (Worker Foreign).

(** ** What concerns the body

    A lost connection may return a status at any time: two states agree if they
    differ in that only. *)

Record agrees (p q : Processing) : Prop := {
  ag_bridge : frame_bridge q = frame_bridge p;
  ag_buffer : frames_buffer q = frames_buffer p;
  ag_streaming : streaming_body_enabled q = streaming_body_enabled p;
  ag_eos : end_of_stream q = end_of_stream p;
  ag_parked : parked_trailers q = parked_trailers p;
}.

#[local] Instance agrees_preorder : PreOrder agrees.
Proof. split; [by split|]. intros p q r [] []. split; congruence. Qed.

Lemma agrees_return_status (p : Processing) s : agrees p (return_status p s).
Proof. unfold return_status. by destruct (reply_channel p). Qed.

Lemma agrees_inject p q f : agrees p q → agrees (inject p f) (inject q f).
Proof. intros [E1 E2 E3 E4 E5]. split; fields; congruence. Qed.

Lemma agrees_set_buffer p q b : agrees p q → agrees {| p with frames_buffer := b |} {| q with frames_buffer := b |}.
Proof. intros [E1 E2 E3 E4 E5]. by split. Qed.

Lemma agrees_buffer_end M p q : agrees p q → agrees (buffer_end_of_stream M p) (buffer_end_of_stream M q).
Proof.
  intros [E1 E2 E3 E4 E5]. unfold buffer_end_of_stream. rewrite E2, E4.
  destruct (should_process_body M && negb (end_of_stream p)), (should_process_trailers M); split; fields; congruence.
Qed.

(** A worker that observes, with a message that agrees with [p]. *)
Record obs (M : OverridableModes) (k : MessageKind) (w : Worker) (p : Processing) (c : bool) : Prop := mk_obs {
  obs_side : agrees p (side k w);
  obs_complete : complete k w = c;
  obs_modes : worker_modes k w = M;
  obs_mode : observability_mode (config w) = true;
}.

Lemma obs_on_side M k w p c f p' :
  obs M k w p c → (∀ q, agrees p q → agrees p' (f q)) → obs M k (on_side k f w) p' c.
Proof.
  intros [Hs Hc Hm Ho] Hf. destruct (on_side_rest k f w) as (Em & Ec & _ & _ & Ek).
  split; unfold worker_modes in *; rewrite ?Em, ?Ec, ?Ek, ?side_on_side; auto.
Qed.

Lemma obs_on_other M k k' w p c f : k ≠ k' → obs M k w p c → obs M k (on_side k' f w) p c.
Proof.
  intros Hne [Hs Hc Hm Ho]. destruct (on_side_rest k' f w) as (Em & Ec & _ & _ & Ek).
  split; unfold worker_modes in *; rewrite ?Em, ?Ec, ?Ek, ?side_on_other by done; auto.
Qed.

Lemma obs_timeout_off M k w p c : obs M k w p c → obs M k (timeout_off w) p c.
Proof. intros []. by split; destruct k. Qed.
Lemma obs_stop M k w p c : obs M k w p c → obs M k (stop w) p c.
Proof. intros []. by split; destruct k. Qed.
Lemma obs_set_complete M k w p c : obs M k w p c → obs M k (set_complete k w) p true.
Proof. intros []. by split; destruct k. Qed.
Lemma obs_set_complete_other M k k' w p c : k ≠ k' → obs M k w p c → obs M k (set_complete k' w) p c.
Proof. intros ? []. by split; destruct k, k'. Qed.

Lemma obs_forward M k w p c req : obs M k w p c → obs M k (forward_to_external_processor req w) p c.
Proof.
  intros [Hs Hc Hm Ho]. unfold forward_to_external_processor. cbv zeta.
  assert (∀ w', (∀ k, agrees (side k w) (side k w')) → (∀ k, complete k w' = complete k w) →
    overridable_modes w' = overridable_modes w → config w' = config w → obs M k w' p c) as H.
  { intros w' E1 E2 E3 E4. split; [etrans; [done|apply E1]|by rewrite E2|unfold worker_modes in *; by rewrite E3|by rewrite E4]. }
  cbn [connected]. destruct (connected w), (default Sent (head (network w)));
    apply H; try done; intros []; try done; apply agrees_return_status.
Qed.

(** ** Frames *)

Lemma obs_forward_chunk M k w p c f eos :
  obs M k w p c →
  obs M k (let '(req, q) := handle_outgoing_body_chunk k true f eos (side k w) in
           forward_to_external_processor req (on_side k (λ _, q) w)) p c.
Proof.
  intros Ho. destruct (handle_outgoing_body_chunk k true f eos (side k w)) as [req q] eqn:Hq.
  apply obs_forward. eapply obs_on_side; [done|]. intros _ _.
  destruct f; injection Hq as <- <-; [apply Ho|]. destruct (obs_side _ _ _ _ _ Ho). by split.
Qed.

Lemma obs_observe_frame M k w p c f : obs M k w p c → obs M k (observe_frame k f w) (inject p (Ok f)) c.
Proof.
  intros Ho. unfold observe_frame.
  assert (obs M k (on_side k (λ p, inject (return_status p (ready k)) (Ok f)) w) (inject p (Ok f)) c) as Ho'.
  { eapply obs_on_side; [done|]. intros q Hq. apply agrees_inject. by etrans; [|apply agrees_return_status]. }
  destruct (should_process_body _); [by apply obs_forward_chunk|done].
Qed.

Lemma obs_observe_last M k w p c f : obs M k w p c → obs M k (observe_last k f w) (inject p (Ok f)) c.
Proof.
  intros Ho. unfold observe_last.
  assert (obs M k (on_side k (λ p, inject p (Ok f)) w) (inject p (Ok f)) c) as Ho'.
  { eapply obs_on_side; [done|]. intros q Hq. by apply agrees_inject. }
  case_match; [by apply obs_forward_chunk|done].
Qed.

Fixpoint observe_flush_side (fuel : nat) (p : Processing) : Processing :=
  match fuel with
  | O => p
  | S fuel =>
    match take (frames_buffer p) with
    | (Some f, buffer) => observe_flush_side fuel (inject {| p with frames_buffer := buffer |} (Ok f))
    | (None, buffer) => {| p with frames_buffer := buffer |}
    end
  end.

Lemma obs_observe_flush fuel M k w p c :
  obs M k w p c → obs M k (observe_flush fuel k w) (observe_flush_side fuel p) c.
Proof.
  revert w p. induction fuel as [|fuel IH]; intros w p Ho; [done|]. cbn [observe_flush observe_flush_side].
  rewrite (ag_buffer _ _ (obs_side _ _ _ _ _ Ho)). destruct (take (frames_buffer p)) as [[f|] buffer].
  - apply IH, obs_observe_last. eapply obs_on_side; [done|]. intros q. apply agrees_set_buffer.
  - eapply obs_on_side; [done|]. intros q. apply agrees_set_buffer.
Qed.

Definition observe_ended_side (M : OverridableModes) (p : Processing) : Processing :=
  let p := observe_flush_side flush_fuel (buffer_end_of_stream M p) in
  set_streaming_body false (on_bridge (λ b, drain_and_close b [] (parked_trailers p)) {| p with parked_trailers := None |}).

Lemma obs_observe_ended M k w p c : obs M k w p c → obs M k (observe_ended k w) (observe_ended_side M p) true.
Proof.
  intros Ho. unfold observe_ended, observe_ended_side. apply obs_set_complete in Ho.
  rewrite (obs_modes _ _ _ _ _ Ho). apply obs_timeout_off.
  eapply obs_on_side.
  - apply obs_observe_flush. eapply obs_on_side; [done|]. intros q Hq. apply agrees_buffer_end.
    by etrans; [|apply agrees_return_status].
  - intros q [E1 E2 E3 E4 E5]. split; fields; congruence.
Qed.

Definition observed_side (M : OverridableModes) (now : Z) (p : Processing) : Processing * bool :=
  let '(next, bridge) := bridge_next (frame_bridge p) in
  let p := {| p with frame_bridge := bridge |} in
  match next with
  | Some (Ok frame) =>
    let '(to_send, buffer) := push (frames_buffer p) frame now (body_mode M) in
    let p := {| p with frames_buffer := buffer |} in
    (match to_send with Some f => inject p (Ok f) | None => p end, false)
  | Some (Err _) => (p, true)
  | None => (observe_ended_side M p, true)
  end.

Lemma obs_handle_observed M k w p c now :
  obs M k w p c → obs M k (handle_observed k now w) (observed_side M now p).1 (c || (observed_side M now p).2).
Proof.
  intros Ho. unfold handle_observed, observed_side. rewrite (ag_bridge _ _ (obs_side _ _ _ _ _ Ho)).
  destruct (bridge_next (frame_bridge p)) as [next bridge].
  assert (obs M k (on_side k (λ p, {| p with frame_bridge := bridge |}) w) {| p with frame_bridge := bridge |} c) as Ho'.
  { eapply obs_on_side; [done|]. intros q [E1 E2 E3 E4 E5]. by split. }
  destruct next as [[frame|e]|]; simpl.
  - rewrite (ag_buffer _ _ (obs_side _ _ _ _ _ Ho')), (obs_modes _ _ _ _ _ Ho'). fields.
    destruct (push (frames_buffer p) frame now (body_mode M)) as [to_send buffer]. simpl. rewrite orb_false_r.
    assert (obs M k (on_side k (λ p, {| p with frames_buffer := buffer |}) (on_side k (λ p, {| p with frame_bridge := bridge |}) w))
      {| p with frame_bridge := bridge; frames_buffer := buffer |} c) as Ho2.
    { eapply obs_on_side; [exact Ho'|]. intros q [E1 E2 E3 E4 E5]. by split. }
    destruct to_send; [by apply obs_observe_frame|done].
  - rewrite orb_true_r. by eapply obs_set_complete.
  - rewrite orb_true_r. by eapply obs_observe_ended.
Qed.

(** ** The invariant *)

Record observing (fs : list Frame) (p : Processing) (Q S : list Frame) (t : option HeaderMap) : Prop := {
  ob_bridge : open_bridge (frame_bridge p) Q S;
  ob_queue : trailers_of Q = [];
  ob_streaming : streaming_body_enabled p = true;
  ob_parked : parked_trailers p = None;
  ob_frames : body_frames S;
  ob_data : data_of Q ++ default [] (data_buffer (frames_buffer p)) ++ data_of S = data_of fs;
  ob_buffer : trailers_buffer (frames_buffer p) = Trailers <$> t;
  ob_trailers : option_list t ++ trailers_of S = trailers_of fs;
  ob_last : t ≠ None → S = [];
}.

Record passed (fs : list Frame) (p : Processing) (Q : list Frame) : Prop := {
  pa_bridge : closed_bridge (frame_bridge p) Q;
  pa_data : data_of Q = data_of fs;
  pa_trailers : trailers_of Q = trailers_of fs;
  pa_streaming : streaming_body_enabled p = false;
}.

Definition observed_inv (fs : list Frame) (p : Processing) (c : bool) : Prop :=
  (c = false ∧ ∃ Q S t, observing fs p Q S t) ∨ (∃ Q, passed fs p Q).

(** The frames in the buffer are injected, data first. *)
Lemma flush_observed p Q S db t :
  open_bridge (frame_bridge p) Q S → data_buffer (frames_buffer p) = db → trailers_buffer (frames_buffer p) = Trailers <$> t →
  let p' := observe_flush_side flush_fuel p in
  open_bridge (frame_bridge p') (Q ++ (Data <$> option_list db) ++ (Trailers <$> option_list t)) S ∧
  parked_trailers p' = parked_trailers p.
Proof.
  intros Ho Hd Ht. destruct p as [hh tr fb rc rp sw af st eos [db' tb' lm ct li wi] inf pk hr se]. fields. subst db' tb'.
  unfold flush_fuel. destruct db as [d|], t as [t|]; cbn -[bridge_inject]; unfold take; cbn -[bridge_inject];
    split; try done; rewrite ?app_nil_r; try done.
  - apply (open_inject _ _ _ (Data d)) in Ho as [Ho _]. apply (open_inject _ _ _ (Trailers t)) in Ho as [Ho _].
    by rewrite <-app_assoc in Ho.
  - by apply (open_inject _ _ _ (Data d)).
  - by apply (open_inject _ _ _ (Trailers t)).
Qed.

Lemma ended_observed M fs p Q t : observing fs p Q [] t → ∃ Q', passed fs (observe_ended_side M p) Q'.
Proof.
  intros [Hb Hq Hs Hpk Hf Hd Hbuf Ht Hl]. unfold observe_ended_side.
  destruct (buffer_end M p t Hpk Hbuf) as (db0 & tb0 & Hdb0 & Htb0 & Hdd & HT & HF & Eb & _ & _ & _ & Hone).
  set (p0 := buffer_end_of_stream M p) in *. rewrite <-Eb in Hb.
  destruct (flush_observed p0 Q [] db0 tb0 Hb Hdb0 Htb0) as [Ho Hp].
  set (p1 := observe_flush_side flush_fuel p0) in *.
  change (data_of []) with ([] : str) in Hd. change (trailers_of []) with ([] : list HeaderMap) in Ht.
  rewrite app_nil_r in Hd, Ht.
  assert (data_of (option_list (parked_trailers p1)) = [] ∧
    option_list tb0 ++ trailers_of (option_list (parked_trailers p1)) = option_list t) as [Hd1 Ht1].
  { rewrite Hp. destruct (should_process_trailers M); [destruct (HT eq_refl) as [-> ->]; by rewrite app_nil_r|].
    specialize (HF eq_refl). destruct Hone as [-> | E].
    - simpl in HF. rewrite HF. by destruct t.
    - rewrite E in *. destruct tb0, t; by simplify_eq/=. }
  eexists. split; fields; [by apply open_drain_and_close| | |done].
  - rewrite !data_of_app, data_of_data, data_of_trailers, Hd1, <-Hd, <-Hdd. simpl. rewrite !app_nil_r. f_equal.
    by destruct db0; simpl; rewrite ?app_nil_r.
  - by rewrite !trailers_of_app, Hq, trailers_of_data, trailers_of_trailers, <-Ht, <-Ht1.
Qed.

(** A frame moves to the buffer, and data may leave it. *)
Lemma push_observed M fs p Q f S t b' now :
  observing fs p Q (f :: S) t → open_bridge b' Q S →
  let r := push (frames_buffer p) f now (body_mode M) in
  let p' := {| p with frame_bridge := b'; frames_buffer := r.2 |} in
  ∃ Q' t', observing fs (match r.1 with Some g => inject p' (Ok g) | None => p' end) Q' S t'.
Proof.
  intros [Hb Hq Hs Hpk Hf Hd Hbuf Ht Hl] Hb'. assert (t = None) as -> by (destruct t; [by discriminate Hl|done]).
  assert (∀ (B : FramesBuffer) d t', data_buffer B = None → trailers_buffer B = Trailers <$> t' →
    option_list t' ++ trailers_of S = trailers_of fs → (t' ≠ None → S = []) → body_frames S →
    data_of Q ++ d ++ data_of S = data_of fs →
    observing fs (inject {| p with frame_bridge := b'; frames_buffer := B |} (Ok (Data d))) (Q ++ [Data d]) S t') as Hout.
  { intros B d t' HBd HBt H1 H2 H3 H4. split; fields; try done; [by apply open_inject| |].
    - by rewrite trailers_of_app, Hq.
    - rewrite HBd, data_of_app. cbn. by rewrite app_nil_r, <-app_assoc. }
  destruct f as [x|t]; cbn [push]; cbv zeta.
  - assert (data_buffer (merge (frames_buffer p) x) = Some (default [] (data_buffer (frames_buffer p)) ++ x) ∧
      trailers_buffer (merge (frames_buffer p) x) = None) as [Hmd Hmt].
    { unfold merge. rewrite Hbuf. by destruct (data_buffer (frames_buffer p)). }
    apply body_frames_data in Hf. cbn in Hd. destruct (negb (is_buffered (body_mode M)) && _); fields.
    + rewrite Hmd. eexists _, None. apply Hout; fields; try done. by rewrite <-app_assoc.
    + eexists Q, None. split; fields; try done. rewrite Hmd. simpl. by rewrite <-app_assoc.
  - pose proof (body_frames_trailers _ _ Hf) as ->. fields.
    destruct (is_buffered (body_mode M)); fields; [eexists Q, (Some t); by split; fields; [..|exists [], None| | | |]|].
    destruct (data_buffer (frames_buffer p)) as [d|] eqn:Hdb; simpl; fields.
    + eexists _, (Some t). apply Hout; fields; try done. by exists [], None.
    + eexists Q, (Some t). split; fields; try done. by exists [], None.
Qed.

Lemma observed_step M fs p now :
  observed_inv fs p false → streaming_body_enabled p = true →
  observed_inv fs (observed_side M now p).1 (observed_side M now p).2.
Proof.
  intros [(_ & Q & S & t & Ho)|[Q Hp]] Hs; [|destruct Hp; congruence]. unfold observed_side.
  destruct (open_next _ _ _ (ob_bridge _ _ _ _ _ Ho)) as (Hn & Hb & _).
  destruct (bridge_next (frame_bridge p)) as [next bridge]. simpl in Hn, Hb. subst next. destruct S as [|f S]; simpl.
  - right. apply (ended_observed _ _ _ Q t). destruct Ho. by split.
  - pose proof (push_observed M _ _ _ _ _ _ _ now Ho Hb) as Hp. cbv zeta in Hp. fields.
    destruct (push (frames_buffer p) f now (body_mode M)) as [to_send buffer]. left. split; [done|].
    destruct Hp as (Q' & t' & Hp). exists Q', S, t'. by destruct to_send.
Qed.

(** ** The other message *)

Lemma obs_forward_other M k k' w p c f eos :
  k ≠ k' → obs M k w p c →
  obs M k (let '(req, q) := handle_outgoing_body_chunk k' true f eos (side k' w) in
           forward_to_external_processor req (on_side k' (λ _, q) w)) p c.
Proof. intros Hne Ho. case_match. by apply obs_forward, obs_on_other. Qed.

Lemma obs_flush_other fuel M k k' w p c : k ≠ k' → obs M k w p c → obs M k (observe_flush fuel k' w) p c.
Proof.
  intros Hne. revert w. induction fuel as [|fuel IH]; intros w Ho; [done|]. cbn [observe_flush].
  destruct (take (frames_buffer (side k' w))) as [[f|] buffer]; [|by apply obs_on_other]. apply IH.
  unfold observe_last. case_match; [apply obs_forward_other; [done|]|]; by do 2 (apply obs_on_other; [done|]).
Qed.

Lemma obs_observed_other M k k' w p c now : k ≠ k' → obs M k w p c → obs M k (handle_observed k' now w) p c.
Proof.
  intros Hne Ho. unfold handle_observed.
  destruct (bridge_next (frame_bridge (side k' w))) as [[[frame|e]|] bridge].
  - destruct (push _ _ _ _) as [[f|] buffer]; [|by do 2 (apply obs_on_other; [done|])].
    unfold observe_frame. case_match; [apply obs_forward_other; [done|]|]; by do 3 (apply obs_on_other; [done|]).
  - by apply obs_set_complete_other, obs_on_other.
  - unfold observe_ended. apply obs_timeout_off. apply obs_on_other, obs_flush_other, obs_on_other, obs_set_complete_other; try done.
    by apply obs_on_other.
Qed.

Lemma obs_task_other M k w p c t : task_kind t ≠ k → obs M k w p c → obs M k (handle_task t w) p c.
Proof.
  intros Hne Ho. unfold handle_task. destruct (process _ _ _ _ _ _) as [[req|] q]; simpl;
    [apply obs_forward|]; apply obs_on_other; congruence || done.
Qed.

(** ** The worker *)

(** A step of the loop; the task of kind [k] was given before. *)
Inductive observed_loop (k : MessageKind) : Worker → Worker → Prop :=
  | ObservedTurn e w :
      running w = true → observed_enabled e w = true → (∀ t, e = OTask (Some t) → task_kind t ≠ k) →
      observed_loop k w (observed_turn e w).

Definition obs_inv (M : OverridableModes) (k : MessageKind) (fs : list Frame) (w : Worker) : Prop :=
  ∃ p c, obs M k w p c ∧ observed_inv fs p c.

Lemma observed_loop_inv M k fs w w' : obs_inv M k fs w → observed_loop k w w' → obs_inv M k fs w'.
Proof.
  intros Hi Hl. revert Hi. destruct Hl as [e w _ He Ht]. intros (p & c & Ho & Hi). destruct e as [[t|]|k' now|]; simpl.
  - exists p, c. split; [apply obs_task_other; [by apply Ht|done]|done].
  - exists p, c. split; [by apply obs_stop|done].
  - destruct (decide (k = k')) as [<-|Hne]; [|exists p, c; split; [by apply obs_observed_other|done]].
    simpl in He. unfold outbound_enabled in He. apply andb_true_iff in He as [Hs Hc].
    rewrite (obs_complete _ _ _ _ _ Ho) in Hc. apply negb_true_iff in Hc as ->.
    rewrite (ag_streaming _ _ (obs_side _ _ _ _ _ Ho)) in Hs.
    eexists _, _. split; [exact (obs_handle_observed _ _ _ _ _ now Ho)|]. by apply observed_step.
  - exists p, c. split; [by apply obs_stop|done].
Qed.

Lemma start_observing fs (p : Processing) bridge (p' : Processing) :
  fresh p → body_frames fs → open_bridge bridge [] fs →
  frame_bridge p' = bridge → frames_buffer p' = frames_buffer p → parked_trailers p' = parked_trailers p →
  streaming_body_enabled p' = true → observed_inv fs p' false.
Proof.
  intros [F1 F2 F3 [F4 F5] F6 F7] Hf Hb E1 E2 E3 E4. left. split; [done|]. exists [], fs, None.
  split; rewrite ?E1, ?E2, ?E3, ?F4, ?F5; done || by intros [].
Qed.

Lemma process_observed k M headers fs ended body_type p :
  fresh p → body_frames fs → honest ended body_type fs →
  observed_inv fs (process k true M headers (bridge_new (Ok <$> fs) ended body_type) p).2 false.
Proof.
  intros Hfr Hf Hho. destruct (bridge_new_facts (Foreign := Foreign) fs ended body_type Hho) as (Hb & _).
  set (b := bridge_new (Ok <$> fs) ended body_type) in *. unfold process.
  destruct (bool_decide (is_Some headers) && should_process_headers M) eqn:Hhd; [|destruct (_ && (_ || _)) eqn:Hbt]; cbv zeta; cbn [fst snd].
  - unfold process_headers. fields. destruct headers as [h|]; [|done]. destruct k; simpl; by eapply (start_observing fs p b).
  - apply andb_true_iff in Hbt as [Hs _]. unfold process_body_and_trailers, try_enable_streaming_body. fields. rewrite Hs.
    unfold return_status. fields. by eapply (start_observing fs p b).
  - right. exists fs. apply open_drain in Hb as [Hb _]. apply open_close in Hb as [Hb _].
    split; fields; try done. apply Hfr.
Qed.

Lemma task_observed k (w0 : Worker) t fs ended body_type :
  observability_mode (config w0) = true → complete k w0 = false → fresh (side k w0) → task_kind t = k →
  task_bridge t = bridge_new (Ok <$> fs) ended body_type → honest ended body_type fs → body_frames fs →
  obs_inv (worker_modes k w0) k fs (handle_task t w0).
Proof.
  intros Hm Hc Hfr Hk Ht Hho Hf. unfold handle_task. rewrite Hk, Ht, Hm.
  set (q := match k with RequestMsg => side k w0 | ResponseMsg => _ end).
  assert (fresh q) as Hq by (destruct k; [done|]; destruct Hfr; by split).
  pose proof (process_observed k (worker_modes k w0) (task_headers t) fs ended body_type q Hq Hf Hho) as Hinv.
  destruct (process _ _ _ _ _ _) as [req p']. simpl in Hinv. exists p', false. split; [|done].
  assert (obs (worker_modes k w0) k (on_side k (λ _, p') w0) p' false) as Ho.
  { eapply (obs_on_side _ _ _ (side k w0)); [|done]. by split. }
  destruct req; [by apply obs_forward|done].
Qed.

(** In observability mode a body passes unchanged.  Whatever becomes of the
    messages to the processor and whatever the other message does, what was
    injected carries a prefix of the bytes of the source; when the body is closed
    it carries all of them and the trailers; and it is closed once the worker takes
    no more frames from the source. *)
Theorem observability_transparent k (w0 : Worker) t fs ended body_type w :
  observability_mode (config w0) = true → complete k w0 = false → fresh (side k w0) → task_kind t = k →
  task_bridge t = bridge_new (Ok <$> fs) ended body_type → honest ended body_type fs → body_frames fs →
  rtc (observed_loop k) (handle_task t w0) w →
  let c := chan (frame_bridge (side k w)) in
  ∃ Q, queue c = Ok <$> Q ∧ data_of Q `prefix_of` data_of fs ∧
    (tx_open c = false → data_of Q = data_of fs ∧ trailers_of Q = trailers_of fs) ∧
    (outbound_enabled k w = false → tx_open c = false).
Proof.
  intros Hm Hcomp Hfr Hk Ht Hho Hf Hrtc c.
  assert (obs_inv (worker_modes k w0) k fs w) as (p & cc & Ho' & Hi).
  { eapply (rtc_ind_r (obs_inv (worker_modes k w0) k fs)); [|intros w1 w2 _ Hstep Hseen; by eapply observed_loop_inv|exact Hrtc].
    by eapply task_observed. }
  subst c. rewrite (ag_bridge _ _ (obs_side _ _ _ _ _ Ho')). unfold outbound_enabled.
  rewrite (ag_streaming _ _ (obs_side _ _ _ _ _ Ho')), (obs_complete _ _ _ _ _ Ho').
  destruct Hi as [(-> & Q & S & tb & [[_ _ Hc] _ Hs _ _ Hd _ _ _])|[Q [[_ Hc] Hd Htr Hs]]]; exists Q; rewrite Hc; simpl.
  - split_and!; [done|by eexists|done|]. by rewrite Hs.
  - split_and!; try done. by rewrite Hd.
Qed.

End observe.

(** ** Witness *)

Section examples.
#[local] Existing Instances assoc_http no_regex assoc_bytes.

Let conf : ExternalProcessingWorkerConfig := {| (example_config Streamed 4 false false) with observability_mode := true |}.
Let fs : list Frame := [Data (lit "a"); Data (lit "b")].

(** The connection cannot be made, is made and is lost. *)
Let w0 : Worker () := worker_new conf (global_modes_from conf) [Unreachable; Sent; Lost].
Let final : Worker () :=
  observed_turn (OFrame RequestMsg 0) (observed_turn (OFrame RequestMsg 0)
    (observed_turn (OFrame RequestMsg 0) (handle_task (example_task fs) w0))).

Lemma observability_transparent_witness :
  ∃ Q, queue (chan (frame_bridge (side RequestMsg final))) = Ok <$> Q ∧ data_of Q = lit "ab" ∧ trailers_of Q = [].
Proof.
  destruct (observability_transparent RequestMsg w0 (example_task fs) fs false None final) as (Q & Hq & _ & Hclosed & Hend).
  - reflexivity.
  - reflexivity.
  - by split.
  - reflexivity.
  - reflexivity.
  - split; [done|]. by intros [].
  - by exists [lit "a"; lit "b"], None.
  - do 3 (eapply rtc_l; [apply (ObservedTurn RequestMsg (OFrame RequestMsg 0)); [vm_compute; reflexivity..|by intros]|]).
    apply rtc_refl.
  - exists Q. assert (outbound_enabled RequestMsg final = false) as He by (vm_compute; reflexivity).
    destruct (Hclosed (Hend He)) as [Hd Ht]. split; [exact Hq|].
    rewrite Hd, Ht. split; reflexivity.
Defined.

End examples.
End ExtProcObserve.
