(* ===== verification/FormatGrammar.v ===== *)
(** The format strings of access logs and header values: operators and their
    table (arion-format/src/operator.rs), and the parser that splits a string
    into literals and placeholders (grammar.rs). *)

From S2P Require Import Prelude RustStr Http ExtProcMutation.
Import Http ExtProcMutation.

(** What is used of the crate ptrie. *)
Class TrieLib : Type := {
  Trie : Type → Type;
  trie_new : ∀ {V}, Trie V;
  trie_insert : ∀ {V}, Trie V → str → V → Trie V;
  trie_get : ∀ {V}, Trie V → str → option V;
  (** The value of the longest key that the text starts with. *)
  find_longest_prefix : ∀ {V}, Trie V → str → option V;
}.

Class TrieSpec (T : TrieLib) : Prop := {
  trie_get_new : ∀ V k, trie_get (@trie_new T V) k = None;
  trie_get_insert : ∀ V (t : Trie V) k v k',
    trie_get (trie_insert t k v) k' = if decide (k = k') then Some v else trie_get t k';
  find_longest_prefix_get : ∀ V (t : Trie V) s,
    find_longest_prefix t s = find_map (λ n, trie_get t (take n s)) (reverse (seq 0 (S (length s))));
}.

(** An instance for examples: the keys in order of insertion. *)
Definition assoc_trie_get {V} (t : list (str * V)) (k : str) : option V :=
  find_map (λ kv, if decide (kv.1 = k) then Some kv.2 else None) t.

Definition assoc_trie : TrieLib := {|
  Trie V := list (str * V);
  trie_new V := [];
  trie_insert V t k v := (k, v) :: t;
  trie_get V t k := assoc_trie_get t k;
  find_longest_prefix V t s := find_map (λ n, assoc_trie_get t (take n s)) (reverse (seq 0 (S (length s))));
|}.

Lemma assoc_trie_spec : TrieSpec assoc_trie.
Proof. split; [done| |done]. intros. simpl. unfold assoc_trie_get. simpl. by case_decide. Qed.

Module FormatGrammar.

(** ** Operators *)

(** [Category], a set of three bits. *)
Definition OPERATOR : Z := 1.
Definition ARGUMENT : Z := 2.
Definition UNSUPPORTED : Z := 4.
Definition category_contains (c flag : Z) : bool := bool_decide (Z.land c flag = flag).

Module Operator.
Inductive Operator : Type :=
  | RequestDuration | RequestHeadersBytes | RequestTxDuration | ResponseDuration | ResponseTxDuration
  | DownstreamHandshakeDuration | RoundtripDuration | BytesReceived | BytesRetransmitted
  | PacketsRetransmitted | UpstreamWireBytesReceived | UpstreamHeaderBytesReceived
  | DownstreamWireBytesReceived | DownstreamHeaderBytesReceived | Protocol | UpstreamProtocol | ResponseCode
  | ResponseCodeDetails | ResponseHeadersBytes | ConnectionTerminationDetails | BytesSent
  | UpstreamWireBytesSent | UpstreamHeaderBytesSent | DownstreamWireBytesSent | DownstreamHeaderBytesSent
  | Duration | CommonDuration | CustomFlags | ResponseFlags | ResponseFlagsLong | UpstreamHostName
  | UpstreamHostNameWithoutPort | UpstreamHost | UpstreamConnectionId | UpstreamCluster | UpstreamClusterRaw
  | UpstreamLocalAddress | UpstreamLocalAddressWithoutPort | UpstreamLocalPort | UpstreamRemoteAddress
  | UpstreamRemoteAddressWithoutPort | UpstreamRemotePort | UpstreamRequestAttemptCount | UpstreamTlsCipher
  | UpstreamTlsVersion | UpstreamTlsSessionId | UpstreamPeerIssuer | UpstreamPeerCert | UpstreamPeerSubject
  | DownstreamLocalAddress | DownstreamDirectLocalAddress | DownstreamLocalAddressWithoutPort
  | DownstreamDirectLocalAddressWithoutPort | DownstreamLocalPort | DownstreamDirectLocalPort
  | DownstreamRemoteAddress | DownstreamRemoteAddressWithoutPort | DownstreamRemotePort
  | DownstreamDirectRemoteAddress | DownstreamDirectRemoteAddressWithoutPort | DownstreamDirectRemotePort
  | ConnectionId | RequestedServerName | RouteName | UpstreamPeerUriSan | UpstreamPeerDnsSan
  | UpstreamPeerIpSan | UpstreamLocalUriSan | UpstreamLocalDnsSan | UpstreamLocalIpSan | DownstreamPeerUriSan
  | DownstreamPeerDnsSan | DownstreamPeerIpSan | DownstreamPeerEmailSan | DownstreamPeerOthernameSan
  | DownstreamLocalUriSan | DownstreamLocalDnsSan | DownstreamLocalIpSan | DownstreamLocalEmailSan
  | DownstreamLocalOthernameSan | DownstreamPeerSubject | DownstreamLocalSubject | DownstreamTlsSessionId
  | DownstreamTlsCipher | DownstreamTlsVersion | DownstreamPeerFingerprint256 | DownstreamPeerFingerprint1
  | DownstreamPeerSerial | DownstreamPeerChainFingerprints256 | DownstreamPeerChainFingerprints1
  | DownstreamPeerChainSerials | DownstreamPeerIssuer | DownstreamPeerCert | DownstreamTransportFailureReason
  | UpstreamTransportFailureReason | Hostname | FilterChainName | VirtualClusterName | TlsJa3Fingerprint
  | UniqueId | StreamId | TraceId | StartTime | StartTimeLocal | EmitTime | EmitTimeLocal | DynamicMetadata
  | ClusterMetadata | UpstreamMetadata | FilterState | UpstreamFilterState | DownstreamPeerCertVStart
  | DownstreamPeerCertVEnd | UpstreamPeerCertVStart | UpstreamPeerCertVEnd | Environment
  | UpstreamConnectionPoolReadyDuration | RequestScheme | RequestMethod | RequestPath
  | RequestOriginalPathOrPath | RequestAuthority | ResponseStatus
  | Request (h : str)
  | Response (h : str).
End Operator.
Notation Operator := Operator.Operator.

Inductive ReqArgument : Type :=
  | ArgScheme | ArgMethod | ArgPath | ArgOriginalPathOrPath | ArgAuthority
  | ReqHeader (h : str).

Inductive RespArgument : Type :=
  | ArgStatus
  | RespHeader (h : str).

(** The derived [Debug] of an operator; a name of a header needs no escapes. *)
Definition operator_debug (o : Operator) : str :=
  let quoted h := Str.byte 34 :: h ++ [Str.byte 34] in
  match o with
  | Operator.RequestDuration => lit "RequestDuration"
  | Operator.RequestHeadersBytes => lit "RequestHeadersBytes"
  | Operator.RequestTxDuration => lit "RequestTxDuration"
  | Operator.ResponseDuration => lit "ResponseDuration"
  | Operator.ResponseTxDuration => lit "ResponseTxDuration"
  | Operator.DownstreamHandshakeDuration => lit "DownstreamHandshakeDuration"
  | Operator.RoundtripDuration => lit "RoundtripDuration"
  | Operator.BytesReceived => lit "BytesReceived"
  | Operator.BytesRetransmitted => lit "BytesRetransmitted"
  | Operator.PacketsRetransmitted => lit "PacketsRetransmitted"
  | Operator.UpstreamWireBytesReceived => lit "UpstreamWireBytesReceived"
  | Operator.UpstreamHeaderBytesReceived => lit "UpstreamHeaderBytesReceived"
  | Operator.DownstreamWireBytesReceived => lit "DownstreamWireBytesReceived"
  | Operator.DownstreamHeaderBytesReceived => lit "DownstreamHeaderBytesReceived"
  | Operator.Protocol => lit "Protocol"
  | Operator.UpstreamProtocol => lit "UpstreamProtocol"
  | Operator.ResponseCode => lit "ResponseCode"
  | Operator.ResponseCodeDetails => lit "ResponseCodeDetails"
  | Operator.ResponseHeadersBytes => lit "ResponseHeadersBytes"
  | Operator.ConnectionTerminationDetails => lit "ConnectionTerminationDetails"
  | Operator.BytesSent => lit "BytesSent"
  | Operator.UpstreamWireBytesSent => lit "UpstreamWireBytesSent"
  | Operator.UpstreamHeaderBytesSent => lit "UpstreamHeaderBytesSent"
  | Operator.DownstreamWireBytesSent => lit "DownstreamWireBytesSent"
  | Operator.DownstreamHeaderBytesSent => lit "DownstreamHeaderBytesSent"
  | Operator.Duration => lit "Duration"
  | Operator.CommonDuration => lit "CommonDuration"
  | Operator.CustomFlags => lit "CustomFlags"
  | Operator.ResponseFlags => lit "ResponseFlags"
  | Operator.ResponseFlagsLong => lit "ResponseFlagsLong"
  | Operator.UpstreamHostName => lit "UpstreamHostName"
  | Operator.UpstreamHostNameWithoutPort => lit "UpstreamHostNameWithoutPort"
  | Operator.UpstreamHost => lit "UpstreamHost"
  | Operator.UpstreamConnectionId => lit "UpstreamConnectionId"
  | Operator.UpstreamCluster => lit "UpstreamCluster"
  | Operator.UpstreamClusterRaw => lit "UpstreamClusterRaw"
  | Operator.UpstreamLocalAddress => lit "UpstreamLocalAddress"
  | Operator.UpstreamLocalAddressWithoutPort => lit "UpstreamLocalAddressWithoutPort"
  | Operator.UpstreamLocalPort => lit "UpstreamLocalPort"
  | Operator.UpstreamRemoteAddress => lit "UpstreamRemoteAddress"
  | Operator.UpstreamRemoteAddressWithoutPort => lit "UpstreamRemoteAddressWithoutPort"
  | Operator.UpstreamRemotePort => lit "UpstreamRemotePort"
  | Operator.UpstreamRequestAttemptCount => lit "UpstreamRequestAttemptCount"
  | Operator.UpstreamTlsCipher => lit "UpstreamTlsCipher"
  | Operator.UpstreamTlsVersion => lit "UpstreamTlsVersion"
  | Operator.UpstreamTlsSessionId => lit "UpstreamTlsSessionId"
  | Operator.UpstreamPeerIssuer => lit "UpstreamPeerIssuer"
  | Operator.UpstreamPeerCert => lit "UpstreamPeerCert"
  | Operator.UpstreamPeerSubject => lit "UpstreamPeerSubject"
  | Operator.DownstreamLocalAddress => lit "DownstreamLocalAddress"
  | Operator.DownstreamDirectLocalAddress => lit "DownstreamDirectLocalAddress"
  | Operator.DownstreamLocalAddressWithoutPort => lit "DownstreamLocalAddressWithoutPort"
  | Operator.DownstreamDirectLocalAddressWithoutPort => lit "DownstreamDirectLocalAddressWithoutPort"
  | Operator.DownstreamLocalPort => lit "DownstreamLocalPort"
  | Operator.DownstreamDirectLocalPort => lit "DownstreamDirectLocalPort"
  | Operator.DownstreamRemoteAddress => lit "DownstreamRemoteAddress"
  | Operator.DownstreamRemoteAddressWithoutPort => lit "DownstreamRemoteAddressWithoutPort"
  | Operator.DownstreamRemotePort => lit "DownstreamRemotePort"
  | Operator.DownstreamDirectRemoteAddress => lit "DownstreamDirectRemoteAddress"
  | Operator.DownstreamDirectRemoteAddressWithoutPort => lit "DownstreamDirectRemoteAddressWithoutPort"
  | Operator.DownstreamDirectRemotePort => lit "DownstreamDirectRemotePort"
  | Operator.ConnectionId => lit "ConnectionId"
  | Operator.RequestedServerName => lit "RequestedServerName"
  | Operator.RouteName => lit "RouteName"
  | Operator.UpstreamPeerUriSan => lit "UpstreamPeerUriSan"
  | Operator.UpstreamPeerDnsSan => lit "UpstreamPeerDnsSan"
  | Operator.UpstreamPeerIpSan => lit "UpstreamPeerIpSan"
  | Operator.UpstreamLocalUriSan => lit "UpstreamLocalUriSan"
  | Operator.UpstreamLocalDnsSan => lit "UpstreamLocalDnsSan"
  | Operator.UpstreamLocalIpSan => lit "UpstreamLocalIpSan"
  | Operator.DownstreamPeerUriSan => lit "DownstreamPeerUriSan"
  | Operator.DownstreamPeerDnsSan => lit "DownstreamPeerDnsSan"
  | Operator.DownstreamPeerIpSan => lit "DownstreamPeerIpSan"
  | Operator.DownstreamPeerEmailSan => lit "DownstreamPeerEmailSan"
  | Operator.DownstreamPeerOthernameSan => lit "DownstreamPeerOthernameSan"
  | Operator.DownstreamLocalUriSan => lit "DownstreamLocalUriSan"
  | Operator.DownstreamLocalDnsSan => lit "DownstreamLocalDnsSan"
  | Operator.DownstreamLocalIpSan => lit "DownstreamLocalIpSan"
  | Operator.DownstreamLocalEmailSan => lit "DownstreamLocalEmailSan"
  | Operator.DownstreamLocalOthernameSan => lit "DownstreamLocalOthernameSan"
  | Operator.DownstreamPeerSubject => lit "DownstreamPeerSubject"
  | Operator.DownstreamLocalSubject => lit "DownstreamLocalSubject"
  | Operator.DownstreamTlsSessionId => lit "DownstreamTlsSessionId"
  | Operator.DownstreamTlsCipher => lit "DownstreamTlsCipher"
  | Operator.DownstreamTlsVersion => lit "DownstreamTlsVersion"
  | Operator.DownstreamPeerFingerprint256 => lit "DownstreamPeerFingerprint256"
  | Operator.DownstreamPeerFingerprint1 => lit "DownstreamPeerFingerprint1"
  | Operator.DownstreamPeerSerial => lit "DownstreamPeerSerial"
  | Operator.DownstreamPeerChainFingerprints256 => lit "DownstreamPeerChainFingerprints256"
  | Operator.DownstreamPeerChainFingerprints1 => lit "DownstreamPeerChainFingerprints1"
  | Operator.DownstreamPeerChainSerials => lit "DownstreamPeerChainSerials"
  | Operator.DownstreamPeerIssuer => lit "DownstreamPeerIssuer"
  | Operator.DownstreamPeerCert => lit "DownstreamPeerCert"
  | Operator.DownstreamTransportFailureReason => lit "DownstreamTransportFailureReason"
  | Operator.UpstreamTransportFailureReason => lit "UpstreamTransportFailureReason"
  | Operator.Hostname => lit "Hostname"
  | Operator.FilterChainName => lit "FilterChainName"
  | Operator.VirtualClusterName => lit "VirtualClusterName"
  | Operator.TlsJa3Fingerprint => lit "TlsJa3Fingerprint"
  | Operator.UniqueId => lit "UniqueId"
  | Operator.StreamId => lit "StreamId"
  | Operator.TraceId => lit "TraceId"
  | Operator.StartTime => lit "StartTime"
  | Operator.StartTimeLocal => lit "StartTimeLocal"
  | Operator.EmitTime => lit "EmitTime"
  | Operator.EmitTimeLocal => lit "EmitTimeLocal"
  | Operator.DynamicMetadata => lit "DynamicMetadata"
  | Operator.ClusterMetadata => lit "ClusterMetadata"
  | Operator.UpstreamMetadata => lit "UpstreamMetadata"
  | Operator.FilterState => lit "FilterState"
  | Operator.UpstreamFilterState => lit "UpstreamFilterState"
  | Operator.DownstreamPeerCertVStart => lit "DownstreamPeerCertVStart"
  | Operator.DownstreamPeerCertVEnd => lit "DownstreamPeerCertVEnd"
  | Operator.UpstreamPeerCertVStart => lit "UpstreamPeerCertVStart"
  | Operator.UpstreamPeerCertVEnd => lit "UpstreamPeerCertVEnd"
  | Operator.Environment => lit "Environment"
  | Operator.UpstreamConnectionPoolReadyDuration => lit "UpstreamConnectionPoolReadyDuration"
  | Operator.RequestScheme => lit "RequestScheme"
  | Operator.RequestMethod => lit "RequestMethod"
  | Operator.RequestPath => lit "RequestPath"
  | Operator.RequestOriginalPathOrPath => lit "RequestOriginalPathOrPath"
  | Operator.RequestAuthority => lit "RequestAuthority"
  | Operator.ResponseStatus => lit "ResponseStatus"
  | Operator.Request h => lit "Request(HeaderName(" ++ quoted h ++ lit "))"
  | Operator.Response h => lit "Response(HeaderName(" ++ quoted h ++ lit "))"
  end.

(** An entry of a table: the name, what it stands for, its category, its length
    and whether it has an argument. *)
Notation entry A := (str * (A * Z * nat * bool))%type (only parsing).

Definition op (name : string) (o : Operator) : entry Operator := (lit name, (o, OPERATOR, length (lit name), false)).
Definition op_arg (name : string) (o : Operator) : entry Operator := (lit name, (o, OPERATOR, length (lit name), true)).
Definition op_unsupported (name : string) (o : Operator) : entry Operator :=
  (lit name, (o, UNSUPPORTED, length (lit name), false)).
Definition argument {A} (name : string) (a : A) : entry A := (lit name, (a, ARGUMENT, length (lit name), false)).

Definition REQ_ARGS : list (entry ReqArgument) := [
  argument ":SCHEME" ArgScheme;
  argument ":scheme" ArgScheme;
  argument ":METHOD" ArgMethod;
  argument ":method" ArgMethod;
  argument ":PATH" ArgPath;
  argument ":path" ArgPath;
  argument ":AUTHORITY" ArgAuthority;
  argument ":authority" ArgAuthority;
  argument "X-ENVOY-ORIGINAL-PATH?:PATH" ArgOriginalPathOrPath].

Definition RESP_ARGS : list (entry RespArgument) := [argument ":STATUS" ArgStatus; argument ":status" ArgStatus].

Definition OPERATORS : list (entry Operator) := [
  op "REQUEST_DURATION" Operator.RequestDuration;
  op "REQUEST_TX_DURATION" Operator.RequestTxDuration;
  op "RESPONSE_DURATION" Operator.ResponseDuration;
  op "TIME_TO_FIRST_BYTE" Operator.ResponseDuration;
  op "RESPONSE_TX_DURATION" Operator.ResponseTxDuration;
  op_unsupported "DOWNSTREAM_HANDSHAKE_DURATION" Operator.DownstreamHandshakeDuration;
  op_unsupported "ROUNDTRIP_DURATION" Operator.RoundtripDuration;
  op "BYTES_RECEIVED" Operator.BytesReceived;
  op_unsupported "BYTES_RETRANSMITTED" Operator.BytesRetransmitted;
  op_unsupported "PACKETS_RETRANSMITTED" Operator.PacketsRetransmitted;
  op_unsupported "UPSTREAM_WIRE_BYTES_RECEIVED" Operator.UpstreamWireBytesReceived;
  op_unsupported "UPSTREAM_HEADER_BYTES_RECEIVED" Operator.UpstreamHeaderBytesReceived;
  op "DOWNSTREAM_WIRE_BYTES_RECEIVED" Operator.DownstreamWireBytesReceived;
  op_unsupported "DOWNSTREAM_HEADER_BYTES_RECEIVED" Operator.DownstreamHeaderBytesReceived;
  op "PROTOCOL" Operator.Protocol;
  op "UPSTREAM_PROTOCOL" Operator.UpstreamProtocol;
  op "RESPONSE_CODE" Operator.ResponseCode;
  op "RESPONSE_CODE_DETAILS" Operator.ResponseCodeDetails;
  op "CONNECTION_TERMINATION_DETAILS" Operator.ConnectionTerminationDetails;
  op "BYTES_SENT" Operator.BytesSent;
  op_unsupported "UPSTREAM_WIRE_BYTES_SENT" Operator.UpstreamWireBytesSent;
  op_unsupported "UPSTREAM_HEADER_BYTES_SENT" Operator.UpstreamHeaderBytesSent;
  op "DOWNSTREAM_WIRE_BYTES_SENT" Operator.DownstreamWireBytesSent;
  op_unsupported "DOWNSTREAM_HEADER_BYTES_SENT" Operator.DownstreamHeaderBytesSent;
  op "DURATION" Operator.Duration;
  op_unsupported "COMMON_DURATION" Operator.CommonDuration;
  op_unsupported "CUSTOM_FLAGS" Operator.CustomFlags;
  op "RESPONSE_FLAGS" Operator.ResponseFlags;
  op "RESPONSE_FLAGS_LONG" Operator.ResponseFlagsLong;
  op "UPSTREAM_HOST_NAME" Operator.UpstreamHostName;
  op "UPSTREAM_HOST_NAME_WITHOUT_PORT" Operator.UpstreamHostNameWithoutPort;
  op "UPSTREAM_HOST" Operator.UpstreamHost;
  op "UPSTREAM_CONNECTION_ID" Operator.UpstreamConnectionId;
  op "UPSTREAM_CLUSTER" Operator.UpstreamCluster;
  op "UPSTREAM_CLUSTER_RAW" Operator.UpstreamClusterRaw;
  op "UPSTREAM_LOCAL_ADDRESS" Operator.UpstreamLocalAddress;
  op "UPSTREAM_LOCAL_ADDRESS_WITHOUT_PORT" Operator.UpstreamLocalAddressWithoutPort;
  op "UPSTREAM_LOCAL_PORT" Operator.UpstreamLocalPort;
  op "UPSTREAM_REMOTE_ADDRESS" Operator.UpstreamRemoteAddress;
  op "UPSTREAM_REMOTE_ADDRESS_WITHOUT_PORT" Operator.UpstreamRemoteAddressWithoutPort;
  op "UPSTREAM_REMOTE_PORT" Operator.UpstreamRemotePort;
  op "DOWNSTREAM_LOCAL_ADDRESS" Operator.DownstreamLocalAddress;
  op "DOWNSTREAM_LOCAL_ADDRESS_WITHOUT_PORT" Operator.DownstreamLocalAddressWithoutPort;
  op "DOWNSTREAM_LOCAL_PORT" Operator.DownstreamLocalPort;
  op "DOWNSTREAM_REMOTE_ADDRESS" Operator.DownstreamRemoteAddress;
  op "DOWNSTREAM_REMOTE_ADDRESS_WITHOUT_PORT" Operator.DownstreamRemoteAddressWithoutPort;
  op "DOWNSTREAM_REMOTE_PORT" Operator.DownstreamRemotePort;
  op_unsupported "UPSTREAM_REQUEST_ATTEMPT_COUNT" Operator.UpstreamRequestAttemptCount;
  op_unsupported "UPSTREAM_TLS_CIPHER" Operator.UpstreamTlsCipher;
  op_unsupported "UPSTREAM_TLS_VERSION" Operator.UpstreamTlsVersion;
  op_unsupported "UPSTREAM_TLS_SESSION_ID" Operator.UpstreamTlsSessionId;
  op_unsupported "UPSTREAM_PEER_ISSUER" Operator.UpstreamPeerIssuer;
  op_unsupported "UPSTREAM_PEER_CERT" Operator.UpstreamPeerCert;
  op_unsupported "UPSTREAM_PEER_SUBJECT" Operator.UpstreamPeerSubject;
  op_unsupported "DOWNSTREAM_DIRECT_LOCAL_ADDRESS" Operator.DownstreamDirectLocalAddress;
  op_unsupported "DOWNSTREAM_DIRECT_LOCAL_ADDRESS_WITHOUT_PORT" Operator.DownstreamDirectLocalAddressWithoutPort;
  op_unsupported "DOWNSTREAM_DIRECT_LOCAL_PORT" Operator.DownstreamDirectLocalPort;
  op_unsupported "DOWNSTREAM_DIRECT_REMOTE_ADDRESS" Operator.DownstreamDirectRemoteAddress;
  op_unsupported "DOWNSTREAM_DIRECT_REMOTE_ADDRESS_WITHOUT_PORT" Operator.DownstreamDirectRemoteAddressWithoutPort;
  op_unsupported "DOWNSTREAM_DIRECT_REMOTE_PORT" Operator.DownstreamDirectRemotePort;
  op "CONNECTION_ID" Operator.ConnectionId;
  op "REQUEST_HEADERS_BYTES" Operator.RequestHeadersBytes;
  op "RESPONSE_HEADERS_BYTES" Operator.ResponseHeadersBytes;
  op "REQUESTED_SERVER_NAME" Operator.RequestedServerName;
  op "ROUTE_NAME" Operator.RouteName;
  op_unsupported "UPSTREAM_PEER_URI_SAN" Operator.UpstreamPeerUriSan;
  op_unsupported "UPSTREAM_PEER_DNS_SAN" Operator.UpstreamPeerDnsSan;
  op_unsupported "UPSTREAM_PEER_IP_SAN" Operator.UpstreamPeerIpSan;
  op_unsupported "UPSTREAM_LOCAL_URI_SAN" Operator.UpstreamLocalUriSan;
  op_unsupported "UPSTREAM_LOCAL_DNS_SAN" Operator.UpstreamLocalDnsSan;
  op_unsupported "UPSTREAM_LOCAL_IP_SAN" Operator.UpstreamLocalIpSan;
  op_unsupported "DOWNSTREAM_PEER_URI_SAN" Operator.DownstreamPeerUriSan;
  op_unsupported "DOWNSTREAM_PEER_DNS_SAN" Operator.DownstreamPeerDnsSan;
  op_unsupported "DOWNSTREAM_PEER_IP_SAN" Operator.DownstreamPeerIpSan;
  op_unsupported "DOWNSTREAM_PEER_EMAIL_SAN" Operator.DownstreamPeerEmailSan;
  op_unsupported "DOWNSTREAM_PEER_OTHERNAME_SAN" Operator.DownstreamPeerOthernameSan;
  op_unsupported "DOWNSTREAM_LOCAL_URI_SAN" Operator.DownstreamLocalUriSan;
  op_unsupported "DOWNSTREAM_LOCAL_DNS_SAN" Operator.DownstreamLocalDnsSan;
  op_unsupported "DOWNSTREAM_LOCAL_IP_SAN" Operator.DownstreamLocalIpSan;
  op_unsupported "DOWNSTREAM_LOCAL_EMAIL_SAN" Operator.DownstreamLocalEmailSan;
  op_unsupported "DOWNSTREAM_LOCAL_OTHERNAME_SAN" Operator.DownstreamLocalOthernameSan;
  op_unsupported "DOWNSTREAM_PEER_SUBJECT" Operator.DownstreamPeerSubject;
  op_unsupported "DOWNSTREAM_LOCAL_SUBJECT" Operator.DownstreamLocalSubject;
  op_unsupported "DOWNSTREAM_TLS_SESSION_ID" Operator.DownstreamTlsSessionId;
  op_unsupported "DOWNSTREAM_TLS_CIPHER" Operator.DownstreamTlsCipher;
  op_unsupported "DOWNSTREAM_TLS_VERSION" Operator.DownstreamTlsVersion;
  op_unsupported "DOWNSTREAM_PEER_FINGERPRINT_256" Operator.DownstreamPeerFingerprint256;
  op_unsupported "DOWNSTREAM_PEER_FINGERPRINT_1" Operator.DownstreamPeerFingerprint1;
  op_unsupported "DOWNSTREAM_PEER_SERIAL" Operator.DownstreamPeerSerial;
  op_unsupported "DOWNSTREAM_PEER_CHAIN_FINGERPRINTS_256" Operator.DownstreamPeerChainFingerprints256;
  op_unsupported "DOWNSTREAM_PEER_CHAIN_FINGERPRINTS_1" Operator.DownstreamPeerChainFingerprints1;
  op_unsupported "DOWNSTREAM_PEER_CHAIN_SERIALS" Operator.DownstreamPeerChainSerials;
  op_unsupported "DOWNSTREAM_PEER_ISSUER" Operator.DownstreamPeerIssuer;
  op_unsupported "DOWNSTREAM_PEER_CERT" Operator.DownstreamPeerCert;
  op_unsupported "DOWNSTREAM_TRANSPORT_FAILURE_REASON" Operator.DownstreamTransportFailureReason;
  op "UPSTREAM_TRANSPORT_FAILURE_REASON" Operator.UpstreamTransportFailureReason;
  op_unsupported "HOSTNAME" Operator.Hostname;
  op_unsupported "FILTER_CHAIN_NAME" Operator.FilterChainName;
  op_unsupported "VIRTUAL_CLUSTER_NAME" Operator.VirtualClusterName;
  op_unsupported "TLS_JA3_FINGERPRINT" Operator.TlsJa3Fingerprint;
  op "UNIQUE_ID" Operator.UniqueId;
  op "TRACE_ID" Operator.TraceId;
  op_unsupported "STREAM_ID" Operator.StreamId;
  op "START_TIME" Operator.StartTime;
  op_unsupported "START_TIME_LOCAL" Operator.StartTimeLocal;
  op_unsupported "EMIT_TIME" Operator.EmitTime;
  op_unsupported "EMIT_TIME_LOCAL" Operator.EmitTimeLocal;
  op_unsupported "DYNAMIC_METADATA" Operator.DynamicMetadata;
  op_unsupported "CLUSTER_METADATA" Operator.ClusterMetadata;
  op_unsupported "UPSTREAM_METADATA" Operator.UpstreamMetadata;
  op_unsupported "FILTER_STATE" Operator.FilterState;
  op_unsupported "UPSTREAM_FILTER_STATE" Operator.UpstreamFilterState;
  op_unsupported "DOWNSTREAM_PEER_CERT_V_START" Operator.DownstreamPeerCertVStart;
  op_unsupported "DOWNSTREAM_PEER_CERT_V_END" Operator.DownstreamPeerCertVEnd;
  op_unsupported "UPSTREAM_PEER_CERT_V_START" Operator.UpstreamPeerCertVStart;
  op_unsupported "UPSTREAM_PEER_CERT_V_END" Operator.UpstreamPeerCertVEnd;
  op_unsupported "ENVIRONMENT" Operator.Environment;
  op_unsupported "UPSTREAM_CONNECTION_POOL_READY_DURATION" Operator.UpstreamConnectionPoolReadyDuration;
  op_arg "REQ" (Operator.Request (lit "name"));
  op_arg "RESP" (Operator.Response (lit "name"))].

(** ** Templates *)

Inductive FormatError : Type :=
  | InvalidOperator (s : str)
  | UnsupportedOperator (s : str)
  | MissingArgument (s : str)
  | MissingBracket (s : str)
  | MissingDelimiter (s : str)
  | EmptyArgument (s : str)
  | InvalidRequestArg (s : str)
  | InvalidResponseArg (s : str)
  | InvalidCustomOperator (s : str).

(** A [char] is the bytes of its encoding. *)
Inductive Template : Type :=
  | Char (c : str)
  | Literal (s : str)
  | Placeholder (o : Operator) (category : Z)
  | Custom (name : str).

Definition is_placeholder (t : Template) : bool :=
  match t with Placeholder _ _ | Custom _ => true | _ => false end.

Definition is_unsupported (t : Template) : bool :=
  match t with Placeholder _ category => category_contains category UNSUPPORTED | _ => false end.

(** [Display] of a template. *)
Definition template_fmt (t : Template) : str :=
  match t with Char s | Literal s | Custom s => s | Placeholder o _ => operator_debug o end.

(** ** The parser *)

Definition percent : Ascii.ascii := Str.byte 37.
Definition space : Ascii.ascii := Str.byte 32.
Definition lparen : Ascii.ascii := Str.byte 40.
Definition rparen : Ascii.ascii := Str.byte 41.

(** [char::len_utf8] of the character that starts with this byte. *)
Definition len_utf8 (c : Ascii.ascii) : nat :=
  let n := Ascii.N_of_ascii c in
  if (n <? 128)%N then 1 else if (n <? 224)%N then 2 else if (n <? 240)%N then 3 else 4.

(** [chars().count()]: the bytes that start a character. *)
Definition chars_count (s : str) : nat := length (filter (λ c, Str.is_continuation c = false) s).

(** [str::find] with a set of one-byte characters. *)
Definition find_any (s cs : str) : option nat := fst <$> list_find (λ c, c ∈ cs) s.

(** [replace] of two per cent signs by one. *)
Fixpoint replace_percents (s : str) : str :=
  match s with
  | [] => []
  | c :: s' =>
    match s' with
    | d :: s'' => if bool_decide (c = percent ∧ d = percent) then percent :: replace_percents s'' else c :: replace_percents s'
    | [] => [c]
    end
  end.

Section grammar.
Context {HL : HttpLib} {HB : HttpBytes} {TL : TrieLib}.

Definition trie_of {A} (l : list (entry A)) : Trie (A * Z * nat * bool) :=
  foldl (λ t e, trie_insert t e.1 e.2) trie_new l.

Definition ENVOY_REQ_ARGS := trie_of REQ_ARGS.
Definition ENVOY_RESP_ARGS := trie_of RESP_ARGS.
Definition ENVOY_OPERATORS := trie_of OPERATORS.

Definition parse_request (arg : str) : result FormatError ReqArgument :=
  match find_longest_prefix ENVOY_REQ_ARGS arg with
  | Some (t, _, _, _) => Ok t
  | None =>
    match name_from_bytes arg with
    | Some valid_name => Ok (ReqHeader (name_as_str valid_name))
    | None => Err (InvalidRequestArg arg)
    end
  end.

Definition parse_response (arg : str) : result FormatError RespArgument :=
  match find_longest_prefix ENVOY_RESP_ARGS arg with
  | Some (t, _, _, _) => Ok t
  | None =>
    match name_from_bytes arg with
    | Some valid_name => Ok (RespHeader (name_as_str valid_name))
    | None => Err (InvalidResponseArg arg)
    end
  end.

(** The argument, and its length with the brackets. *)
Definition extract_operator_arg (input : str) : result FormatError (str * nat) :=
  match Str.strip_prefix_char input lparen ≫= λ rest, find_any rest [rparen] ≫= λ e, Some (take e rest, e) with
  | Some (arg, e) => if bool_decide (arg = []) then Err (EmptyArgument input) else Ok (arg, e + 2)
  | None => Err (MissingBracket input)
  end.

Definition req_operator (a : ReqArgument) : Operator :=
  match a with
  | ArgScheme => Operator.RequestScheme
  | ArgMethod => Operator.RequestMethod
  | ArgPath => Operator.RequestPath
  | ArgOriginalPathOrPath => Operator.RequestOriginalPathOrPath
  | ArgAuthority => Operator.RequestAuthority
  | ReqHeader h => Operator.Request h
  end.

Definition resp_operator (a : RespArgument) : Operator :=
  match a with ArgStatus => Operator.ResponseStatus | RespHeader h => Operator.Response h end.

(** [remainder.split_once('%')], or all of it. *)
Definition invalid_operator (remainder : str) : FormatError :=
  InvalidOperator (match Str.split_once_char remainder percent with Some (operator, _) => operator | None => remainder end).

Definition operator_text (remainder : str) : str :=
  match find_any remainder [space; percent; lparen] with Some index => take index remainder | None => remainder end.

(** The operator with its argument. *)
Definition with_argument (placeholder : Operator) (arg : str) : result FormatError (option Operator) :=
  match placeholder with
  | Operator.Request _ => a ← parse_request arg; Ok (Some (req_operator a))
  | Operator.Response _ => a ← parse_response arg; Ok (Some (resp_operator a))
  | _ => Ok None
  end.

(** [CUSTOM_OPERATORS]: nothing before it is set. *)
Context (custom : option (gset str)).

(** What is found at the per cent sign before [remainder]: a placeholder, if any,
    and how many bytes to skip. *)
Definition scan_percent (remainder : str) : result FormatError (option Template * nat) :=
  if Str.starts_with remainder [percent] then Ok (None, 2)
  else
    match find_longest_prefix ENVOY_OPERATORS remainder with
    | Some (placeholder, category, placeholder_len, has_arg) =>
      if negb (bool_decide (length (operator_text remainder) = placeholder_len)) then Err (invalid_operator remainder)
      else
        let after_placeholder := drop placeholder_len remainder in
        if has_arg : bool then
          '(arg_value, arg_len) ← extract_operator_arg after_placeholder;
          found ← with_argument placeholder arg_value;
          if Str.starts_with (drop arg_len after_placeholder) [percent]
          then Ok ((λ o, Placeholder o category) <$> (found : option Operator), 2 + placeholder_len + arg_len)
          else Err (MissingDelimiter (take placeholder_len remainder))
        else if Str.starts_with after_placeholder [percent]
        then Ok (Some (Placeholder placeholder category), 2 + placeholder_len)
        else Err (MissingDelimiter (take placeholder_len remainder))
    | None =>
      match find_any remainder [percent] with
      | Some index =>
        let custom_operator := take index remainder in
        if from_option (λ ops : gset str, bool_decide (custom_operator ∈ ops)) false custom
        then Ok (Some (Custom custom_operator), 2 + length custom_operator)
        else Err (invalid_operator remainder)
      | None => Err (invalid_operator remainder)
      end
    end.

Definition scan (c : Ascii.ascii) (remainder : str) : result FormatError (option Template * nat) :=
  if bool_decide (c = percent) then scan_percent remainder else Ok (None, len_utf8 c).

Definition literal_template (s : str) : Template := if bool_decide (chars_count s = 1) then Char s else Literal s.

Definition push_literal (parts : list Template) (literal : str) : list Template :=
  if bool_decide (literal = []) then parts else parts ++ [literal_template literal].

(** The loop: [literal] is [input[literal_start..i]], [rest] is [input[i..]]. *)
Fixpoint parse_loop (fuel : nat) (literal rest : str) (parts : list Template) : result FormatError (list Template) :=
  match rest, fuel with
  | c :: remainder, S fuel =>
    '(found, skip) ← scan c remainder;
    match found with
    | Some t => parse_loop fuel [] (drop skip rest) (push_literal parts literal ++ [t])
    | None => parse_loop fuel (literal ++ take skip rest) (drop skip rest) parts
    end
  | _, _ =>
    Ok (if bool_decide (literal = []) then parts else parts ++ [literal_template (replace_percents literal)])
  end.

(** Every turn takes a byte at least. *)
Definition parse (input : str) : result FormatError (list Template) := parse_loop (length input) [] input [].

End grammar.

(** [set_custom_operators]: the first set that is accepted stays. *)
Definition set_custom_operators {TL : TrieLib} (custom_ops : list str) (current : option (gset str))
    : result FormatError (option (gset str)) :=
  let check (op : str) :=
    if Str.contains_char op percent || Str.contains_char op space
    then Some (InvalidCustomOperator (lit "cannot contain '%' or whitespace"))
    else if trie_get ENVOY_OPERATORS op
    then Some (InvalidCustomOperator (op ++ lit " conflicts with built-in operator")) else None in
  match find_map check custom_ops with
  | Some e => Err e
  | None => Ok (Some (default (list_to_set custom_ops) current))
  end.

End FormatGrammar.

(** What the parser of format strings accepts: exactly the texts of a small
    grammar, and what it makes of them. *)

Import Http ExtProcMutation FormatGrammar.

Module FormatGrammarSpec.

#[local] Arguments Str.starts_with : simpl never.
#[local] Arguments percent : simpl never.
#[local] Arguments space : simpl never.
#[local] Arguments lparen : simpl never.
#[local] Arguments rparen : simpl never.

(** ** Tries as lists of entries *)

Definition assoc {V} (l : list (str * V)) (k : str) : option V :=
  find_map (λ e, if decide (e.1 = k) then Some e.2 else None) l.

Lemma assoc_cons {V} (e : str * V) l k :
  assoc (e :: l) k = if decide (e.1 = k) then Some e.2 else assoc l k.
Proof. unfold assoc. cbn. by case_decide. Qed.

Lemma assoc_elem {V} (l : list (str * V)) k v : assoc l k = Some v → (k, v) ∈ l.
Proof. unfold assoc. intros (l1 & [k' v'] & l2 & -> & He & _)%find_map_Some. simpl in He. case_decide; simplify_eq. set_solver. Qed.

Lemma find_map_down {V} (f : nat → option V) n v :
  find_map f (reverse (seq 0 n)) = Some v ↔ ∃ i, i < n ∧ f i = Some v ∧ ∀ j, i < j < n → f j = None.
Proof.
  induction n as [|n IH].
  { split; [done|]. intros (? & ? & _). lia. }
  rewrite seq_S, reverse_snoc. cbn. destruct (f n) as [w|] eqn:Hf.
  - split.
    + intros [= ->]. exists n. split_and!; [lia|done|lia].
    + intros (i & Hi & Hv & Hj). destruct (decide (i = n)) as [->|]; [congruence|]. rewrite Hj in Hf; [done|lia].
  - rewrite IH. split; intros (i & Hi & Hv & Hj); exists i; split_and!; try done.
    + lia.
    + intros j Hlt. destruct (decide (j = n)) as [->|]; [done|]. apply Hj. lia.
    + destruct (decide (i = n)) as [->|]; [congruence|lia].
    + intros j Hlt. apply Hj. lia.
Qed.

Lemma prefix_take_length (k s : str) : k `prefix_of` s → take (length k) s = k.
Proof. intros [t ->]. apply take_app_length. Qed.

Section tries.
Context {TL : TrieLib} {TS : TrieSpec TL} {A : Type}.
Implicit Type l : list (entry A).

Lemma trie_get_of l k : NoDup l.*1 → trie_get (trie_of l) k = assoc l k.
Proof.
  intros Hnd. unfold trie_of.
  enough (∀ t, trie_get (foldl (λ t e, trie_insert t e.1 e.2) t l) k =
    match assoc l k with Some v => Some v | None => trie_get t k end) as ->.
  { rewrite trie_get_new. by destruct (assoc l k). }
  induction l as [|e l IH]; [done|]. intros t. apply NoDup_cons in Hnd as [Hnin Hnd].
  cbn [foldl]. rewrite IH, assoc_cons, trie_get_insert by done.
  destruct (decide (e.1 = k)) as [<-|]; [|done].
  destruct (assoc l e.1) as [v|] eqn:Ha; [|done].
  apply assoc_elem in Ha. destruct Hnin. apply list_elem_of_fmap. by exists (e.1, v).
Qed.

(** A longest key that the text starts with. *)
Definition longest_key l (s k : str) (v : A * Z * nat * bool) : Prop :=
  k `prefix_of` s ∧ assoc l k = Some v ∧ ∀ k', k' `prefix_of` s → is_Some (assoc l k') → length k' ≤ length k.

Lemma find_longest_Some l s v : NoDup l.*1 →
  find_longest_prefix (trie_of l) s = Some v ↔ ∃ k, longest_key l s k v.
Proof.
  intros Hnd. rewrite find_longest_prefix_get, find_map_down. split.
  - intros (i & Hi & Hv & Hj). exists (take i s). rewrite trie_get_of in Hv by done. split_and!.
    + apply prefix_take.
    + done.
    + intros k' Hk' [v' Hv']. rewrite length_take, Nat.min_l by lia.
      destruct (decide (length k' ≤ i)); [done|]. specialize (Hj (length k')).
      rewrite (prefix_take_length k' s Hk'), trie_get_of in Hj by done.
      apply prefix_length in Hk'. rewrite Hj in Hv'; [done|lia].
  - intros (k & Hk & Hv & Hmax). exists (length k). pose proof (prefix_length _ _ Hk).
    rewrite (prefix_take_length k s Hk), trie_get_of by done. split_and!; [lia|done|].
    intros j Hj. rewrite trie_get_of by done. apply eq_None_not_Some. intros Hs.
    apply Hmax in Hs; [|apply prefix_take]. rewrite length_take in Hs. lia.
Qed.

Lemma find_longest_None l s : NoDup l.*1 →
  find_longest_prefix (trie_of l) s = None ↔ ∀ k, k `prefix_of` s → assoc l k = None.
Proof.
  intros Hnd. rewrite find_longest_prefix_get, find_map_None, Forall_forall. split.
  - intros Hn k Hk. rewrite <-trie_get_of, <-(prefix_take_length k s Hk) by done. apply Hn.
    rewrite elem_of_reverse. apply elem_of_seq. apply prefix_length in Hk. lia.
  - intros Hn i _. rewrite trie_get_of by done. apply Hn, prefix_take.
Qed.
End tries.

(** ** The table of operators *)

Definition delimiters : str := [space; percent; lparen].

Definition entry_ok (e : entry Operator) : bool :=
  let '(name, (o, category, len, has_arg)) := e in
  bool_decide (len = length name) && forallb (λ c, negb (bool_decide (c ∈ delimiters))) name &&
  bool_decide (name ≠ []) &&
  match o with
  | Operator.Request _ => bool_decide (name = lit "REQ") && has_arg && bool_decide (category = OPERATOR)
  | Operator.Response _ => bool_decide (name = lit "RESP") && has_arg && bool_decide (category = OPERATOR)
  | _ => negb has_arg
  end.

Lemma operators_ok : forallb entry_ok OPERATORS = true.
Proof. by vm_compute. Qed.

Lemma operators_NoDup : NoDup OPERATORS.*1.
Proof. apply (bool_decide_unpack _). by vm_compute. Qed.

Lemma operator_entry name o category len has_arg :
  assoc OPERATORS name = Some (o, category, len, has_arg) →
  len = length name ∧ Forall (λ c, c ∉ delimiters) name ∧ name ≠ [] ∧
  (has_arg = true → category = OPERATOR ∧
    ((name = lit "REQ" ∧ ∃ h, o = Operator.Request h) ∨ (name = lit "RESP" ∧ ∃ h, o = Operator.Response h))).
Proof.
  intros Hin%assoc_elem. pose proof operators_ok as Hok. rewrite forallb_forall in Hok.
  specialize (Hok _ (proj1 (list_elem_of_In _ _) Hin)). unfold entry_ok in Hok.
  rewrite !andb_true_iff, forallb_forall in Hok. destruct Hok as [[[Hl%bool_decide_eq_true Hd] Hn%bool_decide_eq_true] Ho].
  split_and!; try done.
  - apply Forall_forall. intros c Hc%list_elem_of_In%Hd. by apply negb_true_iff, bool_decide_eq_false in Hc.
  - intros ->. destruct o; try done; rewrite !andb_true_iff, !bool_decide_eq_true in Ho; naive_solver.
Qed.

Lemma operator_REQ : assoc OPERATORS (lit "REQ") = Some (Operator.Request (lit "name"), OPERATOR, 3, true).
Proof. by vm_compute. Qed.
Lemma operator_RESP : assoc OPERATORS (lit "RESP") = Some (Operator.Response (lit "name"), OPERATOR, 4, true).
Proof. by vm_compute. Qed.

(** ** Characters *)

Definition is_char (s : str) : Prop :=
  match s with [] => False | c :: s' => length s = len_utf8 c ∧ Forall (λ d, Str.is_continuation d = true) s' end.

(** A [str] is a sequence of characters. *)
Definition utf8 (s : str) : Prop := ∃ cs, Forall is_char cs ∧ s = concat cs.

Lemma utf8_first c s : utf8 (c :: s) → is_char (take (len_utf8 c) (c :: s)) ∧ utf8 (drop (len_utf8 c) (c :: s)).
Proof.
  intros ([|k cs] & Hcs & He); [done|]. apply Forall_cons in Hcs as [Hk Hcs].
  destruct k as [|c' k]; [done|]. simpl in He. injection He as -> ->.
  pose proof Hk as [Hl _]. change (c' :: k ++ concat cs) with ((c' :: k) ++ concat cs). rewrite <-Hl.
  rewrite take_app_length, drop_app_length. split; [done|]. by exists cs.
Qed.

(** After a per cent sign a new character starts. *)
Lemma utf8_after_percent a b : utf8 (a ++ percent :: b) → utf8 b.
Proof.
  intros (cs & Hcs & He). revert a He. induction cs as [|k cs IH]; intros a He.
  { by destruct a. }
  apply Forall_cons in Hcs as [Hk Hcs]. simpl in He.
  destruct (decide (length k ≤ length a)) as [Hle|Hgt].
  - apply (IH Hcs (drop (length k) a)). apply (f_equal (drop (length k))) in He.
    rewrite drop_app_length in He. by rewrite drop_app_le in He.
  - destruct k as [|c k]; [done|]. destruct Hk as [Hl Hk]. destruct a as [|c' a].
    + injection He as <- He. destruct k; [|done]. by exists cs.
    + exfalso. injection He as -> He. simpl in Hgt.
      apply (f_equal (.!! length a)) in He. rewrite list_lookup_middle, lookup_app_l in He by (done || lia).
      symmetry in He. by apply (Forall_lookup_1 _ _ _ _ Hk) in He.
Qed.


(** ** Searching *)

Lemma find_any_app (a b cs : str) c : Forall (λ d, d ∉ cs) a → c ∈ cs → find_any (a ++ c :: b) cs = Some (length a).
Proof.
  intros Ha Hc. unfold find_any. rewrite fmap_Some. exists (length a, c). split; [|done].
  apply list_find_Some. split_and!; [by apply list_lookup_middle|done|].
  intros j d Hj Hlt. rewrite lookup_app_l in Hj by done. by apply (Forall_lookup_1 _ _ _ _ Ha Hj).
Qed.

Lemma find_any_Some s cs i : find_any s cs = Some i →
  ∃ a c b, s = a ++ c :: b ∧ i = length a ∧ c ∈ cs ∧ Forall (λ d, d ∉ cs) a.
Proof.
  unfold find_any. intros ([i' c] & Hf & ->)%fmap_Some. apply list_find_Some in Hf as (Hi & Hc & Hlt).
  exists (take i' s), c, (drop (S i') s). simpl. split_and!.
  - by rewrite take_drop_middle.
  - apply lookup_lt_Some in Hi. rewrite length_take. lia.
  - done.
  - apply Forall_lookup. intros j d Hj. apply lookup_take_Some in Hj as [Hj Hji]. by apply (Hlt j d).
Qed.

Lemma split_once_app a b c : c ∉ a → Str.split_once_char (a ++ c :: b) c = Some (a, b).
Proof.
  induction a as [|x a IH]; intros Hc; simpl.
  - by rewrite bool_decide_true.
  - rewrite bool_decide_false by set_solver. rewrite IH by set_solver. done.
Qed.

(** A key that the text before a delimiter starts with. *)
Lemma prefix_before (k a : str) c b : k `prefix_of` a ++ c :: b → c ∉ k → k `prefix_of` a.
Proof.
  intros Hk Hc. destruct (prefix_weak_total k a (a ++ c :: b)) as [?|[d ->]]; [done|by apply prefix_app_r|done|].
  apply prefix_app_inv in Hk. destruct d as [|x d]; [by rewrite app_nil_r|].
  apply prefix_cons_inv_1 in Hk as ->. set_solver.
Qed.

(** ** The grammar *)

Inductive item : Type :=
  | IText (c : str)
  | IEscape
  | IOp (name : str)
  | IReq (arg : str)
  | IResp (arg : str)
  | ICustom (name : str).

Definition print_item (i : item) : str :=
  match i with
  | IText c => c
  | IEscape => [percent; percent]
  | IOp name | ICustom name => percent :: name ++ [percent]
  | IReq arg => percent :: lit "REQ" ++ lparen :: arg ++ [rparen; percent]
  | IResp arg => percent :: lit "RESP" ++ lparen :: arg ++ [rparen; percent]
  end.

Definition print (d : list item) : str := d ≫= print_item.

Section items.
Context {HL : HttpLib} {HB : HttpBytes} {TL : TrieLib} {TS : TrieSpec TL} (custom : option (gset str)).

(** A custom operator is one only if no name of a built-in one starts it. *)
Definition wf_item (i : item) : Prop :=
  match i with
  | IText c => is_char c ∧ head c ≠ Some percent
  | IEscape => True
  | IOp name => ∃ o category, assoc OPERATORS name = Some (o, category, length name, false)
  | IReq arg => arg ≠ [] ∧ rparen ∉ arg ∧ ∃ a, parse_request arg = Ok a
  | IResp arg => arg ≠ [] ∧ rparen ∉ arg ∧ ∃ a, parse_response arg = Ok a
  | ICustom name =>
    name ≠ [] ∧ percent ∉ name ∧ (∃ ops, custom = Some ops ∧ name ∈ ops) ∧
    ∀ k, k `prefix_of` name → assoc OPERATORS k = None
  end.

(** The placeholder of an item. *)
Definition item_template (i : item) : option Template :=
  match i with
  | IText _ | IEscape => None
  | IOp name => (λ '(o, category, _, _), Placeholder o category) <$> assoc OPERATORS name
  | IReq arg => (λ a, Placeholder (req_operator a) OPERATOR) <$> result_ok (parse_request arg)
  | IResp arg => (λ a, Placeholder (resp_operator a) OPERATOR) <$> result_ok (parse_response arg)
  | ICustom name => Some (Custom name)
  end.

(** What is made of a text: the literals between the placeholders, with doubled
    per cent signs replaced in the last one. *)
Fixpoint templates (literal : str) (d : list item) : list Template :=
  match d with
  | [] => push_literal [] (replace_percents literal)
  | i :: d =>
    match item_template i with
    | Some t => push_literal [] literal ++ t :: templates [] d
    | None => templates (literal ++ print_item i) d
    end
  end.

Lemma longest_before name c b v : c ∈ delimiters → assoc OPERATORS name = Some v →
  find_longest_prefix ENVOY_OPERATORS (name ++ c :: b) = Some v.
Proof.
  intros Hc Hv. apply find_longest_Some; [apply operators_NoDup|]. exists name. split_and!; [by apply prefix_app_r|done|].
  intros k Hk [[[[o cat] len] ha] Hs]. apply operator_entry in Hs as (_ & Hd & _).
  apply prefix_length, (prefix_before _ _ c b); [done|]. intros Hin. by apply (proj1 (Forall_forall _ _) Hd) in Hin.
Qed.

Lemma operator_text_app name c b v : assoc OPERATORS name = Some v → c ∈ delimiters →
  operator_text (name ++ c :: b) = name.
Proof.
  intros Hv Hc. destruct v as [[[o cat] len] ha]. apply operator_entry in Hv as (_ & Hd & _).
  unfold operator_text. rewrite (find_any_app _ _ _ c) by done. by rewrite take_app_length.
Qed.

Lemma no_escape name b v : assoc OPERATORS name = Some v → Str.starts_with (name ++ b) [percent] = false.
Proof.
  destruct v as [[[o cat] len] ha]. intros (_ & Hd & Hn & _)%operator_entry. destruct name as [|x name]; [done|].
  apply Forall_cons in Hd as [Hx _]. apply bool_decide_eq_false. intros Hp%prefix_cons_inv_1. subst x. by apply Hx; right; left.
Qed.

Lemma starts_percent s : Str.starts_with (percent :: s) [percent] = true.
Proof. apply bool_decide_eq_true. by apply prefix_cons, prefix_nil. Qed.

Lemma extract_arg arg s : arg ≠ [] → rparen ∉ arg →
  extract_operator_arg (lparen :: arg ++ rparen :: s) = Ok (arg, length arg + 2).
Proof.
  intros Ha Hr. unfold extract_operator_arg. cbn [Str.strip_prefix_char]. rewrite bool_decide_true by done. simpl.
  rewrite (find_any_app arg s [rparen] rparen); [|apply Forall_forall; set_solver|set_solver]. simpl.
  rewrite take_app_length. by rewrite bool_decide_false.
Qed.

Lemma scan_arg name o arg s found :
  assoc OPERATORS name = Some (o, OPERATOR, length name, true) → arg ≠ [] → rparen ∉ arg →
  with_argument o arg = Ok found →
  scan_percent custom (name ++ lparen :: arg ++ rparen :: percent :: s) =
    Ok ((λ o, Placeholder o OPERATOR) <$> found, 2 + length name + (length arg + 2)).
Proof.
  intros Hn Ha Hr Hf. unfold scan_percent. erewrite no_escape, longest_before by (done || set_solver).
  erewrite operator_text_app by (done || set_solver). rewrite bool_decide_true by done. cbn [negb].
  rewrite drop_app_length, extract_arg by done. cbn. rewrite Hf. cbn.
  replace (drop (length arg + 2) (lparen :: arg ++ rparen :: percent :: s)) with (percent :: s); [by rewrite starts_percent|].
  replace (length arg + 2) with (S (S (length arg))) by lia. cbn [drop].
  change (arg ++ rparen :: percent :: s) with (arg ++ [rparen] ++ percent :: s). rewrite app_assoc.
  replace (S (length arg)) with (length (arg ++ [rparen])) by (rewrite length_app; simpl; lia). by rewrite drop_app_length.
Qed.

Lemma scan_complete i s : wf_item i → (∀ c, i ≠ IText c) →
  ∃ remainder, print_item i ++ s = percent :: remainder ∧
    scan_percent custom remainder = Ok (item_template i, length (print_item i)).
Proof.
  intros Hi Ht. destruct i as [c| |name|arg|arg|name]; cbn [print_item item_template wf_item] in *.
  - by destruct (Ht c).
  - eexists. split; [done|]. unfold scan_percent. cbn. by rewrite starts_percent.
  - destruct Hi as (o & category & Hn). exists (name ++ percent :: s). split; [by rewrite <-app_comm_cons, <-app_assoc|].
    unfold scan_percent. erewrite no_escape, longest_before by (done || set_solver).
    erewrite operator_text_app by (done || set_solver). rewrite bool_decide_true by done. cbn [negb].
    rewrite drop_app_length, starts_percent, Hn. cbn. do 2 f_equal. rewrite length_app. simpl. lia.
  - destruct Hi as (Ha & Hr & a & Hp). exists (lit "REQ" ++ lparen :: arg ++ rparen :: percent :: s).
    split; [by cbn; rewrite <-app_assoc|]. rewrite (scan_arg _ _ _ _ (Some (req_operator a)) operator_REQ Ha Hr).
    + rewrite Hp. simpl. do 2 f_equal. rewrite length_app. simpl. lia.
    + cbn. by rewrite Hp.
  - destruct Hi as (Ha & Hr & a & Hp). exists (lit "RESP" ++ lparen :: arg ++ rparen :: percent :: s).
    split; [by cbn; rewrite <-app_assoc|]. rewrite (scan_arg _ _ _ _ (Some (resp_operator a)) operator_RESP Ha Hr).
    + rewrite Hp. simpl. do 2 f_equal. rewrite length_app. simpl. lia.
    + cbn. by rewrite Hp.
  - destruct Hi as (Hne & Hp & (ops & -> & Hin) & Hpre). exists (name ++ percent :: s).
    split; [by rewrite <-app_comm_cons, <-app_assoc|]. unfold scan_percent, ENVOY_OPERATORS.
    replace (Str.starts_with _ _) with false.
    2:{ symmetry. apply bool_decide_eq_false. destruct name; [done|]. intros ?%prefix_cons_inv_1. set_solver. }
    rewrite (proj2 (find_longest_None OPERATORS (name ++ percent :: s) operators_NoDup)).
    2:{ intros k Hk. destruct (assoc OPERATORS k) as [[[[o cat] len] ha]|] eqn:Hs; [|done].
        pose proof Hs as (_ & Hd & _)%operator_entry. rewrite <-Hs. apply Hpre, (prefix_before _ _ percent s); [done|].
        intros Hk'. apply (proj1 (Forall_forall _ _) Hd percent Hk'). set_solver. }
    rewrite (find_any_app name s [percent] percent); [|apply Forall_forall; set_solver|set_solver].
    rewrite take_app_length. cbn. rewrite bool_decide_true by done. do 2 f_equal. rewrite length_app. simpl. lia.
Qed.

Lemma starts_percent_inv s : Str.starts_with s [percent] = true → ∃ t, s = percent :: t.
Proof. intros [t ->]%bool_decide_eq_true. by exists t. Qed.

Lemma extract_arg_inv s arg n : extract_operator_arg s = Ok (arg, n) →
  ∃ t, s = lparen :: arg ++ rparen :: t ∧ n = length arg + 2 ∧ arg ≠ [] ∧ rparen ∉ arg.
Proof.
  unfold extract_operator_arg. destruct (Str.strip_prefix_char s lparen) as [rest|] eqn:Hs; [|done].
  apply Str.strip_prefix_char_Some in Hs as ->. simpl.
  destruct (find_any rest [rparen]) as [e|] eqn:He; [|done].
  apply find_any_Some in He as (a & c & b & -> & -> & Hc & Ha). apply list_elem_of_singleton in Hc as ->.
  simpl. rewrite take_app_length. case_bool_decide; [done|]. intros [= <- <-].
  exists b. split_and!; try done. intros Hin. apply (proj1 (Forall_forall _ _) Ha) in Hin. set_solver.
Qed.

Lemma drop_arg arg s : drop (length arg + 2) (lparen :: arg ++ rparen :: s) = s.
Proof.
  replace (length arg + 2) with (S (length (arg ++ [rparen]))) by (rewrite length_app; simpl; lia). cbn [drop].
  change (rparen :: s) with ([rparen] ++ s). by rewrite app_assoc, drop_app_length.
Qed.

Lemma ends_percent i : wf_item i → (∀ c, i ≠ IText c) → ∃ a, print_item i = a ++ [percent].
Proof.
  intros _ Ht. destruct i as [c| |name|arg|arg|name]; cbn [print_item].
  - by destruct (Ht c).
  - by exists [percent].
  - by exists (percent :: name).
  - exists (percent :: lit "REQ" ++ lparen :: arg ++ [rparen]). simpl. by rewrite <-app_assoc.
  - exists (percent :: lit "RESP" ++ lparen :: arg ++ [rparen]). simpl. by rewrite <-app_assoc.
  - by exists (percent :: name).
Qed.

Lemma scan_sound remainder found skip : scan_percent custom remainder = Ok (found, skip) →
  ∃ i s, wf_item i ∧ (∀ c, i ≠ IText c) ∧ percent :: remainder = print_item i ++ s ∧
    skip = length (print_item i) ∧ found = item_template i.
Proof.
  unfold scan_percent. destruct (Str.starts_with remainder [percent]) eqn:Hp.
  { intros [= <- <-]. apply starts_percent_inv in Hp as [t ->]. by exists IEscape, t. }
  destruct (find_longest_prefix ENVOY_OPERATORS remainder) as [[[[o category] len] has_arg]|] eqn:Hf.
  - apply find_longest_Some in Hf as (k & [t ->] & Hk & _); [|apply operators_NoDup].
    pose proof Hk as (-> & Hd & Hne & Harg)%operator_entry.
    destruct (bool_decide _); [cbn [negb]|done]. rewrite drop_app_length. destruct has_arg.
    + destruct (extract_operator_arg t) as [[arg n]|] eqn:He; [|done]. cbn.
      apply extract_arg_inv in He as (t' & -> & -> & Ha & Hr). rewrite drop_arg.
      destruct (with_argument o arg) as [w|] eqn:Hw; [|done]. cbn.
      destruct (Str.starts_with t' [percent]) eqn:Ht; [|done]. apply starts_percent_inv in Ht as [s ->]. intros [= <- <-].
      destruct (Harg eq_refl) as [-> [[-> [h ->]]|[-> [h ->]]]]; simpl in Hw.
      * destruct (parse_request arg) as [a|] eqn:Hpr; [|done]. injection Hw as <-. exists (IReq arg), s. simpl.
        split_and!; try done; [by exists a|by rewrite <-app_assoc|rewrite length_app; simpl; lia|by rewrite Hpr].
      * destruct (parse_response arg) as [a|] eqn:Hpr; [|done]. injection Hw as <-. exists (IResp arg), s. simpl.
        split_and!; try done; [by exists a|by rewrite <-app_assoc|rewrite length_app; simpl; lia|by rewrite Hpr].
    + destruct (Str.starts_with t [percent]) eqn:Ht; [|done]. apply starts_percent_inv in Ht as [s ->]. intros [= <- <-].
      exists (IOp k), s. simpl. split_and!; try done; [by eauto|by rewrite <-app_assoc|rewrite length_app; simpl; lia|].
      by rewrite Hk.
  - unfold ENVOY_OPERATORS in Hf. rewrite find_longest_None in Hf by apply operators_NoDup.
    destruct (find_any remainder [percent]) as [e|] eqn:He; [|done].
    apply find_any_Some in He as (a & c & b & -> & -> & Hc & Ha). apply list_elem_of_singleton in Hc as ->.
    rewrite take_app_length. destruct custom as [ops|] eqn:Hcu; [|done]. cbn. case_bool_decide as Hin; [|done]. intros [= <- <-].
    exists (ICustom a), b. simpl. split_and!; try done.
    + intros ->. cbn [app] in Hp. by rewrite starts_percent in Hp.
    + intros Hin'. apply (proj1 (Forall_forall _ _) Ha) in Hin'. set_solver.
    + eauto.
    + intros k Hk. apply Hf. by apply prefix_app_r.
    + by rewrite <-app_assoc.
    + rewrite length_app. simpl. lia.
Qed.

(** ** The loop *)

Lemma push_literal_parts parts literal : push_literal parts literal = parts ++ push_literal [] literal.
Proof. unfold push_literal. case_bool_decide; [by rewrite app_nil_r|done]. Qed.

Lemma replace_percents_nil s : replace_percents s = [] → s = [].
Proof. destruct s as [|c [|d s]]; [done..|]. simpl. by case_bool_decide. Qed.

Lemma parse_end fuel literal parts :
  parse_loop custom fuel literal [] parts = Ok (parts ++ templates literal []).
Proof.
  assert (∀ n, parse_loop custom n literal [] parts = parse_loop custom 0 literal [] parts) as -> by (by intros []).
  simpl. unfold push_literal. destruct (decide (literal = [])) as [->|Hl].
  - by rewrite app_nil_r.
  - rewrite !bool_decide_false; [done|by intros ?%replace_percents_nil|done].
Qed.

Lemma item_scan i s : wf_item i →
  ∃ c remainder, print_item i ++ s = c :: remainder ∧ scan custom c remainder = Ok (item_template i, length (print_item i)).
Proof.
  intros Hi. destruct i as [[|c k]| |name|arg|arg|name] eqn:E.
  1: by destruct Hi.
  1: { destruct Hi as [[Hl _] Hc]. exists c, (k ++ s). split; [done|]. unfold scan. rewrite bool_decide_false by (simpl in Hc; congruence).
       simpl in *. by rewrite Hl. }
  all: rewrite <-E in *; destruct (scan_complete i s Hi) as (r & Hr & Hs); [by subst|].
  all: exists percent, r; split; [done|]; unfold scan; by rewrite bool_decide_true.
Qed.

Lemma parse_complete d fuel literal parts : Forall wf_item d → length (print d) ≤ fuel →
  parse_loop custom fuel literal (print d) parts = Ok (parts ++ templates literal d).
Proof.
  revert fuel literal parts. induction d as [|i d IH]; intros fuel literal parts Hd Hf.
  { apply parse_end. }
  apply Forall_cons in Hd as [Hi Hd]. change (print (i :: d)) with (print_item i ++ print d) in *.
  destruct (item_scan i (print d) Hi) as (c & r & Hp & Hs).
  assert (0 < length (print_item i)) as Hpos.
  { destruct (print_item i) eqn:E; [|simpl; lia]. destruct i; try discriminate E. simpl in E. subst. by destruct Hi. }
  rewrite length_app in Hf. destruct fuel as [|fuel]; [lia|]. rewrite Hp. cbn [parse_loop]. rewrite Hs. cbn [mbind result_bind].
  rewrite <-Hp, take_app_length, drop_app_length. cbn [templates].
  destruct (item_template i) as [t|]; rewrite IH by (done || lia); [|done].
  by rewrite push_literal_parts, <-!app_assoc.
Qed.

Lemma parse_sound fuel literal rest parts ts : utf8 rest → length rest ≤ fuel →
  parse_loop custom fuel literal rest parts = Ok ts →
  ∃ d, Forall wf_item d ∧ rest = print d ∧ ts = parts ++ templates literal d.
Proof.
  revert literal rest parts. induction fuel as [|fuel IH]; intros literal [|c r] parts Hu Hf Hp; simpl in Hf; try lia.
  1, 2: rewrite parse_end in Hp; injection Hp as <-; by exists [].
  cbn [parse_loop] in Hp. destruct (scan custom c r) as [[found skip]|] eqn:Hs; [cbn [mbind result_bind] in Hp|done].
  assert (∃ i s, wf_item i ∧ c :: r = print_item i ++ s ∧ skip = length (print_item i) ∧ found = item_template i ∧ utf8 s ∧
    0 < length (print_item i)) as (i & s & Hi & He & -> & -> & Hus & Hpos).
  { unfold scan in Hs. case_bool_decide as Hc.
    - subst c. apply scan_sound in Hs as (i & s & Hi & Ht & He & -> & ->). exists i, s. split_and!; try done.
      + destruct (ends_percent i Hi Ht) as [a Ha]. rewrite He, Ha, <-app_assoc in Hu. by apply utf8_after_percent in Hu.
      + destruct (ends_percent i Hi Ht) as [a Ha]. rewrite Ha, length_app. simpl. lia.
    - injection Hs as <- <-. apply utf8_first in Hu as [Hk Hu]. exists (IText (take (len_utf8 c) (c :: r))), (drop (len_utf8 c) (c :: r)).
      assert (0 < len_utf8 c) by (unfold len_utf8; repeat case_match; lia).
      destruct (len_utf8 c) as [|n] eqn:El; [lia|]. cbn [wf_item print_item item_template] in *. cbn [take head] in *.
      destruct Hk as [Hl Hk]. rewrite El in Hl. split_and!; try done; [split; [by rewrite El|done]|congruence|by cbn [app drop]; rewrite take_drop|simpl; lia]. }
  rewrite He, take_app_length, drop_app_length in Hp. apply (f_equal length) in He as Hlen. rewrite length_app in Hlen. simpl in Hlen.
  destruct (item_template i) as [t|] eqn:Hit; (apply IH in Hp as (d & Hd & -> & ->); [|done|lia]);
    exists (i :: d); (split_and!; [by constructor|done|]); cbn [templates]; rewrite Hit; [|done].
  by rewrite push_literal_parts, <-!app_assoc.
Qed.

(** C17: the parser reads exactly the texts of the grammar.  A text is split into
    templates just when it is a sequence of characters, doubled per cent signs,
    operators with their arguments and custom operators; the templates are the
    placeholders of the operators in order, with the literal text between them. *)
Theorem format_parsed input ts : utf8 input →
  parse custom input = Ok ts ↔ ∃ d, Forall wf_item d ∧ input = print d ∧ ts = templates [] d.
Proof.
  intros Hu. split.
  - intros Hp. by apply (parse_sound _ [] _ []) in Hp.
  - intros (d & Hd & -> & ->). by apply (parse_complete d _ [] []).
Qed.

(** A custom operator whose name goes on from that of a built-in one is
    accepted when it is registered, and refused wherever it is used. *)
Theorem custom_operator_shadowed k x name :
  is_Some (assoc OPERATORS k) → Forall (λ c, c ∉ delimiters) (x :: name) → assoc OPERATORS (k ++ x :: name) = None →
  set_custom_operators [k ++ x :: name] None = Ok (Some {[ k ++ x :: name ]}) ∧
  parse (Some {[ k ++ x :: name ]}) (percent :: (k ++ x :: name) ++ [percent]) = Err (InvalidOperator (k ++ x :: name)).
Proof.
  set (full := k ++ x :: name). intros [[[[o cat] len] ha] Hk] Hx Hnone. pose proof Hk as (-> & Hd & Hne & _)%operator_entry.
  assert (Forall (λ c, c ∉ delimiters) full) as Hfull by (by apply Forall_app).
  assert (∀ c, c ∈ delimiters → c ∉ full) as Hno.
  { intros c Hc Hin. by apply (proj1 (Forall_forall _ _) Hfull) in Hin. }
  split.
  - unfold set_custom_operators. cbn [find_map]. unfold Str.contains_char. rewrite !bool_decide_false by (apply Hno; set_solver).
    cbn [orb]. unfold ENVOY_OPERATORS. rewrite trie_get_of, Hnone by apply operators_NoDup. cbn. do 2 f_equal. set_solver.
  - unfold parse. cbn [length parse_loop]. unfold scan. rewrite bool_decide_true by done. unfold scan_percent.
    replace (Str.starts_with (full ++ [percent]) [percent]) with false.
    2:{ unfold full. rewrite <-app_assoc. symmetry. by eapply no_escape. }
    destruct (find_longest_prefix ENVOY_OPERATORS (full ++ [percent])) as [[[[o' cat'] len'] ha']|] eqn:Hf.
    + apply find_longest_Some in Hf as (k' & Hk' & Hv & _); [|apply operators_NoDup].
      pose proof Hv as (-> & Hd' & _)%operator_entry.
      unfold operator_text. rewrite (find_any_app full [] [space; percent; lparen] percent), take_app_length by (done || set_solver).
      rewrite bool_decide_false; [|]; cbn [negb mbind result_bind].
      * unfold invalid_operator. rewrite split_once_app by (apply Hno; set_solver). done.
      * intros Hl. assert (k' `prefix_of` full) as Hp.
        { apply (prefix_before _ _ percent []); [done|]. intros Hin. apply (proj1 (Forall_forall _ _) Hd' _ Hin). set_solver. }
        apply prefix_length_eq in Hp; [|lia]. subst k'. congruence.
    + exfalso. unfold ENVOY_OPERATORS in Hf. rewrite find_longest_None in Hf by apply operators_NoDup.
      rewrite (Hf k) in Hk; [done|]. unfold full. rewrite <-app_assoc. by apply prefix_app_r.
Qed.

End items.

(** ** Examples *)

Section example.
#[local] Existing Instance assoc_http.
#[local] Existing Instance assoc_bytes.
#[local] Existing Instance assoc_trie.
#[local] Existing Instance assoc_trie_spec.

Lemma ascii_utf8 s : Forall (λ c, len_utf8 c = 1) s → utf8 s.
Proof.
  intros H. exists ((λ c, [c]) <$> s). split.
  - apply Forall_fmap. eapply Forall_impl; [exact H|]. intros c Hc. simpl. by rewrite Hc.
  - clear H. induction s as [|c s IH]; [done|]. rewrite fmap_cons. cbn [concat app]. by rewrite <- IH.
Qed.

Lemma format_parsed_witness :
  parse None (lit "100%% of %REQ(:PATH)%, %PROTOCOL%") =
  Ok [Literal (lit "100%% of "); Placeholder Operator.RequestPath OPERATOR;
      Literal (lit ", "); Placeholder Operator.Protocol OPERATOR] ∧
  ∃ d, Forall (wf_item None) d ∧ lit "100%% of %REQ(:PATH)%, %PROTOCOL%" = print d.
Proof.
  assert (parse None (lit "100%% of %REQ(:PATH)%, %PROTOCOL%") =
  Ok [Literal (lit "100%% of "); Placeholder Operator.RequestPath OPERATOR;
      Literal (lit ", "); Placeholder Operator.Protocol OPERATOR]) as E by (vm_compute; reflexivity).
  split; [exact E|].
  apply format_parsed in E as (d & Hd & He & _); [by exists d|].
  apply ascii_utf8. by repeat constructor.
Defined.

Lemma custom_operator_shadowed_witness :
  set_custom_operators [lit "PROTOCOL_X"] None = Ok (Some {[ lit "PROTOCOL_X" ]}) ∧
  parse (Some {[ lit "PROTOCOL_X" ]}) (lit "%PROTOCOL_X%") = Err (InvalidOperator (lit "PROTOCOL_X")).
Proof.
  apply (custom_operator_shadowed (lit "PROTOCOL") _ (lit "X")).
  - vm_compute. by eexists.
  - unfold delimiters. repeat constructor; set_solver.
  - vm_compute. reflexivity.
Defined.

End example.
End FormatGrammarSpec.
