(* ===== verification/LogFormatter.v ===== *)
(** Formatters of log lines and header values (arion-format/src/lib.rs,
    header_formatter.rs, uri_formatter.rs): a parsed format with a slot for each
    template, which contexts fill one after the other, and the message that is
    written in the end. *)

From S2P Require Import Prelude RustStr Fmt Http ExtProcMutation FormatGrammar.
Import Http ExtProcMutation FormatGrammar FormatGrammarSpec.

Module LogFormatter.

Inductive StringType : Type :=
  | Smol (s : str)
  | Bytes (s : str)
  | Array (s : str)
  | SNone.

(** A trait of its own: the value of an operator.  The position tells apart the
    evaluations that draw random numbers. *)
Class Context (C : Type) : Type := eval_op : C → nat → Operator → StringType.

(** [serde_json::Value]; a number that is no integer is the text of its value, and
    so is an array or an object, which has its members next to it. *)
Inductive json : Type :=
  | JNull
  | JBool (b : bool)
  | JInteger (n : Z)
  | JFloat (display : str)
  | JString (s : str)
  | JArray (display : str)
  | JObject (members : list (str * json)) (display : str).

Record LogFormatter : Type := mk_formatter {
  conf_templates : list Template;
  omit_empty_values : bool;
  format : list StringType;
}.

(** [StringType::None] is a slot that is free. *)
Definition is_none (t : StringType) : bool := match t with SNone => true | _ => false end.

Definition initial_slot (t : Template) : StringType :=
  match t with Char s | Literal s => Smol s | Placeholder _ _ | Custom _ => SNone end.

Section formatter.
Context {HL : HttpLib} {HB : HttpBytes} {TL : TrieLib} (custom : option (gset str)).

Definition try_new (input : str) (omit_empty_values : bool) : result FormatError LogFormatter :=
  templates ← parse custom input;
  match find is_unsupported templates with
  | Some t => Err (UnsupportedOperator (template_fmt t))
  | None => Ok (mk_formatter templates omit_empty_values (initial_slot <$> templates))
  end.

End formatter.

(** The loops over the templates: a free slot takes a value that is one. *)
Definition fill (value : nat → Template → StringType) (f : LogFormatter) : LogFormatter :=
  mk_formatter (conf_templates f) (omit_empty_values f)
    (imap (λ idx slot,
       match conf_templates f !! idx with
       | Some t => if is_none slot then value idx t else slot
       | None => slot
       end) (format f)).

Definition context_value `{Context C} (ctx : C) : nat → Template → StringType := λ idx t,
  match t with Placeholder o _ => eval_op ctx idx o | _ => SNone end.

Definition with_context `{Context C} (ctx : C) : LogFormatter → LogFormatter := fill (context_value ctx).

Definition json_value_to_string_type (v : json) : StringType :=
  match v with
  | JNull => SNone
  | JBool b => Smol (if b then lit "true" else lit "false")
  | JInteger n => Smol (if (n <? 0)%Z then lit "-" ++ Fmt.fmt_dec (- n) else Fmt.fmt_dec n)
  | JFloat s | JString s | JArray s | JObject _ s => Smol s
  end.

Definition with_value (value : json) (f : LogFormatter) : LogFormatter :=
  match value with
  | JObject members _ =>
    fill (λ _ t, match t with Custom name => from_option json_value_to_string_type SNone (assoc members name) | _ => SNone end) f
  | _ => f
  end.

Definition with_custom_value (key value : str) : LogFormatter → LogFormatter :=
  fill (λ _ t,
    match t with
    | Custom name => if bool_decide (name = key) && negb (bool_decide (value = lit "null")) then Smol value else SNone
    | _ => SNone
    end).

(** ** Messages *)

Record FormattedMessage : Type := mk_message { message_omit : bool; message_format : list StringType }.

Definition into_message (f : LogFormatter) : FormattedMessage := mk_message (omit_empty_values f) (format f).

(** [Display]: bytes that are no text are replaced. *)
Definition to_string (m : FormattedMessage) : str :=
  message_format m ≫= λ t,
    match t with
    | Smol s | Array s => s
    | Bytes s => from_utf8_lossy s
    | SNone => if message_omit m then [] else lit "-"
    end.

Definition slices (m : FormattedMessage) : list str :=
  message_format m ≫= λ t,
    match t with
    | Smol s | Bytes s | Array s => [s]
    | SNone => if message_omit m then [] else [lit "-"]
    end.

(** [IoSlice::advance_slices]: whole slices are removed as long as they fit. *)
Fixpoint advance_slices (bufs : list str) (n : nat) : outcome (list str) :=
  match bufs with
  | [] => if bool_decide (n = 0) then Return [] else Panic
  | b :: bufs =>
    if bool_decide (length b <= n) then advance_slices bufs (n - length b)
    else Return (drop n b :: bufs)
  end.

(** How writing goes on: what was written, and the result when it is there.  An
    answer of the writer is the number of bytes it took, or an error. *)
Inductive write_result : Type :=
  | Waiting (written : str)
  | Written (total : nat) (written : str)
  | WriteZero (written : str)
  | WriteError (written : str)
  | WritePanic.

Fixpoint write_loop (total : nat) (remaining : list str) (written : str) (answers : list (result () nat)) : write_result :=
  match remaining with
  | [] => Written total written
  | _ =>
    match answers with
    | [] => Waiting written
    | Err _ :: _ => WriteError written
    | Ok n :: answers =>
      if bool_decide (n = 0) then WriteZero written
      else
        match advance_slices remaining n with
        | Return rest => write_loop total rest (written ++ take n (concat remaining)) answers
        | Panic => WritePanic
        end
    end
  end.

Definition write_to (m : FormattedMessage) (answers : list (result () nat)) : write_result :=
  write_loop (sum_list (length <$> slices m)) (slices m) [] answers.

(** ** Header values and URIs *)

Section values.
Context {HL : HttpLib} {HB : HttpBytes} {TL : TrieLib} (custom : option (gset str)).

(** [HeaderFormatter]. *)
Definition header_try_new (input : str) : result FormatError LogFormatter := try_new custom input true.
Definition into_header_value (f : LogFormatter) : option HeaderValue := value_from_str (to_string (into_message f)).

Inductive UriFormatter : Type :=
  | Static (s : str)
  | Dynamic (f : LogFormatter).

Definition uri_try_new (input : str) : result FormatError UriFormatter :=
  if negb (Str.contains_char input percent) then Ok (Static input)
  else f ← try_new custom input true; Ok (Dynamic f).

Definition uri_format `{Context C} (u : UriFormatter) (ctx : C) : str :=
  match u with
  | Static s => s
  | Dynamic f => to_string (into_message (with_context ctx f))
  end.
End values.

End LogFormatter.

(** What a formatter promises: the message is the text of the format with each
    operator replaced by the first value a context has for it, and a writer that
    takes bytes in parts of any size gets exactly this message. *)

Import Http ExtProcMutation FormatGrammar FormatGrammarSpec LogFormatter.

Module LogFormatterSpec.

(** ** Slots *)

(** The first value that is one. *)
Fixpoint first_value (vs : list StringType) : StringType :=
  match vs with
  | [] => SNone
  | v :: vs => if is_none v then first_value vs else v
  end.

Definition value : Type := nat → Template → StringType.

Definition slot_after (vs : list value) (idx : nat) (t : Template) : StringType :=
  first_value (initial_slot t :: ((λ v : value, v idx t) <$> vs)).

Definition fill_all (vs : list value) (f : LogFormatter) : LogFormatter := foldl (λ f v, fill v f) f vs.

(** The text of a value in a message. *)
Definition text (omit : bool) (t : StringType) : str :=
  match t with
  | Smol s | Array s => s
  | Bytes s => from_utf8_lossy s
  | SNone => if omit then [] else lit "-"
  end.

Lemma first_value_app vs ws :
  first_value (vs ++ ws) = if is_none (first_value vs) then first_value ws else first_value vs.
Proof. induction vs as [|v vs IH]; [done|]. simpl. destruct (is_none v) eqn:E; [done|]. by rewrite E. Qed.

Lemma fill_templates v f : conf_templates (fill v f) = conf_templates f ∧ omit_empty_values (fill v f) = omit_empty_values f.
Proof. done. Qed.

Lemma fill_slots v ws f :
  format f = imap (slot_after ws) (conf_templates f) →
  format (fill v f) = imap (slot_after (ws ++ [v])) (conf_templates f).
Proof.
  intros E. unfold fill; cbn [format]. rewrite E. apply list_eq; intros i.
  rewrite !list_lookup_imap. destruct (conf_templates f !! i) as [t|] eqn:Et; simpl; [|done].
  f_equal. unfold slot_after. rewrite fmap_app.
  rewrite app_comm_cons, first_value_app. destruct (is_none (first_value _)) eqn:En; [|done].
  simpl. destruct (is_none (v i t)) eqn:Ev; [|done]. by destruct (v i t).
Qed.

Lemma fill_all_slots vs ws f :
  format f = imap (slot_after ws) (conf_templates f) →
  format (fill_all vs f) = imap (slot_after (ws ++ vs)) (conf_templates f) ∧
  conf_templates (fill_all vs f) = conf_templates f ∧
  omit_empty_values (fill_all vs f) = omit_empty_values f.
Proof.
  revert ws f. induction vs as [|v vs IH]; intros ws f E; simpl.
  - by rewrite app_nil_r.
  - pose proof (fill_slots v ws f E) as E'.
    destruct (IH (ws ++ [v]) (fill v f) E') as (E1 & E2 & E3).
    by rewrite E1, E2, E3, <- app_assoc.
Qed.

Section formatter.
Context {HL : HttpLib} {HB : HttpBytes} {TL : TrieLib} (custom : option (gset str)).

Lemma try_new_Ok input omit f :
  try_new custom input omit = Ok f →
  parse custom input = Ok (conf_templates f) ∧ omit_empty_values f = omit ∧
  Forall (λ t, is_unsupported t = false) (conf_templates f) ∧
  format f = imap (slot_after []) (conf_templates f).
Proof.
  unfold try_new. destruct (parse custom input) as [ts|e]; [|done]. cbn.
  destruct (find is_unsupported ts) as [t|] eqn:Ef; [done|]. intros [= <-]. simpl.
  split_and!; [done|done| |].
  - by apply find_None.
  - apply list_eq; intros i. rewrite list_lookup_imap, list_lookup_fmap.
    destruct (ts !! i) as [t|]; [|done]. simpl. unfold slot_after; simpl. by destruct t.
Qed.
End formatter.

(** ** Writing *)

(** What a message has for a writer: bytes as they are. *)
Definition bytes (m : FormattedMessage) : str := concat (slices m).

(** A writer that takes from one byte to all that is left, until nothing is. *)
Fixpoint takes (left : nat) (answers : list (result () nat)) : bool :=
  match left, answers with
  | 0, _ => true
  | _, Ok n :: answers => bool_decide (1 <= n <= left) && takes (left - n) answers
  | _, _ => false
  end.

(** A writer that never claims more than it was given. *)
Fixpoint honest (left : nat) (answers : list (result () nat)) : bool :=
  match answers with
  | Ok n :: answers => bool_decide (n <= left) && honest (left - n) answers
  | _ => true
  end.

Lemma sum_length (l : list str) : sum_list (length <$> l) = length (concat l).
Proof. induction l as [|x l IH]; [done|]. rewrite fmap_cons. cbn [sum_list concat]. by rewrite length_app, IH. Qed.

Lemma advance_slices_ok bufs n :
  n <= length (concat bufs) →
  ∃ rest, advance_slices bufs n = Return rest ∧ concat rest = drop n (concat bufs) ∧
    (n ≠ 0 → n = length (concat bufs) → rest = []).
Proof.
  revert n. induction bufs as [|b bufs IH]; intros n Hn; simpl in *.
  - assert (n = 0) as -> by lia. by exists [].
  - rewrite length_app in Hn. case_bool_decide as Hb.
    + destruct (IH (n - length b)) as (rest & E1 & E2 & E3); [lia|]. exists rest. split_and!; [done| |].
      * by rewrite E2, drop_app, (drop_ge b) by lia.
      * intros H0 Hl. rewrite length_app in Hl.
        destruct (decide (n - length b = 0)) as [E0|]; [|by apply E3; lia].
        rewrite E0 in E1. assert (length (concat bufs) = 0) as Hz by lia.
        clear -E1 Hz. revert rest E1. induction bufs as [|c bufs IH]; intros rest E1; simpl in *; [by injection E1|].
        rewrite length_app in Hz. rewrite bool_decide_true in E1 by lia. replace (0 - length c) with 0 in E1 by lia.
        apply IH; [lia|done].
    + exists (drop n b :: bufs). split_and!; [done| |].
      * simpl. by rewrite drop_app_le by lia.
      * intros _ Hl. rewrite length_app in Hl. lia.
Qed.

Lemma write_loop_honest total bufs written answers :
  honest (length (concat bufs)) answers = true →
  match write_loop total bufs written answers with
  | Written t w => t = total ∧ w = written ++ concat bufs
  | Waiting w | WriteZero w | WriteError w => w `prefix_of` written ++ concat bufs
  | WritePanic => False
  end.
Proof.
  revert bufs written. induction answers as [|[n|[]] answers IH]; intros bufs written H; simpl in H.
  - destruct bufs; simpl; [by rewrite app_nil_r|]. by apply prefix_app_r.
  - apply andb_true_iff in H as [Hn H]. apply bool_decide_eq_true in Hn.
    destruct bufs as [|b bufs]; [by simpl; rewrite app_nil_r|].
    unfold write_loop; fold write_loop. case_bool_decide; [by apply prefix_app_r|].
    destruct (advance_slices_ok (b :: bufs) n Hn) as (rest & -> & E & _).
    specialize (IH rest (written ++ take n (concat (b :: bufs)))).
    rewrite E, length_drop, <- app_assoc, take_drop in IH. by apply IH.
  - destruct bufs; simpl; [by rewrite app_nil_r|]. by apply prefix_app_r.
Qed.

Lemma write_loop_takes total bufs written answers :
  (concat bufs = [] → bufs = []) → takes (length (concat bufs)) answers = true →
  write_loop total bufs written answers = Written total (written ++ concat bufs).
Proof.
  revert bufs written. induction answers as [|[n|[]] answers IH]; intros bufs written Hb H;
    destruct bufs as [|b bufs]; try (simpl; by rewrite app_nil_r);
    destruct (concat (b :: bufs)) as [|x l] eqn:Ec; try (by specialize (Hb eq_refl)); try done.
  cbn [takes length] in H. apply andb_true_iff in H as [Hn H]. apply bool_decide_eq_true in Hn.
  destruct (advance_slices_ok (b :: bufs) n) as (rest & Er & E & Hz); [by rewrite Ec; simpl; lia|].
  unfold write_loop; fold write_loop. rewrite bool_decide_false, Er by lia.
  rewrite IH.
  - by rewrite <- app_assoc, E, take_drop, Ec.
  - intros Hr. apply Hz; [lia|]. rewrite E in Hr. apply (f_equal length) in Hr.
    rewrite length_drop, Ec in Hr. rewrite Ec. simpl in *. lia.
  - rewrite E, length_drop, Ec. done.
Qed.

(** ** Properties *)

(** C26: a writer that takes any positive number of bytes at a time gets the whole
    message: writing ends with its length when the message has a byte.  Whatever the
    writer answers, it has got a prefix of the message, and all of it when writing
    succeeds. *)
Theorem message_written m answers :
  (bytes m ≠ [] → takes (length (bytes m)) answers = true → write_to m answers = Written (length (bytes m)) (bytes m)) ∧
  (honest (length (bytes m)) answers = true →
   match write_to m answers with
   | Written t w => t = length (bytes m) ∧ w = bytes m
   | Waiting w | WriteZero w | WriteError w => w `prefix_of` bytes m
   | WritePanic => False
   end).
Proof.
  unfold write_to. rewrite sum_length. fold (bytes m). split.
  - intros Hm H. apply (write_loop_takes (length (bytes m)) (slices m) [] answers); [|done].
    by intros E%Hm.
  - intros H. exact (write_loop_honest (length (bytes m)) (slices m) [] answers H).
Qed.

Section rendered.
Context {HL : HttpLib} {HB : HttpBytes} {TL : TrieLib} {TS : TrieSpec TL} (custom : option (gset str)).

End rendered.

(** ** Examples *)

Section example.
#[local] Existing Instance assoc_http.
#[local] Existing Instance assoc_bytes.
#[local] Existing Instance assoc_trie.
#[local] Existing Instance assoc_trie_spec.

Definition example_value : value := λ _ t, match t with Placeholder Operator.Protocol _ => Smol (lit "HTTP/1.1") | _ => SNone end.


Lemma message_written_witness :
  write_to (mk_message false [Smol (lit "ab"); SNone; Smol []; Smol (lit "cd")]) [Ok 1; Ok 3; Ok 1] = Written 5 (lit "ab-cd") ∧
  write_to (mk_message false [Smol (lit "ab"); SNone]) [Ok 1; Err ()] = WriteError (lit "a") ∧
  write_to (mk_message true [Smol []; SNone]) [Ok 0] = WriteZero [].
Proof.
  split; [|by vm_compute].
  pose proof (message_written (mk_message false [Smol (lit "ab"); SNone; Smol []; Smol (lit "cd")]) [Ok 1; Ok 3; Ok 1]) as [H _].
  apply H; [done|reflexivity].
Defined.

End example.

End LogFormatterSpec.
