(* ===== verification/FormatContext.v ===== *)
(** The contexts of log lines (arion-format/src/context.rs) and the texts of the
    response flags (arion-format/src/types.rs): which operators a stage of a request
    or of a connection has a value for. *)

From S2P Require Import Prelude RustStr Net Fmt Http ExtProcMutation FormatGrammar LogFormatter.
Import Net Http ExtProcMutation FormatGrammar FormatGrammarSpec LogFormatter.
Local Open Scope Z_scope.

(** [blake3], the hexadecimal digest of what was fed. *)
Class BlakeLib : Type := to_hex : str → str.

(** [chrono]: the calendar of [DateTime<Utc>]. *)
Class ChronoLib : Type := {
  DateTime : Type;
  (** From a [SystemTime], in nanoseconds since the epoch. *)
  from_system_time : Z → DateTime;
  add_seconds : DateTime → Z → DateTime;
  year : DateTime → Z;
  month : DateTime → Z;
  day : DateTime → Z;
  hour : DateTime → Z;
  minute : DateTime → Z;
  second : DateTime → Z;
  nanosecond : DateTime → Z;
}.

(** The ranges that are documented; a leap second has more nanoseconds. *)
Class ChronoSpec (C : ChronoLib) : Prop := {
  year_range : ∀ t, -262143 <= year t <= 262142;
  month_range : ∀ t, 1 <= month t <= 12;
  day_range : ∀ t, 1 <= day t <= 31;
  hour_range : ∀ t, 0 <= hour t < 24;
  minute_range : ∀ t, 0 <= minute t < 60;
  second_range : ∀ t, 0 <= second t < 60;
  nanosecond_range : ∀ t, 0 <= nanosecond t < 2000000000;
}.

(** What the [uuid] and [http] crates add: a random identifier, for each evaluation
    one, and the host of an authority. *)
Class UuidLib : Type := new_v4 : nat → str.
Class AuthorityLib : Type := authority_host : str → str.

Module FormatContext.

(** ** Response flags *)

(** The bit of a flag with its texts, in the order of the declaration. *)
Definition RESPONSE_FLAGS : list (Z * (str * str)) :=
  [(Z.shiftl 1 0, (lit "UH", lit "NoHealthyUpstream"));
   (Z.shiftl 1 1, (lit "UF", lit "UpstreamConnectionFailure"));
   (Z.shiftl 1 2, (lit "UO", lit "UpstreamOverflow"));
   (Z.shiftl 1 3, (lit "NR", lit "NoRouteFound"));
   (Z.shiftl 1 4, (lit "URX", lit "UpstreamRetryLimitExceeded"));
   (Z.shiftl 1 5, (lit "NC", lit "NoClusterFound"));
   (Z.shiftl 1 6, (lit "DT", lit "DurationTimeout"));
   (Z.shiftl 1 7, (lit "DC", lit "DownstreamConnectionTermination"));
   (Z.shiftl 1 8, (lit "LH", lit "FailedLocalHealthCheck"));
   (Z.shiftl 1 9, (lit "UT", lit "UpstreamRequestTimeout"));
   (Z.shiftl 1 10, (lit "LR", lit "LocalReset"));
   (Z.shiftl 1 11, (lit "UR", lit "UpstreamRemoteReset"));
   (Z.shiftl 1 12, (lit "UC", lit "UpstreamConnectionTermination"));
   (Z.shiftl 1 13, (lit "DI", lit "DelayInjected"));
   (Z.shiftl 1 14, (lit "FI", lit "FaultInjected"));
   (Z.shiftl 1 15, (lit "RL", lit "RateLimited"));
   (Z.shiftl 1 16, (lit "UAEX", lit "UnauthorizedExternalService"));
   (Z.shiftl 1 17, (lit "RLSE", lit "RateLimitServiceError"));
   (Z.shiftl 1 18, (lit "IH", lit "InvalidEnvoyRequestHeaders"));
   (Z.shiftl 1 19, (lit "SI", lit "StreamIdleTimeout"));
   (Z.shiftl 1 20, (lit "DPE", lit "DownstreamProtocolError"));
   (Z.shiftl 1 21, (lit "UPE", lit "UpstreamProtocolError"));
   (Z.shiftl 1 22, (lit "UMSDR", lit "UpstreamMaxStreamDurationReached"));
   (Z.shiftl 1 23, (lit "RFCF", lit "ResponseFromCacheFilter"));
   (Z.shiftl 1 24, (lit "NFCF", lit "NoFilterConfigFound"));
   (Z.shiftl 1 25, (lit "OM", lit "OverloadManagerTerminated"));
   (Z.shiftl 1 26, (lit "DF", lit "DnsResolutionFailed"));
   (Z.shiftl 1 27, (lit "DO", lit "DropOverload"));
   (Z.shiftl 1 28, (lit "DR", lit "DownstreamRemoteReset"));
   (Z.shiftl 1 29, (lit "UDO", lit "UnconditionalDropOverload"))].

(** [bitflags]: the declared flags that are contained, and the bits that are left. *)
Definition flags_iter (flags : Z) : list Z :=
  let known := filter (λ m, Z.land flags m = m) (fst <$> RESPONSE_FLAGS) in
  let rest := foldl (λ r m, Z.ldiff r m) flags known in
  known ++ (if rest =? 0 then [] else [rest]).

Definition comma : str := lit ",".

(** The pieces, with a comma before each but the first. *)
Definition join_comma (l : list str) : str :=
  match l with
  | [] => []
  | s :: l => s ++ (l ≫= λ s, comma ++ s)
  end.

Definition flag_text (sel : str * str → str) (f : Z) : str :=
  from_option sel (lit "?") (find_map (λ e, if f =? e.1 then Some e.2 else None) RESPONSE_FLAGS).

Definition flags_text (sel : str * str → str) (flags : Z) : str :=
  if flags =? 0 then lit "-" else join_comma (flag_text sel <$> flags_iter flags).

Definition ResponseFlagsShort : Z → str := flags_text fst.
Definition ResponseFlagsLong : Z → str := flags_text snd.

(** ** Addresses *)

Definition fmt_socket (a : SocketAddr) : str :=
  match sock_ip a with
  | V4 _ => Fmt.fmt_ip (sock_ip a) ++ lit ":" ++ Fmt.fmt_dec (sock_port a)
  | V6 _ => lit "[" ++ Fmt.fmt_ip (sock_ip a) ++ lit "]:" ++ Fmt.fmt_dec (sock_port a)
  end.

(** The bytes of a number, the most significant one first. *)
Fixpoint to_be_bytes (n : nat) (z : Z) : str :=
  match n with
  | O => []
  | S n => to_be_bytes n (z / 256) ++ [Str.byte (Z.to_N (z mod 256))]
  end.

Inductive Protocol : Type := Tcp | Udp.

Definition protocol_bytes (p : Protocol) : str := match p with Tcp => lit "TCP" | Udp => lit "UDP" end.

Definition feed_addr (addr : option SocketAddr) : str :=
  match addr with
  | Some a =>
    [Str.byte 1] ++
    match sock_ip a with
    | V4 b => [Str.byte 4] ++ to_be_bytes 4 b ++ to_be_bytes 2 (sock_port a)
    | V6 b => [Str.byte 6] ++ to_be_bytes 16 b ++ to_be_bytes 2 (sock_port a)
    end
  | None => [Str.byte 0]
  end.

(** What the hasher is fed with. *)
Definition connection_bytes (local peer : option SocketAddr) (protocol : Protocol) : str :=
  feed_addr local ++ feed_addr peer ++ protocol_bytes protocol.

Definition hash_connection `{BlakeLib} (local peer : option SocketAddr) (protocol : Protocol) : str :=
  to_hex (connection_bytes local peer protocol).

Definition some_smol (s : option str) : StringType := from_option Smol SNone s.

Record SocketAddrContext : Type := mk_socket_context {
  downstream_local_addr : option SocketAddr;
  downstream_peer_addr : option SocketAddr;
  upstream_local_addr : option SocketAddr;
  upstream_peer_addr : option SocketAddr;
}.

Section contexts.
Context {HL : HttpLib} {HB : HttpBytes} {BL : BlakeLib} {CL : ChronoLib} {UL : UuidLib} {AL : AuthorityLib}.

#[export] Instance socket_addr_context : Context SocketAddrContext := λ c _ op,
  let address (a : option SocketAddr) := some_smol (fmt_socket <$> a) in
  let ip (a : option SocketAddr) := some_smol ((Fmt.fmt_ip ∘ sock_ip) <$> a) in
  let port (a : option SocketAddr) := some_smol ((Fmt.fmt_dec ∘ sock_port) <$> a) in
  match op with
  | Operator.UpstreamHost | Operator.UpstreamRemoteAddress => address (upstream_peer_addr c)
  | Operator.UpstreamRemoteAddressWithoutPort => ip (upstream_peer_addr c)
  | Operator.UpstreamRemotePort => port (upstream_peer_addr c)
  | Operator.UpstreamLocalAddress => address (upstream_local_addr c)
  | Operator.UpstreamLocalAddressWithoutPort => ip (upstream_local_addr c)
  | Operator.UpstreamLocalPort => port (upstream_local_addr c)
  | Operator.DownstreamLocalAddress => address (downstream_local_addr c)
  | Operator.DownstreamLocalAddressWithoutPort => ip (downstream_local_addr c)
  | Operator.DownstreamLocalPort => port (downstream_local_addr c)
  | Operator.DownstreamRemoteAddress => address (downstream_peer_addr c)
  | Operator.DownstreamRemoteAddressWithoutPort => ip (downstream_peer_addr c)
  | Operator.DownstreamRemotePort => port (downstream_peer_addr c)
  | Operator.ConnectionId => Array (hash_connection (downstream_local_addr c) (downstream_peer_addr c) Tcp)
  | Operator.UpstreamConnectionId => Array (hash_connection (upstream_local_addr c) (upstream_peer_addr c) Tcp)
  | _ => SNone
  end.

Record TcpContext : Type := mk_tcp_context { tcp_socket_address : SocketAddrContext; tcp_cluster_name : str }.

#[export] Instance tcp_context : Context TcpContext := λ c i op,
  match op with
  | Operator.UpstreamCluster | Operator.UpstreamClusterRaw => Smol (tcp_cluster_name c)
  | _ => eval_op (tcp_socket_address c) i op
  end.

(** ** Requests and responses *)

Definition at_sign : Ascii.ascii := Str.byte 64.

Definition strip_userinfo (s : str) : str := from_option snd s (Str.split_once_char s at_sign).

Definition authority_from_request (request : Request) : option str :=
  match authority (uri request) with
  | Some a => Some a
  | None =>
    v ← header_get (headers request) (name_from_static (lit "host"));
    strip_userinfo <$> to_str v
  end.

Record UpstreamContext : Type := mk_upstream_context {
  upstream_authority : option str;
  upstream_cluster_name : option str;
  upstream_route_name : str;
}.

#[export] Instance upstream_context : Context UpstreamContext := λ c _ op,
  match op with
  | Operator.UpstreamCluster | Operator.UpstreamClusterRaw => some_smol (upstream_cluster_name c)
  | Operator.UpstreamHost | Operator.UpstreamHostName => some_smol (strip_userinfo <$> upstream_authority c)
  | Operator.UpstreamHostNameWithoutPort => some_smol (authority_host <$> upstream_authority c)
  | Operator.RouteName => Smol (upstream_route_name c)
  | _ => SNone
  end.

(** [http::Version]. *)
Inductive Version : Type := HTTP_09 | HTTP_10 | HTTP_11 | HTTP_2 | HTTP_3.

Definition to_static_str (v : Version) : str :=
  match v with
  | HTTP_09 => lit "HTTP/0.9"
  | HTTP_10 => lit "HTTP/1.0"
  | HTTP_11 => lit "HTTP/1.1"
  | HTTP_2 => lit "HTTP/2"
  | HTTP_3 => lit "HTTP/3"
  end.

(** A request next to its version. *)
Record DownstreamContext : Type := mk_downstream_context {
  request : Request;
  request_version : Version;
  request_head_size : Z;
  trace_id : option Z;
  server_name : option str;
  socket_address : SocketAddrContext;
}.

Definition header_bytes (m : HeaderMap) (name : str) : StringType :=
  from_option (Bytes ∘ value_as_bytes) SNone (name_from_bytes name ≫= header_get m).

#[export] Instance downstream_context : Context DownstreamContext := λ c i op,
  match op with
  | Operator.RequestHeadersBytes => Smol (Fmt.fmt_dec (request_head_size c))
  | Operator.RequestPath => Smol (uri_path (uri (request c)))
  | Operator.RequestOriginalPathOrPath =>
    Smol (default (uri_path (uri (request c)))
      (header_get (headers (request c)) (name_from_static (lit "x-envoy-original-path")) ≫= to_str))
  | Operator.RequestAuthority => some_smol (strip_userinfo <$> authority_from_request (request c))
  | Operator.RequestMethod => Smol (method (request c))
  | Operator.RequestScheme => some_smol (scheme_str (uri (request c)))
  | Operator.Request h => header_bytes (headers (request c)) h
  | Operator.TraceId => some_smol (Fmt.fmt_padded 32 16 <$> trace_id c)
  | Operator.Protocol => Smol (to_static_str (request_version c))
  | Operator.RequestedServerName => some_smol (server_name c)
  | _ => eval_op (socket_address c) i op
  end.

(** [UpstreamRequestContext]: the version of the request. *)
Record UpstreamRequestContext : Type := mk_upstream_request { upstream_version : Version }.

#[export] Instance upstream_request_context : Context UpstreamRequestContext := λ c i op,
  match op with
  | Operator.UpstreamProtocol => Smol (to_static_str (upstream_version c))
  | Operator.UniqueId => Smol (new_v4 i)
  | _ => SNone
  end.

Record DownstreamResponseContext : Type := mk_downstream_response { response : Response; response_head_size : Z }.

#[export] Instance downstream_response_context : Context DownstreamResponseContext := λ c _ op,
  match op with
  | Operator.ResponseHeadersBytes => Smol (Fmt.fmt_dec (response_head_size c))
  | Operator.ResponseStatus | Operator.ResponseCode => Smol (Fmt.fmt_dec (status (response c)))
  | Operator.Response h => header_bytes (response_headers (response c)) h
  | _ => SNone
  end.

(** ** Times *)

Definition TWO_DIGITS : list str :=
  [lit "00"; lit "01"; lit "02"; lit "03"; lit "04"; lit "05"; lit "06"; lit "07"; lit "08"; lit "09";
   lit "10"; lit "11"; lit "12"; lit "13"; lit "14"; lit "15"; lit "16"; lit "17"; lit "18"; lit "19";
   lit "20"; lit "21"; lit "22"; lit "23"; lit "24"; lit "25"; lit "26"; lit "27"; lit "28"; lit "29";
   lit "30"; lit "31"; lit "32"; lit "33"; lit "34"; lit "35"; lit "36"; lit "37"; lit "38"; lit "39";
   lit "40"; lit "41"; lit "42"; lit "43"; lit "44"; lit "45"; lit "46"; lit "47"; lit "48"; lit "49";
   lit "50"; lit "51"; lit "52"; lit "53"; lit "54"; lit "55"; lit "56"; lit "57"; lit "58"; lit "59";
   lit "60"; lit "61"; lit "62"; lit "63"; lit "64"; lit "65"; lit "66"; lit "67"; lit "68"; lit "69";
   lit "70"; lit "71"; lit "72"; lit "73"; lit "74"; lit "75"; lit "76"; lit "77"; lit "78"; lit "79";
   lit "80"; lit "81"; lit "82"; lit "83"; lit "84"; lit "85"; lit "86"; lit "87"; lit "88"; lit "89";
   lit "90"; lit "91"; lit "92"; lit "93"; lit "94"; lit "95"; lit "96"; lit "97"; lit "98"; lit "99"].

(** A text of at most 64 bytes, which [push_str] adds to; a number indexes the table
    without a check. *)
Definition push_str (s : str) (builder : outcome str) : outcome str :=
  b ← builder;
  if bool_decide (length (b ++ s) <= 64)%nat then Return (b ++ s) else Panic.

Definition push_two (n : Z) (builder : outcome str) : outcome str :=
  match TWO_DIGITS !! Z.to_nat n with
  | Some s => push_str s builder
  | None => Panic
  end.

(** [itoa]. *)
Definition itoa (n : Z) : str := if n <? 0 then lit "-" ++ Fmt.fmt_dec (- n) else Fmt.fmt_dec n.

Definition push_date (d : DateTime) (b : outcome str) : outcome str :=
  push_two (day d) (push_str (lit "-") (push_two (month d) (push_str (lit "-") (push_str (itoa (year d)) b)))).

Definition push_time (d : DateTime) (b : outcome str) : outcome str :=
  push_two (second d) (push_str (lit ":") (push_two (minute d) (push_str (lit ":") (push_two (hour d) b)))).

Definition push_millis (d : DateTime) (b : outcome str) : outcome str :=
  let millis := nanosecond d / 1000000 in
  let b := if millis <? 10 then push_str (lit "00") b else if millis <? 100 then push_str (lit "0") b else b in
  push_str (itoa millis) b.

Definition push_offset (offset_sec : Z) (b : outcome str) : outcome str :=
  if offset_sec =? 0 then push_str (lit "Z") b
  else
    let abs_offset := Z.abs offset_sec in
    let h := abs_offset / 3600 in
    let m := abs_offset mod 3600 / 60 in
    push_two m (push_str (lit ":") (push_two h (push_str (if 0 <? offset_sec then lit "+" else lit "-") b))).

Definition format_system_time (offset_sec : Z) (time : Z) : outcome str :=
  let datetime := from_system_time time in
  let datetime := if offset_sec =? 0 then datetime else add_seconds datetime offset_sec in
  let b := push_str (lit "T") (push_date datetime (Return [])) in
  push_offset offset_sec (push_millis datetime (push_str (lit ".") (push_time datetime b))).

(** The contexts with a time take its text, which [format_system_time] gives. *)
Record InitContext : Type := mk_init_context { start_time : str }.

#[export] Instance init_context : Context InitContext := λ c _ op,
  match op with Operator.StartTime => Array (start_time c) | _ => SNone end.

Record InitHttpContext : Type := mk_init_http { init_start_time : str; init_downstream : DownstreamContext }.

#[export] Instance init_http_context : Context InitHttpContext := λ c i op,
  match op with Operator.StartTime => Array (init_start_time c) | _ => eval_op (init_downstream c) i op end.

(** [Duration::as_millis] of a duration in nanoseconds. *)
Definition as_millis (d : Z) : Z := d / 1000000.

Record HttpRequestDurationContext : Type := mk_request_duration { request_duration : Z; request_tx_duration : Z }.

#[export] Instance request_duration_context : Context HttpRequestDurationContext := λ c _ op,
  match op with
  | Operator.RequestDuration => Smol (Fmt.fmt_dec (as_millis (request_duration c)))
  | Operator.RequestTxDuration => Smol (Fmt.fmt_dec (as_millis (request_tx_duration c)))
  | _ => SNone
  end.

Record HttpResponseDurationContext : Type := mk_response_duration { response_duration : Z; response_tx_duration : Z }.

#[export] Instance response_duration_context : Context HttpResponseDurationContext := λ c _ op,
  match op with
  | Operator.ResponseDuration => Smol (Fmt.fmt_dec (as_millis (response_duration c)))
  | Operator.ResponseTxDuration => Smol (Fmt.fmt_dec (as_millis (response_tx_duration c)))
  | _ => SNone
  end.

Record FinishContext : Type := mk_finish_context {
  duration : Z;
  bytes_received : Z;
  bytes_sent : Z;
  response_flags : Z;
  upstream_transport_failure_reason : option str;
  response_code_details : option str;
  connection_termination_details : option str;
}.

#[export] Instance finish_context : Context FinishContext := λ c _ op,
  match op with
  | Operator.ResponseFlags => Smol (ResponseFlagsShort (response_flags c))
  | Operator.ResponseFlagsLong => Smol (ResponseFlagsLong (response_flags c))
  | Operator.Duration => Smol (Fmt.fmt_dec (as_millis (duration c)))
  | Operator.BytesReceived => Smol (Fmt.fmt_dec (bytes_received c))
  | Operator.BytesSent => Smol (Fmt.fmt_dec (bytes_sent c))
  | Operator.UpstreamTransportFailureReason => some_smol (upstream_transport_failure_reason c)
  | Operator.ConnectionTerminationDetails => some_smol (connection_termination_details c)
  | Operator.ResponseCodeDetails => some_smol (response_code_details c)
  | _ => SNone
  end.

Record WireContext : Type := mk_wire_context { wire_bytes_received : Z; wire_bytes_sent : Z }.

#[export] Instance wire_context : Context WireContext := λ c _ op,
  match op with
  | Operator.DownstreamWireBytesReceived => Smol (Fmt.fmt_dec (wire_bytes_received c))
  | Operator.DownstreamWireBytesSent => Smol (Fmt.fmt_dec (wire_bytes_sent c))
  | _ => SNone
  end.

Record ConnectionContext : Type := mk_connection_context {
  connection_start_time : str;
  connection_duration : Z;
  connection_wire_received : Z;
  connection_wire_sent : Z;
  connection_termination : option str;
}.

#[export] Instance connection_context : Context ConnectionContext := λ c _ op,
  match op with
  | Operator.StartTime => Array (connection_start_time c)
  | Operator.BytesReceived | Operator.DownstreamWireBytesReceived => Smol (Fmt.fmt_dec (connection_wire_received c))
  | Operator.BytesSent | Operator.DownstreamWireBytesSent => Smol (Fmt.fmt_dec (connection_wire_sent c))
  | Operator.Duration => Smol (Fmt.fmt_dec (as_millis (connection_duration c)))
  | Operator.ConnectionTerminationDetails => some_smol (connection_termination c)
  | _ => SNone
  end.

End contexts.
End FormatContext.

(** What the values of log lines promise: the texts of two sets of response flags
    differ, a connection is told apart from any other one by what its hash is made
    of, and the text of a time fits where it is put. *)

Import Net Http ExtProcMutation FormatGrammar FormatGrammarSpec LogFormatter LogFormatterSpec FormatContext.

Module FormatContextSpec.

(** ** Response flags *)

Definition masks : list Z := fst <$> RESPONSE_FLAGS.

Lemma masks_bits : masks = (λ i, 2 ^ i) <$> seqZ 0 30.
Proof. vm_compute. reflexivity. Qed.

Lemma mask_contained f i : 0 <= i → Z.land f (2 ^ i) = 2 ^ i ↔ Z.testbit f i = true.
Proof.
  intros Hi. split.
  - intros E. apply (f_equal (λ z, Z.testbit z i)) in E. rewrite Z.land_spec, Z.pow2_bits_eqb, Z.eqb_refl in E by lia.
    by rewrite andb_true_r in E.
  - intros E. apply Z.bits_inj'. intros j Hj. rewrite Z.land_spec, Z.pow2_bits_eqb by lia.
    destruct (Z.eqb_spec i j); [subst; by rewrite E|by rewrite andb_false_r].
Qed.

Definition known (f : Z) : list Z := filter (λ m, Z.land f m = m) masks.

Lemma known_spec f m : m ∈ known f ↔ ∃ i, m = 2 ^ i ∧ 0 <= i < 30 ∧ Z.testbit f i = true.
Proof.
  unfold known. rewrite list_elem_of_filter, masks_bits, list_elem_of_fmap. split.
  - intros [Hl (i & -> & Hi%elem_of_seqZ)]. exists i. split_and!; [done|lia|lia|]. apply mask_contained; [lia|done].
  - intros (i & -> & Hi & Ht). split; [by apply mask_contained; [lia|]|]. exists i. split; [done|]. apply elem_of_seqZ. lia.
Qed.

Lemma foldl_ldiff_testbit l f i :
  0 <= i → Z.testbit (foldl (λ r m, Z.ldiff r m) f l) i = Z.testbit f i && forallb (λ m, negb (Z.testbit m i)) l.
Proof.
  intros Hi. revert f. induction l as [|m l IH]; intros f; cbn [foldl forallb]; [by rewrite andb_true_r|].
  by rewrite IH, Z.ldiff_spec, andb_assoc by lia.
Qed.

Lemma testbit_high f i : 0 <= f < 2 ^ 30 → 30 <= i → Z.testbit f i = false.
Proof.
  intros Hf Hi. rewrite Z.testbit_false by lia. rewrite Z.div_small; [done|].
  split; [lia|]. eapply Z.lt_le_trans; [apply Hf|]. apply Z.pow_le_mono_r; lia.
Qed.

(** The declared flags have no bits left. *)
Lemma flags_iter_known f : 0 <= f < 2 ^ 30 → flags_iter f = known f.
Proof.
  intros Hf. unfold flags_iter. fold masks. fold (known f).
  replace (foldl _ f (known f)) with 0; [simpl; by rewrite app_nil_r|].
  symmetry. apply Z.bits_inj'. intros i Hi. rewrite foldl_ldiff_testbit, Z.bits_0 by lia.
  destruct (Z.testbit f i) eqn:Et; [|done]. cbn [andb].
  destruct (Z.lt_decidable i 30) as [Hl|Hl]; [|rewrite testbit_high in Et; [done|done|lia]].
  apply not_true_is_false. intros Ha. rewrite forallb_forall in Ha. specialize (Ha (2 ^ i)).
  rewrite <- list_elem_of_In in Ha. rewrite Z.pow2_bits_true in Ha by lia. apply Bool.diff_false_true.
  apply Ha, known_spec. by exists i.
Qed.

Lemma known_inj f f' : 0 <= f < 2 ^ 30 → 0 <= f' < 2 ^ 30 → known f = known f' → f = f'.
Proof.
  intros Hf Hf' E.
  assert (∀ g g' i, 0 <= i < 30 → known g = known g' → Z.testbit g i = true → Z.testbit g' i = true) as Hone.
  { intros g g' i Hi Eg Ht. assert (2 ^ i ∈ known g') as (j & Ej & Hj & Htj)%known_spec.
    { rewrite <- Eg. apply known_spec. by exists i. }
    apply Z.pow_inj_r in Ej; [by subst|lia..]. }
  apply Z.bits_inj'. intros i Hi. destruct (Z.lt_decidable i 30) as [Hl|Hl].
  - destruct (Z.testbit f i) eqn:E1, (Z.testbit f' i) eqn:E2; try done.
    + by rewrite (Hone f f' i) in E2.
    + by rewrite (Hone f' f i) in E1.
  - rewrite !testbit_high by lia. done.
Qed.

(** Texts that are joined are read back when they have no comma. *)
Definition no_comma (s : str) : Prop := Str.byte 44 ∉ s.

Lemma app_comma_inj s s' r r' :
  no_comma s → no_comma s' → (r = [] ∨ head r = Some (Str.byte 44)) → (r' = [] ∨ head r' = Some (Str.byte 44)) →
  s ++ r = s' ++ r' → s = s' ∧ r = r'.
Proof.
  revert s'. induction s as [|c s IH]; intros [|c' s'] Hs Hs' Hr Hr' E; simpl in *.
  - done.
  - subst r. destruct Hr as [|[= ->]]; [done|]. exfalso. apply Hs'. by left.
  - subst r'. destruct Hr' as [|[= ->]]; [done|]. exfalso. apply Hs. by left.
  - injection E as -> E. destruct (IH s') as [-> ->]; try done.
    + intros H. apply Hs. by right.
    + intros H. apply Hs'. by right.
Qed.

Lemma tail_comma l : let r := l ≫= (λ s, comma ++ s) in r = [] ∨ head r = Some (Str.byte 44).
Proof. destruct l; [by left|by right]. Qed.

Lemma join_comma_inj l l' :
  Forall no_comma l → Forall no_comma l' → l ≠ [] → l' ≠ [] → join_comma l = join_comma l' → l = l'.
Proof.
  intros Hl Hl' Hn Hn' E. destruct l as [|s l]; [done|]. destruct l' as [|s' l']; [done|]. clear Hn Hn'.
  apply Forall_cons in Hl as [Hs Hl]. apply Forall_cons in Hl' as [Hs' Hl']. cbn [join_comma] in E.
  apply app_comma_inj in E as [-> E]; [|done|done|apply tail_comma..]. f_equal.
  revert l' Hl' E. induction l as [|t l IH]; intros [|t' l'] Hl' E; try done.
  rewrite !bind_cons in E. injection E as E. apply Forall_cons in Hl as [Ht Hl]. apply Forall_cons in Hl' as [Ht' Hl'].
  apply app_comma_inj in E as [-> E]; [|done|done|apply tail_comma..]. f_equal. by apply IH.
Qed.

(** The texts of one kind: distinct, without a comma, and none is a dash. *)
Definition distinct (sel : str * str → str) : bool :=
  forallb (λ m, negb (bool_decide (Str.byte 44 ∈ flag_text sel m)) && negb (bool_decide (flag_text sel m = lit "-")) &&
    forallb (λ m', bool_decide (flag_text sel m = flag_text sel m' → m = m')) masks) masks.

Lemma short_distinct : distinct fst = true.
Proof. vm_compute. reflexivity. Qed.

Lemma long_distinct : distinct snd = true.
Proof. vm_compute. reflexivity. Qed.

Lemma distinct_spec sel m : distinct sel = true → m ∈ masks →
  no_comma (flag_text sel m) ∧ flag_text sel m ≠ lit "-" ∧ ∀ m', m' ∈ masks → flag_text sel m = flag_text sel m' → m = m'.
Proof.
  unfold distinct. rewrite forallb_forall. intros H Hm%list_elem_of_In. apply H in Hm as [[H1 H2]%andb_true_iff H3]%andb_true_iff.
  apply negb_true_iff, bool_decide_eq_false in H1, H2. split_and!; [done..|].
  intros m' Hm'%list_elem_of_In. rewrite forallb_forall in H3. specialize (H3 m' Hm'). by apply bool_decide_eq_true in H3.
Qed.

Lemma known_masks f : Forall (λ m, m ∈ masks) (known f).
Proof. apply Forall_forall. intros m Hm. by apply list_elem_of_filter in Hm as [_ ?]. Qed.

Lemma known_nonempty f : 0 <= f < 2 ^ 30 → known f = [] → f = 0.
Proof. intros Hf E. apply known_inj; [done|lia|]. rewrite E. vm_compute. reflexivity. Qed.

Lemma fmap_flag_inj sel l l' : distinct sel = true → Forall (λ m, m ∈ masks) l → Forall (λ m, m ∈ masks) l' →
  flag_text sel <$> l = flag_text sel <$> l' → l = l'.
Proof.
  intros Hd Hl. revert l'. induction Hl as [|m l Hm Hl IH]; intros [|m' l'] Hl' E; try done.
  apply Forall_cons in Hl' as [Hm' Hl']. rewrite !fmap_cons in E. injection E as E1 E2.
  apply (distinct_spec sel) in Hm as (_ & _ & Hinj); [|done]. rewrite (Hinj m') by done. f_equal. by apply IH.
Qed.

Lemma texts_no_comma sel l : distinct sel = true → Forall (λ m, m ∈ masks) l → Forall no_comma (flag_text sel <$> l).
Proof. intros Hd Hl. apply Forall_fmap. eapply Forall_impl; [exact Hl|]. intros m Hm. by apply distinct_spec. Qed.

Lemma join_dash sel l : distinct sel = true → Forall (λ m, m ∈ masks) l → l ≠ [] → join_comma (flag_text sel <$> l) ≠ lit "-".
Proof.
  intros Hd Hl Hn E. assert (flag_text sel <$> l = [lit "-"]) as E'.
  { apply join_comma_inj; [by apply texts_no_comma| |by destruct l|done|done]. constructor; [|done].
    unfold no_comma. by vm_compute; set_solver. }
  destruct l as [|m l]; [done|]. apply Forall_cons in Hl as [Hm _]. rewrite fmap_cons in E'. injection E' as E' _.
  by apply (distinct_spec sel) in Hm as (_ & Hdash & _).
Qed.

Lemma flags_text_inj sel f f' : distinct sel = true → 0 <= f < 2 ^ 30 → 0 <= f' < 2 ^ 30 →
  flags_text sel f = flags_text sel f' → f = f'.
Proof.
  intros Hd Hf Hf'. unfold flags_text. rewrite !flags_iter_known by done.
  pose proof (known_masks f) as Hk. pose proof (known_masks f') as Hk'.
  destruct (Z.eqb_spec f 0) as [->|H0], (Z.eqb_spec f' 0) as [->|H0']; intros E; try done.
  - symmetry in E. exfalso. revert E. apply join_dash; try done. intros Hn. by apply H0', known_nonempty.
  - exfalso. revert E. apply join_dash; try done. intros Hn. by apply H0, known_nonempty.
  - apply known_inj; [done..|]. apply (fmap_flag_inj sel); try done.
    apply join_comma_inj; [by apply texts_no_comma..|intros Hn%fmap_nil_inv|intros Hn%fmap_nil_inv|done];
      [by apply H0, known_nonempty|by apply H0', known_nonempty].
Qed.

(** ** Connections *)

Definition wf_sock (a : SocketAddr) : Prop := wf_ip (sock_ip a) ∧ 0 <= sock_port a < 2 ^ 16.
Definition wf_side (a : option SocketAddr) : Prop := from_option wf_sock True a.

Lemma to_be_bytes_length n z : length (to_be_bytes n z) = n.
Proof. revert z. induction n as [|n IH]; intros z; [done|]. cbn [to_be_bytes]. rewrite length_app, IH. simpl. lia. Qed.

Lemma to_be_bytes_inj n z z' :
  0 <= z < 256 ^ Z.of_nat n → 0 <= z' < 256 ^ Z.of_nat n → to_be_bytes n z = to_be_bytes n z' → z = z'.
Proof.
  revert z z'. induction n as [|n IH]; intros z z' Hz Hz' E; [simpl in *; lia|].
  cbn [to_be_bytes] in E. apply app_inj_2 in E as [E1 E2]; [|done].
  apply IH in E1; [|by apply Fmt.div_lt_pow; [lia|]..]. injection E2 as E2.
  apply (f_equal Ascii.N_of_ascii) in E2. unfold Str.byte in E2.
  pose proof (Z.mod_pos_bound z 256). pose proof (Z.mod_pos_bound z' 256).
  rewrite !Ascii.N_ascii_embedding in E2 by lia.
  pose proof (Z.div_mod z 256). pose proof (Z.div_mod z' 256). lia.
Qed.

Lemma feed_addr_inj a a' r r' :
  wf_side a → wf_side a' → feed_addr a ++ r = feed_addr a' ++ r' → a = a' ∧ r = r'.
Proof.
  intros Ha Ha' E. destruct a as [[[b|b] p]|], a' as [[[b'|b'] p']|]; cbn [feed_addr sock_ip sock_port app] in E; try discriminate E.
  - apply (f_equal (drop 2)) in E. cbn [drop] in E. rewrite <-!app_assoc in E.
    apply app_inj_1 in E as [E1 E]; [|by rewrite !to_be_bytes_length].
    apply app_inj_1 in E as [E2 E]; [|by rewrite !to_be_bytes_length].
    destruct Ha as [Hb Hp], Ha' as [Hb' Hp']. cbn in Hb, Hp, Hb', Hp'.
    apply to_be_bytes_inj in E1; [|done..]. apply to_be_bytes_inj in E2; [|done..]. by subst.
  - apply (f_equal (drop 2)) in E. cbn [drop] in E. rewrite <-!app_assoc in E.
    apply app_inj_1 in E as [E1 E]; [|by rewrite !to_be_bytes_length].
    apply app_inj_1 in E as [E2 E]; [|by rewrite !to_be_bytes_length].
    destruct Ha as [Hb Hp], Ha' as [Hb' Hp']. cbn in Hb, Hp, Hb', Hp'.
    apply to_be_bytes_inj in E1; [|done..]. apply to_be_bytes_inj in E2; [|done..]. by subst.
  - by injection E.
Qed.

Lemma connection_bytes_inj l p t l' p' t' : wf_side l → wf_side p → wf_side l' → wf_side p' →
  connection_bytes l p t = connection_bytes l' p' t' → l = l' ∧ p = p' ∧ t = t'.
Proof.
  intros Hl Hp Hl' Hp' E. apply feed_addr_inj in E as [-> E]; [|done..]. apply feed_addr_inj in E as [-> E]; [|done..].
  by destruct t, t'.
Qed.

(** ** Times *)

Section times.
Context {CL : ChronoLib} {CS : ChronoSpec CL}.

Definition pad2 (n : Z) : str := Fmt.fmt_padded 2 10 n.

(** Milliseconds have three digits, four in a leap second. *)
Definition millis_text (millis : Z) : str := if millis <? 1000 then Fmt.fmt_padded 3 10 millis else Fmt.fmt_dec millis.

Definition zone_text (offset_sec : Z) : str :=
  if offset_sec =? 0 then lit "Z"
  else (if 0 <? offset_sec then lit "+" else lit "-") ++
    pad2 (Z.abs offset_sec / 3600) ++ lit ":" ++ pad2 (Z.abs offset_sec mod 3600 / 60).

(** The time as RFC 3339 has it. *)
Definition timestamp (offset_sec : Z) (d : DateTime) : str :=
  itoa (year d) ++ lit "-" ++ pad2 (month d) ++ lit "-" ++ pad2 (day d) ++ lit "T" ++
  pad2 (hour d) ++ lit ":" ++ pad2 (minute d) ++ lit ":" ++ pad2 (second d) ++ lit "." ++
  millis_text (nanosecond d / 1000000) ++ zone_text offset_sec.

Lemma all_below (P : Z → bool) n z : forallb P (seqZ 0 n) = true → 0 <= z < n → P z = true.
Proof. intros H Hz. rewrite forallb_forall in H. apply H. rewrite <- list_elem_of_In. apply elem_of_seqZ. lia. Qed.

Lemma two_digits n : 0 <= n < 100 → TWO_DIGITS !! Z.to_nat n = Some (pad2 n).
Proof.
  intros Hn. pose (P := λ n, bool_decide (TWO_DIGITS !! Z.to_nat n = Some (pad2 n))).
  assert (P n = true) as H by (apply (all_below P 100); [vm_compute; reflexivity|done]).
  by apply bool_decide_eq_true in H.
Qed.

Lemma itoa_length n : -1000000 < n < 1000000 → (length (itoa n) <= 7)%nat.
Proof.
  intros Hn. unfold itoa, Fmt.fmt_dec. destruct (Z.ltb_spec n 0); [rewrite length_app|].
  - pose proof (Fmt.fmt_radix_length 10 ltac:(lia) 39 (- n) 6 ltac:(lia) ltac:(lia)). simpl length at 1. lia.
  - pose proof (Fmt.fmt_radix_length 10 ltac:(lia) 39 n 6 ltac:(lia) ltac:(lia)). lia.
Qed.

Lemma push_str_fits s b : (length b + length s <= 64)%nat → push_str s (Return b) = Return (b ++ s).
Proof. intros H. unfold push_str. cbn. rewrite bool_decide_true; [done|]. by rewrite length_app. Qed.

Lemma push_two_fits n b : 0 <= n < 100 → (length b + 2 <= 64)%nat → push_two n (Return b) = Return (b ++ pad2 n).
Proof.
  intros Hn Hl. unfold push_two. rewrite two_digits by done. apply push_str_fits.
  unfold pad2. by rewrite Fmt.fmt_padded_length.
Qed.

Lemma push_millis_fits d b : (length b + 4 <= 64)%nat →
  push_millis d (Return b) = Return (b ++ millis_text (nanosecond d / 1000000)) ∧
  (length (millis_text (nanosecond d / 1000000)) <= 4)%nat.
Proof.
  intros Hb. unfold push_millis. set (millis := nanosecond d / 1000000). pose proof (nanosecond_range d).
  assert (0 <= millis < 2000) as Hm by (split; [apply Z.div_pos; lia|apply Z.div_lt_upper_bound; lia]).
  set (prefix := if millis <? 10 then lit "00" else if millis <? 100 then lit "0" else []).
  assert (prefix ++ itoa millis = millis_text millis ∧ length (millis_text millis) <= 4)%nat as [E Hl].
  { pose (P := λ m, bool_decide ((if m <? 10 then lit "00" else if m <? 100 then lit "0" else []) ++ itoa m = millis_text m) &&
       bool_decide (length (millis_text m) <= 4)%nat).
    assert (P millis = true) as [H1 H2]%andb_true_iff.
    { apply (all_below P 2000); [vm_compute; reflexivity|done]. }
    by apply bool_decide_eq_true in H1, H2. }
  split; [|done]. rewrite <- E in *. rewrite length_app in Hl. subst prefix.
  destruct (millis <? 10), (millis <? 100); simpl in Hl;
    rewrite ?push_str_fits by (rewrite ?length_app; simpl; lia); by rewrite <- ?app_assoc.
Qed.

Lemma format_system_time_text offset_sec t : Z.abs offset_sec < 360000 →
  let d := if offset_sec =? 0 then from_system_time t else add_seconds (from_system_time t) offset_sec in
  format_system_time offset_sec t = Return (timestamp offset_sec d) ∧ (length (timestamp offset_sec d) <= 64)%nat.
Proof.
  intros Ho d. unfold format_system_time. fold d.
  pose proof (year_range d). pose proof (month_range d). pose proof (day_range d). pose proof (hour_range d).
  pose proof (minute_range d). pose proof (second_range d).
  assert (length (itoa (year d)) <= 7)%nat as Hy by (apply itoa_length; lia).
  assert (∀ n, length (pad2 n) = 2%nat) as Hp by (intros; apply Fmt.fmt_padded_length).
  unfold push_date, push_time, push_offset, timestamp, zone_text.
  repeat first
    [ rewrite push_str_fits by (rewrite ?length_app, ?Hp; simpl; lia)
    | rewrite push_two_fits by (rewrite ?length_app, ?Hp; simpl; lia) ].
  edestruct (push_millis_fits d) as [-> Hml]; [rewrite !length_app, ?Hp; simpl; lia|].
  destruct (Z.eqb_spec offset_sec 0).
  - rewrite push_str_fits by (rewrite !length_app, ?Hp; simpl; lia). split; [by rewrite <-!app_assoc|].
    rewrite !length_app, ?Hp. simpl. lia.
  - assert (0 <= Z.abs offset_sec / 3600 < 100) by (split; [apply Z.div_pos; lia|apply Z.div_lt_upper_bound; lia]).
    assert (0 <= Z.abs offset_sec mod 3600 / 60 < 100).
    { pose proof (Z.mod_pos_bound (Z.abs offset_sec) 3600). split; [apply Z.div_pos; lia|apply Z.div_lt_upper_bound; lia]. }
    assert (length (if 0 <? offset_sec then lit "+" else lit "-") = 1%nat) as Hsign by (by destruct (0 <? offset_sec)).
    repeat first
      [ rewrite push_str_fits by (rewrite ?length_app, ?Hp, ?Hsign; simpl; lia)
      | rewrite push_two_fits by (rewrite ?length_app, ?Hp, ?Hsign; simpl; lia) ].
    split; [by rewrite <-!app_assoc|]. rewrite !length_app, ?Hp, ?Hsign. simpl. lia.
Qed.
End times.

(** ** The log lines of HTTP requests *)

Section http.
Context {HL : HttpLib} {HB : HttpBytes} {BL : BlakeLib} {UL : UuidLib} {AL : AuthorityLib}.

(** The contexts that the connection manager and the route give a log line, after
    the one of the request, which knows no address of an upstream connection. *)
Inductive http_value : value → Prop :=
  | http_upstream (c : UpstreamContext) : http_value (context_value c)
  | http_upstream_request (c : UpstreamRequestContext) : http_value (context_value c)
  | http_response (c : DownstreamResponseContext) : http_value (context_value c)
  | http_request_duration (c : HttpRequestDurationContext) : http_value (context_value c)
  | http_response_duration (c : HttpResponseDurationContext) : http_value (context_value c)
  | http_finish (c : FinishContext) : http_value (context_value c)
  | http_wire (c : WireContext) : http_value (context_value c).

Definition upstream_addresses : list Operator :=
  [Operator.UpstreamRemoteAddress; Operator.UpstreamRemoteAddressWithoutPort; Operator.UpstreamRemotePort;
   Operator.UpstreamLocalAddress; Operator.UpstreamLocalAddressWithoutPort; Operator.UpstreamLocalPort].

Lemma first_value_none vs : Forall (λ v, v = SNone) vs → first_value vs = SNone.
Proof. induction 1 as [|v vs -> _ IH]; [done|]. done. Qed.

Lemma http_no_address v o idx cat : http_value v → o ∈ upstream_addresses → v idx (Placeholder o cat) = SNone.
Proof. unfold upstream_addresses. intros Hv Ho. rewrite !elem_of_cons, elem_of_nil in Ho. destruct_or! Ho; subst; by destruct Hv. Qed.

Lemma http_init_value (init : InitHttpContext) o idx cat :
  upstream_local_addr (socket_address (init_downstream init)) = None →
  upstream_peer_addr (socket_address (init_downstream init)) = None →
  (o ∈ upstream_addresses → context_value init idx (Placeholder o cat) = SNone) ∧
  context_value init idx (Placeholder Operator.UpstreamConnectionId cat) = Array (hash_connection None None Tcp).
Proof.
  intros Hl Hp. split.
  - intros Ho. unfold upstream_addresses in Ho. rewrite !elem_of_cons, elem_of_nil in Ho.
    destruct_or! Ho; subst; cbn; rewrite ?Hl, ?Hp; done.
  - cbn. by rewrite Hl, Hp.
Qed.

(** The log line of an HTTP request has no address of the upstream connection:
    the slots stay free whatever contexts follow.  The identifier of this connection
    is the same for every request, because the first context gives the digest of no
    addresses, and a slot keeps its first value. *)
Theorem http_upstream_unlogged (init : InitHttpContext) vs o idx cat :
  upstream_local_addr (socket_address (init_downstream init)) = None →
  upstream_peer_addr (socket_address (init_downstream init)) = None →
  Forall http_value vs →
  (o ∈ upstream_addresses → slot_after (context_value init :: vs) idx (Placeholder o cat) = SNone) ∧
  slot_after (context_value init :: vs) idx (Placeholder Operator.UpstreamConnectionId cat) =
    Array (hash_connection None None Tcp).
Proof.
  intros Hl Hp Hvs. destruct (http_init_value init o idx cat Hl Hp) as [Hi Hc]. unfold slot_after. split.
  - intros Ho. apply first_value_none. rewrite fmap_cons, Hi by done. repeat constructor.
    apply Forall_fmap. eapply Forall_impl; [exact Hvs|]. intros v Hv. by apply http_no_address.
  - rewrite fmap_cons, Hc. done.
Qed.
End http.


(** The text of a time is the RFC 3339 one and fits into its 64 bytes, and the
    unchecked reads of the table of digits are in bounds, for every offset of a time
    zone of less than a hundred hours. *)
Theorem times_rendered {CL : ChronoLib} {CS : ChronoSpec CL} offset_sec t : Z.abs offset_sec < 360000 →
  let d := if offset_sec =? 0 then from_system_time t else add_seconds (from_system_time t) offset_sec in
  format_system_time offset_sec t = Return (timestamp offset_sec d) ∧ (length (timestamp offset_sec d) <= 64)%nat.
Proof. apply format_system_time_text. Qed.

(** ** Examples *)

(** A calendar of one month: the day is that of January 1970. *)
Definition example_chrono : ChronoLib := {|
  DateTime := Z;
  from_system_time t := t;
  add_seconds t s := t + s * 1000000000;
  year _ := 1970;
  month _ := 1;
  day t := 1 + t / 1000000000 / 86400 mod 31;
  hour t := t / 1000000000 / 3600 mod 24;
  minute t := t / 1000000000 / 60 mod 60;
  second t := t / 1000000000 mod 60;
  nanosecond t := t mod 1000000000;
|}.

Lemma example_chrono_spec : ChronoSpec example_chrono.
Proof.
  split; intros t; simpl; try lia.
  - pose proof (Z.mod_pos_bound (t / 1000000000 / 86400) 31). lia.
  - pose proof (Z.mod_pos_bound (t / 1000000000 / 3600) 24). lia.
  - pose proof (Z.mod_pos_bound (t / 1000000000 / 60) 60). lia.
  - pose proof (Z.mod_pos_bound (t / 1000000000) 60). lia.
  - pose proof (Z.mod_pos_bound t 1000000000). lia.
Qed.

Lemma times_rendered_witness :
  @format_system_time example_chrono (-19800) 90061007000000 = Return (lit "1970-01-01T19:31:01.007-05:30").
Proof.
  rewrite (proj1 (@times_rendered example_chrono example_chrono_spec (-19800) 90061007000000 ltac:(reflexivity))).
  vm_compute. reflexivity.
Defined.


Section http_example.
#[local] Existing Instance assoc_http.
#[local] Existing Instance assoc_bytes.
#[local] Instance example_blake : BlakeLib := λ s, s.
#[local] Instance example_uuid : UuidLib := λ _, [].
#[local] Instance example_authority : AuthorityLib := λ s, s.

Definition example_init : InitHttpContext :=
  mk_init_http (lit "1970-01-01T00:00:00.000Z")
    (mk_downstream_context (mk_request (lit "GET") (mk_uri None None None) []) HTTP_11 10 None None
      (mk_socket_context (Some (mk_sock (V4 1) 80)) (Some (mk_sock (V4 2) 1024)) None None)).

Lemma http_upstream_unlogged_witness :
  slot_after [context_value example_init; context_value (mk_upstream_context None (Some (lit "c")) (lit "r"))] 0
    (Placeholder Operator.UpstreamRemoteAddress OPERATOR) = SNone ∧
  slot_after [context_value example_init; context_value (mk_upstream_context None (Some (lit "c")) (lit "r"))] 0
    (Placeholder Operator.UpstreamConnectionId OPERATOR) = Array (Str.byte 0 :: Str.byte 0 :: lit "TCP").
Proof.
  pose proof (http_upstream_unlogged example_init [context_value (mk_upstream_context None (Some (lit "c")) (lit "r"))]
    Operator.UpstreamRemoteAddress 0 OPERATOR eq_refl eq_refl) as H.
  destruct H as [H1 H2]; [repeat constructor|].
  split; [apply H1; by left|exact H2].
Defined.
End http_example.

End FormatContextSpec.
