(* ===== verification/OAuth2.v ===== *)
(** The OAuth2 filter (arion-lib/src/listeners/http_connection_manager/oauth2.rs)
    and its credentials (arion-configuration/.../http_filters/oauth2.rs): the
    authorization-code flow with signed transaction and session cookies. *)

From S2P Require Import Prelude RustStr Net Fmt Http StringMatch HeaderMatch Route Cors ExtProcMutation FormatGrammar LogFormatter FormatContext.
Import Http StringMatch HeaderMatch Route ExtProcMutation FormatGrammar LogFormatter FormatContext.
Local Open Scope Z_scope.

(** The engines [BASE64_STANDARD] and [BASE64_URL_SAFE_NO_PAD] of the crate base64. *)
Class Base64Lib : Type := {
  b64_encode : str → str;
  b64_decode : str → option str;
  b64url_encode : str → str;
  b64url_decode : str → option str;
}.

(** Letters, digits, minus and underscore. *)
Definition is_urlsafe (c : Ascii.ascii) : bool :=
  let n := Ascii.N_of_ascii c in
  ((48 <=? n) && (n <=? 57) || (65 <=? n) && (n <=? 90) || (97 <=? n) && (n <=? 122) || (n =? 45) || (n =? 95))%N.

Class Base64Spec (B : Base64Lib) : Prop := {
  b64_round : ∀ s, b64_decode (b64_encode s) = Some s;
  b64url_round : ∀ s, b64url_decode (b64url_encode s) = Some s;
  b64url_alphabet : ∀ s, forallb is_urlsafe (b64url_encode s) = true;
  b64url_length : ∀ s, length (b64url_encode s) = ((4 * length s + 2) / 3)%nat;
}.

(** [hmac] with SHA-256, [digest] and [aead] with AES-256-GCM of aws_lc_rs. *)
Class CryptoLib : Type := {
  hmac_sha256 : str → str → str;
  sha256 : str → str;
  (** By key, nonce and text; the tag is appended. *)
  seal_in_place_append_tag : str → str → str → option str;
  open_in_place : str → str → str → option str;
}.

Class CryptoSpec (C : CryptoLib) : Prop := {
  hmac_length : ∀ k m, length (hmac_sha256 k m) = 32%nat;
  open_seal : ∀ k n m c, seal_in_place_append_tag k n m = Some c → open_in_place k n c = Some m;
  seal_length : ∀ k n m c, seal_in_place_append_tag k n m = Some c → length c = (length m + 16)%nat;
}.

(** What is used of a parsed [url::Url]. *)
Record ParsedUrl : Type := mk_parsed_url {
  url_scheme : str;
  host_str : option str;
  username : str;
  password : option str;
  fragment : option str;
}.

(** [Url::parse], and the authorization URL of the crate oauth2 from the client, the
    endpoint, the redirect URI, the state, the scopes and the PKCE challenge. *)
Class OAuthLib : Type := {
  url_parse : str → option ParsedUrl;
  authorize_url : str → str → str → str → str → list str → str → option str;
}.

Module OAuth2.

(** ** Configuration *)

Inductive AuthType : Type := UrlEncodedBody | BasicAuth.
Inductive CookieSameSite : Type := SameSiteDisabled | Strict | Lax | SameSiteNone.

Record CookieConfig : Type := mk_cookie_config { same_site : CookieSameSite; cookie_path : str; partitioned : bool }.

Record CookieConfigs : Type := mk_cookie_configs {
  bearer_token_cookie_config : option CookieConfig;
  oauth_hmac_cookie_config : option CookieConfig;
  oauth_expires_cookie_config : option CookieConfig;
  id_token_cookie_config : option CookieConfig;
  refresh_token_cookie_config : option CookieConfig;
  oauth_nonce_cookie_config : option CookieConfig;
  code_verifier_cookie_config : option CookieConfig;
}.

Record CookieNames : Type := mk_cookie_names {
  bearer_token : str;
  oauth_hmac : str;
  oauth_expires : str;
  id_token : str;
  refresh_token : str;
  oauth_nonce : str;
  code_verifier : str;
}.

Definition cookie_names_default : CookieNames :=
  mk_cookie_names (lit "BearerToken") (lit "OauthHMAC") (lit "OauthExpires") (lit "IdToken") (lit "RefreshToken")
    (lit "OauthNonce") (lit "OauthCodeVerifier").

Record OAuth2Credentials : Type := mk_credentials {
  client_id : str;
  token_secret : str;
  hmac_secret : str;
  cookie_names : CookieNames;
  cookie_domain : option str;
}.

(** The Envoy message: a secret has a name; the names of the cookies may be empty. *)
Record EnvoyOAuth2Credentials : Type := mk_envoy_credentials {
  envoy_client_id : str;
  envoy_token_secret : option str;
  envoy_cookie_names : option CookieNames;
  envoy_cookie_domain : str;
  envoy_hmac_secret : option str;
}.

(** [Option::ok_or]. *)
Definition ok_or {A E} (o : option A) (e : E) : result E A := match o with Some a => Ok a | None => Err e end.

Definition non_empty_or (s d : str) : str := if bool_decide (s = []) then d else s.

Definition cookie_names_from (v : CookieNames) : CookieNames :=
  let d := cookie_names_default in
  mk_cookie_names (non_empty_or (bearer_token v) (bearer_token d)) (non_empty_or (oauth_hmac v) (oauth_hmac d))
    (non_empty_or (oauth_expires v) (oauth_expires d)) (non_empty_or (id_token v) (id_token d))
    (non_empty_or (refresh_token v) (refresh_token d)) (non_empty_or (oauth_nonce v) (oauth_nonce d))
    (non_empty_or (code_verifier v) (code_verifier d)).

(** [required!] of a text. *)
Definition required (s : str) : result () str := if bool_decide (s = []) then Err () else Ok s.

Definition required_secret (s : option str) : result () str := match s with Some name => required name | None => Err () end.

Definition credentials_try_from (v : EnvoyOAuth2Credentials) : result () OAuth2Credentials :=
  client_id ← required (envoy_client_id v);
  token_secret_name ← required_secret (envoy_token_secret v);
  hmac_secret_name ← required_secret (envoy_hmac_secret v);
  Ok (mk_credentials client_id token_secret_name hmac_secret_name
        (from_option cookie_names_from cookie_names_default (envoy_cookie_names v))
        (if bool_decide (envoy_cookie_domain v = []) then None else Some (envoy_cookie_domain v))).

Section oauth2.
Context {HL : HttpLib} {HB : HttpBytes} {RL : RegexLib} {BL : BlakeLib} {B64 : Base64Lib} {CR : CryptoLib} {OL : OAuthLib}.

Record OAuth2Config : Type := mk_oauth2_config {
  token_endpoint_uri : str;
  authorization_endpoint : str;
  end_session_endpoint : option str;
  credentials : OAuth2Credentials;
  redirect_path_matcher : PathMatcher;
  signout_path : PathMatcher;
  forward_bearer_token : bool;
  preserve_authorization_header : bool;
  pass_through_matcher : list HeaderMatcher;
  auth_scopes : list str;
  auth_type : AuthType;
  use_refresh_token : bool;
  default_expires_in : Z;
  deny_redirect_matcher : list HeaderMatcher;
  default_refresh_token_expires_in : Z;
  disable_id_token_set_cookie : bool;
  disable_access_token_set_cookie : bool;
  disable_refresh_token_set_cookie : bool;
  cookie_configs : CookieConfigs;
  csrf_token_expires_in : Z;
  code_verifier_token_expires_in : Z;
  disable_token_encryption : bool;
}.

(** [OAuth2FilterInner]: the keys are made of the secret when the filter is built. *)
Record OAuth2Filter : Type := mk_oauth2_filter {
  config : OAuth2Config;
  redirect_uri_formatter : UriFormatter;
}.

Definition hmac_key (f : OAuth2Filter) : str := hmac_secret (credentials (config f)).
Definition token_cipher (f : OAuth2Filter) : str := sha256 (hmac_secret (credentials (config f))).

(** ** Cookies *)

Definition semicolon : Ascii.ascii := Str.byte 59.
Definition equals : Ascii.ascii := Str.byte 61.
Definition COOKIE : HeaderName := name_from_static (lit "cookie").
Definition SET_COOKIE : HeaderName := name_from_static (lit "set-cookie").
Definition AUTHORIZATION : HeaderName := name_from_static (lit "authorization").
Definition LOCATION : HeaderName := name_from_static (lit "location").
Definition HOST : HeaderName := name_from_static (lit "host").

(** The cookies of a request in order, as both loops go over them. *)
Definition cookie_pairs (headers : HeaderMap) : list (str * str) :=
  get_all headers COOKIE ≫= λ value,
    match to_str value with
    | Some cookie_header =>
      omap (λ pair, '(name, value) ← Str.split_once_char pair equals; Some (Str.trim name, Str.trim value))
        (Str.split_char cookie_header semicolon)
    | None => []
    end.

Definition extract_cookie (headers : HeaderMap) (name : str) : option str :=
  find_map (λ nv, if bool_decide (nv.1 = name) then Some nv.2 else None) (cookie_pairs headers).

Record SessionCookies : Type := mk_session_cookies {
  session_access_token : option str;
  session_hmac : option str;
  session_expires : option str;
  session_id_token : option str;
  session_refresh_token : option str;
}.

Definition extract_session_cookies (headers : HeaderMap) (names : CookieNames) : SessionCookies :=
  foldl (λ c nv,
    let '(name, value) := nv in
    if bool_decide (name = bearer_token names) then {| c with session_access_token := Some value |}
    else if bool_decide (name = oauth_hmac names) then {| c with session_hmac := Some value |}
    else if bool_decide (name = oauth_expires names) then {| c with session_expires := Some value |}
    else if bool_decide (name = id_token names) then {| c with session_id_token := Some value |}
    else if bool_decide (name = refresh_token names) then {| c with session_refresh_token := Some value |}
    else c)
    (mk_session_cookies None None None None None) (cookie_pairs headers).

(** The text of a cookie. *)
Definition cookie_text (name value : str) (max_age : option Z) (config : option CookieConfig) (domain : option str) (is_secure : bool) : str :=
  name ++ lit "=" ++ value ++ lit "; Path=" ++ from_option cookie_path (lit "/") config ++ lit "; HttpOnly" ++
  (if is_secure then lit "; Secure" else []) ++
  (match domain with Some d => if bool_decide (d = []) then [] else lit "; Domain=" ++ d | None => [] end) ++
  (match max_age with Some age => lit "; Max-Age=" ++ Fmt.fmt_dec age | None => [] end) ++
  match config with
  | Some cfg =>
    match same_site cfg with
    | Strict => lit "; SameSite=Strict"
    | Lax => lit "; SameSite=Lax"
    | SameSiteNone => lit "; SameSite=None"
    | SameSiteDisabled => []
    end ++ (if partitioned cfg then lit "; Partitioned" else [])
  | None => lit "; SameSite=Lax"
  end.

Definition format_cookie (name value : str) (max_age : option Z) (config : option CookieConfig) (domain : option str) (is_secure : bool)
    : option HeaderValue := value_from_bytes (cookie_text name value max_age config domain is_secure).

Definition append_cookie (headers : HeaderMap) (name value : str) (max_age : option Z) (config : option CookieConfig)
    (domain : option str) (is_secure : bool) : HeaderMap :=
  match format_cookie name value max_age config domain is_secure with
  | Some cookie => header_append headers SET_COOKIE cookie
  | None => headers
  end.

Definition append_expired_cookie (headers : HeaderMap) (name : str) (config : option CookieConfig) (domain : option str) (is_secure : bool)
    : HeaderMap := append_cookie headers name [] (Some 0) config domain is_secure.

Definition flow_cookie_name (base_name flow_id : str) : str := base_name ++ lit "." ++ flow_id.

Definition clear_transaction_cookies (headers : HeaderMap) (c : OAuth2Config) (flow_id : str) (is_https : bool) : HeaderMap :=
  let names := cookie_names (credentials c) in
  let domain := cookie_domain (credentials c) in
  let headers := append_expired_cookie headers (flow_cookie_name (oauth_nonce names) flow_id)
    (oauth_nonce_cookie_config (cookie_configs c)) domain is_https in
  append_expired_cookie headers (flow_cookie_name (code_verifier names) flow_id)
    (code_verifier_cookie_config (cookie_configs c)) domain is_https.

(** ** Encryption *)

Definition ENCRYPTED_COOKIE_PREFIX : str := lit "gcm.".
Definition AEAD_NONCE_LEN : nat := 12.

Definition from_utf8 (s : str) : option str := if bool_decide (from_utf8_lossy s = s) then Some s else None.

Definition encrypt_cookie_value (key nonce value : str) : option str :=
  ciphertext ← seal_in_place_append_tag key nonce value;
  Some (ENCRYPTED_COOKIE_PREFIX ++ b64url_encode (nonce ++ ciphertext)).

Definition strip_prefix (s p : str) : option str := if Str.starts_with s p then Some (drop (length p) s) else None.

Definition decode_slice (decode : str → option str) (capacity : nat) (s : str) : option str :=
  d ← decode s; if bool_decide (length d <= capacity)%nat then Some d else None.

Definition open_payload (key payload : str) : option str :=
  if bool_decide (length payload <= AEAD_NONCE_LEN)%nat then None
  else
    plaintext ← open_in_place key (take AEAD_NONCE_LEN payload) (drop AEAD_NONCE_LEN payload);
    from_utf8 plaintext.

(** The buffer is used when the value fits. *)
Definition decrypt_cookie_value (key value : str) (buf : nat) : option str :=
  encoded ← strip_prefix value ENCRYPTED_COOKIE_PREFIX;
  match decode_slice b64url_decode buf encoded with
  | Some payload => open_payload key payload
  | None => payload ← b64url_decode encoded; open_payload key payload
  end.

Definition decrypt_token_cookie (f : OAuth2Filter) (value : option str) : option str :=
  v ← value;
  if disable_token_encryption (config f) then Some v else decrypt_cookie_value (token_cipher f) v 1024.

Definition encrypt_token_cookie (f : OAuth2Filter) (nonce value : str) : option str :=
  if disable_token_encryption (config f) then Some value else encrypt_cookie_value (token_cipher f) nonce value.

(** ** Signatures *)

Definition newline : Ascii.ascii := Str.byte 10.
Definition hmac_domain (cookie_domain : option str) (host : str) : str :=
  match cookie_domain with
  | Some domain => if bool_decide (domain = []) then host else domain
  | None => host
  end.

(** What the context of [session_hmac_tag] is updated with. *)
Definition session_payload (domain expires : str) (access_token id_token refresh_token : option str) : str :=
  domain ++ newline :: expires ++ newline :: default [] access_token ++ newline :: default [] id_token ++
  newline :: default [] refresh_token.

Definition session_hmac_tag (key domain expires : str) (access_token id_token refresh_token : option str) : str :=
  hmac_sha256 key (session_payload domain expires access_token id_token refresh_token).

Definition compute_session_hmac (key domain expires : str) (access_token id_token refresh_token : option str) : str :=
  b64_encode (session_hmac_tag key domain expires access_token id_token refresh_token).

(** The digest in lower-case hexadecimal, in a buffer of 64 bytes. *)
Definition expected_legacy (tag : str) : str :=
  let hex := take 32 tag ≫= λ byte, Fmt.fmt_padded 2 16 (Z.of_N (Ascii.N_of_ascii byte)) in
  hex ++ replicate (64 - length hex) (Str.byte 0).

Definition verify_session_hmac (key domain expires : str) (access_token id_token refresh_token : option str) (signature : str) : bool :=
  let tag := session_hmac_tag key domain expires access_token id_token refresh_token in
  match decode_slice b64_decode 64 signature with
  | None => false
  | Some decoded =>
    if bool_decide (length decoded = length tag ∧ tag = decoded) then true
    else if bool_decide (length decoded ≠ (length tag * 2)%nat) then false
    else bool_decide (expected_legacy tag = decoded)
  end.

Definition transaction_context : str := lit "arion.oauth2.transaction.v1" ++ [Str.byte 0].

Definition transaction_tag (key payload : str) : str := hmac_sha256 key (transaction_context ++ payload).

Definition TRANSACTION_COOKIE_VERSION : str := lit "v1".

Definition transaction_payload (flow_id nonce : str) (issued_at : Z) (target redirect_uri : str) : str :=
  TRANSACTION_COOKIE_VERSION ++ lit "." ++ flow_id ++ lit "." ++ nonce ++ lit "." ++ Fmt.fmt_dec issued_at ++ lit "." ++
  b64url_encode target ++ lit "." ++ b64url_encode redirect_uri.

Definition encode_transaction_cookie (key flow_id nonce : str) (issued_at : Z) (target redirect_uri : str) : str :=
  let payload := transaction_payload flow_id nonce issued_at target redirect_uri in
  payload ++ lit "." ++ b64url_encode (transaction_tag key payload).

Definition split_callback_state (state : str) : option (str * str) :=
  '(flow_id, nonce) ← Str.split_once_char state Str.dot;
  if negb (bool_decide (flow_id = [])) && negb (bool_decide (nonce = [])) &&
     bool_decide (length flow_id <= 64)%nat && bool_decide (length nonce <= 256)%nat &&
     forallb is_urlsafe flow_id && forallb is_urlsafe nonce
  then Some (flow_id, nonce) else None.

Definition is_valid_redirect_uri (value : str) : bool :=
  match url_parse value with
  | Some parsed =>
    bool_decide (url_scheme parsed = lit "http" ∨ url_scheme parsed = lit "https") &&
    bool_decide (host_str parsed ≠ None) && bool_decide (username parsed = []) &&
    bool_decide (password parsed = None) && bool_decide (fragment parsed = None)
  | None => false
  end.

Definition backslash : Ascii.ascii := Str.byte 92.

Definition local_redirect_target (target : option str) : str :=
  match target with
  | None => lit "/"
  | Some target =>
    if Str.starts_with target (lit "/") && negb (Str.starts_with target (lit "//")) &&
       negb (Str.contains_char target backslash) && bool_decide (path_try_from target ≠ None)
    then target else lit "/"
  end.

Record OAuthTransaction : Type := mk_transaction {
  flow_id : str;
  nonce : str;
  target : str;
  transaction_redirect_uri : str;
}.

Definition parse_u64 : str → option Z := Fmt.from_str_radix 10 (2 ^ 64 - 1).

(** [now.checked_sub(issued_at)? > max_age_secs], and not from the future. *)
Definition is_fresh (now issued_at max_age_secs : Z) : bool := (issued_at <=? now) && (now - issued_at <=? max_age_secs).

Definition verify_transaction_cookie (key state : str) (cookie : option str) (max_age_secs now : Z) : option OAuthTransaction :=
  '(state_flow_id, state_nonce) ← split_callback_state state;
  cookie ← cookie;
  '(payload, signature) ← Str.rsplit_once_char cookie Str.dot;
  signature ← b64url_decode signature;
  let expected := transaction_tag key payload in
  if negb (bool_decide (length signature = length expected)) || negb (bool_decide (expected = signature)) then None
  else
    match Str.split_char payload Str.dot with
    | [version; flow_id; nonce; issued_at; target; redirect_uri] =>
      if negb (bool_decide (version = TRANSACTION_COOKIE_VERSION)) || negb (bool_decide (flow_id = state_flow_id)) ||
         negb (bool_decide (nonce = state_nonce)) then None
      else
        issued_at ← parse_u64 issued_at;
        if negb (is_fresh now issued_at max_age_secs) then None
        else
          target ← b64url_decode target; target ← from_utf8 target;
          redirect_uri ← b64url_decode redirect_uri; redirect_uri ← from_utf8 redirect_uri;
          if negb (bool_decide (local_redirect_target (Some target) = target)) || negb (is_valid_redirect_uri redirect_uri) then None
          else Some (mk_transaction flow_id nonce target redirect_uri)
    | _ => None
    end.

Definition is_verifier_byte (c : Ascii.ascii) : bool := is_urlsafe c || bool_decide (c = Str.dot ∨ c = Str.byte 126).

Definition verify_code_verifier (payload : str) (max_age_secs now : Z) : option str :=
  '(issued_at, verifier) ← Str.split_once_char payload Str.dot;
  issued_at ← parse_u64 issued_at;
  if is_fresh now issued_at max_age_secs && bool_decide (43 <= length verifier <= 128)%nat && forallb is_verifier_byte verifier
  then Some verifier else None.

(** ** The query of a callback *)

Definition hex_value (c : Ascii.ascii) : option N :=
  let n := Ascii.N_of_ascii c in
  if (48 <=? n)%N && (n <=? 57)%N then Some (n - 48)%N
  else if (97 <=? n)%N && (n <=? 102)%N then Some (n - 87)%N
  else if (65 <=? n)%N && (n <=? 70)%N then Some (n - 55)%N
  else None.

Fixpoint form_decode_bytes (bytes : str) : option str :=
  match bytes with
  | [] => Some []
  | c :: rest =>
    if bool_decide (c = Str.byte 43) then decoded ← form_decode_bytes rest; Some (Str.byte 32 :: decoded)
    else if bool_decide (c = percent) then
      match rest with
      | high :: low :: rest =>
        high ← hex_value high; low ← hex_value low;
        decoded ← form_decode_bytes rest;
        Some (Str.byte (N.lor (N.shiftl high 4) low) :: decoded)
      | _ => None
      end
    else decoded ← form_decode_bytes rest; Some (c :: decoded)
  end.

Definition strict_form_decode (value : str) : option str := decoded ← form_decode_bytes value; from_utf8 decoded.

Record CallbackParameters : Type := mk_callback { code : option str; state : option str; error : option str }.

Definition ampersand : Ascii.ascii := Str.byte 38.

(** [slot.replace(value).is_some()] is an error. *)
Definition set_parameter (p : CallbackParameters) (name value : str) : option CallbackParameters :=
  if bool_decide (name = lit "code") then
    if bool_decide (code p = None) then Some (mk_callback (Some value) (state p) (error p)) else None
  else if bool_decide (name = lit "state") then
    if bool_decide (state p = None) then Some (mk_callback (code p) (Some value) (error p)) else None
  else if bool_decide (name = lit "error") then
    if bool_decide (error p = None) then Some (mk_callback (code p) (state p) (Some value)) else None
  else Some p.

Fixpoint parse_pairs (p : CallbackParameters) (pairs : list str) : option CallbackParameters :=
  match pairs with
  | [] => Some p
  | part :: pairs =>
    if bool_decide (part = []) then parse_pairs p pairs
    else
      '(raw_name, raw_value) ← Str.split_once_char part equals;
      name ← strict_form_decode raw_name;
      value ← strict_form_decode raw_value;
      p ← set_parameter p name value;
      parse_pairs p pairs
  end.

Definition parse_callback_query (query : str) : option CallbackParameters :=
  parse_pairs (mk_callback None None None) (Str.split_char query ampersand).

(** ** Requests and answers *)

Definition extract_host (req : Request) : option str :=
  match header_get (headers req) HOST ≫= to_str with
  | Some host => Some host
  | None => authority (uri req)
  end.

Definition request_is_https (req : Request) : bool :=
  bool_decide (scheme_str (uri req) = Some (lit "https")) ||
  match header_get (headers req) (name_from_static (lit "x-forwarded-proto")) with
  | Some value => bool_decide (value_as_bytes value = lit "https")
  | None => false
  end.

Definition add_oauth_response_headers (headers : HeaderMap) : HeaderMap :=
  let headers := header_insert headers (name_from_static (lit "cache-control")) (value_from_static (lit "no-store")) in
  let headers := header_insert headers (name_from_static (lit "pragma")) (value_from_static (lit "no-cache")) in
  header_insert headers (name_from_static (lit "referrer-policy")) (value_from_static (lit "no-referrer")).

Definition synthetic (status : Z) : Response := mk_response status header_map_new.

Definition with_headers (f : HeaderMap → HeaderMap) (r : Response) : Response := mk_response (status r) (f (response_headers r)).

Definition oauth_error (status : Z) : Cors.FilterDecision :=
  Cors.DirectResponse (with_headers add_oauth_response_headers (synthetic status)).

Definition FOUND : Z := 302.
Definition BAD_REQUEST : Z := 400.
Definition UNAUTHORIZED : Z := 401.
Definition INTERNAL_SERVER_ERROR : Z := 500.
Definition BAD_GATEWAY : Z := 502.

Definition bearer_header (f : OAuth2Filter) (req : Request) (token : str) : option HeaderValue :=
  if negb (forward_bearer_token (config f)) ||
     preserve_authorization_header (config f) && contains_key (headers req) AUTHORIZATION
  then None else value_from_bytes (lit "Bearer " ++ token).

(** ** Sign-out *)

Definition handle_signout (f : OAuth2Filter) (req : Request) : Cors.FilterDecision :=
  let c := config f in
  let cnames := cookie_names (credentials c) in
  let cdomain := cookie_domain (credentials c) in
  let is_https := request_is_https req in
  let target_url := default (lit "/") (end_session_endpoint c) in
  let headers := match value_from_str target_url with
                 | Some loc => header_insert header_map_new LOCATION loc
                 | None => header_map_new
                 end in
  let headers := add_oauth_response_headers headers in
  let cc := cookie_configs c in
  let headers := foldl (λ h nc, append_expired_cookie h nc.1 nc.2 cdomain is_https) headers
    [(bearer_token cnames, bearer_token_cookie_config cc);
     (oauth_hmac cnames, oauth_hmac_cookie_config cc);
     (oauth_expires cnames, oauth_expires_cookie_config cc);
     (id_token cnames, id_token_cookie_config cc);
     (refresh_token cnames, refresh_token_cookie_config cc);
     (oauth_nonce cnames, oauth_nonce_cookie_config cc);
     (code_verifier cnames, code_verifier_cookie_config cc)] in
  Cors.DirectResponse (mk_response FOUND headers).

(** ** The start of a flow *)

(** What is drawn at random: the identifier of the flow, the token against forged
    requests, the PKCE challenge with its verifier, and nonces of the cipher. *)
Record Random : Type := mk_random {
  flow_bytes : str;
  csrf_secret : str;
  pkce_challenge : str;
  pkce_verifier : str;
  aead_nonce : nat → str;
}.

Definition random_urlsafe_token (random : str) : str := b64url_encode random.

(** The context has no addresses. *)
Definition format_redirect_uri (f : OAuth2Filter) (req : Request) (version : Version) : option str :=
  let ctx := mk_downstream_context req version 0 None None (mk_socket_context None None None None) in
  let redirect_uri := uri_format (redirect_uri_formatter f) ctx in
  if is_valid_redirect_uri redirect_uri then Some redirect_uri else None.

Definition authorization_url (f : OAuth2Filter) (redirect_uri state pkce_challenge : str) : option str :=
  let c := config f in
  authorize_url (client_id (credentials c)) (token_secret (credentials c)) (authorization_endpoint c) redirect_uri state
    (auth_scopes c) pkce_challenge.

(** The path and query of a request as text. *)
Definition pq_str (p : PathAndQuery) : str :=
  pq_path p ++ match pq_query p with Some q => Str.question :: q | None => [] end.

(** A flow that begins: what its cookies are made of. *)
Record Login : Type := mk_login {
  login_flow_id : str;
  login_nonce : str;
  login_issued_at : Z;
  login_target : str;
  login_redirect_uri : str;
}.

(** The answer to a request that has no session, up to the status of an error. *)
Definition begin_login (f : OAuth2Filter) (req : Request) (version : Version) (r : Random) (issued_at : Z)
    : result Z (Login * Response) :=
  let c := config f in
  let cnames := cookie_names (credentials c) in
  let cdomain := cookie_domain (credentials c) in
  let is_https := request_is_https req in
  redirect_uri ← ok_or (format_redirect_uri f req version) BAD_REQUEST;
  let flow_id := random_urlsafe_token (flow_bytes r) in
  let state := flow_id ++ lit "." ++ csrf_secret r in
  let original_target := local_redirect_target (pq_str <$> path_and_query (uri req)) in
  let transaction_cookie :=
    encode_transaction_cookie (hmac_key f) flow_id (csrf_secret r) issued_at original_target redirect_uri in
  let verifier_payload := Fmt.fmt_dec issued_at ++ lit "." ++ pkce_verifier r in
  verifier_cookie ← ok_or (encrypt_cookie_value (token_cipher f) (aead_nonce r 0) verifier_payload) INTERNAL_SERVER_ERROR;
  auth_url ← ok_or (authorization_url f redirect_uri state (pkce_challenge r)) INTERNAL_SERVER_ERROR;
  nonce_header ← ok_or (format_cookie (flow_cookie_name (oauth_nonce cnames) flow_id) transaction_cookie
    (Some (csrf_token_expires_in c)) (oauth_nonce_cookie_config (cookie_configs c)) cdomain is_https) INTERNAL_SERVER_ERROR;
  verifier_header ← ok_or (format_cookie (flow_cookie_name (code_verifier cnames) flow_id) verifier_cookie
    (Some (code_verifier_token_expires_in c)) (code_verifier_cookie_config (cookie_configs c)) cdomain is_https) INTERNAL_SERVER_ERROR;
  location ← ok_or (value_from_str auth_url) INTERNAL_SERVER_ERROR;
  let headers := add_oauth_response_headers (header_insert header_map_new LOCATION location) in
  Ok (mk_login flow_id (csrf_secret r) issued_at original_target redirect_uri,
      mk_response FOUND (header_append (header_append headers SET_COOKIE nonce_header) SET_COOKIE verifier_header)).

Definition handle_unauthenticated (f : OAuth2Filter) (req : Request) (version : Version) (r : Random) (issued_at : Z) : Cors.FilterDecision :=
  match begin_login f req version r issued_at with
  | Ok (_, resp) => Cors.DirectResponse resp
  | Err status => oauth_error status
  end.

(** ** The callback *)

Record TokenEndpointResponse : Type := mk_token_response {
  response_access_token : str;
  expires_in : option Z;
  response_refresh_token : option str;
  response_id_token : option str;
}.

(** The request to the token endpoint: the pairs of the form and the header. *)
Record TokenRequest : Type := mk_token_request { form : list (str * str); basic_auth : option str }.

(** What comes back: no answer, a status, or a body that is no such JSON. *)
Inductive TokenReply : Type :=
  | SendFailed
  | StatusReply (status : Z)
  | MalformedJson
  | TokenJson (r : TokenEndpointResponse).

Inductive OauthClientError : Type := Reqwest | TokenEndpointError (status : Z).

Definition token_request (f : OAuth2Filter) (code redirect_uri code_verifier : str) : TokenRequest :=
  let cred := credentials (config f) in
  let base := [(lit "grant_type", lit "authorization_code"); (lit "code", code); (lit "redirect_uri", redirect_uri);
               (lit "code_verifier", code_verifier)] in
  match auth_type (config f) with
  | UrlEncodedBody => mk_token_request (base ++ [(lit "client_id", client_id cred); (lit "client_secret", token_secret cred)]) None
  | BasicAuth => mk_token_request base (Some (lit "Basic " ++ b64_encode (client_id cred ++ lit ":" ++ token_secret cred)))
  end.

Definition exchange_code (f : OAuth2Filter) (endpoint : TokenRequest → TokenReply) (code redirect_uri code_verifier : str)
    : result OauthClientError TokenEndpointResponse :=
  match endpoint (token_request f code redirect_uri code_verifier) with
  | SendFailed => Err Reqwest
  | StatusReply s => Err (TokenEndpointError s)
  | MalformedJson => Err Reqwest
  | TokenJson r => Ok r
  end.

Definition callback_failure (f : OAuth2Filter) (status : Z) (is_https : bool) (flow_id : str) : Cors.FilterDecision :=
  Cors.DirectResponse (mk_response status
    (clear_transaction_cookies (add_oauth_response_headers header_map_new) (config f) flow_id is_https)).

(** The clock is read for the transaction, the verifier and the expiration. *)
Record Clock : Type := mk_clock { at_transaction : Z; at_verifier : Z; at_expiry : Z }.

(** The tokens that are kept in cookies. *)
Definition kept_tokens (c : OAuth2Config) (t : TokenEndpointResponse) : option str * option str * option str :=
  (if disable_access_token_set_cookie c then None else Some (response_access_token t),
   if disable_id_token_set_cookie c then None else response_id_token t,
   if use_refresh_token c && negb (disable_refresh_token_set_cookie c) then response_refresh_token t else None).

Definition encrypted (f : OAuth2Filter) (nonce : str) (token : option str) : option (option str) :=
  match token with
  | Some t => cookie ← encrypt_token_cookie f nonce t; Some (Some cookie)
  | None => Some None
  end.

Definition effective_expires_in (c : OAuth2Config) (t : TokenEndpointResponse) : Z :=
  match expires_in t with
  | Some n => n
  | None => if default_expires_in c =? 0 then 3600 else default_expires_in c
  end.

(** A session that begins: the tokens, as they are and as cookies. *)
Record Session : Type := mk_session {
  session_location : HeaderValue;
  session_expires_in : Z;
  session_expiration : str;
  session_tokens : option str * option str * option str;
  session_cookies : option str * option str * option str;
}.

Definition begin_session (f : OAuth2Filter) (t : OAuthTransaction) (token_resp : TokenEndpointResponse) (r : Random) (now_secs : Z)
    : option Session :=
  let c := config f in
  let expires_in := effective_expires_in c token_resp in
  if 2 ^ 64 <=? now_secs + expires_in then None
  else
    let '(access_token, id_token, refresh_token) := kept_tokens c token_resp in
    access_cookie ← encrypted f (aead_nonce r 0) access_token;
    id_cookie ← encrypted f (aead_nonce r 1) id_token;
    refresh_cookie ← encrypted f (aead_nonce r 2) refresh_token;
    location ← value_from_str (target t);
    Some (mk_session location expires_in (Fmt.fmt_dec (now_secs + expires_in))
      (access_token, id_token, refresh_token) (access_cookie, id_cookie, refresh_cookie)).

(** What the signature of a session is over. *)
Definition session_signed (f : OAuth2Filter) (host : str) (s : Session) : str :=
  let '(access_token, id_token, refresh_token) := session_tokens s in
  session_payload (hmac_domain (cookie_domain (credentials (config f))) host) (session_expiration s) access_token id_token refresh_token.

Definition session_response (f : OAuth2Filter) (is_https : bool) (host flow_id : str) (s : Session) : Response :=
  let c := config f in
  let cnames := cookie_names (credentials c) in
  let cdomain := cookie_domain (credentials c) in
  let cc := cookie_configs c in
  let '(access_token, id_token_, refresh_token_) := session_tokens s in
  let '(access_cookie, id_cookie, refresh_cookie) := session_cookies s in
  let hmac_val :=
    compute_session_hmac (hmac_key f) (hmac_domain cdomain host) (session_expiration s) access_token id_token_ refresh_token_ in
  let max_age := session_expires_in s in
  let append_opt h name token max_age cfg :=
    match token with Some t => append_cookie h name t (Some max_age) cfg cdomain is_https | None => h end in
  let h := add_oauth_response_headers (header_insert header_map_new LOCATION (session_location s)) in
  let h := append_opt h (bearer_token cnames) access_cookie max_age (bearer_token_cookie_config cc) in
  let h := append_cookie h (oauth_expires cnames) (session_expiration s) (Some max_age) (oauth_expires_cookie_config cc) cdomain is_https in
  let h := append_cookie h (oauth_hmac cnames) hmac_val (Some max_age) (oauth_hmac_cookie_config cc) cdomain is_https in
  let h := append_opt h (id_token cnames) id_cookie max_age (id_token_cookie_config cc) in
  let h := append_opt h (refresh_token cnames) refresh_cookie (default_refresh_token_expires_in c) (refresh_token_cookie_config cc) in
  mk_response FOUND (clear_transaction_cookies h c flow_id is_https).

(** The checks of a callback, up to the answer of the token endpoint. *)
Definition callback_checks (f : OAuth2Filter) (is_https : bool) (query : str) (headers : HeaderMap)
    (endpoint : TokenRequest → TokenReply) (clock : Clock) : result Cors.FilterDecision (str * OAuthTransaction * TokenEndpointResponse) :=
  let c := config f in
  let cnames := cookie_names (credentials c) in
  parameters ← ok_or (parse_callback_query query) (oauth_error BAD_REQUEST);
  state ← ok_or (state parameters) (oauth_error BAD_REQUEST);
  '(flow_id, nonce) ← ok_or (split_callback_state state) (oauth_error BAD_REQUEST);
  transaction ← ok_or (verify_transaction_cookie (hmac_key f) state
      (extract_cookie headers (flow_cookie_name (oauth_nonce cnames) flow_id))
      (csrf_token_expires_in c) (at_transaction clock)) (oauth_error BAD_REQUEST);
  let failure status := callback_failure f status is_https flow_id in
  if bool_decide (error parameters ≠ None) then Err (failure UNAUTHORIZED)
  else
    code ← ok_or (code parameters) (failure BAD_REQUEST);
    let verifier :=
      value ← extract_cookie headers (flow_cookie_name (code_verifier cnames) flow_id);
      value ← decrypt_cookie_value (token_cipher f) value 256;
      verify_code_verifier value (code_verifier_token_expires_in c) (at_verifier clock) in
    code_verifier ← ok_or verifier (failure BAD_REQUEST);
    match exchange_code f endpoint code (transaction_redirect_uri transaction) code_verifier with
    | Err _ => Err (failure BAD_GATEWAY)
    | Ok token_resp => Ok (flow_id, transaction, token_resp)
    end.

Definition handle_callback (f : OAuth2Filter) (is_https : bool) (query : str) (headers : HeaderMap) (host : str)
    (endpoint : TokenRequest → TokenReply) (r : Random) (clock : Clock) : Cors.FilterDecision :=
  match callback_checks f is_https query headers endpoint clock with
  | Err decision => decision
  | Ok (flow_id, transaction, token_resp) =>
    match begin_session f transaction token_resp r (at_expiry clock) with
    | Some s => Cors.DirectResponse (session_response f is_https host flow_id s)
    | None => callback_failure f INTERNAL_SERVER_ERROR is_https flow_id
    end
  end.

(** ** The filter *)

(** The session of a request: nothing if it is not authenticated. *)
Definition authenticated (f : OAuth2Filter) (req : Request) (host : str) (now_secs : Z) : option (option HeaderValue) :=
  let c := config f in
  let session := extract_session_cookies (headers req) (cookie_names (credentials c)) in
  match session_hmac session, session_expires session with
  | Some hmac_value, Some expires =>
    match parse_u64 expires with
    | Some expires_at =>
      if now_secs <? expires_at then
        let access_token := decrypt_token_cookie f (session_access_token session) in
        let id_token := decrypt_token_cookie f (session_id_token session) in
        let refresh_token := decrypt_token_cookie f (session_refresh_token session) in
        let domain := hmac_domain (cookie_domain (credentials c)) host in
        if verify_session_hmac (hmac_key f) domain expires access_token id_token refresh_token hmac_value
        then Some (access_token ≫= bearer_header f req) else None
      else None
    | None => None
    end
  | _, _ => None
  end.

Definition apply_request (f : OAuth2Filter) (req : Request) (version : Version) (endpoint : TokenRequest → TokenReply) (r : Random)
    (clock : Clock) (now_secs issued_at : Z) : Request * Cors.FilterDecision :=
  let c := config f in
  if existsb (λ matcher, request_matches matcher req) (pass_through_matcher c) then (req, Cors.Continue)
  else
    match extract_host req with
    | None => (req, Cors.DirectResponse (synthetic BAD_REQUEST))
    | Some host =>
      let matches m := match path_and_query (uri req) with Some pq => bool_decide (path_matches m pq ≠ None) | None => false end in
      if matches (signout_path c) then (req, handle_signout f req)
      else if matches (redirect_path_matcher c) then
        (req, handle_callback f (request_is_https req) (default [] (uri_query (uri req))) (headers req) host endpoint r clock)
      else
        match authenticated f req host now_secs with
        | Some (Some authorization) =>
          (mk_request (method req) (uri req) (header_insert (headers req) AUTHORIZATION authorization), Cors.Continue)
        | Some None => (req, Cors.Continue)
        | None =>
          if existsb (λ matcher, request_matches matcher req) (deny_redirect_matcher c)
          then (req, Cors.DirectResponse (synthetic UNAUTHORIZED))
          else (req, handle_unauthenticated f req version r issued_at)
        end
    end.

End oauth2.
End OAuth2.
