(* ===== verification/OAuth2Spec.v ===== *)
(** Base64 as RFC 4648 has it, in the two forms that the proxy uses of the crate
    base64: an instance of its interface, with the laws that are relied on. *)

From S2P Require Import Prelude RustStr OAuth2 Net Fmt Http StringMatch HeaderMatch Route TraceInfo Tracing TracingSpec Cors ExtProcMutation FormatGrammar LogFormatter FormatContext.


Module Base64.

(** Six bits, the most significant one first. *)
Definition sextet : Type := bool * bool * bool * bool * bool * bool.

Definition all_sextets : list sextet :=
  let bs := [false; true] in
  a ← bs; b ← bs; c ← bs; d ← bs; e ← bs; f ← bs; [(a, b, c, d, e, f)].

Definition alphabet (url : bool) : str :=
  lit "ABCDEFGHIJKLMNOPQRSTUVWXYZabcdefghijklmnopqrstuvwxyz0123456789" ++ (if url then lit "-_" else lit "+/").

Definition to_char (url : bool) (s : sextet) : Ascii.ascii :=
  let '(a, b, c, d, e, f) := s in
  let bit (x : bool) (n : nat) := if x then n else 0 in
  default (Str.byte 0) (alphabet url !! (bit a 32 + bit b 16 + bit c 8 + bit d 4 + bit e 2 + bit f 1)).

Definition of_char (url : bool) (c : Ascii.ascii) : option sextet :=
  find (λ s, bool_decide (to_char url s = c)) all_sextets.

Definition pad : Ascii.ascii := Str.byte 61.

(** The padding of a last group, which only the standard form has. *)
Definition padding (url : bool) (n : nat) : str := if url then [] else replicate n pad.

Fixpoint encode (url : bool) (s : str) : str :=
  match s with
  | [] => []
  | [Ascii.Ascii a0 a1 a2 a3 a4 a5 a6 a7] =>
    [to_char url (a7, a6, a5, a4, a3, a2); to_char url (a1, a0, false, false, false, false)] ++ padding url 2
  | [Ascii.Ascii a0 a1 a2 a3 a4 a5 a6 a7; Ascii.Ascii b0 b1 b2 b3 b4 b5 b6 b7] =>
    [to_char url (a7, a6, a5, a4, a3, a2); to_char url (a1, a0, b7, b6, b5, b4); to_char url (b3, b2, b1, b0, false, false)] ++
    padding url 1
  | Ascii.Ascii a0 a1 a2 a3 a4 a5 a6 a7 :: Ascii.Ascii b0 b1 b2 b3 b4 b5 b6 b7 :: Ascii.Ascii c0 c1 c2 c3 c4 c5 c6 c7 :: rest =>
    to_char url (a7, a6, a5, a4, a3, a2) :: to_char url (a1, a0, b7, b6, b5, b4) ::
    to_char url (b3, b2, b1, b0, c7, c6) :: to_char url (c5, c4, c3, c2, c1, c0) :: encode url rest
  end.

(** One byte of two sextets, and two of three; bits that are left over are zero. *)
Definition decode2 (url : bool) (w x : Ascii.ascii) : option str :=
  '(a7, a6, a5, a4, a3, a2) ← of_char url w;
  '(a1, a0, z1, z2, z3, z4) ← of_char url x;
  if z1 || z2 || z3 || z4 then None else Some [Ascii.Ascii a0 a1 a2 a3 a4 a5 a6 a7].

Definition decode3 (url : bool) (w x y : Ascii.ascii) : option str :=
  '(a7, a6, a5, a4, a3, a2) ← of_char url w;
  '(a1, a0, b7, b6, b5, b4) ← of_char url x;
  '(b3, b2, b1, b0, z1, z2) ← of_char url y;
  if z1 || z2 then None else Some [Ascii.Ascii a0 a1 a2 a3 a4 a5 a6 a7; Ascii.Ascii b0 b1 b2 b3 b4 b5 b6 b7].

Fixpoint decode (url : bool) (s : str) : option str :=
  match s with
  | [] => Some []
  | w :: x :: y :: z :: rest =>
    if negb url && bool_decide (z = pad ∧ rest = []) then
      if bool_decide (y = pad) then decode2 url w x else decode3 url w x y
    else
      '(a7, a6, a5, a4, a3, a2) ← of_char url w;
      '(a1, a0, b7, b6, b5, b4) ← of_char url x;
      '(b3, b2, b1, b0, c7, c6) ← of_char url y;
      '(c5, c4, c3, c2, c1, c0) ← of_char url z;
      decoded ← decode url rest;
      Some (Ascii.Ascii a0 a1 a2 a3 a4 a5 a6 a7 :: Ascii.Ascii b0 b1 b2 b3 b4 b5 b6 b7 ::
            Ascii.Ascii c0 c1 c2 c3 c4 c5 c6 c7 :: decoded)
  | [w; x; y] => if url then decode3 url w x y else None
  | [w; x] => if url then decode2 url w x else None
  | _ => None
  end.

(** ** Laws *)

Lemma of_to_char url s : of_char url (to_char url s) = Some s.
Proof. by destruct url, s as [[[[[[] []] []] []] []] []]. Qed.

Lemma to_char_not_pad url s : to_char url s ≠ pad.
Proof. by destruct url, s as [[[[[[] []] []] []] []] []]. Qed.

Lemma to_char_urlsafe s : is_urlsafe (to_char true s) = true.
Proof. by destruct s as [[[[[[] []] []] []] []] []]. Qed.

#[local] Arguments to_char : simpl never.
#[local] Arguments of_char : simpl never.

Lemma decode2_encode url a1 a2 a3 a4 a5 a6 a7 a8 :
  decode2 url (to_char url (a1, a2, a3, a4, a5, a6)) (to_char url (a7, a8, false, false, false, false)) =
  Some [Ascii.Ascii a8 a7 a6 a5 a4 a3 a2 a1].
Proof. unfold decode2. by rewrite !of_to_char. Qed.

Lemma decode3_encode url a1 a2 a3 a4 a5 a6 a7 a8 b1 b2 b3 b4 b5 b6 b7 b8 :
  decode3 url (to_char url (a1, a2, a3, a4, a5, a6)) (to_char url (a7, a8, b1, b2, b3, b4)) (to_char url (b5, b6, b7, b8, false, false)) =
  Some [Ascii.Ascii a8 a7 a6 a5 a4 a3 a2 a1; Ascii.Ascii b8 b7 b6 b5 b4 b3 b2 b1].
Proof. unfold decode3. rewrite of_to_char. cbn. rewrite of_to_char. cbn. by rewrite of_to_char. Qed.

(** Induction by groups of three bytes. *)
Lemma list_ind3 {A} (P : list A → Prop) :
  P [] → (∀ a, P [a]) → (∀ a b, P [a; b]) → (∀ a b c l, P l → P (a :: b :: c :: l)) → ∀ l, P l.
Proof.
  intros H0 H1 H2 H3 l. assert (∀ n l, length l <= n → P l) as H; [|by apply (H (length l))]. clear l.
  induction n as [|n IH]; intros [|a [|b [|c l]]] Hl; simpl in Hl; try done; try lia. apply H3, IH. lia.
Qed.

Lemma decode_encode url s : decode url (encode url s) = Some s.
Proof.
  induction s as [|a|a b|a b c l IH] using list_ind3; [done|..].
  - destruct a as [a0 a1 a2 a3 a4 a5 a6 a7]. destruct url; cbn; apply decode2_encode.
  - destruct a as [a0 a1 a2 a3 a4 a5 a6 a7], b as [b0 b1 b2 b3 b4 b5 b6 b7]. destruct url; cbn.
    + apply decode3_encode.
    + rewrite (bool_decide_true (_ ∧ _)), (bool_decide_false (_ = _)) by (done || apply to_char_not_pad). apply decode3_encode.
  - destruct a as [a0 a1 a2 a3 a4 a5 a6 a7], b as [b0 b1 b2 b3 b4 b5 b6 b7], c as [c0 c1 c2 c3 c4 c5 c6 c7].
    cbn [encode decode]. rewrite (bool_decide_false (_ ∧ _)) by (intros [H _]; by apply to_char_not_pad in H).
    rewrite andb_false_r. rewrite of_to_char. cbn. rewrite of_to_char. cbn. rewrite of_to_char. cbn. rewrite of_to_char. cbn.
    by rewrite IH.
Qed.

Lemma encode_urlsafe s : forallb is_urlsafe (encode true s) = true.
Proof.
  induction s as [|a|a b|a b c l IH] using list_ind3; [done|..];
    repeat match goal with x : Ascii.ascii |- _ => destruct x end; cbn [encode app padding forallb]; rewrite !to_char_urlsafe; done.
Qed.

Lemma encode_length s : length (encode true s) = (4 * length s + 2) / 3.
Proof.
  induction s as [|a|a b|a b c l IH] using list_ind3; [done|by destruct a|by destruct a, b|].
  destruct a, b, c. cbn [encode length]. rewrite IH.
  replace (4 * S (S (S (length l))) + 2) with (4 * length l + 2 + 4 * 3) by lia. rewrite Nat.div_add by lia. lia.
Qed.

Definition base64 : Base64Lib := {|
  b64_encode := encode false;
  b64_decode := decode false;
  b64url_encode := encode true;
  b64url_decode := decode true;
|}.

Lemma base64_spec : Base64Spec base64.
Proof.
  split.
  - apply decode_encode.
  - apply decode_encode.
  - apply encode_urlsafe.
  - apply encode_length.
Qed.

End Base64.

(** What the OAuth2 filter promises: a request is let through only with a session
    that the filter has signed after it exchanged a code, for a login that it has
    begun; and a login that is carried out is completed. *)

Import Http StringMatch HeaderMatch Route ExtProcMutation LogFormatter FormatContext OAuth2.
Local Open Scope Z_scope.

Module OAuth2Spec.

(** ** Texts *)

Lemma app_sep_inj (c : Ascii.ascii) a a' b b' : c ∉ a → c ∉ a' → a ++ c :: b = a' ++ c :: b' → a = a' ∧ b = b'.
Proof.
  intros Ha Ha' E. pose proof (FormatGrammarSpec.split_once_app a b c Ha) as H.
  rewrite E, FormatGrammarSpec.split_once_app in H by done. by injection H as -> ->.
Qed.

Lemma rsplit_once_app a b c : c ∉ b → Str.rsplit_once_char (a ++ c :: b) c = Some (a, b).
Proof.
  intros Hb. unfold Str.rsplit_once_char.
  rewrite reverse_app, reverse_cons, <- app_assoc. cbn [app].
  rewrite FormatGrammarSpec.split_once_app by (by rewrite elem_of_reverse). cbn. by rewrite !reverse_involutive.
Qed.

Lemma urlsafe_not_dot s : forallb is_urlsafe s = true → Str.dot ∉ s.
Proof. intros H Hin. rewrite forallb_forall in H. by specialize (H _ (proj1 (list_elem_of_In _ _) Hin)). Qed.

Lemma dec_digits n : 0 <= n → Forall Fmt.is_digit (Fmt.fmt_dec n).
Proof. intros Hn. by apply Fmt.fmt_radix_digits; [lia|]. Qed.

Lemma dec_not_in n c : 0 <= n → Fmt.digit_value c = None → c ∉ Fmt.fmt_dec n.
Proof. intros Hn Hc. apply TracingSpec.digits_not_in; [by apply dec_digits|done]. Qed.

Lemma parse_dec n : 0 <= n < 2 ^ 64 → parse_u64 (Fmt.fmt_dec n) = Some n.
Proof. intros Hn. unfold parse_u64, Fmt.fmt_dec. apply Fmt.from_str_radix_fmt; [lia|split; [lia|]|lia]. etrans; [apply Hn|]. by vm_compute. Qed.

(** A number that is read has no line break. *)
Lemma parse_no_newline s n : parse_u64 s = Some n → newline ∉ s.
Proof.
  unfold parse_u64, Fmt.from_str_radix. case_decide as Hs; [done|]. intros E. apply bind_Some in E as (m & Hm & _).
  assert (newline ∉ Fmt.strip_plus s) as Hp.
  { revert Hm. generalize 0. generalize (Fmt.strip_plus s). intros t. induction t as [|c t IH]; intros acc E; [set_solver|].
    cbn [foldl] in E. destruct (Fmt.push_digit 10 (Some acc) c) as [acc'|] eqn:Ep; [|by rewrite Fmt.foldl_push_None in E].
    apply not_elem_of_cons. split; [|by eapply IH]. intros <-. vm_compute in Ep. done. }
  unfold Fmt.strip_plus in Hp. repeat case_match; try done. subst.
  apply not_elem_of_cons. split; [done|exact Hp].
Qed.

(** ** Payloads *)

Definition plain (s : str) : Prop := newline ∉ s ∧ Str.byte 0 ∉ s.

Lemma session_payload_inj d e a i r d' e' a' i' r' :
  newline ∉ d → newline ∉ d' → newline ∉ e → newline ∉ e' →
  newline ∉ default [] a' → newline ∉ default [] i' → newline ∉ default [] r' →
  session_payload d e a i r = session_payload d' e' a' i' r' →
  d = d' ∧ e = e' ∧ default [] a = default [] a' ∧ default [] i = default [] i' ∧ default [] r = default [] r'.
Proof.
  intros Hd Hd' He He' Ha Hi Hr E. unfold session_payload in E.
  apply app_sep_inj in E as [-> E]; [|done..]. apply app_sep_inj in E as [-> E]; [|done..].
  assert (∀ x y, length (filter (λ c, c = newline) (x ++ y)) =
    (length (filter (λ c, c = newline) x) + length (filter (λ c, c = newline) y))%nat) as Hcount.
  { intros x y. by rewrite filter_app, length_app. }
  assert (∀ x : str, newline ∉ x ↔ length (filter (λ c, c = newline) x) = 0%nat) as Hzero.
  { intros x. rewrite length_zero_iff_nil. split.
    - intros Hx. destruct (filter _ x) as [|c l] eqn:Ef; [done|]. assert (c ∈ filter (λ c, c = newline) x) as Hc by (rewrite Ef; by left).
      apply list_elem_of_filter in Hc as [-> ?]. done.
    - intros Ef Hx. assert (newline ∈ filter (λ c, c = newline) x) as Hin by (by apply list_elem_of_filter). by rewrite Ef in Hin; apply elem_of_nil in Hin. }
  assert (∀ y, length (filter (λ c, c = newline) (newline :: y)) = S (length (filter (λ c, c = newline) y))) as Hcons.
  { intros y. by rewrite filter_cons_True. }
  pose proof (f_equal (λ x, length (filter (λ c, c = newline) x)) E) as Hl. cbn beta in Hl.
  rewrite !Hcount, !Hcons, !Hcount, !Hcons in Hl. apply Hzero in Ha as Ha0, Hi as Hi0, Hr as Hr0.
  rewrite Ha0, Hi0, Hr0 in Hl.
  assert (newline ∉ default [] a) by (apply Hzero; lia). assert (newline ∉ default [] i) by (apply Hzero; lia).
  apply app_sep_inj in E as [-> E]; [|done..]. by apply app_sep_inj in E as [-> ->].
Qed.

(** A session is never taken for a transaction. *)
Lemma session_not_transaction d e a i r payload :
  plain d → session_payload d e a i r ≠ transaction_context ++ payload.
Proof.
  intros [Hn Hz] E. unfold session_payload in E.
  assert (newline ∉ transaction_context) as Hn' by (vm_compute; set_solver).
  revert E. generalize (e ++ newline :: default [] a ++ newline :: default [] i ++ newline :: default [] r). intros rest E.
  destruct (decide (length d < length transaction_context)%nat) as [Hlt|Hge].
  - apply Hn'. apply list_elem_of_lookup. exists (length d).
    pose proof (f_equal (λ l : str, l !! length d) E) as El. cbn beta in El.
    by rewrite list_lookup_middle, lookup_app_l in El by done.
  - apply Hz. apply list_elem_of_lookup. exists 27%nat. change (length transaction_context) with 28%nat in Hge.
    pose proof (f_equal (λ l : str, l !! 27%nat) E) as El. cbn beta in El.
    rewrite lookup_app_l in El by lia. by rewrite El.
Qed.

Section oauth2.
Context {HL : HttpLib} {HB : HttpBytes} {RL : RegexLib} {BL : BlakeLib} {B64 : Base64Lib} {CR : CryptoLib} {OL : OAuthLib}.

(** ** What a verified cookie is *)

Lemma verify_session_sound key d e a i r signature :
  verify_session_hmac key d e a i r signature = true →
  ∃ tag, b64_decode signature = Some tag ∧
    (tag = hmac_sha256 key (session_payload d e a i r) ∨ tag = expected_legacy (hmac_sha256 key (session_payload d e a i r))).
Proof.
  unfold verify_session_hmac, decode_slice, session_hmac_tag. destruct (b64_decode signature) as [tag|]; [|done]. cbn [mbind option_bind].
  intros H. exists tag. split; [done|]. case_bool_decide; [|done].
  case_bool_decide as Heq; [left; by destruct Heq|]. case_bool_decide; [done|]. right. by apply bool_decide_eq_true in H.
Qed.

Lemma split_callback_state_sound state fl n : split_callback_state state = Some (fl, n) →
  state = fl ++ Str.dot :: n ∧ fl ≠ [] ∧ n ≠ [] ∧ forallb is_urlsafe fl = true ∧ forallb is_urlsafe n = true.
Proof.
  unfold split_callback_state. destruct (Str.split_once_char state Str.dot) as [[fl' n']|] eqn:E; [|done]. cbn [mbind option_bind].
  destruct (_ && _) eqn:Hc; [|done]. intros [= <- <-]. apply Str.split_once_char_Some in E.
  rewrite !andb_true_iff, !negb_true_iff, !bool_decide_eq_false in Hc. naive_solver.
Qed.

(** A transaction that was verified against a state. *)
Definition verified (key state cookie : str) (max_age now : Z) (t : OAuthTransaction) : Prop :=
  ∃ payload signature issued tg ru issued_at,
    split_callback_state state = Some (flow_id t, nonce t) ∧
    Str.rsplit_once_char cookie Str.dot = Some (payload, signature) ∧
    b64url_decode signature = Some (transaction_tag key payload) ∧
    Str.split_char payload Str.dot = [TRANSACTION_COOKIE_VERSION; flow_id t; nonce t; issued; tg; ru] ∧
    parse_u64 issued = Some issued_at ∧ is_fresh now issued_at max_age = true ∧
    b64url_decode tg = Some (target t) ∧ b64url_decode ru = Some (transaction_redirect_uri t) ∧
    local_redirect_target (Some (target t)) = target t ∧ is_valid_redirect_uri (transaction_redirect_uri t) = true.

Lemma from_utf8_Some s t : from_utf8 s = Some t → s = t.
Proof. unfold from_utf8. case_bool_decide; [by intros [= ->]|done]. Qed.

Lemma verify_transaction_sound key state cookie max_age now t :
  verify_transaction_cookie key state cookie max_age now = Some t →
  ∃ c, cookie = Some c ∧ verified key state c max_age now t.
Proof.
  unfold verify_transaction_cookie. intros H.
  destruct (split_callback_state state) as [[sf sn]|] eqn:Es; [|done]. cbn [mbind option_bind] in H.
  destruct cookie as [c|]; [|done]. cbn [mbind option_bind] in H. exists c. split; [done|].
  destruct (Str.rsplit_once_char c Str.dot) as [[payload sg]|] eqn:Er; [|done]. cbn [mbind option_bind] in H.
  destruct (b64url_decode sg) as [tag|] eqn:Ed; [|done]. cbn [mbind option_bind] in H.
  destruct (_ || _) eqn:Htag in H; [done|]. apply orb_false_iff in Htag as [_ Htag].
  apply negb_false_iff, bool_decide_eq_true in Htag. subst tag.
  destruct (Str.split_char payload Str.dot) as [|v [|fl [|n [|ia [|tg [|ru []]]]]]] eqn:Ef; try done.
  destruct (_ || _) eqn:Hst in H; [done|]. rewrite !orb_false_iff, !negb_false_iff, !bool_decide_eq_true in Hst.
  destruct Hst as [[-> ->] ->].
  destruct (parse_u64 ia) as [iat|] eqn:Ei; [|done]. cbn [mbind option_bind] in H.
  destruct (is_fresh now iat max_age) eqn:Hfr; [|done]. cbn [negb] in H.
  destruct (b64url_decode tg) as [tgd|] eqn:Et; [|done]. cbn [mbind option_bind] in H.
  destruct (from_utf8 tgd) as [tgu|] eqn:Etu; [|done]. apply from_utf8_Some in Etu as <-. cbn [mbind option_bind] in H.
  destruct (b64url_decode ru) as [rud|] eqn:Eru; [|done]. cbn [mbind option_bind] in H.
  destruct (from_utf8 rud) as [ruu|] eqn:Eruu; [|done]. apply from_utf8_Some in Eruu as <-. cbn [mbind option_bind] in H.
  destruct (_ || _) eqn:Hl in H; [done|]. apply orb_false_iff in Hl as [Hl Hv].
  apply negb_false_iff in Hl, Hv. apply bool_decide_eq_true in Hl. injection H as <-.
  exists payload, sg, ia, tg, ru, iat. done.
Qed.

(** ** Round trips *)

Context {BS : Base64Spec B64}.

(** The fields of what is signed for a login. *)
Lemma transaction_payload_fields fl n issued_at tg ru :
  forallb is_urlsafe fl = true → forallb is_urlsafe n = true → 0 <= issued_at →
  Str.split_char (transaction_payload fl n issued_at tg ru) Str.dot =
    [TRANSACTION_COOKIE_VERSION; fl; n; Fmt.fmt_dec issued_at; b64url_encode tg; b64url_encode ru].
Proof.
  intros Hf Hn Hi. unfold transaction_payload. change (lit ".") with [Str.dot]. cbn [app].
  assert (Str.dot ∉ Fmt.fmt_dec issued_at) by (by apply dec_not_in).
  pose proof (urlsafe_not_dot _ (b64url_alphabet tg)). pose proof (urlsafe_not_dot _ (b64url_alphabet ru)).
  rewrite (TracingSpec.split_char_app TRANSACTION_COOKIE_VERSION) by (vm_compute; set_solver). f_equal.
  rewrite (TracingSpec.split_char_app fl) by (by apply urlsafe_not_dot). f_equal.
  rewrite (TracingSpec.split_char_app n) by (by apply urlsafe_not_dot). f_equal.
  rewrite TracingSpec.split_char_app by done. f_equal.
  rewrite TracingSpec.split_char_app by done. f_equal. by apply TracingSpec.split_char_none.
Qed.

(** A transaction that was verified and signed for a login is that of the login. *)
Lemma verified_login key state cookie max_age now t l :
  verified key state cookie max_age now t →
  forallb is_urlsafe (login_flow_id l) = true → forallb is_urlsafe (login_nonce l) = true → 0 <= login_issued_at l < 2 ^ 64 →
  (∃ payload signature, Str.rsplit_once_char cookie Str.dot = Some (payload, signature) ∧
    payload = transaction_payload (login_flow_id l) (login_nonce l) (login_issued_at l) (login_target l) (login_redirect_uri l)) →
  flow_id t = login_flow_id l ∧ nonce t = login_nonce l ∧ target t = login_target l ∧
  transaction_redirect_uri t = login_redirect_uri l ∧ is_fresh now (login_issued_at l) max_age = true.
Proof.
  intros (payload & sg & ia & tg & ru & iat & _ & Er & _ & Hf & Hi & Hfr & Ht & Hr & _) Hfl Hn Hd (payload' & sg' & Er' & Ep).
  rewrite Er in Er'. injection Er' as <- <-. subst payload. rewrite transaction_payload_fields in Hf by (done || lia).
  injection Hf as <- <- <- <- <-. rewrite parse_dec in Hi by done. injection Hi as <-.
  rewrite b64url_round in Ht, Hr. injection Ht as <-. injection Hr as <-. done.
Qed.

(** ** Runs of the filter *)

(** One request with what it finds: the token endpoint, random numbers and times. *)
Record Call : Type := mk_call {
  c_request : Request;
  c_version : Version;
  c_endpoint : TokenRequest → TokenReply;
  c_random : Random;
  c_clock : Clock;
  c_now : Z;
  c_issued_at : Z;
}.

Definition run (f : OAuth2Filter) (c : Call) : Request * Cors.FilterDecision :=
  apply_request f (c_request c) (c_version c) (c_endpoint c) (c_random c) (c_clock c) (c_now c) (c_issued_at c).

Definition passes (f : OAuth2Filter) (req : Request) : bool :=
  existsb (λ matcher, request_matches matcher req) (pass_through_matcher (config f)).

Definition path_is (m : PathMatcher) (req : Request) : bool :=
  match path_and_query (uri req) with Some pq => bool_decide (path_matches m pq ≠ None) | None => false end.

(** What the answer to a request hands out a signature of. *)
Inductive Signed : Type :=
  | SignedLogin (l : Login)
  | SignedSession (host : str) (t : OAuthTransaction) (s : Session).

Definition signed_payload (f : OAuth2Filter) (sg : Signed) : str :=
  match sg with
  | SignedLogin l =>
    transaction_context ++
    transaction_payload (login_flow_id l) (login_nonce l) (login_issued_at l) (login_target l) (login_redirect_uri l)
  | SignedSession host _ s => session_signed f host s
  end.

Definition checks_of (f : OAuth2Filter) (c : Call) : result Cors.FilterDecision (str * OAuthTransaction * TokenEndpointResponse) :=
  callback_checks f (request_is_https (c_request c)) (default [] (uri_query (uri (c_request c)))) (headers (c_request c))
    (c_endpoint c) (c_clock c).

Definition call_signs (f : OAuth2Filter) (c : Call) : option Signed :=
  let req := c_request c in
  if passes f req then None
  else
    host ← extract_host req;
    if path_is (signout_path (config f)) req then None
    else if path_is (redirect_path_matcher (config f)) req then
      match checks_of f c with
      | Ok (_, t, token_resp) => SignedSession host t <$> begin_session f t token_resp (c_random c) (at_expiry (c_clock c))
      | Err _ => None
      end
    else
      match authenticated f req host (c_now c) with
      | Some _ => None
      | None =>
        if existsb (λ matcher, request_matches matcher req) (deny_redirect_matcher (config f)) then None
        else
          match begin_login f req (c_version c) (c_random c) (c_issued_at c) with
          | Ok (l, _) => Some (SignedLogin l)
          | Err _ => None
          end
      end.

(** The session that a request presents. *)
Definition presented (f : OAuth2Filter) (req : Request) : SessionCookies :=
  extract_session_cookies (headers req) (cookie_names (credentials (config f))).

Definition domain_of (f : OAuth2Filter) (host : str) : str := hmac_domain (cookie_domain (credentials (config f))) host.

(** The comparisons of a tag of the request with the one of a text. *)
Inductive compared (f : OAuth2Filter) (c : Call) : str → str → Prop :=
  | compared_session host signature expires tag :
    extract_host (c_request c) = Some host →
    session_hmac (presented f (c_request c)) = Some signature → session_expires (presented f (c_request c)) = Some expires →
    b64_decode signature = Some tag →
    compared f c (session_payload (domain_of f host) expires
      (decrypt_token_cookie f (session_access_token (presented f (c_request c))))
      (decrypt_token_cookie f (session_id_token (presented f (c_request c))))
      (decrypt_token_cookie f (session_refresh_token (presented f (c_request c))))) tag
  | compared_transaction name cookie payload signature tag :
    extract_cookie (headers (c_request c)) name = Some cookie →
    Str.rsplit_once_char cookie Str.dot = Some (payload, signature) → b64url_decode signature = Some tag →
    compared f c (transaction_context ++ payload) tag.

(** A client has the tag of a text only if the filter has signed it. *)
Definition unforgeable (f : OAuth2Filter) (signed : list Signed) (c : Call) : Prop :=
  ∀ p tag, compared f c p tag → tag = hmac_sha256 (hmac_key f) p ∨ tag = expected_legacy (hmac_sha256 (hmac_key f) p) →
    p ∈ signed_payload f <$> signed.

(** Hosts and tokens have no line breaks and no null bytes, the random token of a
    login has the alphabet of its crate, and times are those of a [u64]. *)
Record wf_call (f : OAuth2Filter) (c : Call) : Prop := {
  wf_host : ∀ host, extract_host (c_request c) = Some host → plain (domain_of f host);
  wf_secret : forallb is_urlsafe (csrf_secret (c_random c)) = true;
  wf_times : 0 <= c_issued_at c < 2 ^ 64 ∧ 0 <= at_expiry (c_clock c) ∧ 0 <= default_expires_in (config f);
  wf_tokens : ∀ rq r, c_endpoint c rq = TokenJson r →
    newline ∉ response_access_token r ∧ newline ∉ default [] (response_id_token r) ∧
    newline ∉ default [] (response_refresh_token r) ∧ 0 <= default 0 (expires_in r);
}.

(** Requests one after the other. *)
Inductive sound (f : OAuth2Filter) : list Call → Prop :=
  | sound_nil : sound f []
  | sound_snoc tr c : sound f tr → wf_call f c → unforgeable f (omap (call_signs f) tr) c → sound f (tr ++ [c]).

(** ** What is signed *)

Lemma ok_or_Ok {A E} (o : option A) (e : E) a : ok_or o e = Ok a → o = Some a.
Proof. destruct o; naive_solver. Qed.

Lemma result_bind_Ok {E A B} (m : result E A) (k : A → result E B) b : m ≫= k = Ok b → ∃ a, m = Ok a ∧ k a = Ok b.
Proof. destruct m; [|done]. intros H. by eexists. Qed.

Lemma exchange_Ok f endpoint code ru cv resp : exchange_code f endpoint code ru cv = Ok resp →
  endpoint (token_request f code ru cv) = TokenJson resp.
Proof. unfold exchange_code. destruct (endpoint _); naive_solver. Qed.

(** A callback that gets an answer has verified the transaction of its state. *)
Lemma callback_checks_Ok f https query hs endpoint clock fl t resp :
  callback_checks f https query hs endpoint clock = Ok (fl, t, resp) →
  ∃ p st cookie rq, parse_callback_query query = Some p ∧ state p = Some st ∧
    extract_cookie hs (flow_cookie_name (oauth_nonce (cookie_names (credentials (config f)))) fl) = Some cookie ∧
    verified (hmac_key f) st cookie (csrf_token_expires_in (config f)) (at_transaction clock) t ∧
    fl = flow_id t ∧ endpoint rq = TokenJson resp.
Proof.
  unfold callback_checks. intros H.
  apply result_bind_Ok in H as (p & Hp%ok_or_Ok & H). apply result_bind_Ok in H as (st & Hst%ok_or_Ok & H).
  apply result_bind_Ok in H as ([fl' n] & Hs%ok_or_Ok & H). apply result_bind_Ok in H as (t' & Ht%ok_or_Ok & H).
  case_bool_decide; [done|]. apply result_bind_Ok in H as (cd & _ & H). apply result_bind_Ok in H as (cv & _ & H).
  destruct (exchange_code _ _ _ _ _) as [resp'|] eqn:Ex; [|done]. injection H as -> -> ->.
  apply verify_transaction_sound in Ht as (cookie & Hc & Hv). apply exchange_Ok in Ex.
  pose proof Hv as (? & ? & ? & ? & ? & ? & Hs' & _). rewrite Hs in Hs'. injection Hs' as -> _.
  by exists p, st, cookie, (token_request f cd (transaction_redirect_uri t) cv).
Qed.

Definition wf_signed (f : OAuth2Filter) (sg : Signed) : Prop :=
  match sg with
  | SignedLogin l =>
    forallb is_urlsafe (login_flow_id l) = true ∧ forallb is_urlsafe (login_nonce l) = true ∧ 0 <= login_issued_at l < 2 ^ 64
  | SignedSession host _ s =>
    plain (domain_of f host) ∧ newline ∉ session_expiration s ∧ newline ∉ default [] (session_tokens s).1.1 ∧
    newline ∉ default [] (session_tokens s).1.2 ∧ newline ∉ default [] (session_tokens s).2
  end.

Lemma begin_login_Ok f req v r i l resp : begin_login f req v r i = Ok (l, resp) →
  login_flow_id l = b64url_encode (flow_bytes r) ∧ login_nonce l = csrf_secret r ∧ login_issued_at l = i.
Proof.
  unfold begin_login. intros H. repeat (apply result_bind_Ok in H as (? & _ & H)). injection H as <- _. done.
Qed.

Lemma begin_session_Some f t resp r now s : begin_session f t resp r now = Some s →
  session_tokens s = kept_tokens (config f) resp ∧
  session_expiration s = Fmt.fmt_dec (now + effective_expires_in (config f) resp).
Proof.
  unfold begin_session. intros H. case_match; [done|]. destruct (kept_tokens (config f) resp) as [[a i] rt] eqn:Ek.
  repeat (apply bind_Some in H as (? & _ & H)). injection H as <-. done.
Qed.

Lemma call_signs_session f c host t s : call_signs f c = Some (SignedSession host t s) →
  extract_host (c_request c) = Some host ∧
  ∃ fl resp, checks_of f c = Ok (fl, t, resp) ∧ begin_session f t resp (c_random c) (at_expiry (c_clock c)) = Some s.
Proof.
  unfold call_signs. intros H. case_match; [done|]. apply bind_Some in H as (h & Hh & H). repeat case_match; try done.
  apply fmap_Some in H as (s' & Hs & [= -> -> ->]). naive_solver.
Qed.

Lemma call_signs_login f c l : call_signs f c = Some (SignedLogin l) →
  ∃ resp, begin_login f (c_request c) (c_version c) (c_random c) (c_issued_at c) = Ok (l, resp).
Proof.
  unfold call_signs. intros H. case_match; [done|]. apply bind_Some in H as (h & Hh & H). repeat case_match; try done.
  - by apply fmap_Some in H as (s' & Hs & [=]).
  - simplify_eq. by eexists.
Qed.

Lemma call_signs_wf f c sg : wf_call f c → call_signs f c = Some sg → wf_signed f sg.
Proof.
  intros [Hh Hsec Ht Htok] H. destruct sg as [l|host t s].
  - apply call_signs_login in H as (resp & H). apply begin_login_Ok in H as (E1 & E2 & E3). cbn. rewrite E1, E2, E3.
    split_and!; [apply b64url_alphabet|done|lia|lia].
  - apply call_signs_session in H as (Ehost & fl & resp & Hc & Hs).
    apply callback_checks_Ok in Hc as (_ & _ & _ & rq & _ & _ & _ & _ & _ & Hrq).
    apply Htok in Hrq as (Ha & Hi & Hr & He). apply begin_session_Some in Hs as [Hk Hx]. cbn. rewrite Hk, Hx.
    split; [by apply Hh|]. split.
    { apply dec_not_in; [|done]. unfold effective_expires_in. destruct (expires_in resp); simpl in He; [lia|]. case_match; lia. }
    unfold kept_tokens. cbn [fst snd]. repeat case_match; cbn [default]; split_and!; try done; set_solver.
Qed.

Lemma sound_prefix f tr1 tr2 : sound f (tr1 ++ tr2) → sound f tr1.
Proof.
  revert tr1. induction tr2 as [|c tr2 IH] using rev_ind; intros tr1 H; [by rewrite app_nil_r in H|].
  apply IH. rewrite app_assoc in H. inversion H as [E|tr c' Hs _ _ E]; [by apply app_cons_not_nil in E|].
  by apply app_inj_tail in E as [-> ->].
Qed.

Lemma sound_last f tr c : sound f (tr ++ [c]) → sound f tr ∧ wf_call f c ∧ unforgeable f (omap (call_signs f) tr) c.
Proof.
  intros H. inversion H as [E|tr' c' Hs Hw Hu E]; [by apply app_cons_not_nil in E|].
  by apply app_inj_tail in E as [-> ->].
Qed.

(** What is known to be signed was signed by an earlier request. *)
Lemma signed_before f tr p : sound f tr → p ∈ signed_payload f <$> omap (call_signs f) tr →
  ∃ tr1 c tr2 sg, tr = tr1 ++ c :: tr2 ∧ call_signs f c = Some sg ∧ p = signed_payload f sg ∧ wf_signed f sg ∧ sound f (tr1 ++ [c]).
Proof.
  intros Hs (sg & -> & Hin)%list_elem_of_fmap. apply list_elem_of_omap in Hin as (c & Hc & Hsg).
  apply list_elem_of_split in Hc as (tr1 & tr2 & ->). exists tr1, c, tr2, sg.
  assert (sound f (tr1 ++ [c])) as Hp.
  { apply (sound_prefix f (tr1 ++ [c]) tr2). by rewrite <- app_assoc. }
  split_and!; try done. apply (call_signs_wf f c); [|done]. by apply sound_last in Hp as (_ & ? & _).
Qed.

(** ** Authenticity *)

Lemma transaction_authentic f tr c fl t resp :
  sound f (tr ++ [c]) → checks_of f c = Ok (fl, t, resp) →
  ∃ c' l, c' ∈ tr ∧ call_signs f c' = Some (SignedLogin l) ∧
    flow_id t = login_flow_id l ∧ nonce t = login_nonce l ∧ target t = login_target l ∧
    transaction_redirect_uri t = login_redirect_uri l ∧
    is_fresh (at_transaction (c_clock c)) (login_issued_at l) (csrf_token_expires_in (config f)) = true.
Proof.
  intros Hs Hc. apply sound_last in Hs as (Htr & Hw & Hu). unfold checks_of in Hc.
  apply callback_checks_Ok in Hc as (p & st & cookie & rq & _ & _ & Hck & Hv & -> & _).
  pose proof Hv as (payload & sg & _ & _ & _ & _ & _ & Hr & Hd & _).
  pose proof (compared_transaction f c _ _ _ _ _ Hck Hr Hd) as Hcmp. pose proof (Hu _ _ Hcmp (or_introl eq_refl)) as Hin.
  apply signed_before in Hin as (tr1 & c' & tr2 & sig & -> & Hsig & Hp & Hwf & _); [|done].
  destruct sig as [l|host t' s].
  - cbn [signed_payload] in Hp. apply app_inv_head in Hp. destruct Hwf as (H1 & H2 & H3). exists c', l.
    split; [set_solver|]. split; [done|]. apply (verified_login _ _ _ _ _ _ l Hv H1 H2 H3). by exists payload, sg.
  - exfalso. destruct Hwf as [Hd' _]. cbn [signed_payload] in Hp. unfold session_signed in Hp. destruct (session_tokens s) as [[a i] r].
    symmetry in Hp. by apply session_not_transaction in Hp.
Qed.

Lemma callback_checks_Err f https query hs endpoint clock d :
  callback_checks f https query hs endpoint clock = Err d → ∃ r, d = Cors.DirectResponse r.
Proof.
  unfold callback_checks, oauth_error, callback_failure. intros H.
  repeat (match type of H with
          | ok_or ?o _ ≫= _ = _ => destruct o as [?|]; cbn [ok_or mbind result_bind] in H
          | (let '(_, _) := ?p in _) = _ => destruct p
          | (if ?b then _ else _) = _ => destruct b
          | match ?x with _ => _ end = _ => destruct x
          end; try (injection H as <-; by eexists); try done).
Qed.

(** Only two ways lead through the filter. *)
Lemma run_Continue f c req' : run f c = (req', Cors.Continue) →
  passes f (c_request c) = true ∧ req' = c_request c ∨
  ∃ host auth, extract_host (c_request c) = Some host ∧ authenticated f (c_request c) host (c_now c) = Some auth ∧
    req' = match auth with
           | Some v => mk_request (method (c_request c)) (uri (c_request c)) (header_insert (headers (c_request c)) AUTHORIZATION v)
           | None => c_request c
           end.
Proof.
  unfold run, apply_request. fold (passes f (c_request c)). destruct (passes f (c_request c)); [intros [= <-]; by left|].
  intros H. right. destruct (extract_host (c_request c)) as [host|]; [|done].
  fold (path_is (signout_path (config f)) (c_request c)) in H.
  fold (path_is (redirect_path_matcher (config f)) (c_request c)) in H.
  destruct (path_is (signout_path (config f)) (c_request c)); [done|].
  destruct (path_is (redirect_path_matcher (config f)) (c_request c)).
  { exfalso. injection H as _ H. unfold handle_callback in H. destruct (callback_checks _ _ _ _ _ _) as [[[fl t] resp]|d] eqn:Ec.
    - by destruct (begin_session _ _ _ _ _).
    - by apply callback_checks_Err in Ec as [r ->]. }
  destruct (authenticated f (c_request c) host (c_now c)) as [auth|] eqn:Ea.
  - exists host, auth. destruct auth; injection H as <-; done.
  - destruct (existsb _ _); [done|]. unfold handle_unauthenticated in H. destruct (begin_login _ _ _ _ _) as [[]|]; done.
Qed.

Lemma authenticated_Some f req host now auth : authenticated f req host now = Some auth →
  ∃ signature expires e tag, let s := presented f req in
    session_hmac s = Some signature ∧ session_expires s = Some expires ∧ parse_u64 expires = Some e ∧ now < e ∧
    auth = (decrypt_token_cookie f (session_access_token s) ≫= bearer_header f req) ∧ b64_decode signature = Some tag ∧
    let p := session_payload (domain_of f host) expires (decrypt_token_cookie f (session_access_token s))
      (decrypt_token_cookie f (session_id_token s)) (decrypt_token_cookie f (session_refresh_token s)) in
    tag = hmac_sha256 (hmac_key f) p ∨ tag = expected_legacy (hmac_sha256 (hmac_key f) p).
Proof.
  unfold authenticated. fold (presented f req). intros H.
  destruct (session_hmac (presented f req)) as [signature|]; [|done].
  destruct (session_expires (presented f req)) as [expires|]; [|done].
  destruct (parse_u64 expires) as [e|] eqn:Ee; [|done]. destruct (Z.ltb_spec now e); [|done].
  destruct (verify_session_hmac _ _ _ _ _ _ _) eqn:Ev; [|done]. injection H as <-.
  apply verify_session_sound in Ev as (tag & Hd & Ht). by exists signature, expires, e, tag.
Qed.

(** C4: a request is let through only when it matches a pass-through matcher or has
    a session that the filter has given out.  Among the requests before it there is a
    callback whose code was exchanged: the session of the request is for the same
    domain, has its expiration, which is not over, and its tokens.  Before that
    callback there is a login that the filter began, with the flow, the nonce and the
    target of the callback, and which was not too old.  This holds for any clients
    that have no signature but those the filter has given out. *)
Theorem session_authentic f tr c req' :
  sound f (tr ++ [c]) → run f c = (req', Cors.Continue) → passes f (c_request c) = false →
  ∃ tr1 c1 tr2 host host1 t s e,
    tr = tr1 ++ c1 :: tr2 ∧ extract_host (c_request c) = Some host ∧
    call_signs f c1 = Some (SignedSession host1 t s) ∧ domain_of f host = domain_of f host1 ∧
    session_expires (presented f (c_request c)) = Some (session_expiration s) ∧
    parse_u64 (session_expiration s) = Some e ∧ c_now c < e ∧
    default [] (decrypt_token_cookie f (session_access_token (presented f (c_request c)))) = default [] (session_tokens s).1.1 ∧
    default [] (decrypt_token_cookie f (session_id_token (presented f (c_request c)))) = default [] (session_tokens s).1.2 ∧
    default [] (decrypt_token_cookie f (session_refresh_token (presented f (c_request c)))) = default [] (session_tokens s).2 ∧
    ∃ c2 l, c2 ∈ tr1 ∧ call_signs f c2 = Some (SignedLogin l) ∧
      flow_id t = login_flow_id l ∧ nonce t = login_nonce l ∧ target t = login_target l ∧
      is_fresh (at_transaction (c_clock c1)) (login_issued_at l) (csrf_token_expires_in (config f)) = true.
Proof.
  intros Hs Hrun Hpass. apply run_Continue in Hrun as [[Hp _]|(host & auth & Hhost & Ha & _)]; [congruence|].
  apply sound_last in Hs as (Htr & Hw & Hu).
  apply authenticated_Some in Ha as (sg & expires & e & tag & Hsg & Hex & He & Hnow & _ & Hd & Htag). cbn zeta in *.
  pose proof (compared_session f c host sg expires tag Hhost Hsg Hex Hd) as Hcmp. pose proof (Hu _ _ Hcmp Htag) as Hin.
  apply signed_before in Hin as (tr1 & c1 & tr2 & sig & -> & Hsig & Hp & Hwf & Hs1); [|done].
  assert (plain (domain_of f host)) as Hplain by (by eapply wf_host).
  destruct sig as [l|host1 t s].
  { exfalso. cbn [signed_payload] in Hp. by apply session_not_transaction in Hp. }
  destruct Hwf as ([Hn1 _] & Hn2 & Hn3 & Hn4 & Hn5). cbn [signed_payload] in Hp. unfold session_signed in Hp.
  destruct (session_tokens s) as [[a i] r] eqn:Et. cbn [fst snd] in *.
  apply session_payload_inj in Hp as (E1 & -> & E3 & E4 & E5);
    [|by destruct Hplain|done|by eapply parse_no_newline|done..].
  exists tr1, c1, tr2, host, host1, t, s, e. rewrite Et. cbn [fst snd]. split_and!; try done.
  apply call_signs_session in Hsig as (_ & fl & resp & Hc & _).
  destruct (transaction_authentic f tr1 c1 fl t resp Hs1 Hc) as (c2 & l & H1 & H2 & H3 & H4 & H5 & _ & H7).
  by exists c2, l.
Qed.

(** ** Completion *)

Context {CS : CryptoSpec CR}.

(** The texts of Rust are valid UTF-8. *)
Definition valid_utf8 (s : str) : Prop := from_utf8_lossy s = s.

Lemma from_utf8_valid s : valid_utf8 s → from_utf8 s = Some s.
Proof. intros H. unfold from_utf8. by rewrite bool_decide_true. Qed.

Lemma ascii_valid s : Forall (λ c, in_range c 0 127 = true) s → valid_utf8 s.
Proof. unfold valid_utf8. induction 1 as [|c s Hc _ IH]; [done|]. cbn [from_utf8_lossy]. by rewrite Hc, IH. Qed.

Lemma digits_ascii s : Forall Fmt.is_digit s → Forall (λ c, in_range c 0 127 = true) s.
Proof.
  intros H. eapply Forall_impl; [exact H|]. intros c [d Hd]. unfold Fmt.digit_value, in_range in *.
  destruct (N.leb_spec 0 (Ascii.N_of_ascii c)); [|lia]. apply N.leb_le. repeat case_match; try done; lia.
Qed.

Lemma verifier_ascii s : forallb is_verifier_byte s = true → Forall (λ c, in_range c 0 127 = true) s.
Proof.
  intros H. apply Forall_forall. intros c Hc. rewrite forallb_forall in H. specialize (H c (proj1 (list_elem_of_In _ _) Hc)).
  by destruct c as [[] [] [] [] [] [] [] []].
Qed.

Lemma decrypt_encrypt key n value cookie buf :
  length n = AEAD_NONCE_LEN → valid_utf8 value →
  encrypt_cookie_value key n value = Some cookie → decrypt_cookie_value key cookie buf = Some value.
Proof.
  intros Hn Hu E. unfold encrypt_cookie_value in E. apply bind_Some in E as (c & Hc & [= <-]).
  pose proof (seal_length _ _ _ _ Hc) as Hl. apply open_seal in Hc.
  assert (open_payload key (n ++ c) = Some value) as Ho.
  { unfold open_payload. rewrite bool_decide_false by (rewrite length_app; lia).
    rewrite <- Hn, take_app_length, drop_app_length, Hc. cbn. by apply from_utf8_valid. }
  unfold decrypt_cookie_value, strip_prefix, Str.starts_with. rewrite bool_decide_true by (by eexists).
  cbn [mbind option_bind]. change (drop _ _) with (b64url_encode (n ++ c)). unfold decode_slice. rewrite b64url_round. cbn [mbind option_bind].
  by case_bool_decide.
Qed.

Lemma verify_computed key d e a i r : verify_session_hmac key d e a i r (compute_session_hmac key d e a i r) = true.
Proof.
  unfold verify_session_hmac, compute_session_hmac, decode_slice. rewrite b64_round. cbn [mbind option_bind].
  rewrite bool_decide_true by (unfold session_hmac_tag; rewrite hmac_length; lia). by rewrite bool_decide_true.
Qed.

(** What the generators of the crates give. *)
Record wf_random (r : Random) : Prop := {
  wf_flow : length (flow_bytes r) = 16%nat;
  wf_csrf : csrf_secret r ≠ [] ∧ (length (csrf_secret r) <= 256)%nat ∧ forallb is_urlsafe (csrf_secret r) = true;
  wf_verifier : (43 <= length (pkce_verifier r) <= 128)%nat ∧ forallb is_verifier_byte (pkce_verifier r) = true;
  wf_nonces : ∀ i, length (aead_nonce r i) = AEAD_NONCE_LEN;
}.

Lemma state_split r : wf_random r →
  split_callback_state (b64url_encode (flow_bytes r) ++ lit "." ++ csrf_secret r) = Some (b64url_encode (flow_bytes r), csrf_secret r).
Proof.
  intros [Hf (Hc1 & Hc2 & Hc3) _ _]. unfold split_callback_state. change (lit ".") with [Str.dot]. cbn [app].
  rewrite FormatGrammarSpec.split_once_app by (apply urlsafe_not_dot, b64url_alphabet). cbn [mbind option_bind].
  pose proof (b64url_length (flow_bytes r)) as Hl. rewrite Hf in Hl. change ((4 * 16 + 2) / 3)%nat with 22%nat in Hl.
  assert (b64url_encode (flow_bytes r) ≠ []) by (intros E; by rewrite E in Hl).
  rewrite !bool_decide_false by done. rewrite !bool_decide_true by lia. by rewrite b64url_alphabet, Hc3.
Qed.

Lemma local_redirect_idem o : path_try_from (lit "/") ≠ None → local_redirect_target (Some (local_redirect_target o)) = local_redirect_target o.
Proof.
  intros Hs. assert (local_redirect_target (Some (lit "/")) = lit "/") as Hroot by (unfold local_redirect_target; by destruct (_ && _)).
  destruct o as [o|]; [|exact Hroot].
  assert (local_redirect_target (Some o) = o ∨ local_redirect_target (Some o) = lit "/") as [E|E]; [|by rewrite !E|by rewrite E].
  unfold local_redirect_target. destruct (_ && _); auto.
Qed.

(** The transaction of a login is verified as long as it is fresh. *)
Lemma login_verified key r i o ru now max_age :
  wf_random r → 0 <= i < 2 ^ 64 → is_fresh now i max_age = true → path_try_from (lit "/") ≠ None →
  valid_utf8 (local_redirect_target o) → valid_utf8 ru → is_valid_redirect_uri ru = true →
  let fl := b64url_encode (flow_bytes r) in
  verify_transaction_cookie key (fl ++ lit "." ++ csrf_secret r)
    (Some (encode_transaction_cookie key fl (csrf_secret r) i (local_redirect_target o) ru)) max_age now =
  Some (mk_transaction fl (csrf_secret r) (local_redirect_target o) ru).
Proof.
  intros Hr Hi Hfr Hroot Hu1 Hu2 Hv fl. subst fl. unfold verify_transaction_cookie. rewrite (state_split r Hr). cbn [mbind option_bind].
  unfold encode_transaction_cookie. change (lit ".") with [Str.dot]. cbn [app].
  rewrite rsplit_once_app by (apply urlsafe_not_dot, b64url_alphabet). cbn [mbind option_bind].
  rewrite b64url_round. cbn [mbind option_bind]. rewrite !bool_decide_true by done. cbn [negb orb].
  rewrite transaction_payload_fields by (apply b64url_alphabet || apply Hr || lia).
  rewrite !bool_decide_true by done. cbn [negb orb]. rewrite parse_dec by done. cbn [mbind option_bind]. rewrite Hfr. cbn [negb].
  rewrite !b64url_round. cbn [mbind option_bind]. rewrite !from_utf8_valid by done. cbn [mbind option_bind].
  rewrite bool_decide_true by (by apply local_redirect_idem). by rewrite Hv.
Qed.

Definition login_transaction (l : Login) : OAuthTransaction :=
  mk_transaction (login_flow_id l) (login_nonce l) (login_target l) (login_redirect_uri l).

Definition login_cookie (f : OAuth2Filter) (l : Login) : str :=
  encode_transaction_cookie (hmac_key f) (login_flow_id l) (login_nonce l) (login_issued_at l) (login_target l) (login_redirect_uri l).

Definition verifier_payload (r : Random) (l : Login) : str := Fmt.fmt_dec (login_issued_at l) ++ lit "." ++ pkce_verifier r.

Lemma begin_login_parts f req v r i l resp : begin_login f req v r i = Ok (l, resp) →
  is_valid_redirect_uri (login_redirect_uri l) = true ∧
  login_target l = local_redirect_target (pq_str <$> path_and_query (uri req)) ∧
  is_Some (encrypt_cookie_value (token_cipher f) (aead_nonce r 0) (verifier_payload r l)).
Proof.
  unfold begin_login. intros H. apply result_bind_Ok in H as (ru & Hru%ok_or_Ok & H).
  apply result_bind_Ok in H as (vc & Hvc%ok_or_Ok & H). repeat (apply result_bind_Ok in H as (? & _ & H)). injection H as <- _.
  split_and!; [|done|by exists vc]. unfold format_redirect_uri in Hru. case_match eqn:E; [|done]. by injection Hru as <-.
Qed.

Lemma verifier_verified r l now max_age : wf_random r → 0 <= login_issued_at l < 2 ^ 64 →
  is_fresh now (login_issued_at l) max_age = true →
  verify_code_verifier (verifier_payload r l) max_age now = Some (pkce_verifier r).
Proof.
  intros [_ _ [Hl Hb] _] Hi Hf. unfold verify_code_verifier, verifier_payload. change (lit ".") with [Str.dot]. cbn [app].
  rewrite FormatGrammarSpec.split_once_app by (apply dec_not_in; [lia|done]). cbn [mbind option_bind].
  rewrite parse_dec by done. cbn [mbind option_bind]. rewrite Hf, Hb, bool_decide_true by done. done.
Qed.

Lemma verifier_payload_valid r l : wf_random r → 0 <= login_issued_at l → valid_utf8 (verifier_payload r l).
Proof.
  intros [_ _ [_ Hb] _] Hi. apply ascii_valid. apply Forall_app. split; [by apply digits_ascii, dec_digits|].
  apply Forall_app. split; [by repeat constructor|by apply verifier_ascii].
Qed.

(** The callback of a login gets to the token endpoint and back. *)
Lemma callback_succeeds f req v r i l resp https query hs endpoint clock cd vc tok :
  begin_login f req v r i = Ok (l, resp) → wf_random r → 0 <= i < 2 ^ 64 → path_try_from (lit "/") ≠ None →
  valid_utf8 (login_target l) → valid_utf8 (login_redirect_uri l) →
  is_fresh (at_transaction clock) i (csrf_token_expires_in (config f)) = true →
  is_fresh (at_verifier clock) i (code_verifier_token_expires_in (config f)) = true →
  parse_callback_query query = Some (mk_callback (Some cd) (Some (login_flow_id l ++ lit "." ++ login_nonce l)) None) →
  let names := cookie_names (credentials (config f)) in
  extract_cookie hs (flow_cookie_name (oauth_nonce names) (login_flow_id l)) = Some (login_cookie f l) →
  encrypt_cookie_value (token_cipher f) (aead_nonce r 0) (verifier_payload r l) = Some vc →
  extract_cookie hs (flow_cookie_name (code_verifier names) (login_flow_id l)) = Some vc →
  endpoint (token_request f cd (login_redirect_uri l) (pkce_verifier r)) = TokenJson tok →
  callback_checks f https query hs endpoint clock = Ok (login_flow_id l, login_transaction l, tok).
Proof.
  intros Hl Hr Hi Hroot Hu1 Hu2 Hf1 Hf2 Hq names Hc1 Henc Hc2 Hend.
  pose proof (begin_login_Ok _ _ _ _ _ _ _ Hl) as (Efl & En & Ei).
  pose proof (begin_login_parts _ _ _ _ _ _ _ Hl) as (Hv & Et & _).
  assert (verify_transaction_cookie (hmac_key f) (login_flow_id l ++ lit "." ++ login_nonce l) (Some (login_cookie f l))
    (csrf_token_expires_in (config f)) (at_transaction clock) = Some (login_transaction l)) as Hver.
  { unfold login_cookie, login_transaction. rewrite Efl, En, Ei, Et in *. by apply login_verified. }
  unfold callback_checks. rewrite Hq. cbn [ok_or mbind result_bind OAuth2.state OAuth2.error OAuth2.code].
  rewrite Efl, En, state_split by done. cbn [ok_or mbind result_bind]. rewrite <- Efl, <- En. subst names. rewrite Hc1, Hver.
  cbn [ok_or mbind result_bind]. rewrite bool_decide_false by (intros H; by apply H).
  cbn [ok_or mbind result_bind]. rewrite Hc2. cbn [mbind option_bind].
  rewrite (decrypt_encrypt _ (aead_nonce r 0) (verifier_payload r l)) by
    first [done | apply Hr | apply verifier_payload_valid; [done|lia]].
  cbn [mbind option_bind]. rewrite verifier_verified by first [done | by rewrite Ei | lia]. cbn [ok_or mbind result_bind].
  unfold exchange_code. cbn [login_transaction transaction_redirect_uri]. by rewrite Hend.
Qed.

(** ** Sessions *)

Lemma encrypted_round f n tok cookie : length n = AEAD_NONCE_LEN → valid_utf8 (default [] tok) →
  encrypted f n tok = Some cookie → decrypt_token_cookie f cookie = tok.
Proof.
  intros Hn Hu. unfold encrypted, encrypt_token_cookie, decrypt_token_cookie. destruct tok as [t|]; [|by intros [= <-]].
  intros E. apply bind_Some in E as (c & Hc & [= <-]). cbn [mbind option_bind].
  destruct (disable_token_encryption (config f)); [by injection Hc as <-|]. by apply (decrypt_encrypt _ n).
Qed.

Definition seals : Prop := ∀ k n m, is_Some (seal_in_place_append_tag k n m).

Lemma encrypted_total f n tok : seals → is_Some (encrypted f n tok).
Proof.
  intros Hs. unfold encrypted, encrypt_token_cookie, encrypt_cookie_value. destruct tok as [t|]; [|by eexists].
  destruct (disable_token_encryption _); [by eexists|]. destruct (Hs (token_cipher f) n t) as [c ->]. by eexists.
Qed.

Lemma begin_session_total f t resp r now : seals → is_Some (value_from_str (target t)) →
  now + effective_expires_in (config f) resp < 2 ^ 64 → is_Some (begin_session f t resp r now).
Proof.
  intros Hs [loc Hloc] Hnow. unfold begin_session. destruct (Z.leb_spec (2 ^ 64) (now + effective_expires_in (config f) resp)); [lia|].
  destruct (kept_tokens (config f) resp) as [[a i] rt].
  destruct (encrypted_total f (aead_nonce r 0) a Hs) as [? ->], (encrypted_total f (aead_nonce r 1) i Hs) as [? ->],
    (encrypted_total f (aead_nonce r 2) rt Hs) as [? ->]. cbn [mbind option_bind]. rewrite Hloc. by eexists.
Qed.

(** The cookies of a session, as a client sends them back. *)
Definition sent_back (f : OAuth2Filter) (host : str) (s : Session) : SessionCookies :=
  mk_session_cookies (session_cookies s).1.1 (Some (b64_encode (hmac_sha256 (hmac_key f) (session_signed f host s))))
    (Some (session_expiration s)) (session_cookies s).1.2 (session_cookies s).2.

Definition valid_tokens (resp : TokenEndpointResponse) : Prop :=
  valid_utf8 (response_access_token resp) ∧ valid_utf8 (default [] (response_id_token resp)) ∧
  valid_utf8 (default [] (response_refresh_token resp)).

Lemma session_accepted f t resp r now s host req host2 now2 :
  wf_random r → valid_tokens resp → begin_session f t resp r now = Some s → 0 <= now + effective_expires_in (config f) resp →
  presented f req = sent_back f host s → domain_of f host2 = domain_of f host →
  now2 < now + effective_expires_in (config f) resp →
  authenticated f req host2 now2 = Some ((session_tokens s).1.1 ≫= bearer_header f req).
Proof.
  intros Hr (Hv1 & Hv2 & Hv3) Hs Hpos Hp Hd Hnow. pose proof (wf_nonces _ Hr) as Hn.
  unfold begin_session in Hs. destruct (Z.leb_spec (2 ^ 64) (now + effective_expires_in (config f) resp)); [done|].
  destruct (kept_tokens (config f) resp) as [[a i] rt] eqn:Ek.
  apply bind_Some in Hs as (ac & Ha & Hs). apply bind_Some in Hs as (ic & Hi & Hs). apply bind_Some in Hs as (rc & Hrc & Hs).
  apply bind_Some in Hs as (loc & _ & [= <-]).
  assert (valid_utf8 (default [] a) ∧ valid_utf8 (default [] i) ∧ valid_utf8 (default [] rt)) as (Hu1 & Hu2 & Hu3).
  { unfold kept_tokens in Ek. injection Ek as <- <- <-. repeat case_match; by split_and!. }
  apply encrypted_round in Ha; [|done..]. apply encrypted_round in Hi; [|done..]. apply encrypted_round in Hrc; [|done..].
  unfold authenticated. fold (presented f req). rewrite Hp. cbn [sent_back session_hmac session_expires session_expiration session_access_token
    session_id_token session_refresh_token session_cookies session_tokens fst snd].
  rewrite parse_dec by lia. destruct (Z.ltb_spec now2 (now + effective_expires_in (config f) resp)); [|lia].
  rewrite Ha, Hi, Hrc. fold (domain_of f host2). rewrite Hd. unfold session_signed. cbn [session_tokens session_expiration].
  fold (domain_of f host). rewrite (verify_computed (hmac_key f) (domain_of f host)). done.
Qed.

End oauth2.

End OAuth2Spec.

(** Flows through the OAuth2 filter from their start to their end: a login that is
    carried out is completed, and what a secret that is no secret means for it. *)

Import Http StringMatch HeaderMatch Route ExtProcMutation LogFormatter FormatContext OAuth2 OAuth2Spec.
Local Open Scope Z_scope.

Module OAuth2Flow.

Section flow.
Context {HL : HttpLib} {HB : HttpBytes} {RL : RegexLib} {BL : BlakeLib} {B64 : Base64Lib} {CR : CryptoLib} {OL : OAuthLib}.
Context {BS : Base64Spec B64} {CS : CryptoSpec CR}.


(** C39: with credentials that are taken from an Envoy configuration the key of the
    signatures is the name of a secret, not the secret.  Who knows this name makes a
    session of their own: for any host, and any time of expiration that is not over,
    a request with two cookies that are computed from the name is let through. *)
Theorem secret_name_forges_session f v c name host e :
  credentials_try_from v = Ok (credentials (config f)) → envoy_hmac_secret v = Some name →
  extract_host (c_request c) = Some host → path_is (signout_path (config f)) (c_request c) = false →
  path_is (redirect_path_matcher (config f)) (c_request c) = false → 0 <= e < 2 ^ 64 → c_now c < e →
  presented f (c_request c) = mk_session_cookies None
    (Some (b64_encode (hmac_sha256 name (session_payload (domain_of f host) (Fmt.fmt_dec e) None None None))))
    (Some (Fmt.fmt_dec e)) None None →
  run f c = (c_request c, Cors.Continue).
Proof.
  intros Hv Hname Hhost Hout Hcb He Hnow Hp.
  assert (hmac_key f = name) as Hkey.
  { unfold hmac_key. unfold credentials_try_from in Hv. rewrite Hname in Hv.
    apply result_bind_Ok in Hv as (? & _ & Hv). apply result_bind_Ok in Hv as (? & _ & Hv). apply result_bind_Ok in Hv as (? & Hr & Hv).
    injection Hv as <-. cbn. unfold required_secret, required in Hr. case_bool_decide; [done|]. by injection Hr as ->. }
  assert (authenticated f (c_request c) host (c_now c) = Some None) as Ha.
  { unfold authenticated. fold (presented f (c_request c)). rewrite Hp. cbn [session_hmac session_expires session_access_token session_id_token
      session_refresh_token]. rewrite parse_dec by done. destruct (Z.ltb_spec (c_now c) e); [|lia].
    unfold decrypt_token_cookie. cbn [mbind option_bind]. rewrite Hkey.
    fold (domain_of f host). pose proof (verify_computed name (domain_of f host) (Fmt.fmt_dec e) None None None) as Hvc.
    unfold compute_session_hmac, session_hmac_tag in Hvc. by rewrite Hvc. }
  unfold run, apply_request. fold (passes f (c_request c)). destruct (passes f (c_request c)); [done|]. rewrite Hhost.
  fold (path_is (signout_path (config f)) (c_request c)). rewrite Hout.
  fold (path_is (redirect_path_matcher (config f)) (c_request c)). rewrite Hcb. by rewrite Ha.
Qed.

End flow.

(** ** Examples *)

Section example.
#[local] Existing Instance assoc_http.
#[local] Existing Instance assoc_bytes.
#[local] Existing Instance Base64.base64.
#[local] Existing Instance Base64.base64_spec.
#[local] Instance example_regex : RegexLib := {| Regex := (); find_at _ _ _ := None; replace_all _ _ _ := None |}.
#[local] Instance example_blake : BlakeLib := λ s, s.

(** A digest that is a polynomial, and a cipher that only adds its tag. *)
Definition example_digest (s : str) : Z := foldl (λ h c, (h * 257 + Z.of_N (Ascii.N_of_ascii c) + 1) mod 2 ^ 256) 7 s.

#[local] Instance example_crypto : CryptoLib := {|
  hmac_sha256 k m := to_be_bytes 32 (example_digest (k ++ m));
  sha256 s := s;
  seal_in_place_append_tag _ _ m := Some (m ++ replicate 16 (Str.byte 84));
  open_in_place _ _ c := Some (take (length c - 16) c);
|}.

#[local] Instance example_crypto_spec : CryptoSpec example_crypto.
Proof.
  split.
  - intros k m. apply FormatContextSpec.to_be_bytes_length.
  - intros k n m c H. cbn [seal_in_place_append_tag example_crypto] in H. apply Some_inj in H as <-. cbn [open_in_place example_crypto]. f_equal. rewrite length_app, length_replicate, Nat.add_sub. apply take_app_length.
  - intros k n m c H. cbn [seal_in_place_append_tag example_crypto] in H. apply Some_inj in H as <-. by rewrite length_app, length_replicate.
Qed.

#[local] Instance example_oauth : OAuthLib := {|
  url_parse s := if Str.starts_with s (lit "https://") then Some (mk_parsed_url (lit "https") (Some []) [] None None) else None;
  authorize_url _ _ endpoint _ state _ _ := Some (endpoint ++ lit "?state=" ++ state);
|}.

Definition example_credentials : OAuth2Credentials :=
  mk_credentials (lit "client") (lit "client-secret") (lit "hmac-secret") cookie_names_default None.

Definition example_config : OAuth2Config :=
  mk_oauth2_config (lit "https://idp/token") (lit "https://idp/auth") None example_credentials
    (mk_path_matcher (ExactPath (lit "/callback")) false) (mk_path_matcher (ExactPath (lit "/signout")) false)
    true false [] [lit "user"] UrlEncodedBody true 0 [] 604800 false false false
    (mk_cookie_configs None None None None None None None) 600 600 false.

Definition example_filter : OAuth2Filter := mk_oauth2_filter example_config (Static (lit "https://app/callback")).

Definition example_random : Random :=
  mk_random (replicate 16 (Str.byte 1)) (lit "csrf") (lit "challenge") (replicate 43 (Str.byte 97)) (λ _, replicate 12 (Str.byte 78)).

Definition example_tokens : TokenEndpointResponse := mk_token_response (lit "access") (Some 3600) None (Some (lit "id")).

Definition example_request (path : str) (query : option str) (cookies : list (str * str)) : Request :=
  mk_request (lit "GET") (mk_uri None None (Some (mk_pq path query)))
    ((lit "host", lit "app") :: ((λ nv, (lit "cookie", nv.1 ++ lit "=" ++ nv.2)) <$> cookies)).

Definition example_call (req : Request) (now : Z) : Call :=
  mk_call req HTTP_11 (λ _, TokenJson example_tokens) example_random (mk_clock now now now) now now.

(** A request without a session, the callback of its login, and one with a session. *)
Definition first_call : Call := example_call (example_request (lit "/private") None []) 1000.

Definition example_login : Login :=
  mk_login (b64url_encode (replicate 16 (Str.byte 1))) (lit "csrf") 1000 (lit "/private") (lit "https://app/callback").

Definition example_verifier : str :=
  default [] (encrypt_cookie_value (token_cipher example_filter) (replicate 12 (Str.byte 78)) (verifier_payload example_random example_login)).

Definition example_query : str := lit "code=c0de&state=" ++ login_flow_id example_login ++ lit ".csrf".

Definition callback_call : Call :=
  example_call (example_request (lit "/callback") (Some example_query)
    [(flow_cookie_name (lit "OauthNonce") (login_flow_id example_login), login_cookie example_filter example_login);
     (flow_cookie_name (lit "OauthCodeVerifier") (login_flow_id example_login), example_verifier)]) 1010.

Definition example_cookie (token : str) : str :=
  default [] (encrypt_token_cookie example_filter (replicate 12 (Str.byte 78)) token).

Definition session_call : Call :=
  example_call (example_request (lit "/private") None
    [(lit "BearerToken", example_cookie (lit "access"));
     (lit "OauthHMAC", compute_session_hmac (lit "hmac-secret") (lit "app") (lit "4610") (Some (lit "access")) (Some (lit "id")) None);
     (lit "OauthExpires", lit "4610"); (lit "IdToken", example_cookie (lit "id"))]) 2000.

Lemma extract_cookie_in hs name cookie : extract_cookie hs name = Some cookie → cookie ∈ (cookie_pairs hs).*2.
Proof.
  unfold extract_cookie. intros H. apply find_map_Some in H as (l1 & x & l2 & -> & Hx & _).
  case_bool_decide; [|done]. injection Hx as <-. rewrite fmap_app, fmap_cons. set_solver.
Qed.

(** Whether the signatures of a request are of what was signed, by evaluation. *)
Definition honest_signatures (signed : list str) (c : Call) : bool :=
  forallb (λ cookie,
    match Str.rsplit_once_char cookie Str.dot with
    | Some (payload, signature) =>
      match b64url_decode signature with
      | Some tag =>
        bool_decide (transaction_context ++ payload ∈ signed) ||
        negb (bool_decide (tag = hmac_sha256 (hmac_key example_filter) (transaction_context ++ payload))) &&
        negb (bool_decide (tag = expected_legacy (hmac_sha256 (hmac_key example_filter) (transaction_context ++ payload))))
      | None => true
      end
    | None => true
    end) (cookie_pairs (headers (c_request c))).*2 &&
  match session_expires (presented example_filter (c_request c)) with
  | Some expires =>
    bool_decide (session_payload (lit "app") expires
      (decrypt_token_cookie example_filter (session_access_token (presented example_filter (c_request c))))
      (decrypt_token_cookie example_filter (session_id_token (presented example_filter (c_request c))))
      (decrypt_token_cookie example_filter (session_refresh_token (presented example_filter (c_request c)))) ∈ signed)
  | None => true
  end.

Lemma honest_unforgeable signed c : extract_host (c_request c) = Some (lit "app") →
  honest_signatures (signed_payload example_filter <$> signed) c = true → unforgeable example_filter signed c.
Proof.
  intros Hh [H1 H2]%andb_true_iff p tag Hcmp Htag. destruct Hcmp as [host sg ex tag Eh Esg Eex Ed|name cookie payload sg tag Ec Er Ed].
  - rewrite Eex in H2. apply bool_decide_eq_true in H2. rewrite Hh in Eh. injection Eh as <-. exact H2.
  - rewrite forallb_forall in H1. apply extract_cookie_in in Ec. apply list_elem_of_In, H1 in Ec. rewrite Er, Ed in Ec.
    apply orb_true_iff in Ec as [Ec|[Hn1 Hn2]%andb_true_iff]; [by apply bool_decide_eq_true in Ec|].
    apply negb_true_iff, bool_decide_eq_false in Hn1, Hn2. exfalso. destruct Htag as [E|E]; [exact (Hn1 E)|exact (Hn2 E)].
Qed.

Lemma example_wf req now : extract_host req = Some (lit "app") → 0 <= now < 2 ^ 64 → wf_call example_filter (example_call req now).
Proof.
  intros Hh Hn. split.
  - intros host E. simpl in E. rewrite Hh in E. injection E as <-. split; vm_compute; set_solver.
  - reflexivity.
  - simpl. lia.
  - intros rq r [= <-]. split_and!; vm_compute; try set_solver; done.
Qed.

Lemma example_sound : sound example_filter ([first_call] ++ [callback_call] ++ [session_call]).
Proof.
  apply (sound_snoc example_filter [first_call; callback_call]).
  - apply (sound_snoc example_filter [first_call]).
    + apply (sound_snoc example_filter []); [constructor|apply example_wf; [reflexivity|lia]|].
      apply honest_unforgeable; [reflexivity|vm_compute; reflexivity].
    + apply example_wf; [reflexivity|lia].
    + apply honest_unforgeable; [reflexivity|vm_compute; reflexivity].
  - apply example_wf; [reflexivity|lia].
  - apply honest_unforgeable; [reflexivity|vm_compute; reflexivity].
Qed.

Lemma session_authentic_witness :
  (run example_filter session_call).2 = Cors.Continue ∧
  ∃ c1 host t s, c1 ∈ [first_call; callback_call] ∧ call_signs example_filter c1 = Some (SignedSession host t s) ∧
    default [] (session_tokens s).1.1 = lit "access".
Proof.
  assert ((run example_filter session_call).2 = Cors.Continue) as E by (vm_compute; reflexivity).
  split; [exact E|].
  destruct (session_authentic example_filter [first_call; callback_call] session_call (run example_filter session_call).1)
    as (tr1 & c1 & tr2 & host & host1 & t & s & e & Htr & _ & Hc & _ & _ & _ & _ & Ha & _).
  - exact example_sound.
  - rewrite <- E. apply surjective_pairing.
  - vm_compute. reflexivity.
  - exists c1, host1, t, s. split; [rewrite Htr; apply elem_of_app; right; left|]. split; [exact Hc|]. rewrite <- Ha. vm_compute. reflexivity.
Defined.

Lemma example_wf_random : wf_random example_random.
Proof. split; [reflexivity|split; [done|split; [vm_compute; lia|reflexivity]]|split; [vm_compute; lia|reflexivity]|reflexivity]. Qed.


(** The configuration names a secret; the client makes up a session of it. *)
Definition envoy_credentials : EnvoyOAuth2Credentials :=
  mk_envoy_credentials (lit "client") (Some (lit "client-secret")) None [] (Some (lit "hmac-secret")).

Definition forged_call : Call :=
  example_call (example_request (lit "/private") None
    [(lit "OauthHMAC", compute_session_hmac (lit "hmac-secret") (lit "app") (lit "99999") None None None);
     (lit "OauthExpires", lit "99999")]) 2000.

Lemma secret_name_forges_session_witness :
  run example_filter forged_call = (c_request forged_call, Cors.Continue) ∧ call_signs example_filter forged_call = None.
Proof.
  split; [|vm_compute; reflexivity].
  apply (secret_name_forges_session example_filter envoy_credentials forged_call (lit "hmac-secret") (lit "app") 99999);
    try (vm_compute; reflexivity); lia.
Defined.

End example.
End OAuth2Flow.
