(* ===== verification/Jwt.v ===== *)
(** The JWT filter (arion-lib/src/listeners/http_connection_manager/jwt_authn.rs,
    jwt_authn/jwks.rs and jwt_authn/claims.rs): which provider a request needs, where
    its token comes from, how it is validated and cached, and what is written to the
    request. *)

From S2P Require Import Prelude RustStr Net Fmt Http StringMatch HeaderMatch Route Cors ExtProcMutation LogFormatter.
Import Http StringMatch HeaderMatch Route ExtProcMutation.
Local Open Scope Z_scope.

Module Jwt.

(** ** Claims and keys *)

(** [JwtClaims]; the other claims have the text of their JSON value. *)
Record JwtClaims : Type := mk_claims {
  iss : option str;
  sub : option str;
  aud : option (list str);
  exp : option Z;
  iat : option Z;
  nbf : option Z;
  jti : option str;
  extra : list (str * str);
}.

(** [jsonwebtoken::Validation], as it is built here. *)
Record Validation : Type := mk_validation {
  algorithm : str;
  leeway : Z;
  validate_exp : bool;
  required_spec_claims : list str;
  validated_issuer : option str;
  validate_aud : bool;
  validated_audience : list str;
}.

(** The crate jsonwebtoken and the JSON of a key set: a token's header with its key
    id, a token decoded with a key, and the keys of a set with their algorithms. *)
Record Jwk (DecodingKey : Type) : Type := mk_jwk {
  key_id : option str;
  key_algorithm : option str;
  (** [Algorithm::from_str] and [DecodingKey::from_jwk]. *)
  jwk_algorithm : str → option str;
  jwk_decoding_key : option DecodingKey;
}.
Arguments mk_jwk {_} _ _ _ _.
Arguments key_id {_} _.
Arguments key_algorithm {_} _.
Arguments jwk_algorithm {_} _ _.
Arguments jwk_decoding_key {_} _.

Class JwtLib : Type := {
  DecodingKey : Type;
  Header : Type;
  header_kid : Header → option str;
  decode_header : str → option Header;
  decode : str → DecodingKey → Validation → option JwtClaims;
  (** The keys array of a JSON text: no JSON, no array, or its elements. *)
  json_keys : str → result () (option (list (option (Jwk DecodingKey))));
}.

Inductive JwkError : Type :=
  | InvalidJWK
  | MissingKeyId
  | NoAlgInJwk
  | MissingKeysArray
  | JsonWebToken
  | NoValidationKey
  | NoProviderFound (name : str).

Inductive Asset (T : Type) : Type :=
  | Permanent (t : T)
  | Expiring (t : T) (expiration : Z)
  | Pending.
Arguments Permanent {_} _.
Arguments Expiring {_} _ _.
Arguments Pending {_}.

Section jwt.
Context {HL : HttpLib} {HB : HttpBytes} {RL : RegexLib} {UL : UrlLib} {JL : JwtLib}.

(** ** Configuration *)

Record JwtHeader : Type := mk_jwt_header { jwt_header_name : HeaderName; value_prefix : str }.
Record JwtClaimToHeader : Type := mk_claim_to_header { claim_header_name : HeaderName; claim_name : str }.

(** A remote source has the duration its keys are cached, in nanoseconds. *)
Inductive JwksSourceSpecifier : Type :=
  | RemoteJwks (cache_duration : Z)
  | LocalJwks (bytes : str).

Record JwtProvider : Type := mk_provider {
  issuer : str;
  audiences : list str;
  subjects : option StringMatcher;
  forward : bool;
  from_headers : list JwtHeader;
  from_params : list str;
  from_cookies : list str;
  payload_in_metadata : option str;
  header_in_metadata : option str;
  clock_skew_seconds : Z;
  clear_route_cache : bool;
  claim_to_headers : list JwtClaimToHeader;
  jwks_source_specifier : JwksSourceSpecifier;
}.

Inductive RequiresType : Type := ProviderName (name : str).

Inductive RequirementType : Type :=
  | Requires (requires_type : option RequiresType)
  | RequirementName (name : str).

Record RequirementRule : Type := mk_rule { rule_match : option RouteMatch; requirement_type : option RequirementType }.

Record JwtConfig : Type := mk_jwt_config { providers : gmap str JwtProvider; rules : list RequirementRule }.

(** ** Key sets *)

Definition build_validation (alg : str) (p : JwtProvider) : Validation :=
  let issued := negb (bool_decide (issuer p = [])) in
  let has_audiences := negb (bool_decide (audiences p = [])) in
  mk_validation alg (clock_skew_seconds p) true
    (lit "exp" :: (if issued then [lit "iss"] else []) ++ (if has_audiences then [lit "aud"] else []))
    (if issued then Some (issuer p) else None) has_audiences (audiences p).

Record ValidationKey : Type := mk_validation_key { decoding_key : DecodingKey; validation : Validation }.

(** A hash map from key ids, in the order its values are iterated. *)
Definition KeyMap : Type := list (str * ValidationKey).

Definition keys_get (m : KeyMap) (kid : str) : option ValidationKey :=
  find_map (λ kv, if bool_decide (kv.1 = kid) then Some kv.2 else None) m.

Definition keys_insert (m : KeyMap) (kid : str) (v : ValidationKey) : KeyMap :=
  filter (λ kv, kv.1 ≠ kid) m ++ [(kid, v)].

Fixpoint insert_jwks (p : JwtProvider) (keys : KeyMap) (l : list (option (Jwk DecodingKey))) : result JwkError KeyMap :=
  match l with
  | [] => Ok keys
  | None :: _ => Err InvalidJWK
  | Some jwk :: l =>
    match key_id jwk with
    | None => Err MissingKeyId
    | Some kid =>
      match key_algorithm jwk with
      | None => Err NoAlgInJwk
      | Some key_alg =>
        match jwk_algorithm jwk key_alg with
        | None => Err JsonWebToken
        | Some alg =>
          match jwk_decoding_key jwk with
          | None => Err JsonWebToken
          | Some decoding_key => insert_jwks p (keys_insert keys kid (mk_validation_key decoding_key (build_validation alg p))) l
          end
        end
      end
    end
  end.

Definition parse_jwks (bytes : str) (p : JwtProvider) : result JwkError KeyMap :=
  match json_keys bytes with
  | Err _ => Err InvalidJWK
  | Ok None => Err MissingKeysArray
  | Ok (Some l) => insert_jwks p [] l
  end.

(** [build]: providers whose keys cannot be parsed have no context. *)
Definition parse_and_validate_keys (p : JwtProvider) : result JwkError (Asset KeyMap) :=
  match jwks_source_specifier p with
  | LocalJwks bytes => keys ← parse_jwks bytes p; Ok (Permanent keys)
  | RemoteJwks _ => Ok Pending
  end.

Definition build_contexts (c : JwtConfig) : gmap str (Asset KeyMap) :=
  omap (λ p, match parse_and_validate_keys p with Ok keys => Some keys | Err _ => None end) (providers c).

(** What a remote answers when its keys are fetched: the bytes of the answer, or an
    error of the connection or its status. *)
Definition fetch_remote_jwks (answer : option str) (p : JwtProvider) : option KeyMap :=
  bytes ← answer; match parse_jwks bytes p with Ok keys => Some keys | Err _ => None end.

(** The key for a token and the keys afterwards. *)
Definition validation_key_lookup (keys : Asset KeyMap) (kid : option str) (p : JwtProvider) (answer : option str) (now : Z)
    : option (Asset ValidationKey) * Asset KeyMap :=
  match kid with
  | Some kid =>
    match keys with
    | Permanent m => (Permanent <$> keys_get m kid, keys)
    | Expiring m expiration =>
      let stored :=
        if expiration <? now then
          match jwks_source_specifier p with
          | RemoteJwks cache_duration =>
            match fetch_remote_jwks answer p with Some new_keys => Expiring new_keys (now + cache_duration) | None => keys end
          | LocalJwks _ => keys
          end
        else keys in
      ((λ x, Expiring x expiration) <$> keys_get m kid, stored)
    | Pending =>
      match jwks_source_specifier p with
      | RemoteJwks cache_duration =>
        match fetch_remote_jwks answer p with
        | Some new_keys =>
          let deadline := now + cache_duration in
          ((λ x, Expiring x deadline) <$> keys_get new_keys kid, Expiring new_keys deadline)
        | None => (Some Pending, keys)
        end
      | LocalJwks _ => (Some Pending, keys)
      end
    end
  | None =>
    (match keys with
     | Permanent m => Permanent <$> (snd <$> head m)
     | Expiring m expiration => (λ x, Expiring x expiration) <$> (snd <$> head m)
     | Pending => Some Pending
     end, keys)
  end.

(** ** Tokens *)

Inductive JwtExtract : Type :=
  | FromHeader (name : HeaderName) (token : str)
  | FromQuery (key token : str)
  | FromCookie (token : str).

Definition extracted_token (e : JwtExtract) : str := match e with FromHeader _ t | FromQuery _ t | FromCookie t => t end.

Definition token_from_header (req : Request) (hdr : JwtHeader) : option JwtExtract :=
  header_str ← header_get (headers req) (jwt_header_name hdr) ≫= to_str;
  if Str.starts_with header_str (value_prefix hdr) then
    let token := Str.trim (drop (length (value_prefix hdr)) header_str) in
    if bool_decide (token = []) then None else Some (FromHeader (jwt_header_name hdr) token)
  else None.

Definition token_from_param (query : str) (param_name : str) : option JwtExtract :=
  find_map (λ kv, if bool_decide (kv.1 = param_name ∧ kv.2 ≠ []) then Some (FromQuery kv.1 kv.2) else None) (parse_query query).

Definition token_from_cookie (cookie_str cookie_name : str) : option JwtExtract :=
  find_map (λ cookie,
    '(name, value) ← Str.split_once_char (Str.trim cookie) (Str.byte 61);
    if bool_decide (name = cookie_name ∧ value ≠ []) then Some (FromCookie value) else None)
    (Str.split_char cookie_str (Str.byte 59)).

Definition or_else {A} (o1 o2 : option A) : option A := match o1 with Some _ => o1 | None => o2 end.

Definition extract_token (c : JwtConfig) (provider_name : str) (req : Request) : option JwtExtract :=
  p ← providers c !! provider_name;
  or_else (find_map (token_from_header req) (from_headers p))
    (or_else (query ← uri_query (uri req); find_map (token_from_param query) (from_params p))
       (cookie_str ← header_get (headers req) (name_from_static (lit "cookie")) ≫= to_str;
        find_map (token_from_cookie cookie_str) (from_cookies p))).

Definition provider_lookup (c : JwtConfig) (req : Request) : option str :=
  find_map (λ rule,
    if match rule_match rule with Some m => matched (match_request m req) | None => true end then
      match requirement_type rule with
      | Some (Requires (Some (ProviderName name))) => Some name
      | _ => None
      end
    else None) (rules c).

(** ** The cache *)

Record JwtCachedEntry : Type := mk_entry { entry_header : Header; entry_claims : JwtClaims }.

(** Entries with the time they were inserted; they live for a second. *)
Notation JwtCache := (gmap str (JwtCachedEntry * Z)).
Definition TIME_TO_LIVE : Z := 1000000000.

Definition cache_get (cache : JwtCache) (key : str) (now : Z) : option JwtCachedEntry :=
  '(entry, inserted) ← cache !! key;
  if now <? inserted + TIME_TO_LIVE then Some entry else None.

Definition cache_key (token : str) : str :=
  match Str.rsplit_once_char token Str.dot with Some (_, signature) => signature | None => token end.

(** The state of a thread: the contexts of the providers and the cache. *)
Record JwtState : Type := mk_jwt_state { contexts : gmap str (Asset KeyMap); jwt_cache : JwtCache }.

Definition decode_jwt_token (c : JwtConfig) (s : JwtState) (token provider_name : str) (answer : option str) (now : Z)
    : result JwkError JwtCachedEntry * JwtState :=
  match cache_get (jwt_cache s) (cache_key token) now with
  | Some result => (Ok result, s)
  | None =>
    match decode_header token with
    | None => (Err JsonWebToken, s)
    | Some header =>
      match providers c !! provider_name with
      | None => (Err (NoProviderFound provider_name), s)
      | Some p =>
        match contexts s !! provider_name with
        | None => (Err NoValidationKey, s)
        | Some keys =>
          let '(found, keys) := validation_key_lookup keys (header_kid header) p answer now in
          let s := mk_jwt_state (<[provider_name := keys]> (contexts s)) (jwt_cache s) in
          match found with
          | Some (Permanent key) | Some (Expiring key _) =>
            match decode token (decoding_key key) (validation key) with
            | None => (Err JsonWebToken, s)
            | Some claims =>
              let entry := mk_entry header claims in
              (Ok entry, mk_jwt_state (contexts s) (<[cache_key token := (entry, now)]> (jwt_cache s)))
            end
          | Some Pending | None => (Err NoValidationKey, s)
          end
        end
      end
    end
  end.

(** ** The request *)

(** [Debug] of a list of texts; characters that are not ASCII are kept. *)
Definition debug_char (c : Ascii.ascii) : str :=
  let n := Ascii.N_of_ascii c in
  if (n =? 34)%N || (n =? 92)%N then [Str.byte 92; c]
  else if (n =? 9)%N then lit "\t"
  else if (n =? 10)%N then lit "\n"
  else if (n =? 13)%N then lit "\r"
  else if (n =? 0)%N then lit "\0"
  else if (n <? 32)%N || (n =? 127)%N then lit "\u{" ++ Fmt.fmt_hex (Z.of_N n) ++ lit "}"
  else [c].

Definition debug_str (s : str) : str := [Str.byte 34] ++ (s ≫= debug_char) ++ [Str.byte 34].

Definition debug_list (l : list str) : str :=
  lit "[" ++ match l with [] => [] | s :: l => debug_str s ++ (l ≫= λ s, lit ", " ++ debug_str s) end ++ lit "]".

(** The text of a claim. *)
Definition claim_text (claims : JwtClaims) (name : str) : option str :=
  if bool_decide (name = lit "iss") then iss claims
  else if bool_decide (name = lit "sub") then sub claims
  else if bool_decide (name = lit "aud") then debug_list <$> aud claims
  else if bool_decide (name = lit "exp") then Fmt.fmt_dec <$> exp claims
  else if bool_decide (name = lit "iat") then Fmt.fmt_dec <$> iat claims
  else if bool_decide (name = lit "nbf") then Fmt.fmt_dec <$> nbf claims
  else if bool_decide (name = lit "jti") then jti claims
  else find_map (λ kv, if bool_decide (kv.1 = name) then Some kv.2 else None) (extra claims).

Definition write_claim (claims : JwtClaims) (headers : HeaderMap) (ch : JwtClaimToHeader) : HeaderMap :=
  match claim_text claims (claim_name ch) ≫= value_from_str with
  | Some v => header_insert headers (claim_header_name ch) v
  | None => headers
  end.

Definition write_claims_to_headers (p : JwtProvider) (claims : JwtClaims) (headers : HeaderMap) : HeaderMap :=
  foldl (write_claim claims) headers (claim_to_headers p).

(** The query without a parameter; [serialize] is [form_urlencoded::Serializer]. *)
Definition without_param (serialize : list (str * str) → str) (u : Uri) (key : str) : Uri :=
  match uri_query u with
  | None => u
  | Some query =>
    let filtered_params := filter (λ kv, kv.1 ≠ key) (parse_query query) in
    let text := if bool_decide (filtered_params = []) then uri_path u
                else uri_path u ++ lit "?" ++ serialize filtered_params in
    match path_try_from text with
    | Some pq => default u (uri_from_parts (mk_uri (scheme_str u) (authority u) (Some pq)))
    | None => u
    end
  end.

Definition remove_token (serialize : list (str * str) → str) (e : JwtExtract) (req : Request) : Request :=
  match e with
  | FromHeader name _ => mk_request (method req) (uri req) (header_remove (headers req) name)
  | FromQuery key _ => mk_request (method req) (without_param serialize (uri req) key) (headers req)
  | FromCookie _ => req
  end.

Definition unauthorized : Cors.FilterDecision := Cors.DirectResponse (mk_response 401 header_map_new).

(** What is put into the extensions of the request. *)
Record Extensions : Type := mk_extensions { ext_header : option Header; ext_claims : option JwtClaims }.

Definition apply_request (serialize : list (str * str) → str) (c : JwtConfig) (s : JwtState) (req : Request) (answer : option str) (now : Z)
    : (Request * Extensions * Cors.FilterDecision) * JwtState :=
  let refuse s := ((req, mk_extensions None None, unauthorized), s) in
  match provider_lookup c req with
  | None => refuse s
  | Some provider_name =>
    match extract_token c provider_name req with
    | None => refuse s
    | Some jwt_extract =>
      match decode_jwt_token c s (extracted_token jwt_extract) provider_name answer now with
      | (Err _, s) => refuse s
      | (Ok entry, s) =>
        match providers c !! provider_name with
        | None => refuse s
        | Some p =>
          let req := if forward p then req else remove_token serialize jwt_extract req in
          let req := mk_request (method req) (uri req) (write_claims_to_headers p (entry_claims entry) (headers req)) in
          let extensions := mk_extensions
            (if header_in_metadata p then Some (entry_header entry) else None)
            (if payload_in_metadata p then Some (entry_claims entry) else None) in
          ((req, extensions, if clear_route_cache p then Cors.Reroute else Cors.Continue), s)
        end
      end
    end
  end.

End jwt.
End Jwt.

(** What the JWT filter promises, and what its cache does not keep: a request is let
    through when a token with the signature of its token was validated within the
    last second, by whatever provider. *)

Import Http StringMatch HeaderMatch Route ExtProcMutation Jwt.

Module JwtSpec.

Section jwt.
Context {HL : HttpLib} {HB : HttpBytes} {RL : RegexLib} {UL : UrlLib} {JL : JwtLib}.
Context (serialize : list (str * str) → str) (c : JwtConfig).

(** ** Keys *)

(** The keys of a provider validate what the provider asks for. *)
Definition key_of (p : JwtProvider) (key : ValidationKey) : Prop := ∃ alg, validation key = build_validation alg p.

Definition keys_of (p : JwtProvider) (m : KeyMap) : Prop := Forall (λ kv, key_of p kv.2) m.

Definition asset_of (p : JwtProvider) (a : Asset KeyMap) : Prop :=
  match a with Permanent m | Expiring m _ => keys_of p m | Pending => True end.

Lemma insert_jwks_of p l keys m : keys_of p keys → insert_jwks p keys l = Ok m → keys_of p m.
Proof.
  revert keys. induction l as [|[jwk|] l IH]; intros keys Hk H; cbn [insert_jwks] in H; [by injection H as <-| |done].
  repeat case_match; try done. eapply IH; [|exact H]. apply Forall_app. split; [apply Forall_forall; intros x [_ Hx]%list_elem_of_filter; by apply (proj1 (Forall_forall _ _) Hk)|].
  constructor; [|constructor]. by eexists.
Qed.

Lemma parse_jwks_of p bytes m : parse_jwks bytes p = Ok m → keys_of p m.
Proof. unfold parse_jwks. repeat case_match; try done. by apply insert_jwks_of, Forall_nil. Qed.

Lemma fetch_of p answer m : fetch_remote_jwks answer p = Some m → keys_of p m.
Proof.
  unfold fetch_remote_jwks. intros (bytes & _ & H)%bind_Some. case_match eqn:E; [|done]. injection H as <-. by eapply parse_jwks_of.
Qed.

Lemma keys_get_of p m kid key : keys_of p m → keys_get m kid = Some key → key_of p key.
Proof.
  intros Hm H. apply find_map_Some in H as (l1 & [k v] & l2 & -> & Hv & _). apply Forall_app in Hm as [_ Hm].
  apply Forall_cons in Hm as [Hm _]. case_bool_decide; [|done]. by injection Hv as <-.
Qed.

Lemma head_of p m key : keys_of p m → snd <$> head m = Some key → key_of p key.
Proof. destruct m as [|[k v] m]; [done|]. intros Hm [= <-]. by apply Forall_cons in Hm as [? _]. Qed.

Definition found_key (a : option (Asset ValidationKey)) : option ValidationKey :=
  match a with Some (Permanent key) | Some (Expiring key _) => Some key | _ => None end.

Lemma lookup_of p keys kid answer now : asset_of p keys →
  asset_of p (validation_key_lookup keys kid p answer now).2 ∧
  ∀ key, found_key (validation_key_lookup keys kid p answer now).1 = Some key → key_of p key.
Proof.
  intros Hk. unfold validation_key_lookup. destruct kid as [kid|].
  - destruct keys as [m|m e|]; cbn in Hk.
    + split; [done|]. intros key. destruct (keys_get m kid) eqn:E; [|done]. intros [= <-]. by eapply keys_get_of.
    + split.
      * cbn. repeat case_match; try done. by eapply fetch_of.
      * intros key. cbn. destruct (keys_get m kid) eqn:E; [|done]. intros [= <-]. by eapply keys_get_of.
    + destruct (jwks_source_specifier p); [|done]. destruct (fetch_remote_jwks answer p) as [m|] eqn:Ef; [|done].
      apply fetch_of in Ef. split; [done|]. intros key. cbn. destruct (keys_get m kid) eqn:E; [|done]. intros [= <-]. by eapply keys_get_of.
  - split; [done|]. intros key. destruct keys as [m|m e|]; cbn in Hk |- *; [| |done].
    + destruct (snd <$> head m) eqn:E; [|done]. intros [= <-]. by eapply head_of.
    + destruct (snd <$> head m) eqn:E; [|done]. intros [= <-]. by eapply head_of.
Qed.

(** ** One request *)

(** A token that is valid for a provider, by one of its keys. *)
Definition valid_for (s : JwtState) (token name : str) (answer : option str) (now : Z) (entry : JwtCachedEntry) : Prop :=
  ∃ p header keys key claims,
    providers c !! name = Some p ∧ contexts s !! name = Some keys ∧ decode_header token = Some header ∧
    found_key (validation_key_lookup keys (header_kid header) p answer now).1 = Some key ∧
    decode token (decoding_key key) (validation key) = Some claims ∧ entry = mk_entry header claims.

(** The token is accepted from the cache, or validated and cached. *)
Lemma decode_jwt_token_spec s token name answer now entry :
  (decode_jwt_token c s token name answer now).1 = Ok entry ↔
  cache_get (jwt_cache s) (cache_key token) now = Some entry ∨
  cache_get (jwt_cache s) (cache_key token) now = None ∧ valid_for s token name answer now entry.
Proof.
  unfold decode_jwt_token. destruct (cache_get (jwt_cache s) (cache_key token) now) as [e|]; [naive_solver|].
  split.
  - intros H. right. split; [done|]. unfold valid_for.
    destruct (decode_header token) as [header|] eqn:Eh; [|done]. destruct (providers c !! name) as [p|]; [|done].
    destruct (contexts s !! name) as [keys|]; [|done].
    destruct (validation_key_lookup keys (header_kid header) p answer now) as [found keys'] eqn:Ev.
    exists p, header, keys. rewrite Ev. destruct found as [[key|key ?|]|]; try done; cbn in H |- *;
      destruct (decode token (decoding_key key) (validation key)) as [claims|] eqn:Ed; try done;
      injection H as <-; by exists key, claims.
  - intros [H|[_ (p & header & keys & key & claims & Hp & Hk & Hh & Hf & Hd & ->)]]; [done|].
    rewrite Hh, Hp, Hk. destruct (validation_key_lookup keys (header_kid header) p answer now) as [found keys'].
    destruct found as [[k|k ?|]|]; try done; cbn in Hf; injection Hf as ->; by rewrite Hd.
Qed.

Definition let_through (d : Cors.FilterDecision) : Prop := d = Cors.Continue ∨ d = Cors.Reroute.

Lemma apply_request_spec s req answer now :
  let_through (apply_request serialize c s req answer now).1.2 ↔
  ∃ name p e entry, provider_lookup c req = Some name ∧ providers c !! name = Some p ∧ extract_token c name req = Some e ∧
    (decode_jwt_token c s (extracted_token e) name answer now).1 = Ok entry.
Proof.
  unfold let_through, apply_request, unauthorized. split.
  - intros H. destruct (provider_lookup c req) as [name|] eqn:Ep; [|naive_solver].
    destruct (extract_token c name req) as [e|] eqn:Ee; [|naive_solver].
    destruct (decode_jwt_token c s (extracted_token e) name answer now) as [[entry|] s'] eqn:Ed; [|naive_solver].
    destruct (providers c !! name) as [p|] eqn:Epr; [|naive_solver]. exists name, p, e, entry. by rewrite Ed.
  - intros (name & p & e & entry & -> & Hp & -> & Hd).
    destruct (decode_jwt_token c s (extracted_token e) name answer now) as [r s']. cbn in Hd. subst r. rewrite Hp. cbn.
    destruct (clear_route_cache p); auto.
Qed.

(** ** Runs *)

(** A thread handles a request, a fetcher stores new keys of a provider, or the cache
    drops an entry. *)
Inductive step : JwtState → JwtState → Prop :=
  | step_request s req answer now : step s (apply_request serialize c s req answer now).2
  | step_fetched s name p duration answer keys now :
    providers c !! name = Some p → jwks_source_specifier p = RemoteJwks duration → is_Some (contexts s !! name) →
    fetch_remote_jwks answer p = Some keys →
    step s (mk_jwt_state (<[name := Expiring keys (now + duration)]> (contexts s)) (jwt_cache s))
  | step_evicted s key : step s (mk_jwt_state (contexts s) (delete key (jwt_cache s))).

Definition initial : JwtState := mk_jwt_state (build_contexts c) ∅.

(** What every entry of the cache stands for. *)
Definition justified (key : str) (entry : JwtCachedEntry) (t : Z) : Prop :=
  ∃ s token name answer, rtc step initial s ∧ cache_key token = key ∧ valid_for s token name answer t entry.

Definition jwt_inv (s : JwtState) : Prop :=
  (∀ key entry t, jwt_cache s !! key = Some (entry, t) → justified key entry t) ∧
  (∀ name p keys, providers c !! name = Some p → contexts s !! name = Some keys → asset_of p keys).

Lemma initial_inv : jwt_inv initial.
Proof.
  split; [by intros key entry t H; cbn in H; rewrite lookup_empty in H|].
  intros name p keys Hp Hk. unfold initial, build_contexts in Hk. cbn [contexts] in Hk. rewrite lookup_omap, Hp in Hk. cbn in Hk.
  unfold parse_and_validate_keys in Hk. destruct (jwks_source_specifier p) as [|bytes]; [by injection Hk as <-|].
  destruct (parse_jwks bytes p) as [m|] eqn:E; [|done]. injection Hk as <-. by eapply parse_jwks_of.
Qed.

Lemma decode_state s token name answer now :
  let s' := (decode_jwt_token c s token name answer now).2 in
  (jwt_cache s' = jwt_cache s ∨ ∃ entry, jwt_cache s' = <[cache_key token := (entry, now)]> (jwt_cache s) ∧ valid_for s token name answer now entry) ∧
  (contexts s' = contexts s ∨ ∃ p keys kid, providers c !! name = Some p ∧ contexts s !! name = Some keys ∧
     contexts s' = <[name := (validation_key_lookup keys kid p answer now).2]> (contexts s)).
Proof.
  cbn zeta. unfold decode_jwt_token. destruct (cache_get _ _ _); [by auto|].
  destruct (decode_header token) as [header|] eqn:Eh; [|by auto]. destruct (providers c !! name) as [p|] eqn:Ep; [|by auto].
  destruct (contexts s !! name) as [keys|] eqn:Ek; [|by auto].
  destruct (validation_key_lookup keys (header_kid header) p answer now) as [found keys'] eqn:Ev.
  assert (∀ cache, contexts (mk_jwt_state (<[name:=keys']> (contexts s)) cache) =
    <[name:=(validation_key_lookup keys (header_kid header) p answer now).2]> (contexts s)) as Hc by (intros; by rewrite Ev).
  destruct found as [[key|key ?|]|]; cbn [snd]; try (split; [by left|]; right; exists p, keys, (header_kid header); by rewrite Ev);
    destruct (decode token (decoding_key key) (validation key)) as [claims|] eqn:Ed; cbn [snd];
    (split; [|right; exists p, keys, (header_kid header); by rewrite Ev]); try (by left); right; eexists; (split; [reflexivity|]);
    exists p, header, keys, key, claims; rewrite Ev; done.
Qed.

Lemma apply_request_state s req answer now :
  (apply_request serialize c s req answer now).2 = s ∨
  ∃ token name, (apply_request serialize c s req answer now).2 = (decode_jwt_token c s token name answer now).2.
Proof.
  unfold apply_request. destruct (provider_lookup c req) as [name|]; [|by left]. destruct (extract_token c name req) as [e|]; [|by left].
  right. exists (extracted_token e), name. destruct (decode_jwt_token c s (extracted_token e) name answer now) as [[entry|] s']; [|done].
  by destruct (providers c !! name).
Qed.

Lemma step_jwt_inv s s' : rtc step initial s → step s s' → jwt_inv s → jwt_inv s'.
Proof.
  intros Hr Hs [Hc Hk]. destruct Hs as [s req answer now|s name p duration answer keys now Hp Hj Hn Hf|s key].
  - destruct (apply_request_state s req answer now) as [->|(token & name & ->)]; [done|].
    destruct (decode_state s token name answer now) as [Hcache Hctx]. split.
    + intros key entry t Hl. destruct Hcache as [E|(entry' & E & Hv)]; rewrite E in Hl; [by apply Hc|].
      apply lookup_insert_Some in Hl as [[<- [= <- <-]]|[_ Hl]]; [by exists s, token, name, answer|by apply Hc].
    + intros n p keys Hp Hl. destruct Hctx as [E|(p' & keys' & kid & Hp' & Hk' & E)]; rewrite E in Hl; [by eapply Hk|].
      apply lookup_insert_Some in Hl as [[<- <-]|[_ Hl]]; [|by eapply Hk]. rewrite Hp in Hp'. injection Hp' as <-.
      apply lookup_of. by eapply Hk.
  - split; [exact Hc|]. intros n p' keys' Hp' Hl. cbn in Hl. apply lookup_insert_Some in Hl as [[<- <-]|[_ Hl]]; [|by eapply Hk].
    rewrite Hp in Hp'. injection Hp' as <-. by eapply fetch_of.
  - split; [|exact Hk]. intros k entry t Hl. cbn in Hl. apply lookup_delete_Some in Hl as [_ Hl]. by apply Hc.
Qed.

Lemma reachable_jwt_inv s : rtc step initial s → jwt_inv s.
Proof.
  intros H. assert (∀ s0, rtc step initial s0 → jwt_inv s0 → rtc step s0 s → jwt_inv s) as Hgen.
  { clear H. intros s0 H0 Hi H. induction H as [|x y z Hxy Hyz IH]; [done|].
    apply IH; [by eapply rtc_r|by eapply step_jwt_inv]. }
  apply (Hgen initial); [done|apply initial_inv|done].
Qed.

(** ** Properties *)


(** C38: the cache is shared by all providers and its key is the last part of a
    token.  For a second after a token was validated for one provider, any text that
    ends in the same part is a token for every other provider: its header and its
    payload are not looked at, and neither are the keys, the issuer and the audience
    of the other provider. *)
Theorem jwt_cache_confuses s req answer now req' answer' now' name e p' name' e' entry :
  provider_lookup c req = Some name → extract_token c name req = Some e →
  cache_get (jwt_cache s) (cache_key (extracted_token e)) now = None → valid_for s (extracted_token e) name answer now entry →
  provider_lookup c req' = Some name' → providers c !! name' = Some p' → extract_token c name' req' = Some e' →
  cache_key (extracted_token e') = cache_key (extracted_token e) → now' < now + TIME_TO_LIVE →
  let_through (apply_request serialize c (apply_request serialize c s req answer now).2 req' answer' now').1.2.
Proof.
  intros Hn He Hmiss Hv Hn' Hp' He' Hck Hnow. apply apply_request_spec.
  exists name', p', e', entry. split_and!; try done. apply decode_jwt_token_spec. left.
  assert ((decode_jwt_token c s (extracted_token e) name answer now).1 = Ok entry) as Hok by (apply decode_jwt_token_spec; auto).
  assert (jwt_cache (apply_request serialize c s req answer now).2 !! cache_key (extracted_token e') = Some (entry, now)) as Hl.
  { rewrite Hck. destruct Hv as (p & header & keys & key & claims & Hp & Hk & Hh & Hf & Hd & ->).
    unfold apply_request. rewrite Hn, He. unfold decode_jwt_token. rewrite Hmiss, Hh, Hp, Hk.
    destruct (validation_key_lookup keys (header_kid header) p answer now) as [found keys'].
    destruct found as [[k|k ?|]|]; try done; cbn in Hf; injection Hf as ->; rewrite Hd; cbn; by rewrite lookup_insert_eq. }
  unfold cache_get. rewrite Hl. cbn. destruct (Z.ltb_spec now' (now + TIME_TO_LIVE)); [done|lia].
Qed.

End jwt.

(** ** Examples *)

Section example.
#[local] Existing Instance assoc_http.
#[local] Existing Instance assoc_bytes.
#[local] Instance jwt_example_regex : RegexLib := {| Regex := (); find_at _ _ _ := None; replace_all _ _ _ := None |}.
#[local] Instance jwt_example_url : UrlLib := λ _, [].

Definition example_claims : JwtClaims := mk_claims (Some (lit "issuer")) (Some (lit "user")) None (Some 2000) None None None [].

(** A key signs one token: a header, a payload and itself as the signature. *)
#[local] Instance example_jwt : JwtLib := {|
  DecodingKey := str;
  Header := ();
  header_kid _ := None;
  decode_header _ := Some ();
  decode token key _ := if bool_decide (token = lit "header.payload." ++ key) then Some example_claims else None;
  json_keys bytes := Ok (Some [Some (mk_jwk (Some (lit "kid")) (Some (lit "RS256")) Some (Some bytes))]);
|}.

Definition example_provider (key : str) : JwtProvider :=
  mk_provider (lit "issuer") [] None false [mk_jwt_header (lit "authorization") (lit "Bearer ")] [] [] None None 0 false
    [mk_claim_to_header (lit "x-user") (lit "sub")] (LocalJwks key).

Definition example_rule (path name : str) : RequirementRule :=
  mk_rule (Some (mk_route_match (Some (mk_path_matcher (PrefixPath path) false)) [] [])) (Some (Requires (Some (ProviderName name)))).

Definition example_jwt_config : JwtConfig :=
  mk_jwt_config {[ lit "a" := example_provider (lit "key-a"); lit "b" := example_provider (lit "key-b") ]}
    [example_rule (lit "/a") (lit "a"); example_rule (lit "/b") (lit "b")].

Definition jwt_request (path token : str) : Request :=
  mk_request (lit "GET") (mk_uri None None (Some (mk_pq path None))) [(lit "authorization", lit "Bearer " ++ token)].

Definition bearer (token : str) : JwtExtract := FromHeader (name_from_static (lit "authorization")) token.

Definition example_header : Header := ().
Definition example_key (key : str) : ValidationKey :=
  mk_validation_key (key : DecodingKey) (build_validation (lit "RS256") (example_provider key)).

Definition after_valid : JwtState :=
  (apply_request (λ _, []) example_jwt_config (initial example_jwt_config) (jwt_request (lit "/a") (lit "header.payload.key-a")) None 1000).2.

Lemma jwt_cache_confuses_witness :
  (apply_request (λ _, []) example_jwt_config (initial example_jwt_config) (jwt_request (lit "/b") (lit "forged.key-a")) None 1500).1.2 =
    unauthorized ∧
  let_through (apply_request (λ _, []) example_jwt_config after_valid (jwt_request (lit "/b") (lit "forged.key-a")) None 1500).1.2.
Proof.
  split; [vm_compute; reflexivity|].
  eapply (jwt_cache_confuses (λ _, []) example_jwt_config (initial example_jwt_config)
    (jwt_request (lit "/a") (lit "header.payload.key-a")) None 1000 (jwt_request (lit "/b") (lit "forged.key-a")) None 1500
    (lit "a") (bearer (lit "header.payload.key-a")) (example_provider (lit "key-b")) (lit "b")
    (bearer (lit "forged.key-a")) (mk_entry example_header example_claims)); try (vm_compute; reflexivity).
  exists (example_provider (lit "key-a")), example_header, (Permanent [(lit "kid", example_key (lit "key-a"))]),
    (example_key (lit "key-a")), example_claims.
  split_and!; vm_compute; reflexivity.
Defined.


End example.
End JwtSpec.
