(* ===== verification/Tls.v ===== *)
(** The TLS contexts of listeners and clusters
    (arion-lib/src/secrets/secrets_manager.rs, tls_configurator/configurator.rs and
    tls_configurator/tls_configurator_builder.rs, and the settings they read of
    arion-configuration/src/config/{secret,transport,cluster}.rs): the store of
    secrets, the contexts built from it and rebuilt when a secret changes, and the
    choice of the certificate from the name a client asks for.

    The crates rustls, rustls-pemfile and x509-parser, and the reading of files,
    are the class [TlsLib].  A built configuration is what it was built from. *)

From S2P Require Import Prelude RustStr.
Local Open Scope Z_scope.

Class TlsLib : Type := {
  DataSource : Type;
  PrivateKey : Type;
  Certificate : Type;
  RootCertStore : Type;
  Ticketer : Type;
  read_source : DataSource → option str;
  pkcs8_private_keys : str → list (option PrivateKey);
  pem_certs : str → list (option Certificate);
  root_empty : RootCertStore;
  add_parsable_certificates : RootCertStore → list Certificate → RootCertStore * (Z * Z);
  (** The DNS names of the certificate's alternative names: [None] when it does
      not parse, [Some None] when it has none that parse. *)
  dns_sans : Certificate → option (option (list str));
  (** [ServerName::try_from] accepts the name. *)
  is_server_name : str → bool;
  (** [verify_server_name]: the certificate is for the name. *)
  covers : list Certificate → str → bool;
  load_private_key : PrivateKey → bool;
  keys_match : list Certificate → PrivateKey → bool;
  verifier_ok : RootCertStore → bool;
}.

Module Tls.

Inductive TlsError : Type :=
  | Io
  | CantParseKey
  | NotSingleKey
  | CantParseCertificate
  | NoCertificates
  | CantParseX509
  | InvalidTrustStore
  | NotARootStore
  | NotAServerCertificate
  | NotAClientCertificate
  | SecretNameMismatch
  | CantFindSecret
  | DuplicateSecret
  | NoValidationOptions
  | ClientCertificateWithoutContext
  | BadVerifier
  | BadKey
  | ErrorsInContext (n : nat)
  | NoTicketer.

Inductive TlsVersion : Type := TLSv1_2 | TLSv1_3.

Record TlsParameters : Type := mk_parameters {
  minimum_protocol_version : TlsVersion;
  maximum_protocol_version : option TlsVersion;
}.

Definition supported_version (p : TlsParameters) : list TlsVersion :=
  match minimum_protocol_version p with
  | TLSv1_3 => [TLSv1_3]
  | TLSv1_2 =>
    match maximum_protocol_version p with
    | None | Some TLSv1_3 => [TLSv1_2; TLSv1_3]
    | Some TLSv1_2 => [TLSv1_2]
    end
  end.

Inductive TrustChainVerification : Type := VerifyTrustChain | AcceptUntrusted.

Definition ok_or {A} (o : option A) (e : TlsError) : result TlsError A :=
  match o with Some a => Ok a | None => Err e end.

Section tls.
Context `{TlsLib}.

(** ** Secrets *)

Record TlsCertificate : Type := mk_tls_certificate {
  certificate_chain : DataSource;
  private_key : DataSource;
}.

Record ValidationContext : Type := mk_validation_context {
  trusted_ca : DataSource;
  trust_chain : TrustChainVerification;
}.

Inductive SecretType : Type :=
  | SecretCertificate (c : TlsCertificate)
  | SecretValidation (c : ValidationContext).

Record Secret : Type := mk_secret {
  secret_name : str;
  secret_kind : SecretType;
}.

Record CertStore : Type := mk_cert_store {
  store : RootCertStore;
  store_config : ValidationContext;
}.

Record CertificateSecret : Type := mk_certificate_secret {
  cs_name : option str;
  cs_key : PrivateKey;
  cs_certs : list Certificate;
  cs_config : TlsCertificate;
}.

Inductive TransportSecret : Type :=
  | TsCertificate (c : CertificateSecret)
  | TsValidationContext (c : CertStore).

(** [map(|f| f.map_err(..)).collect()]. *)
Definition all_parsed {A} (l : list (option A)) (e : TlsError) : result TlsError (list A) :=
  mapM (λ o, ok_or o e) l.

Definition cert_store_try_from (c : ValidationContext) : result TlsError CertStore :=
  text ← ok_or (read_source (trusted_ca c)) Io;
  ca_certs ← all_parsed (pem_certs text) CantParseCertificate;
  if bool_decide (ca_certs = []) then Err NoCertificates
  else
    let '(root_store, (good, bad)) := add_parsable_certificates root_empty ca_certs in
    if 0 <? bad then Err InvalidTrustStore else Ok (mk_cert_store root_store c).

(** [verify_single] on the keys, and the key it leaves. *)
Definition verify_single {A} (l : list (option A)) : result TlsError A :=
  match l with
  | [Some a] => Ok a
  | [None] => Err CantParseKey
  | _ => Err NotSingleKey
  end.

(** The last of the certificate's DNS names that is a server name. *)
Definition san_name (sans : option (list str)) : option str :=
  foldl (λ acc name, if is_server_name name then Some name else acc) None (default [] sans).

Definition certificate_secret_try_from (c : TlsCertificate) : result TlsError CertificateSecret :=
  chain ← ok_or (read_source (certificate_chain c)) Io;
  key_text ← ok_or (read_source (private_key c)) Io;
  key ← verify_single (pkcs8_private_keys key_text);
  certificates ← all_parsed (pem_certs chain) CantParseCertificate;
  cert ← ok_or (head certificates) NoCertificates;
  sans ← ok_or (dns_sans cert) CantParseX509;
  Ok (mk_certificate_secret (san_name sans) key certificates c).

Record SecretManager : Type := mk_secret_manager {
  certificate_secrets : gmap str CertificateSecret;
  validation_contexts : gmap str CertStore;
}.

Definition secret_manager_new : SecretManager := mk_secret_manager ∅ ∅.

Definition secret_add (m : SecretManager) (s : Secret) : result TlsError (TransportSecret * SecretManager) :=
  match secret_kind s with
  | SecretCertificate certificate =>
    secret ← certificate_secret_try_from certificate;
    Ok (TsCertificate secret,
        mk_secret_manager (<[secret_name s := secret]> (certificate_secrets m)) (validation_contexts m))
  | SecretValidation validation_context =>
    store ← cert_store_try_from validation_context;
    Ok (TsValidationContext store,
        mk_secret_manager (certificate_secrets m) (<[secret_name s := store]> (validation_contexts m)))
  end.

Definition secret_remove (m : SecretManager) (secret_id : str) : SecretManager :=
  mk_secret_manager (delete secret_id (certificate_secrets m)) (delete secret_id (validation_contexts m)).

Definition get_certificate (m : SecretManager) (secret_id : str) : option TransportSecret :=
  TsCertificate <$> certificate_secrets m !! secret_id.

Definition get_validation_context (m : SecretManager) (secret_id : str) : option TransportSecret :=
  TsValidationContext <$> validation_contexts m !! secret_id.

(** ** Certificates of the two sides *)

Record ClientCert : Type := mk_client_cert {
  cc_key : PrivateKey;
  cc_certs : list Certificate;
}.

Definition client_cert_from (s : CertificateSecret) : ClientCert := mk_client_cert (cs_key s) (cs_certs s).

Record ServerCert : Type := mk_server_cert {
  sc_name : option str;
  sc_key : PrivateKey;
  sc_certs : list Certificate;
}.

Definition server_cert_from (s : CertificateSecret) : ServerCert :=
  mk_server_cert (cs_name s) (cs_key s) (cs_certs s).

Definition root_store_try_from (s : TransportSecret) : result TlsError RootCertStore :=
  match s with TsValidationContext c => Ok (store c) | TsCertificate _ => Err NotARootStore end.

Definition client_cert_try_from (s : TransportSecret) : result TlsError ClientCert :=
  match s with TsCertificate c => Ok (client_cert_from c) | TsValidationContext _ => Err NotAClientCertificate end.

Definition server_cert_try_from (s : TransportSecret) : result TlsError ServerCert :=
  match s with TsCertificate c => Ok (server_cert_from c) | TsValidationContext _ => Err NotAServerCertificate end.

(** ** Choosing a certificate by name *)

Record CertifiedKey : Type := mk_certified_key {
  ck_certs : list Certificate;
  ck_key : PrivateKey;
}.

Record SniResolver : Type := mk_resolver {
  by_name : gmap str CertifiedKey;
  by_wildcard : gmap str CertifiedKey;
  default_cert : option CertifiedKey;
}.

Definition resolver_new : SniResolver := mk_resolver ∅ ∅ None.

Definition wildcard_prefix : str := [Str.star; Str.dot].

Definition lowercase (s : str) : str := Str.to_ascii_lowercase <$> s.

Definition is_wildcard (name : str) : bool := Str.starts_with name wildcard_prefix.

(** [strip_prefix("*.").unwrap_or(&name)]. *)
Definition base_domain (name : str) : str := if is_wildcard name then drop 2 name else name.

(** [add], and whether it registered the name. *)
Definition resolver_add (r : SniResolver) (name : str) (ck : CertifiedKey) : bool * SniResolver :=
  let name := lowercase name in
  let test_name := if is_wildcard name then lit "dummy." ++ base_domain name else name in
  if negb (is_server_name test_name && covers (ck_certs ck) test_name) then (false, r)
  else
    let default_cert := match default_cert r with None => Some ck | Some d => Some d end in
    if is_wildcard name
    then (true, mk_resolver (by_name r) (<[base_domain name := ck]> (by_wildcard r)) default_cert)
    else (true, mk_resolver (<[name := ck]> (by_name r)) (by_wildcard r) default_cert).

Definition add_default (r : SniResolver) (ck : CertifiedKey) : SniResolver :=
  match default_cert r with
  | None => mk_resolver (by_name r) (by_wildcard r) (Some ck)
  | Some _ => r
  end.

Definition resolve (r : SniResolver) (server_name : option str) : option CertifiedKey :=
  match server_name with
  | Some sni =>
    match by_name r !! sni with
    | Some cert => Some cert
    | None =>
      match Str.split_once_char sni Str.dot with
      | Some (_, base) =>
        match by_wildcard r !! base with Some cert => Some cert | None => default_cert r end
      | None => default_cert r
      end
    end
  | None => default_cert r
  end.

(** ** The server's context *)

Record SecretHolder : Type := mk_holder {
  holder_name : str;
  server_cert : ServerCert;
}.

Record WantsToBuildServer : Type := mk_wants_server {
  ws_supported_versions : list TlsVersion;
  ws_validation_context_secret_id : option str;
  ws_certificate_store : option RootCertStore;
  ws_certificates : list SecretHolder;
  ws_require_client_cert : bool;
  ws_ticketer : Ticketer;
}.

Inductive ClientAuth : Type := NoClientAuth | OptionalClientAuth (s : RootCertStore) | RequiredClientAuth (s : RootCertStore).

Inductive CertResolver : Type := SingleCert (certs : list Certificate) (k : PrivateKey) | BySni (r : SniResolver).

Record ServerConfig : Type := mk_server_config {
  server_versions : list TlsVersion;
  client_auth : ClientAuth;
  cert_resolver : CertResolver;
  ticketer : Ticketer;
}.

(** [dedup]: a name equal to the one kept before it goes. *)
Fixpoint dedup (l : list str) : list str :=
  match l with
  | [] => []
  | x :: l =>
    match dedup l with
    | y :: l' => if decide (x = y) then y :: l' else x :: y :: l'
    | [] => [x]
    end
  end.

Fixpoint trim_dots_start (s : str) : str :=
  match s with
  | c :: s' => if decide (c = Str.dot) then trim_dots_start s' else s
  | [] => []
  end.

Definition trim_end_dots (s : str) : str := reverse (trim_dots_start (reverse s)).

(** The names a client can ask for: not ["*"], and no wildcard of one label. *)
Definition retained (n : str) : bool :=
  bool_decide (n ≠ [Str.star]) &&
  (negb (is_wildcard n) || (1 <? Z.of_nat (length (Str.match_indices_char (trim_end_dots n) Str.dot)))).

Definition names_to_register (config_name : option str) (sans : list str) : list str :=
  filter (λ n, retained n = true) (dedup (merge_sort Str.str_le (option_list config_name ++ sans))).

(** [extract_dns_sans]. *)
Definition extract_dns_sans (c : option Certificate) : list str :=
  match c ≫= dns_sans with Some (Some sans) => sans | _ => [] end.

Fixpoint register_names (r : SniResolver) (ck : CertifiedKey) (names : list str) (has_errors : bool) : bool * SniResolver :=
  match names with
  | [] => (has_errors, r)
  | name :: names =>
    let '(added, r) := resolver_add r name ck in
    register_names r ck names (has_errors || negb added)
  end.

(** One certificate: whether it had errors, and the resolver. *)
Definition register_certificate (r : SniResolver) (h : SecretHolder) : bool * SniResolver :=
  let sc := server_cert h in
  let ck := mk_certified_key (sc_certs sc) (sc_key sc) in
  match names_to_register (sc_name sc) (extract_dns_sans (head (sc_certs sc))) with
  | [] => (false, add_default r ck)
  | names => register_names r ck names false
  end.

(** All of them, without those whose key does not load: the number with
    errors, and the resolver. *)
Fixpoint register_all (r : SniResolver) (hs : list SecretHolder) (errors : nat) : nat * SniResolver :=
  match hs with
  | [] => (errors, r)
  | h :: hs =>
    if load_private_key (sc_key (server_cert h)) then
      let '(e, r) := register_certificate r h in
      register_all r hs (if e then S errors else errors)
    else register_all r hs errors
  end.

Definition server_client_auth (s : WantsToBuildServer) : result TlsError ClientAuth :=
  match ws_require_client_cert s, ws_certificate_store s with
  | true, None => Err ClientCertificateWithoutContext
  | true, Some store => if verifier_ok store then Ok (RequiredClientAuth store) else Err BadVerifier
  | false, Some store => if verifier_ok store then Ok (OptionalClientAuth store) else Err BadVerifier
  | false, None => Ok NoClientAuth
  end.

Definition server_build (s : WantsToBuildServer) : result TlsError ServerConfig :=
  auth ← server_client_auth s;
  match ws_certificates s with
  | [h] =>
    if keys_match (sc_certs (server_cert h)) (sc_key (server_cert h))
    then Ok (mk_server_config (ws_supported_versions s) auth
               (SingleCert (sc_certs (server_cert h)) (sc_key (server_cert h))) (ws_ticketer s))
    else Err BadKey
  | hs =>
    let '(errors, r) := register_all resolver_new hs 0 in
    if decide (errors = 0%nat) then Ok (mk_server_config (ws_supported_versions s) auth (BySni r) (ws_ticketer s))
    else Err (ErrorsInContext errors)
  end.

Record ServerConfigurator : Type := mk_server_configurator {
  server_state : WantsToBuildServer;
  server_config : ServerConfig;
}.

Definition server_configurator (s : WantsToBuildServer) : result TlsError ServerConfigurator :=
  config ← server_build s; Ok (mk_server_configurator s config).

(** [iter_mut().find(|s| s.name == secret_id)] and its replacement. *)
Fixpoint replace_cert (hs : list SecretHolder) (secret_id : str) (sc : ServerCert) : option (list SecretHolder) :=
  match hs with
  | [] => None
  | h :: hs =>
    if decide (holder_name h = secret_id) then Some (mk_holder (holder_name h) sc :: hs)
    else (h ::.) <$> replace_cert hs secret_id sc
  end.

(** [fresh] is what [Ticketer::new] returns in [with_client_authentication]. *)
Definition server_update (c : ServerConfigurator) (secret_id : str) (secret : TransportSecret) (fresh : option Ticketer) :
    result TlsError ServerConfigurator :=
  let s := server_state c in
  match secret with
  | TsCertificate certificate =>
    certs ← ok_or (replace_cert (ws_certificates s) secret_id (server_cert_from certificate)) CantFindSecret;
    _ ← ok_or fresh NoTicketer;
    server_configurator
      (mk_wants_server (ws_supported_versions s)
         (match ws_certificate_store s with Some _ => ws_validation_context_secret_id s | None => None end)
         (ws_certificate_store s) certs (ws_require_client_cert s) (ws_ticketer s))
  | TsValidationContext cert_store =>
    if decide (Some secret_id = ws_validation_context_secret_id s) then
      _ ← ok_or fresh NoTicketer;
      server_configurator
        (mk_wants_server (ws_supported_versions s) (ws_validation_context_secret_id s) (Some (store cert_store))
           (ws_certificates s) (ws_require_client_cert s) (ws_ticketer s))
    else Err CantFindSecret
  end.

Inductive Secrets : Type :=
  | SdsConfigs (names : list str)
  | Certificates (certs : list TlsCertificate).

Inductive CommonTlsValidationContext : Type :=
  | ValidationSds (name : str)
  | ValidationInline (c : ValidationContext).

Record TlsServerConfig : Type := mk_tls_server_config {
  require_client_certificate : bool;
  ts_parameters : TlsParameters;
  ts_secrets : Secrets;
  ts_validation_context : option CommonTlsValidationContext;
}.

Definition create_certificate_store (m : SecretManager) (o : option CommonTlsValidationContext) :
    result TlsError (option str * option RootCertStore) :=
  match o with
  | Some (ValidationInline validation_context) =>
    s ← cert_store_try_from validation_context; Ok (None, Some (store s))
  | Some (ValidationSds name) =>
    match get_validation_context m name with
    | Some cert_store => s ← root_store_try_from cert_store; Ok (Some name, Some s)
    | None => Ok (Some name, Some root_empty)
    end
  | None => Ok (None, None)
  end.

(** The secrets of [Secrets::SdsConfig] that there are. *)
Fixpoint sds_holders (m : SecretManager) (names : list str) (acc : list SecretHolder) : result TlsError (list SecretHolder) :=
  match names with
  | [] => Ok acc
  | name :: names =>
    match get_certificate m name with
    | Some certificate =>
      sc ← server_cert_try_from certificate;
      if bool_decide (name ∈ holder_name <$> acc) then Err DuplicateSecret
      else sds_holders m names (acc ++ [mk_holder name sc])
    | None => sds_holders m names acc
    end
  end.

Definition server_holders (m : SecretManager) (s : Secrets) : result TlsError (list SecretHolder) :=
  match s with
  | Certificates certs =>
    mapM (λ c, secret ← certificate_secret_try_from c; Ok (mk_holder [] (server_cert_from secret))) certs
  | SdsConfigs names => sds_holders m names []
  end.

Definition server_try_from (config : TlsServerConfig) (m : SecretManager) (fresh : option Ticketer) :
    result TlsError ServerConfigurator :=
  '(store_id, store) ← create_certificate_store m (ts_validation_context config);
  holders ← server_holders m (ts_secrets config);
  ticketer ← ok_or fresh NoTicketer;
  server_configurator
    (mk_wants_server (supported_version (ts_parameters config))
       (match store with Some _ => store_id | None => None end) store holders (require_client_certificate config) ticketer).

(** ** The client's context *)

Record WantsToBuildClient : Type := mk_wants_client {
  wc_supported_versions : list TlsVersion;
  wc_validation_context_secret_id : option str;
  wc_certificate_store : RootCertStore;
  wc_certificate_secret_id : option str;
  wc_trust_chain_verification : TrustChainVerification;
  wc_client_certificate : option ClientCert;
  wc_sni : str;
}.

Inductive ServerVerifier : Type := WebPki (s : RootCertStore) | NoCertificateVerification.

Record ClientConfig : Type := mk_client_config {
  client_versions : list TlsVersion;
  client_verifier : ServerVerifier;
  client_certificate : option ClientCert;
}.

Definition client_build (s : WantsToBuildClient) : result TlsError ClientConfig :=
  verifier ← match wc_trust_chain_verification s with
             | VerifyTrustChain =>
               if verifier_ok (wc_certificate_store s) then Ok (WebPki (wc_certificate_store s)) else Err BadVerifier
             | AcceptUntrusted => Ok NoCertificateVerification
             end;
  match wc_client_certificate s with
  | Some cert =>
    if keys_match (cc_certs cert) (cc_key cert)
    then Ok (mk_client_config (wc_supported_versions s) verifier (Some cert)) else Err BadKey
  | None => Ok (mk_client_config (wc_supported_versions s) verifier None)
  end.

Record ClientConfigurator : Type := mk_client_configurator {
  client_state : WantsToBuildClient;
  client_config : ClientConfig;
}.

Definition client_configurator (s : WantsToBuildClient) : result TlsError ClientConfigurator :=
  config ← client_build s; Ok (mk_client_configurator s config).

Definition sni (c : ClientConfigurator) : str := wc_sni (client_state c).

Definition uses_secret (c : ClientConfigurator) (secret_id : str) : bool :=
  existsb (λ id, bool_decide (id = Some secret_id))
    [wc_certificate_secret_id (client_state c); wc_validation_context_secret_id (client_state c)].

Definition client_update (c : ClientConfigurator) (secret_id : str) (secret : TransportSecret) :
    result TlsError ClientConfigurator :=
  let s := client_state c in
  match secret with
  | TsCertificate certificate =>
    if decide (Some secret_id = wc_certificate_secret_id s) then
      client_configurator
        (mk_wants_client (wc_supported_versions s) (wc_validation_context_secret_id s) (wc_certificate_store s)
           (wc_certificate_secret_id s) (wc_trust_chain_verification s) (Some (client_cert_from certificate)) (wc_sni s))
    else Err SecretNameMismatch
  | TsValidationContext cert_store =>
    if decide (Some secret_id = wc_validation_context_secret_id s) then
      client_configurator
        (mk_wants_client (wc_supported_versions s) (wc_validation_context_secret_id s) (store cert_store)
           (match wc_client_certificate s with Some _ => wc_certificate_secret_id s | None => None end)
           (wc_trust_chain_verification s) (wc_client_certificate s) (wc_sni s))
    else Err SecretNameMismatch
  end.

Inductive TlsSecret : Type :=
  | TlsSecretSds (name : str)
  | TlsSecretCertificate (c : TlsCertificate).

Record TlsClientConfig : Type := mk_tls_client_config {
  tc_sni : str;
  tc_parameters : TlsParameters;
  tc_secret : option TlsSecret;
  tc_validation_context : option CommonTlsValidationContext;
}.

(** The secret's name, and the certificate when there is one. *)
Definition client_secret (m : SecretManager) (s : option TlsSecret) : result TlsError (option str * option ClientCert) :=
  match s with
  | Some (TlsSecretCertificate c) =>
    secret ← certificate_secret_try_from c; Ok (None, Some (client_cert_from secret))
  | Some (TlsSecretSds name) =>
    match get_certificate m name with
    | Some secret => cert ← client_cert_try_from secret; Ok (Some name, Some cert)
    | None => Ok (Some name, None)
    end
  | None => Ok (None, None)
  end.

Definition client_try_from (context : TlsClientConfig) (m : SecretManager) : result TlsError ClientConfigurator :=
  let trust := match tc_validation_context context with
               | Some (ValidationInline c) => trust_chain c
               | _ => VerifyTrustChain
               end in
  '(store_id, store) ← create_certificate_store m (tc_validation_context context);
  '(secret_id, cert) ← client_secret m (tc_secret context);
  store ← ok_or store NoValidationOptions;
  client_configurator
    (mk_wants_client (supported_version (tc_parameters context)) store_id store
       (match cert with Some _ => secret_id | None => None end) trust cert (tc_sni context)).
End tls.
End Tls.

(** What the TLS contexts guarantee: which certificate a client is shown, what a
    changed secret changes, and what becomes of one that comes late. *)

Import Tls.

Module TlsSpec.

(** ** Sorting and removing duplicates keeps the names *)

Lemma elem_of_dedup (l : list str) n : n ∈ dedup l ↔ n ∈ l.
Proof.
  induction l as [|x l IH]; [done|]. cbn [dedup]. rewrite elem_of_cons, <-IH. destruct (dedup l) as [|y l'].
  - by rewrite list_elem_of_singleton, elem_of_nil; naive_solver.
  - case_decide; [subst|]; rewrite ?elem_of_cons; naive_solver.
Qed.

Section resolver.
Context `{TlsLib}.
Implicit Types (r : SniResolver) (h : SecretHolder).

(** The names a certificate is registered under, as they are compared. *)
Definition registered h : list str :=
  lowercase <$> names_to_register (sc_name (server_cert h)) (extract_dns_sans (head (sc_certs (server_cert h)))).

Definition certified h : CertifiedKey := mk_certified_key (sc_certs (server_cert h)) (sc_key (server_cert h)).

Definition loaded (hs : list SecretHolder) : list SecretHolder :=
  filter (λ h, load_private_key (sc_key (server_cert h)) = true) hs.

(** The last certificate registered under a name. *)
Definition holder_of (hs : list SecretHolder) (n : str) : option CertifiedKey :=
  certified <$> last (filter (λ h, n ∈ registered h) hs).

Lemma names_to_register_elem config_name sans n :
  n ∈ names_to_register config_name sans ↔ (config_name = Some n ∨ n ∈ sans) ∧ retained n = true.
Proof.
  unfold names_to_register. rewrite list_elem_of_filter, elem_of_dedup, merge_sort_Permutation, elem_of_app.
  assert (n ∈ option_list config_name ↔ config_name = Some n) as ->; [|naive_solver].
  destruct config_name; cbn; rewrite ?list_elem_of_singleton, ?elem_of_nil; naive_solver.
Qed.

Lemma wildcard_base n : is_wildcard n = true → n = wildcard_prefix ++ base_domain n.
Proof.
  unfold base_domain, is_wildcard. intros Hw. rewrite Hw. apply Str.starts_with_true in Hw as [t ->]. by rewrite drop_app_length'.
Qed.

Lemma wildcard_cons b : is_wildcard (wildcard_prefix ++ b) = true.
Proof. apply Str.starts_with_true. by eexists. Qed.

Lemma register_names_true ck names r : (register_names r ck names true).1 = true.
Proof. revert r. induction names as [|n names IH]; intros r; [done|]. cbn. by destruct (resolver_add r n ck). Qed.

Lemma resolver_add_table r n ck r' :
  resolver_add r n ck = (true, r') →
  (∀ m, by_name r' !! m = if bool_decide (m = lowercase n ∧ is_wildcard m = false) then Some ck else by_name r !! m) ∧
  (∀ b, by_wildcard r' !! b = if bool_decide (wildcard_prefix ++ b = lowercase n) then Some ck else by_wildcard r !! b) ∧
  default_cert r' = Some (default ck (default_cert r)).
Proof.
  unfold resolver_add. destruct (negb _); [done|]. destruct (is_wildcard (lowercase n)) eqn:Ew; intros [= <-];
    cbn [by_name by_wildcard default_cert]; (split_and!; [| |by destruct (default_cert r)]).
  - intros m. rewrite bool_decide_eq_false_2; [done|]. intros [-> ?]. congruence.
  - intros b. case_bool_decide as Hb.
    + rewrite <-Hb in *. unfold base_domain. rewrite Ew, drop_app_length'; [|done]. by rewrite lookup_insert_eq.
    + rewrite lookup_insert_ne; [done|]. intros <-. by apply Hb, eq_sym, wildcard_base.
  - intros m. case_bool_decide as Hm; [destruct Hm as [-> _]; by rewrite lookup_insert_eq|].
    rewrite lookup_insert_ne; [done|]. intros <-. by apply Hm.
  - intros b. rewrite bool_decide_eq_false_2; [done|]. intros Hb. rewrite <-Hb, wildcard_cons in Ew. done.
Qed.

Lemma register_names_table ck names : ∀ r r',
  register_names r ck names false = (false, r') →
  (∀ m, by_name r' !! m =
    if bool_decide (m ∈ lowercase <$> names ∧ is_wildcard m = false) then Some ck else by_name r !! m) ∧
  (∀ b, by_wildcard r' !! b =
    if bool_decide (wildcard_prefix ++ b ∈ lowercase <$> names) then Some ck else by_wildcard r !! b) ∧
  default_cert r' = match names with [] => default_cert r | _ => Some (default ck (default_cert r)) end.
Proof.
  induction names as [|n names IH]; intros r r' Hr.
  { cbn in Hr. simplify_eq. split_and!; [intros m|intros b|done]; rewrite bool_decide_eq_false_2; [done|set_solver|done|set_solver]. }
  cbn [register_names] in Hr. destruct (resolver_add r n ck) as [added r1] eqn:Ea. destruct added; cbn [negb orb] in Hr;
    [|by pose proof (register_names_true ck names r1) as Ht; rewrite Hr in Ht].
  apply resolver_add_table in Ea as (Hn & Hw & Hd). apply IH in Hr as (Hn' & Hw' & Hd'). split_and!.
  - intros m. rewrite Hn', Hn, fmap_cons. repeat case_bool_decide; set_solver.
  - intros b. rewrite Hw', Hw, fmap_cons. repeat case_bool_decide; set_solver.
  - rewrite Hd', Hd. by destruct names.
Qed.

Lemma register_certificate_table r h r' :
  register_certificate r h = (false, r') →
  (∀ m, by_name r' !! m =
    if bool_decide (m ∈ registered h ∧ is_wildcard m = false) then Some (certified h) else by_name r !! m) ∧
  (∀ b, by_wildcard r' !! b =
    if bool_decide (wildcard_prefix ++ b ∈ registered h) then Some (certified h) else by_wildcard r !! b) ∧
  default_cert r' = Some (default (certified h) (default_cert r)).
Proof.
  unfold register_certificate, registered. fold (certified h). destruct (names_to_register _ _) as [|n names].
  - intros [= <-]. unfold add_default. split_and!; [intros m|intros b|by destruct (default_cert r) eqn:E; rewrite ?E];
      (rewrite bool_decide_eq_false_2; [by destruct (default_cert r)|set_solver]).
  - intros Hr. by apply register_names_table in Hr as (? & ? & ?).
Qed.

Lemma register_all_errors hs : ∀ r e, (e ≤ (register_all r hs e).1)%nat.
Proof.
  induction hs as [|h hs IH]; intros r e; [done|]. cbn [register_all]. destruct (load_private_key _); [|done].
  destruct (register_certificate r h) as [b r1]. etrans; [|apply IH]. destruct b; lia.
Qed.

Definition or_else {A} (o o' : option A) : option A := match o with Some a => Some a | None => o' end.

Lemma holder_of_cons h hs n :
  holder_of (h :: hs) n = or_else (holder_of hs n) (if bool_decide (n ∈ registered h) then Some (certified h) else None).
Proof.
  unfold holder_of. rewrite filter_cons. case_decide as Hn.
  - rewrite last_cons, bool_decide_eq_true_2 by done. by destruct (last _).
  - rewrite bool_decide_eq_false_2 by done. by destruct (last _).
Qed.

Lemma register_all_table hs : ∀ r r',
  register_all r hs 0 = (0%nat, r') →
  (∀ m, is_wildcard m = false → by_name r' !! m = or_else (holder_of (loaded hs) m) (by_name r !! m)) ∧
  (∀ m, is_wildcard m = true → by_name r' !! m = by_name r !! m) ∧
  (∀ b, by_wildcard r' !! b = or_else (holder_of (loaded hs) (wildcard_prefix ++ b)) (by_wildcard r !! b)) ∧
  default_cert r' = or_else (default_cert r) (certified <$> head (loaded hs)).
Proof.
  induction hs as [|h hs IH]; intros r r' Hr.
  { cbn in Hr. simplify_eq. split_and!; [done..|]. by destruct (default_cert r'). }
  cbn [register_all] in Hr. unfold loaded. rewrite filter_cons. fold (loaded hs).
  destruct (load_private_key _); [rewrite decide_True by done|rewrite decide_False by done; by apply IH].
  destruct (register_certificate r h) as [b r1] eqn:E1. destruct b.
  { pose proof (register_all_errors hs r1 1) as He. rewrite Hr in He. cbn in He. lia. }
  apply register_certificate_table in E1 as (Hn & Hw & Hd). apply IH in Hr as (Hn' & Hnw' & Hw' & Hd'). split_and!.
  - intros m Hm. rewrite Hn' by done. rewrite holder_of_cons, Hn. destruct (holder_of (loaded hs) m); [done|]. cbn [or_else].
    repeat case_bool_decide; naive_solver.
  - intros m Hm. rewrite Hnw' by done. rewrite Hn, bool_decide_eq_false_2; [done|]. rewrite Hm. naive_solver.
  - intros b. rewrite Hw', holder_of_cons, Hw. destruct (holder_of (loaded hs) _); [done|]. cbn [or_else].
    by case_bool_decide.
  - rewrite Hd', Hd. by destruct (default_cert r).
Qed.

(** What a client is shown: the last certificate registered under the name it
    asks for, else the last one registered under the wildcard of the parent
    domain, else the first. *)
Definition shown (hs : list SecretHolder) (server_name : option str) : option CertifiedKey :=
  or_else
    (sni ← server_name;
     or_else (if is_wildcard sni then None else holder_of hs sni)
       ('(_, base) ← Str.split_once_char sni Str.dot; holder_of hs (wildcard_prefix ++ base)))
    (certified <$> head hs).

End resolver.

(** ** Secrets that change *)

Section rotation.
Context `{TlsLib}.

(** What a cluster's context does with a new secret: it is offered to the
    context when that uses it, and a failed update changes nothing. *)
Definition offer (c : ClientConfigurator) (e : str * TransportSecret) : ClientConfigurator :=
  if uses_secret c e.1 then match client_update c e.1 e.2 with Ok c' => c' | Err _ => c end else c.

Definition built (c : ClientConfigurator) : Prop := client_build (client_state c) = Ok (client_config c).

Definition usable_store (trust : TrustChainVerification) (st : RootCertStore) : bool :=
  match trust with VerifyTrustChain => verifier_ok st | AcceptUntrusted => true end.

(** The certificate after a secret: that of the watched name, when its key fits. *)
Definition follow_certificate (watched : option str) (cert : option ClientCert) (e : str * TransportSecret) : option ClientCert :=
  match e.2 with
  | TsCertificate c =>
    if bool_decide (watched = Some e.1) && keys_match (cs_certs c) (cs_key c) then Some (client_cert_from c) else cert
  | TsValidationContext _ => cert
  end.

Definition follow_store (trust : TrustChainVerification) (watched : option str) (st : RootCertStore)
    (e : str * TransportSecret) : RootCertStore :=
  match e.2 with
  | TsValidationContext c => if bool_decide (watched = Some e.1) && usable_store trust (store c) then store c else st
  | TsCertificate _ => st
  end.

Definition client_fits (cert : option ClientCert) : bool :=
  match cert with Some c => keys_match (cc_certs c) (cc_key c) | None => true end.

Definition config_of (s : WantsToBuildClient) : ClientConfig :=
  mk_client_config (wc_supported_versions s)
    (match wc_trust_chain_verification s with
     | VerifyTrustChain => WebPki (wc_certificate_store s)
     | AcceptUntrusted => NoCertificateVerification
     end) (wc_client_certificate s).

Lemma client_build_iff s c :
  client_build s = Ok c ↔
  usable_store (wc_trust_chain_verification s) (wc_certificate_store s) = true ∧ client_fits (wc_client_certificate s) = true ∧ c = config_of s.
Proof.
  unfold client_build, usable_store, client_fits, config_of.
  destruct (wc_trust_chain_verification s); [destruct (verifier_ok _)|]; cbn;
    (destruct (wc_client_certificate s) as [cc|]; [destruct (keys_match _ _)|]); naive_solver.
Qed.

(** A context is replaced when the new state builds. *)
Lemma reconfigure c s :
  built c →
  let c' := match client_configurator s with Ok c' => c' | Err _ => c end in
  client_state c' =
    (if usable_store (wc_trust_chain_verification s) (wc_certificate_store s) && client_fits (wc_client_certificate s)
     then s else client_state c) ∧ built c'.
Proof.
  intros Hb. unfold client_configurator. destruct (client_build s) as [cfg|err] eqn:E; cbn.
  - pose proof E as (-> & -> & _)%client_build_iff. done.
  - destruct (usable_store _ _) eqn:Eu, (client_fits _) eqn:Ef; cbn; try done. exfalso.
    assert (client_build s = Ok (config_of s)) by (by apply client_build_iff). congruence.
Qed.

Lemma uses_secret_iff c id :
  uses_secret c id = true ↔
  wc_certificate_secret_id (client_state c) = Some id ∨ wc_validation_context_secret_id (client_state c) = Some id.
Proof. unfold uses_secret. cbn [existsb]. by rewrite orb_false_r, orb_true_iff, !bool_decide_eq_true. Qed.

Definition with_secrets (s : WantsToBuildClient) (st : RootCertStore) (cert : option ClientCert) : WantsToBuildClient :=
  mk_wants_client (wc_supported_versions s) (wc_validation_context_secret_id s) st (wc_certificate_secret_id s)
    (wc_trust_chain_verification s) cert (wc_sni s).

Lemma with_secrets_id s : with_secrets s (wc_certificate_store s) (wc_client_certificate s) = s.
Proof. by destruct s. Qed.

(** A context without a certificate has no name for it either. *)
Definition unnamed (s : WantsToBuildClient) : Prop :=
  wc_client_certificate s = None → wc_certificate_secret_id s = None.

Lemma offer_state c e (s := client_state c) :
  built c → unnamed s →
  client_state (offer c e) =
    with_secrets s
      (follow_store (wc_trust_chain_verification s) (wc_validation_context_secret_id s) (wc_certificate_store s) e)
      (follow_certificate (wc_certificate_secret_id s) (wc_client_certificate s) e) ∧
  built (offer c e).
Proof.
  intros Hb Hnone. pose proof Hb as (Hstore & Hfits & _)%client_build_iff. destruct e as [id secret].
  unfold offer, follow_store, follow_certificate. cbn [fst snd].
  pose proof (uses_secret_iff c id) as Hu. unfold client_update. fold s. fold s in Hu, Hstore, Hfits. destruct secret as [cert|vc].
  - destruct (decide (wc_certificate_secret_id s = Some id)) as [Hid|Hid].
    + rewrite (proj2 Hu), decide_True, bool_decide_eq_true_2 by auto. destruct (reconfigure c
        (with_secrets s (wc_certificate_store s) (Some (client_cert_from cert))) Hb) as [Hs Hb'].
      split; [|done]. etrans; [apply Hs|]. cbn. unfold client_fits in *. rewrite Hstore. cbn.
      destruct (keys_match _ _); [done|by rewrite with_secrets_id].
    + rewrite bool_decide_eq_false_2, decide_False, with_secrets_id by done. by destruct (uses_secret c id).
  - destruct (decide (wc_validation_context_secret_id s = Some id)) as [Hid|Hid].
    + rewrite (proj2 Hu), decide_True, bool_decide_eq_true_2 by auto.
      assert (match wc_client_certificate s with Some _ => wc_certificate_secret_id s | None => None end
        = wc_certificate_secret_id s) as -> by (destruct (wc_client_certificate s) eqn:E; [done|symmetry; by apply Hnone]).
      destruct (reconfigure c (with_secrets s (store vc) (wc_client_certificate s)) Hb) as [Hs Hb'].
      split; [|done]. etrans; [apply Hs|]. cbn. rewrite Hfits, andb_true_r.
      destruct (usable_store (wc_trust_chain_verification s) (store vc)); [reflexivity|by rewrite with_secrets_id].
    + rewrite bool_decide_eq_false_2, decide_False, with_secrets_id by done. by destruct (uses_secret c id).
Qed.

Lemma follow_unnamed s e :
  unnamed s → unnamed (with_secrets s
    (follow_store (wc_trust_chain_verification s) (wc_validation_context_secret_id s) (wc_certificate_store s) e)
    (follow_certificate (wc_certificate_secret_id s) (wc_client_certificate s) e)).
Proof.
  unfold unnamed, follow_certificate. cbn. intros Hu Hn. apply Hu. destruct e.2; [|done]. by destruct (_ && _).
Qed.

Lemma offers_state es : ∀ c (s := client_state c),
  built c → unnamed s →
  client_state (foldl offer c es) =
    with_secrets s
      (foldl (follow_store (wc_trust_chain_verification s) (wc_validation_context_secret_id s)) (wc_certificate_store s) es)
      (foldl (follow_certificate (wc_certificate_secret_id s)) (wc_client_certificate s) es) ∧
  built (foldl offer c es).
Proof.
  induction es as [|e es IH]; intros c s Hb Hu; [by rewrite with_secrets_id|]. cbn [foldl].
  destruct (offer_state c e Hb Hu) as [Hs Hb']. fold s in Hs. specialize (IH (offer c e) Hb').
  rewrite Hs in IH. cbn in IH. by apply IH, follow_unnamed.
Qed.

Lemma client_configurator_Ok s c : client_configurator s = Ok c → built c ∧ client_state c = s.
Proof. unfold client_configurator, built. destruct (client_build s) eqn:E; cbn; [|done]. intros Hc. by simplify_eq. Qed.

(** The context a configuration gives. *)
Lemma client_try_from_state context m c :
  client_try_from context m = Ok c → ∃ store_id st secret_id cert,
    create_certificate_store m (tc_validation_context context) = Ok (store_id, Some st) ∧
    client_secret m (tc_secret context) = Ok (secret_id, cert) ∧ built c ∧
    client_state c = mk_wants_client (supported_version (tc_parameters context)) store_id st
      (match cert with Some _ => secret_id | None => None end)
      (match tc_validation_context context with Some (ValidationInline v) => trust_chain v | _ => VerifyTrustChain end)
      cert (tc_sni context).
Proof.
  unfold client_try_from. destruct (create_certificate_store _ _) as [[store_id [st|]]|]; cbn; [|by destruct (client_secret _ _) as [[]|]|done].
  destruct (client_secret _ _) as [[secret_id cert]|]; cbn; [|done]. intros [Hb Hs]%client_configurator_Ok.
  by exists store_id, st, secret_id, cert.
Qed.

Definition watched_certificate (context : TlsClientConfig) (cert : option ClientCert) : option str :=
  match tc_secret context, cert with Some (TlsSecretSds name), Some _ => Some name | _, _ => None end.

Definition watched_store (context : TlsClientConfig) : option str :=
  match tc_validation_context context with Some (ValidationSds name) => Some name | _ => None end.

Lemma create_store_watched m context store_id st :
  create_certificate_store m (tc_validation_context context) = Ok (store_id, st) → store_id = watched_store context.
Proof.
  unfold create_certificate_store, watched_store. destruct (tc_validation_context context) as [[name|v]|].
  - destruct (get_validation_context m name) as [ts|]; [destruct (root_store_try_from ts)|]; cbn; congruence.
  - destruct (cert_store_try_from v); cbn; congruence.
  - congruence.
Qed.

Lemma client_secret_watched m context secret_id cert :
  client_secret m (tc_secret context) = Ok (secret_id, cert) →
  match cert with Some _ => secret_id | None => None end = watched_certificate context cert.
Proof.
  unfold client_secret, watched_certificate. destruct (tc_secret context) as [[name|c]|].
  - destruct (get_certificate m name) as [ts|]; [destruct (client_cert_try_from ts)|]; cbn; try done; intros; by simplify_eq.
  - destruct (certificate_secret_try_from c); cbn; [|done]. intros. by simplify_eq.
  - intros. by simplify_eq.
Qed.

(** C28: A cluster's TLS context follows its secrets: whatever secrets are
    delivered after it was built, it presents the last certificate delivered
    under its certificate's name whose key fits, else the one it started with;
    it trusts the last usable store delivered under its store's name, else the
    one it started with, and verifies as configured; and its versions and its
    server name never change.  But the certificate's name is followed only if
    its secret was already there when the context was built. *)
Theorem client_context_follows (context : TlsClientConfig) (m : SecretManager) (c : ClientConfigurator)
    (es : list (str * TransportSecret)) :
  client_try_from context m = Ok c →
  let c' := foldl offer c es in
  let cert := client_certificate (client_config c) in
  let trust := match tc_validation_context context with Some (ValidationInline v) => trust_chain v | _ => VerifyTrustChain end in
  sni c' = tc_sni context ∧
  client_versions (client_config c') = supported_version (tc_parameters context) ∧
  client_certificate (client_config c') = foldl (follow_certificate (watched_certificate context cert)) cert es ∧
  ∃ st, create_certificate_store m (tc_validation_context context) = Ok (watched_store context, Some st) ∧
    client_verifier (client_config c') =
      match trust with
      | VerifyTrustChain => WebPki (foldl (follow_store trust (watched_store context)) st es)
      | AcceptUntrusted => NoCertificateVerification
      end.
Proof.
  intros (store_id & st & secret_id & cert & Hstore & Hsecret & Hb & Hs)%client_try_from_state c' cert0 trust.
  assert (unnamed (client_state c)) as Hu by (unfold unnamed; rewrite Hs; cbn; by intros ->).
  destruct (offers_state es c Hb Hu) as [Hs' Hb']. fold c' in Hs', Hb'. rewrite Hs in Hs'. cbn in Hs'.
  apply client_build_iff in Hb as (_ & _ & Hc). apply client_build_iff in Hb' as (_ & _ & Hc').
  assert (cert0 = cert) as -> by (unfold cert0; rewrite Hc; unfold config_of; by rewrite Hs).
  apply create_store_watched in Hstore as Hw. apply client_secret_watched in Hsecret as Hwc.
  unfold sni. rewrite Hc'. unfold config_of. rewrite Hs'. cbn. rewrite Hwc, Hw. split_and!; [done..|].
  exists st. rewrite <-Hw. split; [done|]. rewrite Hw. done.
Qed.

(** A certificate that comes late is never used: a cluster's TLS context
    that is built before the secret its configuration names presents no client
    certificate, whatever secrets are delivered afterwards, that one included. *)
Theorem late_certificate_ignored (context : TlsClientConfig) (m : SecretManager) (c : ClientConfigurator) (name : str)
    (es : list (str * TransportSecret)) :
  client_try_from context m = Ok c → tc_secret context = Some (TlsSecretSds name) → certificate_secrets m !! name = None →
  client_certificate (client_config (foldl offer c es)) = None.
Proof.
  intros (store_id & st & secret_id & cert & _ & Hsecret & Hb & Hs)%client_try_from_state Ht Hm.
  rewrite Ht in Hsecret. cbn in Hsecret. unfold get_certificate in Hsecret. rewrite Hm in Hsecret. cbn in Hsecret. simplify_eq.
  assert (unnamed (client_state c)) as Hu by (unfold unnamed; by rewrite Hs).
  destruct (offers_state es c Hb Hu) as [Hs' (_ & _ & ->)%client_build_iff]. unfold config_of. rewrite Hs', Hs. cbn.
  clear. induction es as [|[id secret] es IH]; [done|]. cbn. by destruct secret.
Qed.

(** ** The listener's context *)

Definition server_offer (c : ServerConfigurator) (e : str * TransportSecret * option Ticketer) : ServerConfigurator :=
  match server_update c e.1.1 e.1.2 e.2 with Ok c' => c' | Err _ => c end.

Definition server_built (c : ServerConfigurator) : Prop := server_build (server_state c) = Ok (server_config c).

(** The certificates after a secret: the first of its name replaced. *)
Definition server_certificates (hs : list SecretHolder) (id : str) (secret : TransportSecret) (hs' : list SecretHolder) : Prop :=
  match secret with
  | TsCertificate cert => ∃ pre h post, hs = pre ++ h :: post ∧ holder_name h = id ∧ id ∉ holder_name <$> pre ∧
      hs' = pre ++ mk_holder id (server_cert_from cert) :: post
  | TsValidationContext _ => hs' = hs
  end.

Lemma server_configurator_Ok s c : server_configurator s = Ok c → server_built c ∧ server_state c = s.
Proof. unfold server_configurator, server_built. destruct (server_build s) eqn:E; cbn; [|done]. intros Hc. by simplify_eq. Qed.

Lemma server_build_ticketer s config : server_build s = Ok config → ticketer config = ws_ticketer s.
Proof.
  unfold server_build. destruct (server_client_auth s); cbn; [|done]. intros Hb.
  repeat case_match; by simplify_eq.
Qed.

Lemma replace_cert_Some hs id sc hs' :
  replace_cert hs id sc = Some hs' →
  ∃ pre h post, hs = pre ++ h :: post ∧ holder_name h = id ∧ id ∉ holder_name <$> pre ∧ hs' = pre ++ mk_holder id sc :: post.
Proof.
  revert hs'. induction hs as [|h hs IH]; intros hs' Hr; [done|]. cbn in Hr. case_decide as Hn.
  - simplify_eq. exists [], h, hs. split_and!; [done|done|set_solver|done].
  - apply fmap_Some in Hr as (hs1 & (pre & h1 & post & -> & Hh & Hpre & ->)%IH & ->).
    exists (h :: pre), h1, post. split_and!; [done|done| |done]. rewrite fmap_cons. set_solver.
Qed.

Lemma replace_cert_None hs id sc : replace_cert hs id sc = None ↔ id ∉ holder_name <$> hs.
Proof.
  induction hs as [|h hs IH]; [set_solver|]. cbn [replace_cert]. rewrite fmap_cons, not_elem_of_cons.
  case_decide as Hn; [naive_solver|]. rewrite fmap_None, IH. naive_solver.
Qed.

Lemma server_update_Ok c id secret fresh c' :
  server_update c id secret fresh = Ok c' →
  server_built c' ∧ ws_ticketer (server_state c') = ws_ticketer (server_state c) ∧
  ws_supported_versions (server_state c') = ws_supported_versions (server_state c) ∧
  ws_require_client_cert (server_state c') = ws_require_client_cert (server_state c) ∧
  server_certificates (ws_certificates (server_state c)) id secret (ws_certificates (server_state c')).
Proof.
  unfold server_update, server_certificates. destruct secret as [cert|vc].
  - destruct (replace_cert _ _ _) as [hs'|] eqn:Er; [|done]. cbn. destruct fresh; [|done]. cbn.
    intros [Hb ->]%server_configurator_Ok. by apply replace_cert_Some in Er.
  - case_decide; [|done]. cbn. destruct fresh; [|done]. cbn. by intros [Hb ->]%server_configurator_Ok.
Qed.

Lemma server_certificates_names hs id secret hs' :
  server_certificates hs id secret hs' → holder_name <$> hs' = holder_name <$> hs.
Proof.
  destruct secret; cbn; [|by intros ->]. intros (pre & h & post & -> & <- & _ & ->). by rewrite !fmap_app, !fmap_cons.
Qed.

Lemma server_try_from_state config m fresh c :
  server_try_from config m fresh = Ok c →
  server_built c ∧ fresh = Some (ws_ticketer (server_state c)) ∧
  ws_supported_versions (server_state c) = supported_version (ts_parameters config) ∧
  ws_require_client_cert (server_state c) = require_client_certificate config.
Proof.
  unfold server_try_from. destruct (create_certificate_store _ _) as [[store_id st]|]; [|done]. cbn.
  destruct (server_holders _ _) as [holders|]; [|done]. cbn. destruct fresh as [t|]; [|done]. cbn.
  by intros [Hb ->]%server_configurator_Ok.
Qed.

End rotation.

(** ** An example

    A certificate is the list of its names and a key a number, both read from
    their text; every key fits its certificate except the key 0. *)
Section example.

#[local] Instance ex_tls : TlsLib := {|
  DataSource := str * nat;
  PrivateKey := nat;
  Certificate := str;
  RootCertStore := list str;
  Ticketer := nat;
  read_source := λ d, Some (d.1 ++ replicate d.2 Str.slash);
  pkcs8_private_keys := λ s, [Some (length (Str.match_indices_char s Str.slash))];
  pem_certs := λ s, [Some (filter (λ c, c ≠ Str.slash) s)];
  root_empty := [];
  add_parsable_certificates := λ st l, (st ++ l, (Z.of_nat (length l), 0));
  dns_sans := λ c, Some (Some (Str.split_char c Str.comma));
  is_server_name := λ n, negb (Str.contains_char n Str.star);
  covers := λ _ _, true;
  load_private_key := λ k, bool_decide (k ≠ 0%nat);
  keys_match := λ _ k, bool_decide (k ≠ 0%nat);
  verifier_ok := λ _, true;
|}.

Definition ex_cert (names : String.string) (key : nat) : TlsCertificate := mk_tls_certificate (lit names, 0%nat) ([], key).

Definition ex_secrets : SecretManager :=
  match certificate_secret_try_from (ex_cert "a.example.com,*.example.com" 1),
        certificate_secret_try_from (ex_cert "b.example.com" 2) with
  | Ok a, Ok b => mk_secret_manager (<[lit "one" := a]> (<[lit "two" := b]> ∅)) ∅
  | _, _ => secret_manager_new
  end.

Definition ex_new : TransportSecret :=
  match certificate_secret_try_from (ex_cert "c.example.com" 3) with
  | Ok c => TsCertificate c
  | Err _ => TsValidationContext (mk_cert_store [] (mk_validation_context ([], 0%nat) VerifyTrustChain))
  end.

Definition ex_parameters : TlsParameters := mk_parameters TLSv1_2 None.

Definition ex_server : TlsServerConfig :=
  mk_tls_server_config false ex_parameters (SdsConfigs [lit "one"; lit "two"; lit "three"]) None.

Definition ex_client (secret : String.string) : TlsClientConfig :=
  mk_tls_client_config (lit "upstream") ex_parameters (Some (TlsSecretSds (lit secret))) (Some (ValidationSds (lit "roots"))).

Definition ex_or {A} (r : result TlsError A) (a : A) : A := match r with Ok x => x | Err _ => a end.

Definition ex_no_server : ServerConfigurator :=
  mk_server_configurator (mk_wants_server [] None None [] false 0%nat) (mk_server_config [] NoClientAuth (BySni resolver_new) 0%nat).

Definition ex_server_context : ServerConfigurator := ex_or (server_try_from ex_server ex_secrets (Some 7%nat)) ex_no_server.

Definition ex_no_client : ClientConfigurator :=
  mk_client_configurator (mk_wants_client [] None [] None VerifyTrustChain None []) (mk_client_config [] NoCertificateVerification None).

Definition ex_client_context (secret : String.string) : ClientConfigurator :=
  ex_or (client_try_from (ex_client secret) ex_secrets) ex_no_client.

Lemma ex_or_ok {A} (r : result TlsError A) a :
  match r with Ok _ => true | Err _ => false end = true → r = Ok (ex_or r a).
Proof. by destruct r. Qed.

(** The key of the certificate that a client is shown. *)
Definition ex_shown (c : ServerConfig) (n : String.string) : option nat :=
  match cert_resolver c with BySni r => ck_key <$> resolve r (Some (lit n)) | SingleCert _ _ => None end.


(** A new certificate under the name the context was built with is presented. *)
Lemma client_context_follows_witness :
  client_try_from (ex_client "one") ex_secrets = Ok (ex_client_context "one") ∧
  cc_key <$> client_certificate (client_config (ex_client_context "one")) = Some 1%nat ∧
  client_certificate (client_config (foldl offer (ex_client_context "one") [(lit "one", ex_new)])) =
    Some (mk_client_cert 3%nat [lit "c.example.com"]).
Proof.
  assert (client_try_from (ex_client "one") ex_secrets = Ok (ex_client_context "one")) as Hc
    by (apply ex_or_ok; vm_compute; reflexivity).
  split_and!; [exact Hc|vm_compute; reflexivity|].
  destruct (client_context_follows (ex_client "one") ex_secrets (ex_client_context "one") [(lit "one", ex_new)] Hc)
    as (_ & _ & -> & _). vm_compute. reflexivity.
Defined.

(** The secret [three] comes after the context that names it. *)
Lemma late_certificate_ignored_witness :
  client_try_from (ex_client "three") ex_secrets = Ok (ex_client_context "three") ∧
  client_certificate (client_config (foldl offer (ex_client_context "three") [(lit "three", ex_new)])) = None.
Proof.
  assert (client_try_from (ex_client "three") ex_secrets = Ok (ex_client_context "three")) as Hc
    by (apply ex_or_ok; vm_compute; reflexivity).
  split; [exact Hc|].
  apply (late_certificate_ignored (ex_client "three") ex_secrets (ex_client_context "three") (lit "three"));
    [exact Hc|reflexivity|vm_compute; reflexivity].
Defined.

End example.
End TlsSpec.
