(* ===== verification/Endpoints.v ===== *)
(** The endpoints of a cluster and the channels to them
    (arion-lib/src/transport/transport_socket.rs, the targets of
    transport/connector.rs, the builder of transport/http_channel.rs, and
    arion-lib/src/clusters/load_assignment.rs).

    A channel is what it was built from: where it connects, the TLS configuration
    and the server name it uses, its protocol.  The standard balancers are an
    interface, [StandardLb], with the laws their clients rely on. *)

From S2P Require Import Prelude RustStr Fmt Http Balancer Health HealthyLb DefaultLb OverrideHost Tls.
Import Http Balancer Health HealthyLb.
Local Open Scope Z_scope.

(** The crate http: [Authority::try_from] with [as_str], [Authority::host], and
    whether [Uri::builder] accepts scheme and authority. *)
Class UriLib : Type := {
  parse_authority : str → option str;
  host : str → str;
  dst_uri : str → bool → bool;
}.

Inductive StandardLbPolicy : Type := RoundRobin | Random | LeastRequest | RingHash | Maglev | ClusterProvided.

(** [BalancerType] without the override variant: [DefaultBalancer] over the
    balancer of each policy.  Building one may panic, on a locality without
    endpoints; the result of an update is only logged. *)
Class StandardLb (SB E : Type) : Type := {
  sb_from_policy : StandardLbPolicy → list (DefaultLb.LocalityLbEndpoints E) → outcome SB;
  sb_next_item : SB → option Z → option E * SB;
  sb_update_health : SB → E → HealthStatus → SB;
  sb_requires_hash : SB → bool;
}.

#[export] Instance standard_balancer {SB E} `{StandardLb SB E} : Balancer SB E := sb_next_item.

(** [sb_serves b l]: [b] was built from the endpoints [l] and used. *)
Class StandardLbLaws (SB E : Type) `{StandardLb SB E} : Type := {
  sb_serves : SB → list E → Prop;
  sb_serves_build : ∀ p ls b, sb_from_policy p ls = Return b → sb_serves b (ls ≫= DefaultLb.endpoints);
  sb_serves_next : ∀ b l h, sb_serves b l → sb_serves (sb_next_item b h).2 l;
  sb_serves_update : ∀ b l e s, sb_serves b l → sb_serves (sb_update_health b e s) l;
  sb_next_elem : ∀ b l h e, sb_serves b l → (sb_next_item b h).1 = Some e → e ∈ l;
}.

Module Endpoints.

Inductive ClusterError : Type :=
  | TlsContext (e : Tls.TlsError)
  | InvalidAuthority
  | PipeAddress
  | InvalidServerName
  | InvalidUri
  | NotHttp2
  | TooManyEndpoints
  | MetadataOverride
  | NoActiveEndpoint
  | NoChannels
  | RequiresAuthority
  | NoLocality
  | StaticEds
  | ClusterIsStatic
  | ClusterIsOriginalDst
  | NoCluster.

Definition ok_or {A} (o : option A) (e : ClusterError) : result ClusterError A :=
  match o with Some a => Ok a | None => Err e end.

Definition of_tls {A} (r : result Tls.TlsError A) : result ClusterError A :=
  match r with Ok a => Ok a | Err e => Err (TlsContext e) end.

Section endpoints.
Context `{TlsLib, HttpLib, UriLib}.

(** ** Transport sockets *)

(** [ProxyProtocolConfigurator]: the settings of the header are in
    ProxyProtocol.v. *)
Record ProxyProtocolConfigurator : Type := mk_proxy_configurator {
  inner_tls_configurator : option Tls.ClientConfigurator;
}.

Inductive UpstreamTransportSocketConfigurator : Type :=
  | SocketTls (c : Tls.ClientConfigurator)
  | SocketProxyProtocol (c : ProxyProtocolConfigurator)
  | SocketNone.

Definition tls_configurator (t : UpstreamTransportSocketConfigurator) : option Tls.ClientConfigurator :=
  match t with
  | SocketTls c => Some c
  | SocketProxyProtocol c => inner_tls_configurator c
  | SocketNone => None
  end.

Definition proxy_update_secret (c : ProxyProtocolConfigurator) (secret_id : str) (secret : Tls.TransportSecret) :
    result ClusterError (bool * ProxyProtocolConfigurator) :=
  match inner_tls_configurator c with
  | Some inner =>
    if Tls.uses_secret inner secret_id then
      updated ← of_tls (Tls.client_update inner secret_id secret);
      Ok (true, mk_proxy_configurator (Some updated))
    else Ok (false, c)
  | None => Ok (false, c)
  end.

Definition update_secret (t : UpstreamTransportSocketConfigurator) (secret_id : str) (secret : Tls.TransportSecret) :
    result ClusterError (bool * UpstreamTransportSocketConfigurator) :=
  match t with
  | SocketTls c =>
    if Tls.uses_secret c secret_id then
      updated ← of_tls (Tls.client_update c secret_id secret);
      Ok (true, SocketTls updated)
    else Ok (false, t)
  | SocketProxyProtocol c =>
    '(updated, c) ← proxy_update_secret c secret_id secret;
    Ok (updated, SocketProxyProtocol c)
  | SocketNone => Ok (false, t)
  end.

Inductive UpstreamTransportSocketConfig : Type :=
  | ConfigTls (c : Tls.TlsClientConfig)
  | ConfigProxyProtocol (inner : option Tls.TlsClientConfig)
  | ConfigRawBuffer.

Definition transport_socket_try_from (o : option UpstreamTransportSocketConfig) (secrets : Tls.SecretManager) :
    result ClusterError UpstreamTransportSocketConfigurator :=
  match o with
  | Some (ConfigTls c) => c ← of_tls (Tls.client_try_from c secrets); Ok (SocketTls c)
  | Some (ConfigProxyProtocol (Some c)) =>
    c ← of_tls (Tls.client_try_from c secrets); Ok (SocketProxyProtocol (mk_proxy_configurator (Some c)))
  | Some (ConfigProxyProtocol None) => Ok (SocketProxyProtocol (mk_proxy_configurator None))
  | Some ConfigRawBuffer | None => Ok SocketNone
  end.

(** ** Targets *)

Inductive ConnectUsing : Type :=
  | Socket (authority : str) (bind_device : option str) (connect_timeout idle_timeout : option Z)
  | InternalListener (listener_name synthetic_authority : str).

Definition connect_authority (c : ConnectUsing) : str :=
  match c with Socket authority _ _ _ => authority | InternalListener _ synthetic_authority => synthetic_authority end.

Definition with_bind_device (c : ConnectUsing) (device : option str) : ConnectUsing :=
  match c with
  | Socket authority _ connect_timeout idle_timeout => Socket authority device connect_timeout idle_timeout
  | InternalListener _ _ => c
  end.

Definition with_connect_timeout (c : ConnectUsing) (connect_timeout : option Z) : ConnectUsing :=
  match c with
  | Socket authority bind_device _ idle_timeout => Socket authority bind_device connect_timeout idle_timeout
  | InternalListener _ _ => c
  end.

Definition with_idle_timeout (c : ConnectUsing) (idle_timeout : option Z) : ConnectUsing :=
  match c with
  | Socket authority bind_device connect_timeout _ => Socket authority bind_device connect_timeout idle_timeout
  | InternalListener _ _ => c
  end.

Inductive Address : Type :=
  | AddressSocket (h : str) (port : Z)
  | AddressPipe (path : str)
  | AddressInternal (server_listener_name : str).

Definition from_address (a : Address) (bind_device : option str) (connect_timeout idle_timeout : option Z) :
    result ClusterError ConnectUsing :=
  match a with
  | AddressSocket h port =>
    authority ← ok_or (parse_authority (h ++ Str.colon :: Fmt.fmt_dec port)) InvalidAuthority;
    Ok (Socket authority bind_device connect_timeout idle_timeout)
  | AddressInternal listener_name =>
    synthetic_authority ← ok_or (parse_authority (listener_name ++ lit ".listener.internal:80")) InvalidAuthority;
    Ok (InternalListener listener_name synthetic_authority)
  | AddressPipe _ => Err PipeAddress
  end.

(** ** Channels *)

Inductive Codec : Type := Http1 | Http2.

(** Without the window sizes and limits of HTTP/2, which only the connection
    pool reads. *)
Record HttpProtocolOptions : Type := mk_protocol_options {
  codec : Codec;
  common_idle_timeout : option Z;
  http1_enable_trailers : bool;
}.

Definition protocol_options_default : HttpProtocolOptions := mk_protocol_options Http1 None false.

(** Thirty seconds, in nanoseconds. *)
Definition DEFAULT_IDLE_TIMEOUT : Z := 30 * 10 ^ 9.

(** [HttpChannel]; [channel_tls] is the configuration and the fixed server name
    of [HttpChannelClient::Tls]. *)
Record HttpChannel : Type := mk_http_channel {
  channel_tls : option (Tls.ClientConfig * str);
  channel_target : ConnectUsing;
  channel_idle_timeout : Z;
  http_version : Codec;
  enable_trailers : bool;
  upstream_authority : str;
  channel_cluster_name : str;
}.

(** [HttpChannelBuilder::build] of a builder with the given settings. *)
Definition build_channel (connect_using : ConnectUsing) (tls : option Tls.ClientConfigurator) (server_name : option str)
    (options : HttpProtocolOptions) (cluster_name : str) : result ClusterError HttpChannel :=
  let authority := connect_authority connect_using in
  let trailers := match codec options with Http1 => http1_enable_trailers options | Http2 => false end in
  let idle_timeout := default DEFAULT_IDLE_TIMEOUT (common_idle_timeout options) in
  tls ← match tls with
        | Some tls_context =>
          name ← match server_name with
                 | Some name => Ok name
                 | None => if is_server_name (host authority) then Ok (host authority) else Err InvalidServerName
                 end;
          if dst_uri authority true then Ok (Some (Tls.client_config tls_context, name)) else Err InvalidUri
        | None => if dst_uri authority false then Ok None else Err InvalidUri
        end;
  Ok (mk_http_channel tls connect_using idle_timeout (codec options) trailers authority cluster_name).

(** [TcpChannelConnector]. *)
Record TcpChannelConnector : Type := mk_tcp_channel {
  tcp_target : ConnectUsing;
  tcp_cluster_name : str;
  tcp_transport_socket : UpstreamTransportSocketConfigurator;
}.

(** [GrpcService]: the scheme is that of the channel. *)
Record GrpcService : Type := mk_grpc_service {
  grpc_inner : HttpChannel;
  grpc_https : bool;
  grpc_authority : str;
}.

Definition grpc_try_new (inner : HttpChannel) (authority : str) : result ClusterError GrpcService :=
  match http_version inner with
  | Http2 => Ok (mk_grpc_service inner (bool_decide (is_Some (channel_tls inner))) authority)
  | Http1 => Err NotHttp2
  end.

(** ** Endpoints *)

Record LbEndpoint : Type := mk_lb_endpoint {
  endpoint_name : str;
  connect_using : ConnectUsing;
  weight : Z;
  health_status : HealthStatus;
  http_channel : HttpChannel;
  tcp_channel : TcpChannelConnector;
}.

(** [PartialEq] of the crate http's [Authority] ignores case. *)
#[export] Instance endpoint_test : PartialEqTest LbEndpoint := λ e e',
  Str.eq_ignore_ascii_case (connect_authority (connect_using e)) (connect_authority (connect_using e')).
#[export] Instance endpoint_weighted : WeightedEndpoint LbEndpoint := weight.
#[export] Instance endpoint_authority : EndpointWithAuthority LbEndpoint := λ e, connect_authority (connect_using e).
#[export] Instance endpoint_healthy : EndpointHealth LbEndpoint := health_status.

Definition grpc_service (e : LbEndpoint) : result ClusterError GrpcService :=
  grpc_try_new (http_channel e) (connect_authority (connect_using e)).

Record PartialLbEndpoint : Type := mk_partial_endpoint {
  pe_connect_using : ConnectUsing;
  pe_weight : Z;
  pe_health_status : HealthStatus;
}.

Definition partial_of (e : LbEndpoint) : PartialLbEndpoint :=
  mk_partial_endpoint (connect_using e) (weight e) (health_status e).

Definition endpoint_build (cluster_name : str) (e : PartialLbEndpoint) (options : HttpProtocolOptions)
    (transport_socket : UpstreamTransportSocketConfigurator) (server_name : option str) : result ClusterError LbEndpoint :=
  http_channel ← build_channel (pe_connect_using e) (tls_configurator transport_socket) server_name options cluster_name;
  let tcp_channel := mk_tcp_channel (pe_connect_using e) cluster_name transport_socket in
  Ok (mk_lb_endpoint cluster_name (pe_connect_using e) (pe_weight e) (pe_health_status e) http_channel tcp_channel).

Record LbEndpointConfig : Type := mk_endpoint_config {
  ec_address : Address;
  ec_health_status : HealthStatus;
  ec_load_balancing_weight : Z;
}.

Definition partial_try_from (c : LbEndpointConfig) : result ClusterError PartialLbEndpoint :=
  connect_using ← from_address (ec_address c) None None None;
  Ok (mk_partial_endpoint connect_using (ec_load_balancing_weight c) (ec_health_status c)).

Record LocalityLbEndpoints : Type := mk_locality_endpoints {
  locality_name : str;
  endpoints : list LbEndpoint;
  priority : Z;
  healthy_endpoints : Z;
  total_endpoints : Z;
  locality_transport_socket : UpstreamTransportSocketConfigurator;
  locality_protocol_options : HttpProtocolOptions;
  locality_connection_timeout : option Z;
  locality_idle_timeout : option Z;
}.

(** The locality as the balancers read it. *)
Definition as_locality (l : LocalityLbEndpoints) : DefaultLb.LocalityLbEndpoints LbEndpoint :=
  DefaultLb.mk_locality (endpoints l) (priority l) (healthy_endpoints l) (total_endpoints l).

Definition locality_rebuild (l : LocalityLbEndpoints) : result ClusterError LocalityLbEndpoints :=
  eps ← mapM (λ e, endpoint_build (locality_name l) (partial_of e) (locality_protocol_options l) (locality_transport_socket l) None)
         (endpoints l);
  Ok (mk_locality_endpoints (locality_name l) eps (priority l) (healthy_endpoints l) (total_endpoints l)
        (locality_transport_socket l) (locality_protocol_options l) (locality_connection_timeout l) (locality_idle_timeout l)).

Record PartialLocalityLbEndpoints : Type := mk_partial_locality {
  pl_endpoints : list PartialLbEndpoint;
  pl_priority : Z;
}.

(** [Option::and] of the configurator and the name. *)
Definition tls_server_name (t : UpstreamTransportSocketConfigurator) (server_name : option str) : option str :=
  match tls_configurator t with Some _ => server_name | None => None end.

Definition prepare_endpoint (bind_device : option str) (connection_timeout idle_timeout : option Z) (e : PartialLbEndpoint) :
    PartialLbEndpoint :=
  mk_partial_endpoint
    (with_idle_timeout (with_connect_timeout (with_bind_device (pe_connect_using e) bind_device) connection_timeout) idle_timeout)
    (pe_weight e) (pe_health_status e).

Definition locality_build (cluster_name : str) (bind_device : option str) (pl : PartialLocalityLbEndpoints)
    (options : HttpProtocolOptions) (transport_socket : UpstreamTransportSocketConfigurator) (server_name : option str)
    (connection_timeout idle_timeout : option Z) : result ClusterError LocalityLbEndpoints :=
  eps ← mapM (λ e, endpoint_build cluster_name (prepare_endpoint bind_device connection_timeout idle_timeout e) options
                     transport_socket (tls_server_name transport_socket server_name)) (pl_endpoints pl);
  match DefaultLb.locality_build eps (pl_priority pl) with
  | Ok l => Ok (mk_locality_endpoints cluster_name (DefaultLb.endpoints l) (DefaultLb.priority l) (DefaultLb.healthy_endpoints l)
                  (DefaultLb.total_endpoints l) transport_socket options connection_timeout idle_timeout)
  | Err _ => Err TooManyEndpoints
  end.

Record LocalityLbEndpointsConfig : Type := mk_locality_config {
  lc_lb_endpoints : list LbEndpointConfig;
  lc_priority : Z;
}.

Definition partial_locality_try_from (c : LocalityLbEndpointsConfig) : result ClusterError PartialLocalityLbEndpoints :=
  eps ← mapM partial_try_from (lc_lb_endpoints c);
  Ok (mk_partial_locality eps (lc_priority c)).

Record ClusterLoadAssignmentConfig : Type := mk_cla_config {
  cla_endpoints : list LocalityLbEndpointsConfig;
  cla_cluster_name : str;
}.

Definition partial_cla_try_from (c : ClusterLoadAssignmentConfig) : result ClusterError (list PartialLocalityLbEndpoints) :=
  ls ← mapM partial_locality_try_from (cla_endpoints c);
  match ls with [] => Err NoLocality | _ => Ok ls end.

(** ** Load assignments *)

Inductive OverrideHostSource : Type := SourceHeader (name : HeaderName) | SourceMetadata.

Inductive LbPolicy : Type :=
  | PolicyStandard (p : StandardLbPolicy)
  | PolicyOverrideHost (source : OverrideHostSource) (fallback : StandardLbPolicy).

Definition policy_requires_hash (p : LbPolicy) : bool :=
  match p with PolicyStandard (RingHash | Maglev) => true | PolicyStandard _ | PolicyOverrideHost _ _ => false end.

Inductive RoutingRequirement : Type :=
  | RequireNone
  | RequireHeader (name : HeaderName)
  | RequireMetadataKey (key : str)
  | RequireAuthority
  | RequireHash
  | RequireOverrideHost (name : HeaderName) (fallback_requires_hash : bool).

(** A [HashState] is the hash it computes. *)
Inductive RoutingContext : Type :=
  | ContextNone
  | ContextHeader (v : HeaderValue)
  | ContextDynamicDest (d : str)
  | ContextAuthority (a : str)
  | ContextHash (h : option Z)
  | ContextOverrideHost (v : HeaderValue) (fallback_hash : option (option Z)).

Inductive HttpChannels : Type :=
  | Single (c : HttpChannel)
  | MultiWithFailover (c : HttpChannel) (failover : list HttpChannel).

Definition channels_of (c : OverrideHost.HttpChannels (E := LbEndpoint)) : HttpChannels :=
  match c with
  | OverrideHost.Single e => Single (http_channel e)
  | OverrideHost.MultiWithFailover e failover => MultiWithFailover (http_channel e) (http_channel <$> failover)
  end.

Section balancer.
Context {SB : Type} `{SLB : StandardLb SB LbEndpoint}.

Notation OverrideLb := (OverrideHost.OverrideHostLoadBalancer (B := SB) (E := LbEndpoint)).

(** The fallback of an override balancer is always a standard one. *)
Inductive BalancerType : Type :=
  | Standard (b : SB)
  | OverrideHostLb (b : OverrideLb).

Definition fallback_update (b : SB) (e : LbEndpoint) (s : HealthStatus) : unit * SB := ((), sb_update_health b e s).

Definition balancer_update_health (b : BalancerType) (e : LbEndpoint) (s : HealthStatus) : BalancerType :=
  match b with
  | Standard b => Standard (sb_update_health b e s)
  | OverrideHostLb b => OverrideHostLb (OverrideHost.override_update_health fallback_update b e s).2
  end.

Definition balancer_next_item (b : BalancerType) (hash : option Z) : option LbEndpoint * BalancerType :=
  match b with
  | Standard b => let '(e, b) := sb_next_item b hash in (e, Standard b)
  | OverrideHostLb b => let '(e, b) := OverrideHost.override_next_item b hash in (e, OverrideHostLb b)
  end.

Definition requires_hash (b : BalancerType) : bool :=
  match b with
  | Standard b => sb_requires_hash b
  | OverrideHostLb b => sb_requires_hash (OverrideHost.fallback b)
  end.

Definition balancer_rebuild (b : BalancerType) (ls : list LocalityLbEndpoints) : BalancerType :=
  match b with
  | OverrideHostLb b => OverrideHostLb (OverrideHost.override_rebuild b (as_locality <$> ls))
  | Standard b => Standard b
  end.

Record ClusterLoadAssignment : Type := mk_cla {
  cla_name : str;
  cla_transport_socket : UpstreamTransportSocketConfigurator;
  cla_protocol_options : HttpProtocolOptions;
  cla_balancer : BalancerType;
  cla_localities : list LocalityLbEndpoints;
}.

Definition with_balancer (c : ClusterLoadAssignment) (b : BalancerType) : ClusterLoadAssignment :=
  mk_cla (cla_name c) (cla_transport_socket c) (cla_protocol_options c) b (cla_localities c).

Definition cla_routing_requirements (c : ClusterLoadAssignment) : RoutingRequirement :=
  match cla_balancer c with
  | OverrideHostLb b => RequireOverrideHost (OverrideHost.header b) (sb_requires_hash (OverrideHost.fallback b))
  | Standard b => if sb_requires_hash b then RequireHash else RequireNone
  end.

Definition next_endpoint (c : ClusterLoadAssignment) (hash : option Z) : result ClusterError LbEndpoint * ClusterLoadAssignment :=
  let '(e, b) := balancer_next_item (cla_balancer c) hash in (ok_or e NoActiveEndpoint, with_balancer c b).

Definition next_channel (c : ClusterLoadAssignment) (hash : option Z) : result ClusterError HttpChannels * ClusterLoadAssignment :=
  let '(e, c) := next_endpoint c hash in ((λ e, Single (http_channel e)) <$> e, c).

Definition get_http_channel (c : ClusterLoadAssignment) (context : RoutingContext) :
    result ClusterError HttpChannels * ClusterLoadAssignment :=
  match context with
  | ContextOverrideHost v fallback_hash =>
    let hash := fallback_hash ≫= id in
    match cla_balancer c with
    | OverrideHostLb b =>
      let '(r, b) := OverrideHost.select_override parse_authority b v hash in
      (channels_of <$> ok_or r NoActiveEndpoint, with_balancer c (OverrideHostLb b))
    | Standard _ => next_channel c hash
    end
  | ContextHash h => next_channel c h
  | _ => next_channel c None
  end.

Definition get_tcp_channel (c : ClusterLoadAssignment) : result ClusterError TcpChannelConnector * ClusterLoadAssignment :=
  let '(e, c) := next_endpoint c None in (tcp_channel <$> e, c).

Definition get_grpc_channel (c : ClusterLoadAssignment) : result ClusterError GrpcService * ClusterLoadAssignment :=
  let '(e, c) := next_endpoint c None in (e ≫= grpc_service, c).

Definition all_endpoints (c : ClusterLoadAssignment) : list LbEndpoint := cla_localities c ≫= endpoints.

Definition cla_http_channels (c : ClusterLoadAssignment) : list (str * HttpChannel) :=
  (λ e, (authority e, http_channel e)) <$> all_endpoints c.

Definition cla_tcp_channels (c : ClusterLoadAssignment) : list (str * TcpChannelConnector) :=
  (λ e, (authority e, tcp_channel e)) <$> all_endpoints c.

Definition cla_grpc_channels (c : ClusterLoadAssignment) : list (result ClusterError (str * GrpcService)) :=
  (λ e, (λ s, (authority e, s)) <$> grpc_service e) <$> all_endpoints c.

Definition update_endpoint_health (c : ClusterLoadAssignment) (a : str) (s : HealthStatus) : ClusterLoadAssignment :=
  with_balancer c
    (foldl (λ b e, balancer_update_health b e s) (cla_balancer c)
       (filter (λ e, Str.eq_ignore_ascii_case (authority e) a = true) (all_endpoints c))).

Definition with_transport_socket (l : LocalityLbEndpoints) (t : UpstreamTransportSocketConfigurator) : LocalityLbEndpoints :=
  mk_locality_endpoints (locality_name l) (endpoints l) (priority l) (healthy_endpoints l) (total_endpoints l) t
    (locality_protocol_options l) (locality_connection_timeout l) (locality_idle_timeout l).

Definition cla_rebuild (c : ClusterLoadAssignment) : result ClusterError ClusterLoadAssignment :=
  ls ← mapM (λ l, locality_rebuild (with_transport_socket l (cla_transport_socket c))) (cla_localities c);
  Ok (mk_cla (cla_name c) (cla_transport_socket c) (cla_protocol_options c) (balancer_rebuild (cla_balancer c) ls) ls).

Record ClusterLoadAssignmentBuilder : Type := mk_cla_builder {
  cb_cluster_name : str;
  cb_cla : list PartialLocalityLbEndpoints;
  cb_bind_device : option str;
  cb_protocol_options : option HttpProtocolOptions;
  cb_lb_policy : LbPolicy;
  cb_transport_socket : UpstreamTransportSocketConfigurator;
  cb_server_name : option str;
  cb_connection_timeout : option Z;
  cb_idle_timeout : option Z;
}.

Definition build_balancer (p : LbPolicy) (ls : list LocalityLbEndpoints) : outcome (result ClusterError BalancerType) :=
  match p with
  | PolicyStandard policy => b ← sb_from_policy policy (as_locality <$> ls); Return (Ok (Standard b))
  | PolicyOverrideHost SourceMetadata _ => Return (Err MetadataOverride)
  | PolicyOverrideHost (SourceHeader name) policy =>
    fb ← sb_from_policy policy (as_locality <$> ls);
    Return (Ok (OverrideHostLb (OverrideHost.override_new name fb (as_locality <$> ls))))
  end.

Definition builder_options (b : ClusterLoadAssignmentBuilder) : HttpProtocolOptions :=
  default protocol_options_default (cb_protocol_options b).

Definition build_localities (b : ClusterLoadAssignmentBuilder) : result ClusterError (list LocalityLbEndpoints) :=
  mapM (λ pl, locality_build (cb_cluster_name b) (cb_bind_device b) pl (builder_options b) (cb_transport_socket b)
                (tls_server_name (cb_transport_socket b) (cb_server_name b)) (cb_connection_timeout b) (cb_idle_timeout b))
    (cb_cla b).

Definition cla_build (b : ClusterLoadAssignmentBuilder) : outcome (result ClusterError ClusterLoadAssignment) :=
  match build_localities b with
  | Err e => Return (Err e)
  | Ok ls =>
    r ← build_balancer (cb_lb_policy b) ls;
    Return (match r with
            | Ok lb => Ok (mk_cla (cb_cluster_name b) (cb_transport_socket b) (builder_options b) lb ls)
            | Err e => Err e
            end)
  end.
End balancer.
End endpoints.
End Endpoints.
