(* ===== verification/Clusters.v ===== *)
(** Clusters and the map of them
    (arion-lib/src/clusters/cluster.rs, cluster/static.rs, cluster/dynamic.rs,
    cluster/original_dst.rs, clusters_manager.rs and cached_watch.rs): the three
    kinds of cluster, the routing context a request gives them, and the shared map
    with the copy each thread works on.

    Circuit breakers are in CircuitBreaker.v and left out here.  The crate
    lru_time_cache is the class [LruLib], the monotonic time an argument. *)

From S2P Require Import Prelude RustStr Fmt Http Balancer Health HealthyLb DefaultLb OverrideHost Tls Endpoints.
Import Http Balancer Health Endpoints.
Local Open Scope Z_scope.

(** [LruCache<K, V>] with keys compared as text. *)
Class LruLib : Type := {
  Lru : Type → Type;
  lru_new : ∀ V, Z → Z → Lru V;
  lru_get : ∀ V, Z → Lru V → str → option V * Lru V;
  lru_insert : ∀ V, Z → Lru V → str → V → Lru V;
  lru_iter : ∀ V, Z → Lru V → list (str * V) * Lru V;
}.
Arguments lru_new {_ V} _ _.
Arguments lru_get {_ V} _ _ _.
Arguments lru_insert {_ V} _ _ _ _.
Arguments lru_iter {_ V} _ _.

(** What a cache holds: nothing but what was inserted. *)
Class LruSpec (L : LruLib) : Type := {
  lru_holds : ∀ V, Lru V → str → V → Prop;
  lru_new_holds : ∀ V d n k v, ¬ lru_holds V (lru_new d n) k v;
  lru_get_some : ∀ V t l k v, (lru_get t l k).1 = Some v → lru_holds V l k v;
  lru_get_holds : ∀ V t l k k' v, lru_holds V (lru_get t l k).2 k' v → lru_holds V l k' v;
  lru_insert_holds : ∀ V t l k v k' v', lru_holds V (lru_insert t l k v) k' v' → (k' = k ∧ v' = v) ∨ lru_holds V l k' v';
  lru_iter_elem : ∀ V t l k v, (k, v) ∈ (lru_iter t l).1 → lru_holds V l k v;
  lru_iter_holds : ∀ V t l k v, lru_holds V (lru_iter t l).2 k v → lru_holds V l k v;
}.
Arguments lru_holds {_ _ V} _ _ _.

Module Clusters.

Section clusters.
Context `{TlsLib, HttpLib, UriLib, LruLib} {SB : Type} `{SLB : StandardLb SB LbEndpoint}.
(** The name of the header [x-envoy-original-dst-host]. *)
Context (X_ENVOY_ORIGINAL_DST_HOST : HeaderName).

Notation CLA := (ClusterLoadAssignment (SB := SB)).

(** ** Configuration *)

Inductive OriginalDstRoutingMethod : Type :=
  | MethodHttpHeader (http_header_name : option HeaderName)
  | MethodMetadataKey (key : str)
  | MethodDefault.

Record OriginalDstConfig : Type := mk_original_dst_config {
  routing_method : OriginalDstRoutingMethod;
  config_port_override : option Z;
}.

Inductive ClusterDiscoveryType : Type :=
  | DiscoverStatic (cla : ClusterLoadAssignmentConfig)
  | DiscoverStrictDns (cla : ClusterLoadAssignmentConfig)
  | DiscoverEds (cla : option ClusterLoadAssignmentConfig)
  | DiscoverOriginalDst (c : OriginalDstConfig).

Record ClusterConfig : Type := mk_cluster_config {
  config_name : str;
  discovery_settings : ClusterDiscoveryType;
  config_transport_socket : option UpstreamTransportSocketConfig;
  config_bind_device : option str;
  load_balancing_policy : LbPolicy;
  http_protocol_options : HttpProtocolOptions;
  config_connect_timeout : option Z;
  cleanup_interval : option Z;
}.

(** ** Static clusters *)

Record StaticCluster : Type := mk_static {
  static_name : str;
  static_config : ClusterConfig;
  static_transport_socket : UpstreamTransportSocketConfigurator;
  static_load_assignment : CLA;
}.

Definition set_transport_socket (c : CLA) (t : UpstreamTransportSocketConfigurator) : CLA :=
  mk_cla (cla_name c) t (cla_protocol_options c) (cla_balancer c) (cla_localities c).

(** [change_tls_context(&mut self)]: the answer, and the cluster that is left. *)
Definition static_change_tls_context (c : StaticCluster) (secret_id : str) (secret : Tls.TransportSecret) :
    result ClusterError bool * StaticCluster :=
  match update_secret (static_transport_socket c) secret_id secret with
  | Err e => (Err e, c)
  | Ok (false, t) => (Ok false, mk_static (static_name c) (static_config c) t (static_load_assignment c))
  | Ok (true, t) =>
    match cla_rebuild (set_transport_socket (static_load_assignment c) t) with
    | Err e => (Err e, mk_static (static_name c) (static_config c) t (static_load_assignment c))
    | Ok cla => (Ok true, mk_static (static_name c) (static_config c) t cla)
    end
  end.

(** ** Dynamic clusters *)

Record DynamicCluster : Type := mk_dynamic {
  dynamic_name : str;
  dynamic_bind_device : option str;
  dynamic_policy : LbPolicy;
  dynamic_config : ClusterConfig;
  dynamic_load_assignment : option CLA;
  dynamic_transport_socket : UpstreamTransportSocketConfigurator;
}.

Definition change_load_assignment (c : DynamicCluster) (cla : option CLA) : DynamicCluster :=
  mk_dynamic (dynamic_name c) (dynamic_bind_device c) (dynamic_policy c) (dynamic_config c) cla (dynamic_transport_socket c).

Definition dynamic_with (c : DynamicCluster) (cla : option CLA) (t : UpstreamTransportSocketConfigurator) : DynamicCluster :=
  mk_dynamic (dynamic_name c) (dynamic_bind_device c) (dynamic_policy c) (dynamic_config c) cla t.

Definition dynamic_change_tls_context (c : DynamicCluster) (secret_id : str) (secret : Tls.TransportSecret) :
    result ClusterError bool * DynamicCluster :=
  match update_secret (dynamic_transport_socket c) secret_id secret with
  | Err e => (Err e, c)
  | Ok (false, t) => (Ok false, dynamic_with c (dynamic_load_assignment c) t)
  | Ok (true, t) =>
    match dynamic_load_assignment c with
    | None => (Ok true, dynamic_with c None t)
    | Some cla =>
      match cla_rebuild (set_transport_socket cla t) with
      | Err e => (Err e, dynamic_with c None t)
      | Ok cla => (Ok true, dynamic_with c (Some cla) t)
      end
    end
  end.

(** [TryFrom<&DynamicCluster> for ClusterLoadAssignmentConfig], with
    [Address::try_from] of an authority the argument. *)
Definition dynamic_cla_config (address_of : str → option Address) (c : DynamicCluster) : option ClusterLoadAssignmentConfig :=
  cla ← dynamic_load_assignment c;
  ls ← mapM (λ l : LocalityLbEndpoints,
         eps ← mapM (λ e : LbEndpoint,
                 if weight e =? 0 then None
                 else a ← address_of (authority e); Some (mk_endpoint_config a (health_status e) (weight e)))
               (endpoints l);
         Some (mk_locality_config eps (priority l)))
       (cla_localities cla);
  Some (mk_cla_config ls (dynamic_name c)).

(** ** Clusters whose endpoint the request names *)

(** Ten thousand endpoints; five seconds. *)
Definition MAXIMUM_ENDPOINTS : Z := 10000.
Definition DEFAULT_CLEANUP_INTERVAL : Z := 5 * 10 ^ 9.

Record HttpChannelConfig : Type := mk_channel_config {
  hc_tls_configurator : option Tls.ClientConfigurator;
  hc_connect_timeout : option Z;
  hc_server_name : option str;
  hc_protocol_options : HttpProtocolOptions;
}.

Record Endpoint : Type := mk_endpoint {
  ep_http_channel : HttpChannel;
  ep_tcp_channel : TcpChannelConnector;
}.

Record OriginalDstCluster : Type := mk_original_dst {
  od_name : str;
  od_transport_socket : UpstreamTransportSocketConfigurator;
  od_bind_device : option str;
  od_routing_requirements : RoutingRequirement;
  upstream_port_override : option Z;
  od_config : ClusterConfig;
  od_endpoints : Lru Endpoint;
  od_http_config : HttpChannelConfig;
}.

Definition od_with (c : OriginalDstCluster) (eps : Lru Endpoint) (hc : HttpChannelConfig) : OriginalDstCluster :=
  mk_original_dst (od_name c) (od_transport_socket c) (od_bind_device c) (od_routing_requirements c) (upstream_port_override c)
    (od_config c) eps hc.

Definition od_change_tls_context (c : OriginalDstCluster) (secret_id : str) (secret : Tls.TransportSecret) :
    result ClusterError bool * OriginalDstCluster :=
  let hc := od_http_config c in
  match hc_tls_configurator hc with
  | Some tls =>
    if Tls.uses_secret tls secret_id then
      match Tls.client_update tls secret_id secret with
      | Err e => (Err (TlsContext e), c)
      | Ok tls => (Ok true, od_with c (od_endpoints c)
                     (mk_channel_config (Some tls) (hc_connect_timeout hc) (hc_server_name hc) (hc_protocol_options hc)))
      end
    else (Ok false, c)
  | None => (Ok false, c)
  end.

Definition endpoint_try_new (cluster_name authority : str) (hc : HttpChannelConfig) (bind_device : option str)
    (transport_socket : UpstreamTransportSocketConfigurator) : result ClusterError Endpoint :=
  let target := Socket authority bind_device (hc_connect_timeout hc) (common_idle_timeout (hc_protocol_options hc)) in
  let server_name := match hc_tls_configurator hc with Some _ => hc_server_name hc | None => None end in
  ch ← build_channel target (hc_tls_configurator hc) server_name (hc_protocol_options hc) cluster_name;
  Ok (mk_endpoint ch (mk_tcp_channel target cluster_name transport_socket)).

Definition endpoint_grpc_service (e : Endpoint) : result ClusterError GrpcService :=
  grpc_try_new (ep_http_channel e) (upstream_authority (ep_http_channel e)).

Definition apply_port_override (c : OriginalDstCluster) (authority : str) : result ClusterError str :=
  match upstream_port_override c with
  | Some port => ok_or (parse_authority (host authority ++ Str.colon :: Fmt.fmt_dec port)) InvalidAuthority
  | None => Ok authority
  end.

(** The three lookups by authority share this: the cached endpoint, or a new
    one that is kept when [use] of it succeeds. *)
Definition endpoint_by_authority {A} (now : Z) (c : OriginalDstCluster) (authority : str)
    (use : Endpoint → result ClusterError A) : result ClusterError A * OriginalDstCluster :=
  match apply_port_override c authority with
  | Err e => (Err e, c)
  | Ok authority =>
    let '(found, eps) := lru_get now (od_endpoints c) authority in
    let c := od_with c eps (od_http_config c) in
    match found with
    | Some e => (use e, c)
    | None =>
      match endpoint_try_new (od_name c) authority (od_http_config c) (od_bind_device c) (od_transport_socket c) with
      | Err e => (Err e, c)
      | Ok e =>
        match use e with
        | Err err => (Err err, c)
        | Ok a => (Ok a, od_with c (lru_insert now eps authority e) (od_http_config c))
        end
      end
    end
  end.

Definition get_grpc_connection_by_authority (now : Z) (c : OriginalDstCluster) (authority : str) :=
  endpoint_by_authority now c authority endpoint_grpc_service.

Definition get_tcp_connection_by_authority (now : Z) (c : OriginalDstCluster) (authority : str) :=
  endpoint_by_authority now c authority (λ e, Ok (ep_tcp_channel e)).

Definition get_http_connection_by_authority (now : Z) (c : OriginalDstCluster) (authority : str) :=
  endpoint_by_authority now c authority (λ e, Ok (ep_http_channel e)).

(** [by_dynamic_dest] and [by_header]: the authority is parsed first. *)
Definition get_http_connection_by_text (now : Z) (c : OriginalDstCluster) (text : str) :
    result ClusterError HttpChannel * OriginalDstCluster :=
  match parse_authority text with
  | None => (Err InvalidAuthority, c)
  | Some authority => get_http_connection_by_authority now c authority
  end.

(** [HeaderValue::as_bytes]. *)
Context (as_bytes : HeaderValue → str).

Definition od_get_http_connection (now : Z) (c : OriginalDstCluster) (context : RoutingContext) :
    result ClusterError HttpChannels * OriginalDstCluster :=
  match context with
  | ContextAuthority authority => let '(r, c) := get_http_connection_by_authority now c authority in (Single <$> r, c)
  | ContextHeader v => let '(r, c) := get_http_connection_by_text now c (as_bytes v) in (Single <$> r, c)
  | ContextDynamicDest d => let '(r, c) := get_http_connection_by_text now c d in (Single <$> r, c)
  | _ => (Err RequiresAuthority, c)
  end.

Definition od_get_tcp_connection (now : Z) (c : OriginalDstCluster) (context : RoutingContext) :
    result ClusterError TcpChannelConnector * OriginalDstCluster :=
  match context with
  | ContextAuthority authority => get_tcp_connection_by_authority now c authority
  | _ => (Err RequiresAuthority, c)
  end.

Definition od_get_grpc_connection (now : Z) (c : OriginalDstCluster) (context : RoutingContext) :
    result ClusterError GrpcService * OriginalDstCluster :=
  match context with
  | ContextAuthority authority => get_grpc_connection_by_authority now c authority
  | _ => (Err RequiresAuthority, c)
  end.

(** ** The operations of any cluster *)

Inductive ClusterType : Type :=
  | Static (c : StaticCluster)
  | Dynamic (c : DynamicCluster)
  | OnDemand (c : OriginalDstCluster).

Definition get_name (c : ClusterType) : str :=
  match c with Static c => static_name c | Dynamic c => dynamic_name c | OnDemand c => od_name c end.

Definition change_tls_context (c : ClusterType) (secret_id : str) (secret : Tls.TransportSecret) :
    result ClusterError bool * ClusterType :=
  match c with
  | Static c => let '(r, c) := static_change_tls_context c secret_id secret in (r, Static c)
  | Dynamic c => let '(r, c) := dynamic_change_tls_context c secret_id secret in (r, Dynamic c)
  | OnDemand c => let '(r, c) := od_change_tls_context c secret_id secret in (r, OnDemand c)
  end.

(** A cluster with a load assignment, and what it does with it. *)
Definition set_static (c : StaticCluster) (cla : CLA) : ClusterType :=
  Static (mk_static (static_name c) (static_config c) (static_transport_socket c) cla).

Definition with_assignment {A} (f : CLA → result ClusterError A * CLA)
    (od : OriginalDstCluster → result ClusterError A * OriginalDstCluster) (c : ClusterType) : result ClusterError A * ClusterType :=
  match c with
  | Static c => let '(r, cla) := f (static_load_assignment c) in (r, set_static c cla)
  | Dynamic c =>
    match dynamic_load_assignment c with
    | Some cla => let '(r, cla) := f cla in (r, Dynamic (change_load_assignment c (Some cla)))
    | None => (Err NoChannels, Dynamic c)
    end
  | OnDemand c => let '(r, c) := od c in (r, OnDemand c)
  end.

Definition get_http_connection (now : Z) (context : RoutingContext) : ClusterType → result ClusterError HttpChannels * ClusterType :=
  with_assignment (λ cla, get_http_channel cla context) (λ c, od_get_http_connection now c context).

Definition get_tcp_connection (now : Z) (context : RoutingContext) :
    ClusterType → result ClusterError TcpChannelConnector * ClusterType :=
  with_assignment get_tcp_channel (λ c, od_get_tcp_connection now c context).

Definition get_grpc_connection (now : Z) (context : RoutingContext) : ClusterType → result ClusterError GrpcService * ClusterType :=
  with_assignment get_grpc_channel (λ c, od_get_grpc_connection now c context).

(** Iterating over the cache drops the endpoints that have expired. *)
Definition all_channels {A} (of_assignment : CLA → list A) (of_endpoint : str → Endpoint → A) (now : Z) (c : ClusterType) :
    list A * ClusterType :=
  match c with
  | Static s => (of_assignment (static_load_assignment s), c)
  | Dynamic d => (match dynamic_load_assignment d with Some cla => of_assignment cla | None => [] end, c)
  | OnDemand o =>
    let '(l, eps) := lru_iter now (od_endpoints o) in
    ((λ p, of_endpoint p.1 p.2) <$> l, OnDemand (od_with o eps (od_http_config o)))
  end.

Definition all_http_channels : Z → ClusterType → list (str * HttpChannel) * ClusterType :=
  all_channels cla_http_channels (λ a e, (a, ep_http_channel e)).

Definition all_tcp_channels : Z → ClusterType → list (str * TcpChannelConnector) * ClusterType :=
  all_channels cla_tcp_channels (λ a e, (a, ep_tcp_channel e)).

Definition all_grpc_channels : Z → ClusterType → list (result ClusterError (str * GrpcService)) * ClusterType :=
  all_channels cla_grpc_channels (λ a e, (λ s, (a, s)) <$> endpoint_grpc_service e).

Definition update_health (c : ClusterType) (a : str) (s : HealthStatus) : ClusterType :=
  match c with
  | Static c => set_static c (update_endpoint_health (static_load_assignment c) a s)
  | Dynamic c => Dynamic (change_load_assignment c ((λ cla, update_endpoint_health cla a s) <$> dynamic_load_assignment c))
  | OnDemand c => OnDemand c
  end.

Definition get_routing_requirements (c : ClusterType) : RoutingRequirement :=
  match c with
  | Static c => cla_routing_requirements (static_load_assignment c)
  | Dynamic c =>
    match dynamic_load_assignment c with
    | Some cla => cla_routing_requirements cla
    | None => if policy_requires_hash (dynamic_policy c) then RequireHash else RequireNone
    end
  | OnDemand c => od_routing_requirements c
  end.

(** ** Building *)

Inductive PartialClusterType : Type :=
  | PartialStatic (name : str) (cla : ClusterLoadAssignmentBuilder) (t : UpstreamTransportSocketConfigurator) (c : ClusterConfig)
  | PartialDynamic (name : str) (bind_device : option str) (t : UpstreamTransportSocketConfigurator) (p : LbPolicy) (c : ClusterConfig)
  | PartialOnDemand (name : str) (bind_device : option str) (t : UpstreamTransportSocketConfigurator) (connect_timeout : option Z)
      (server_name : option str) (c : ClusterConfig).

Definition partial_name (p : PartialClusterType) : str :=
  match p with PartialStatic name _ _ _ | PartialDynamic name _ _ _ _ | PartialOnDemand name _ _ _ _ _ => name end.

(** [map(..sni..).transpose()?]. *)
Definition configured_server_name (t : UpstreamTransportSocketConfigurator) : result ClusterError (option str) :=
  match tls_configurator t with
  | Some c => if is_server_name (Tls.sni c) then Ok (Some (Tls.sni c)) else Err InvalidServerName
  | None => Ok None
  end.

Definition static_partial (c : ClusterConfig) (t : UpstreamTransportSocketConfigurator) (cla : ClusterLoadAssignmentConfig) :
    result ClusterError PartialClusterType :=
  server_name ← configured_server_name t;
  pcla ← partial_cla_try_from cla;
  Ok (PartialStatic (config_name c)
        (mk_cla_builder (config_name c) pcla (config_bind_device c) (Some (http_protocol_options c)) (load_balancing_policy c) t
           server_name (config_connect_timeout c) (common_idle_timeout (http_protocol_options c))) t c).

Definition partial_cluster_try_from (c : ClusterConfig) (secrets : Tls.SecretManager) : result ClusterError PartialClusterType :=
  t ← transport_socket_try_from (config_transport_socket c) secrets;
  match discovery_settings c with
  | DiscoverStatic cla | DiscoverStrictDns cla => static_partial c t cla
  | DiscoverEds None => Ok (PartialDynamic (config_name c) (config_bind_device c) t (load_balancing_policy c) c)
  | DiscoverEds (Some _) => Err StaticEds
  | DiscoverOriginalDst _ =>
    server_name ← configured_server_name t;
    Ok (PartialOnDemand (config_name c) (config_bind_device c) t (config_connect_timeout c) server_name c)
  end.

Definition od_requirements (c : ClusterConfig) : RoutingRequirement * option Z :=
  match discovery_settings c with
  | DiscoverOriginalDst od =>
    (match routing_method od with
     | MethodHttpHeader name => RequireHeader (default X_ENVOY_ORIGINAL_DST_HOST name)
     | MethodMetadataKey key => RequireMetadataKey key
     | MethodDefault => RequireAuthority
     end, config_port_override od)
  | _ => (RequireAuthority, None)
  end.

Definition cluster_build (p : PartialClusterType) : outcome (result ClusterError ClusterType) :=
  match p with
  | PartialStatic name builder t c =>
    r ← cla_build builder;
    Return (match r with Ok cla => Ok (Static (mk_static name c t cla)) | Err e => Err e end)
  | PartialDynamic name bind_device t policy c => Return (Ok (Dynamic (mk_dynamic name bind_device policy c None t)))
  | PartialOnDemand name bind_device t connect_timeout server_name c =>
    let '(requirements, port_override) := od_requirements c in
    Return (Ok (OnDemand (mk_original_dst name t bind_device requirements port_override c
      (lru_new (default DEFAULT_CLEANUP_INTERVAL (cleanup_interval c)) MAXIMUM_ENDPOINTS)
      (mk_channel_config (tls_configurator t) connect_timeout server_name (http_protocol_options c)))))
  end.

(** ** The context of a request *)

(** The crate http's [Authority::try_from] of bytes and the extension
    [DynamicDest] of the request. *)
Definition routing_authority (r : Request) (host_name : HeaderName) : result RoutingRequirement str :=
  match Http.authority (uri r) with
  | Some a => Ok a
  | None =>
    match header_get (headers r) host_name with
    | None => Err RequireAuthority
    | Some v => match parse_authority (as_bytes v) with Some a => Ok a | None => Err RequireAuthority end
    end
  end.

(** The error names what was required. *)
Definition routing_context (requirement : RoutingRequirement) (r : Request) (dest : option str) (hash : option Z)
    (host_name : HeaderName) : result RoutingRequirement RoutingContext :=
  match requirement with
  | RequireOverrideHost name fallback_requires_hash =>
    match header_get (headers r) name with
    | Some v => Ok (ContextOverrideHost v (if fallback_requires_hash then Some hash else None))
    | None => if fallback_requires_hash then Ok (ContextHash hash) else Ok ContextNone
    end
  | RequireMetadataKey key => match dest with Some d => Ok (ContextDynamicDest d) | None => Err requirement end
  | RequireHeader name => match header_get (headers r) name with Some v => Ok (ContextHeader v) | None => Err requirement end
  | RequireAuthority => ContextAuthority <$> routing_authority r host_name
  | RequireHash => Ok (ContextHash hash)
  | RequireNone => Ok ContextNone
  end.

(** ** The map of the clusters *)

Notation ClustersMap := (gmap str ClusterType).

Record CachedWatch : Type := mk_watch {
  watch_value : ClustersMap;
  watch_version : Z;
}.

Record CachedWatcher : Type := mk_watcher {
  watcher_version : Z;
  local : ClustersMap;
}.

(** [usize], on 64 bits. *)
Definition watch_update {R} (w : CachedWatch) (f : ClustersMap → R * ClustersMap) : R * CachedWatch :=
  let '(ret, value) := f (watch_value w) in (ret, mk_watch value (Int.wrapping_incr 64 (watch_version w))).

Definition watcher (w : CachedWatch) : CachedWatcher := mk_watcher (watch_version w) (watch_value w).

(** [readable]: the lock could be taken. *)
Definition cached_or_latest (w : CachedWatch) (t : CachedWatcher) (readable : bool) : CachedWatcher :=
  if (watch_version w =? watcher_version t) then t
  else if readable then mk_watcher (watch_version w) (watch_value w) else t.

Definition change_cluster_load_assignment (name : str) (pcla : list PartialLocalityLbEndpoints) (current : ClustersMap) :
    outcome (result ClusterError ClusterType * ClustersMap) :=
  match current !! name with
  | Some (Dynamic d) =>
    let config := dynamic_config d in
    r ← cla_build (mk_cla_builder (dynamic_name d) pcla (dynamic_bind_device d) (Some (http_protocol_options config))
          (dynamic_policy d) (dynamic_transport_socket d) None (config_connect_timeout config)
          (common_idle_timeout (http_protocol_options config)));
    Return (match r with
            | Ok cla => let c := Dynamic (change_load_assignment d (Some cla)) in (Ok c, <[name := c]> current)
            | Err e => (Err e, current)
            end)
  | Some (Static _) => Return (Err ClusterIsStatic, current)
  | Some (OnDemand _) => Return (Err ClusterIsOriginalDst, current)
  | None => Return (Err NoCluster, current)
  end.

Definition remove_cluster_load_assignment (name : str) (current : ClustersMap) : result ClusterError () * ClustersMap :=
  match current !! name with
  | Some (Dynamic d) => (Ok (), <[name := Dynamic (change_load_assignment d None)]> current)
  | Some (Static _) => (Err ClusterIsStatic, current)
  | Some (OnDemand _) => (Err ClusterIsOriginalDst, current)
  | None => (Err NoCluster, current)
  end.

Definition map_update_endpoint_health (name a : str) (s : HealthStatus) (current : ClustersMap) : ClustersMap :=
  match current !! name with Some c => <[name := update_health c a s]> current | None => current end.

(** The loop over [values_mut()]: the clusters that changed, up to the first
    error. *)
Fixpoint update_tls_loop (names : list str) (secret_id : str) (secret : Tls.TransportSecret) (current : ClustersMap)
    (changed : list ClusterType) : result ClusterError (list ClusterType) * ClustersMap :=
  match names with
  | [] => (Ok changed, current)
  | name :: names =>
    match current !! name with
    | None => update_tls_loop names secret_id secret current changed
    | Some c =>
      match change_tls_context c secret_id secret with
      | (Err e, c) => (Err e, <[name := c]> current)
      | (Ok b, c) => update_tls_loop names secret_id secret (<[name := c]> current) (if b then changed ++ [c] else changed)
      end
    end
  end.

Definition update_tls_context (secret_id : str) (secret : Tls.TransportSecret) (current : ClustersMap) :
    result ClusterError (list ClusterType) * ClustersMap :=
  update_tls_loop (btree_iter Str.str_le current).*1 secret_id secret current [].

Definition add_cluster (p : PartialClusterType) (current : ClustersMap) : outcome (result ClusterError ClusterType * ClustersMap) :=
  r ← cluster_build p;
  Return (match r with Ok c => (Ok c, <[partial_name p := c]> current) | Err e => (Err e, current) end).

Definition remove_cluster (name : str) (current : ClustersMap) : result ClusterError () * ClustersMap :=
  match current !! name with Some _ => (Ok (), delete name current) | None => (Err NoCluster, current) end.

(** [with_cluster], on the copy of a thread. *)
Definition with_cluster {R} (name : str) (f : ClusterType → result ClusterError R * ClusterType) (t : CachedWatcher) :
    result ClusterError R * CachedWatcher :=
  match local t !! name with
  | Some c => let '(r, c) := f c in (r, mk_watcher (watcher_version t) (<[name := c]> (local t)))
  | None => (Err NoCluster, t)
  end.

(** ** Choosing the cluster of a route *)

Inductive ClusterSpecifier : Type :=
  | SpecCluster (name : str)
  | SpecWeighted (clusters : list (str * Z))
  | SpecHeader (name : HeaderName).

Definition MAX_CLUSTER_NAME_LENGTH : Z := 256.

(** [choose_weighted] of the crate rand, for a number drawn from zero up to the
    total of the weights: an error when there is none. *)
Fixpoint pick_weighted (l : list (str * Z)) (n : Z) : option str :=
  match l with
  | [] => None
  | (name, w) :: l => if n <? w then Some name else pick_weighted l (n - w)
  end.

Definition resolve_cluster (selector : ClusterSpecifier) (header_map : option HeaderMap) (draw : Z) (t : CachedWatcher) : option str :=
  match selector with
  | SpecCluster name => Some name
  | SpecWeighted clusters => pick_weighted clusters draw
  | SpecHeader name =>
    hm ← header_map;
    v ← header_get hm name;
    cluster_name ← to_str v;
    if bool_decide (cluster_name = []) || (MAX_CLUSTER_NAME_LENGTH <? Z.of_nat (length cluster_name)) then None
    else match local t !! cluster_name with Some _ => Some cluster_name | None => None end
  end.
End clusters.
End Clusters.
