(* ===== verification/StandardLb.v ===== *)
(** The balancers of the standard policies keep the promises the clusters rely
    on: the interface [StandardLb] for
    arion-lib/src/clusters/balancers/default_balancer.rs. *)

From S2P Require Import Prelude Balancer Health Wrr Priority HealthyLb DefaultLb Endpoints RustStr Fmt Http OverrideHost Tls Clusters.
Import Balancer Health.
Local Open Scope Z_scope.

Module StandardLb.

(** ** The balancers of a policy

    [DefaultBalancer] over any balancer that keeps its promises has the laws
    of [StandardLb].  [order] is the order of the map of the levels. *)
Section default_lb.
Import HealthyLb DefaultLb.
Context {B E : Type} `{BalancerLaws B E, PartialEqTest E, EndpointHealth E} (hashed : bool) (order : list Z).
Notation levels := (gmap Z (Priority.PriorityInfo (HealthyBalancer B E))).

Definition default_standard : StandardLb (DefaultBalancer B E) E := {|
  sb_from_policy := λ _ ls, from_slice ls;
  sb_next_item := default_next_item;
  sb_update_health := λ db e s, match default_update_health order db e s with Return (_, db') => db' | Panic => db end;
  sb_requires_hash := λ _, hashed;
|}.

Definition level_within (l : list E) (info : Priority.PriorityInfo (HealthyBalancer B E)) : Prop :=
  healthy_inv (Priority.info_balancer info) ∧ ∀ it, it ∈ items (Priority.info_balancer info) → item it ∈ l.

Definition levels_within (m : levels) (l : list E) : Prop := map_Forall (λ _, level_within l) m.

Lemma level_within_mono l l' info : l ⊆ l' → level_within l info → level_within l' info.
Proof. intros Hl [? Hi]. split; [done|]. eauto. Qed.

Lemma healthy_extend_within l info loc h t :
  level_within l info →
  level_within (l ++ endpoints loc) (Priority.mk_info (healthy_extend (Priority.info_balancer info) (endpoints loc)) h t).
Proof.
  intros [_ Hi]. split; [apply reload_inv|]. intros it Hit. cbn in Hit. rewrite elem_of_app in Hit. rewrite elem_of_app.
  destruct Hit as [Hit|Hit]; [by left; apply Hi|]. apply list_elem_of_fmap in Hit as (e & -> & He). by right.
Qed.

Lemma from_iter_within loc h t :
  level_within (endpoints loc) (Priority.mk_info (B := HealthyBalancer B E) (healthy_from_iter (endpoints loc)) h t).
Proof.
  split; [apply reload_inv|]. intros it Hit. cbn in Hit. by apply list_elem_of_fmap in Hit as (e & -> & He).
Qed.

Lemma add_locality_within m l loc : levels_within m l → levels_within (add_locality m loc) (l ++ endpoints loc).
Proof.
  intros Hm. assert (levels_within m (l ++ endpoints loc)) as Hm'
    by (eapply map_Forall_impl; [exact Hm|]; intros k info; apply level_within_mono; set_solver).
  unfold add_locality. destruct (m !! priority loc) as [info|] eqn:Ep; apply map_Forall_insert_2; try done.
  - by apply healthy_extend_within, (Hm (priority loc)).
  - eapply level_within_mono; [|apply from_iter_within]. set_solver.
Qed.

Lemma from_slice_within ls db : from_slice ls = Return db → levels_within (priorities db) (ls ≫= endpoints).
Proof.
  unfold from_slice. destruct (recalculate_priority_load_factors _) as [lb|]; cbn; [|done]. intros [= <-]. cbn.
  assert (∀ m l, levels_within m l → levels_within (fold_left add_locality ls m) (l ++ (ls ≫= endpoints))) as Hf;
    [|by apply (Hf ∅ []), map_Forall_empty].
  induction ls as [|loc ls IH]; intros m l Hm; cbn; [by rewrite app_nil_r|]. rewrite app_assoc. by apply IH, add_locality_within.
Qed.

Lemma next_within db l h : levels_within (priorities db) l → levels_within (priorities (default_next_item db h).2) l.
Proof.
  intros Hm. unfold default_next_item. destruct (Wrr.wrr_next_item _) as [[p|] lb]; [|done].
  destruct (priorities db !! p) as [info|] eqn:Ep; [|done]. destruct (Hm p info Ep) as [Hinv Hi].
  pose proof (operate_inv (Priority.info_balancer info) (Next h) Hinv) as Hinv'. cbn in Hinv'.
  destruct (healthy_next_item (Priority.info_balancer info) h) as [e hb] eqn:En. apply map_Forall_insert_2; [|done].
  split; [done|]. unfold healthy_next_item in En. destruct (next_item _ h). by simplify_eq.
Qed.

Lemma next_elem db l h e : levels_within (priorities db) l → (default_next_item db h).1 = Some e → e ∈ l.
Proof.
  intros Hm. unfold default_next_item. destruct (Wrr.wrr_next_item _) as [[p|] lb]; [|done].
  destruct (priorities db !! p) as [info|] eqn:Ep; [|done]. destruct (Hm p info Ep) as [Hinv Hi].
  unfold healthy_next_item. destruct (next_item (balancer (Priority.info_balancer info)) h) as [a b] eqn:En. cbn. intros ->.
  assert (e ∈ healthy_items (items (Priority.info_balancer info))) as (it & Hit & <- & _)%elem_of_healthy_items
    by (eapply next_item_elem; [exact Hinv|by rewrite En]). by apply Hi.
Qed.

Lemma healthy_update_within l info id s h t :
  level_within l info →
  level_within l (Priority.mk_info (healthy_update_health (Priority.info_balancer info) id s).2 h t).
Proof.
  intros [Hinv Hi]. split; [apply (operate_inv _ (UpdateHealth id s) Hinv)|]. cbn.
  unfold healthy_update_health. destruct (update_first id s _) as [[l' u]|] eqn:Eu; [|done].
  apply update_first_spec in Eu as (l1 & it & l2 & Hl & _ & _ & -> & _).
  assert (∀ it', it' ∈ l1 ++ mk_item (item it) s :: l2 → item it' ∈ l) as Hall.
  { intros it' Hit'. rewrite Hl in Hi. apply elem_of_app in Hit' as [|[->|]%elem_of_cons];
      [apply Hi; set_solver|apply (Hi it); set_solver|apply Hi; set_solver]. }
  by destruct u.
Qed.

Lemma update_within ks m id s u m' l :
  update_in_order ks m id s = Some (u, m') → levels_within m l → levels_within m' l.
Proof.
  revert m. induction ks as [|k ks IH]; intros m; cbn; [done|]. destruct (m !! k) as [info|] eqn:Ek; [|by apply IH].
  intros Hu Hm. pose proof (λ h t, healthy_update_within l info id s h t (Hm k info Ek)) as Hw.
  destruct (healthy_update_health _ id s) as [[[]|] hb]; simplify_eq; [by apply map_Forall_insert_2..|by eapply IH].
Qed.

Lemma default_update_within db l id s :
  levels_within (priorities db) l → levels_within (priorities (sb_update_health (StandardLb := default_standard) db id s)) l.
Proof.
  intros Hm. cbn. unfold default_update_health. destruct (update_in_order _ _ _ _) as [[u m']|] eqn:Eu; [|done].
  apply (update_within _ _ _ _ _ _ l) in Eu; [|done]. destruct u; [|done]. by destruct (recalculate_priority_load_factors m').
Qed.

#[refine] Definition default_standard_laws : StandardLbLaws (H := default_standard) (DefaultBalancer B E) E :=
  {| sb_serves := λ db l, levels_within (priorities db) l |}.
Proof.
  - intros p ls db. apply from_slice_within.
  - intros db l h. apply next_within.
  - intros db l e s. apply default_update_within.
  - intros db l h e. apply next_elem.
Defined.
End default_lb.
End StandardLb.

(** A concrete setting for the clusters: the certificates of TlsSpec.v, names as text, a cache
    that forgets nothing, and round robin for the standard balancers. *)

Import Http Balancer Health Endpoints Clusters.

Module ClusterExample.

(** Any text is an authority; its host ends at the colon. *)
Definition ex_uri : UriLib := {|
  parse_authority := Some;
  host := λ a, match Str.split_once_char a Str.colon with Some (h, _) => h | None => a end;
  dst_uri := λ _ _, true;
|}.

Definition ex_lru : LruLib := {|
  Lru := λ V, list (str * V);
  lru_new := λ V _ _, [];
  lru_get := λ V _ l k, (snd <$> find (λ p, bool_decide (p.1 = k)) l, l);
  lru_insert := λ V _ l k v, (k, v) :: l;
  lru_iter := λ V _ l, (l, l);
|}.

#[refine] Definition ex_lru_spec : LruSpec ex_lru := 
  {| lru_holds := λ V (l : @Lru ex_lru V) k v, (k, v) ∈ (l : list (str * V)) |}.
Proof.
  - intros V d n k v. apply not_elem_of_nil.
  - intros V t l k v Hg. cbn in Hg. apply fmap_Some in Hg as ([k' v'] & Hf & ->).
    apply find_Some in Hf as (l1 & l2 & -> & Hk & _). apply bool_decide_eq_true in Hk. cbn in *. subst. set_solver.
  - done.
  - intros V t l k v k' v' Hin. apply elem_of_cons in Hin as [?|?]; [left; by simplify_eq|by right].
  - done.
  - done.
Defined.

#[local] Existing Instance TlsSpec.ex_tls.
#[local] Existing Instance ex_uri.
#[local] Existing Instance ex_lru.
#[local] Existing Instance assoc_http.

Definition ex_lb : Type := DefaultLb.DefaultBalancer (Wrr.WeightedRoundRobinBalancer LbEndpoint) LbEndpoint.
Definition ex_standard : StandardLb ex_lb LbEndpoint := StandardLb.default_standard false [0].
Definition ex_standard_laws : StandardLbLaws (H := ex_standard) ex_lb LbEndpoint := StandardLb.default_standard_laws false [0].
#[local] Existing Instance ex_standard.

Definition ex_cert (key : nat) : Tls.CertificateSecret :=
  Tls.mk_certificate_secret None key [lit "client"] (Tls.mk_tls_certificate ([], 0%nat) ([], key)).

Definition ex_secrets : Tls.SecretManager := Tls.mk_secret_manager {[lit "cert" := ex_cert 1]} ∅.

Definition ex_tls_config : Tls.TlsClientConfig :=
  Tls.mk_tls_client_config (lit "backend.example.com") (Tls.mk_parameters Tls.TLSv1_2 None) (Some (Tls.TlsSecretSds (lit "cert")))
    (Some (Tls.ValidationSds (lit "roots"))).

Definition ex_endpoint (h : String.string) : LbEndpointConfig := mk_endpoint_config (AddressSocket (lit h) 443) Healthy 1.

Definition ex_cla : ClusterLoadAssignmentConfig :=
  mk_cla_config [mk_locality_config [ex_endpoint "10.0.0.1"; ex_endpoint "10.0.0.2"] 0] (lit "backend").

Definition ex_config (d : ClusterDiscoveryType) : ClusterConfig :=
  mk_cluster_config (lit "backend") d (Some (ConfigTls ex_tls_config)) None (PolicyStandard RoundRobin)
    (mk_protocol_options Http1 None false) None None.

Definition ex_static_config : ClusterConfig := ex_config (DiscoverStatic ex_cla).
Definition ex_eds_config : ClusterConfig := ex_config (DiscoverEds None).
Definition ex_od_config : ClusterConfig := ex_config (DiscoverOriginalDst (mk_original_dst_config MethodDefault (Some 8443))).

Definition ex_original_dst_host : HeaderName := lit "x-envoy-original-dst-host".

Definition ex_as_bytes : HeaderValue → str := λ v, v.

Definition ex_partial (c : ClusterConfig) : PartialClusterType :=
  match partial_cluster_try_from c ex_secrets with
  | Ok p => p
  | Err _ => PartialDynamic [] None SocketNone (PolicyStandard RoundRobin) c
  end.

Definition ex_none : ClusterType (SB := ex_lb) :=
  Dynamic (mk_dynamic [] None (PolicyStandard RoundRobin) ex_static_config None SocketNone).

Definition ex_cluster (c : ClusterConfig) : ClusterType (SB := ex_lb) :=
  match cluster_build ex_original_dst_host (ex_partial c) with Return (Ok c) => c | _ => ex_none end.

Lemma ex_cluster_built (c : ClusterConfig) :
  match cluster_build (SB := ex_lb) ex_original_dst_host (ex_partial c) with Return (Ok _) => true | _ => false end = true →
  cluster_build ex_original_dst_host (ex_partial c) = Return (Ok (ex_cluster c)).
Proof. unfold ex_cluster. by destruct (cluster_build ex_original_dst_host (ex_partial c)) as [[?|]|]. Qed.
End ClusterExample.
