(* ===== verification/ClustersSpec.v ===== *)
(** What the clusters guarantee: which endpoint and which TLS configuration a
    request is served with, before and after a secret changes. *)

From S2P Require Import Prelude RustStr Fmt Http Balancer Health HealthyLb DefaultLb OverrideHost Tls Endpoints Clusters StandardLb Wrr.
Import Http Balancer Health Endpoints Clusters.
Local Open Scope Z_scope.

Module ClustersSpec.

(** ** Results of lists *)

Lemma mapM_Ok {E A B} (f : A → result E B) l l' : mapM f l = Ok l' ↔ Forall2 (λ a b, f a = Ok b) l l'.
Proof.
  revert l'. induction l as [|a l IH]; intros l'; cbn.
  - split; [by intros [= <-]|]. by intros ->%Forall2_nil_inv_l.
  - destruct (f a) as [b|e] eqn:Ef; cbn.
    + destruct (mapM f l) as [l1|e] eqn:El; cbn.
      * split; [intros [= <-]; constructor; [done|by apply IH]|].
        intros (b' & l2 & Hb & Hl & ->)%Forall2_cons_inv_l. apply IH in Hl. unfold mret, result_ret. congruence.
      * split; [done|]. intros (b' & l2 & _ & Hl & ->)%Forall2_cons_inv_l. by apply IH in Hl.
    + split; [done|]. intros (b' & l2 & Hb & _ & ->)%Forall2_cons_inv_l. congruence.
Qed.

Lemma Forall2_bind {A A' B C} (P : B → C → Prop) (f : A → list B) (g : A' → list C) l l' (R : A → A' → Prop) :
  (∀ x y, R x y → Forall2 P (f x) (g y)) → Forall2 R l l' → Forall2 P (l ≫= f) (l' ≫= g).
Proof. intros Hf. induction 1; cbn; [constructor|]. by apply Forall2_app; [apply Hf|]. Qed.

Section spec.
Context `{TlsLib, HttpLib, UriLib, LruLib} {SB : Type} `{SLB : StandardLb SB LbEndpoint}.
Context (X_ENVOY_ORIGINAL_DST_HOST : HeaderName) (as_bytes : HeaderValue → str).

Notation CLA := (ClusterLoadAssignment (SB := SB)).
Notation ClusterType := (ClusterType (SB := SB)).
Implicit Types (cla : CLA) (c : ClusterType).

(** ** Endpoints and what they were built from *)

(** [e] is the endpoint of the target [pe] with the given settings. *)
Definition built_from (cluster_name : str) (options : HttpProtocolOptions) (t : UpstreamTransportSocketConfigurator)
    (server_name : option str) (pe : PartialLbEndpoint) (e : LbEndpoint) : Prop :=
  connect_using e = pe_connect_using pe ∧ weight e = pe_weight pe ∧ health_status e = pe_health_status pe ∧
  tcp_channel e = mk_tcp_channel (pe_connect_using pe) cluster_name t ∧
  channel_target (http_channel e) = pe_connect_using pe ∧
  http_version (http_channel e) = codec options ∧
  upstream_authority (http_channel e) = authority e ∧
  channel_tls (http_channel e) =
    (λ tls, (Tls.client_config tls, default (host (authority e)) server_name)) <$> tls_configurator t.

Lemma endpoint_build_Ok cluster_name pe options t server_name e :
  endpoint_build cluster_name pe options t server_name = Ok e → built_from cluster_name options t server_name pe e.
Proof.
  unfold endpoint_build, build_channel, built_from. destruct (tls_configurator t) as [tls|].
  - destruct server_name as [name|]; cbn.
    + destruct (dst_uri _ _); cbn; [|done]. intros. by simplify_eq/=.
    + destruct (is_server_name _); cbn; [|done]. destruct (dst_uri _ _); cbn; [|done]. intros. by simplify_eq/=.
  - destruct (dst_uri _ _); cbn; [|done]. intros. by simplify_eq/=.
Qed.

(** ** A secret changes *)

(** The balancer and the endpoints of a rebuilt load assignment. *)
Lemma cla_rebuild_Ok cla cla' :
  cla_rebuild cla = Ok cla' →
  cla_transport_socket cla' = cla_transport_socket cla ∧ cla_balancer cla' = balancer_rebuild (cla_balancer cla) (cla_localities cla') ∧
  Forall2 (λ l l', locality_name l' = locality_name l ∧ locality_protocol_options l' = locality_protocol_options l ∧
    Forall2 (built_from (locality_name l) (locality_protocol_options l) (cla_transport_socket cla) None)
      (partial_of <$> endpoints l) (endpoints l')) (cla_localities cla) (cla_localities cla').
Proof.
  unfold cla_rebuild. destruct (mapM _ _) as [ls|] eqn:El; cbn; [|done]. intros [= <-]. cbn. split_and!; [done|done|].
  apply mapM_Ok in El. eapply Forall2_impl; [exact El|]. intros l l' Hl. unfold locality_rebuild in Hl. cbn in Hl.
  destruct (mapM _ _) as [eps|] eqn:Ee; cbn in Hl; [|done]. simplify_eq/=. split_and!; [done|done|].
  apply mapM_Ok in Ee. apply Forall2_fmap_l. eapply Forall2_impl; [exact Ee|]. intros e e'. apply endpoint_build_Ok.
Qed.

(** The load assignment of a cluster that has one. *)
Definition assignment c : option CLA :=
  match c with
  | Static c => Some (static_load_assignment c)
  | Dynamic c => dynamic_load_assignment c
  | OnDemand _ => None
  end.

(** Requests one after the other: the answers. *)
Fixpoint answers (requests : list (Z * RoutingContext)) c : list (result ClusterError HttpChannels) :=
  match requests with
  | [] => []
  | (now, context) :: requests =>
    let '(r, c) := get_http_connection as_bytes now context c in r :: answers requests c
  end.

Lemma get_http_channel_standard cla cla' b context :
  cla_balancer cla = Standard b → cla_balancer cla' = Standard b →
  (get_http_channel cla context).1 = (get_http_channel cla' context).1 ∧
  ∃ b', cla_balancer (get_http_channel cla context).2 = Standard b' ∧
    cla_balancer (get_http_channel cla' context).2 = Standard b'.
Proof.
  intros Hb Hb'.
  assert (∀ h, (next_channel cla h).1 = (next_channel cla' h).1 ∧ ∃ b', cla_balancer (next_channel cla h).2 = Standard b' ∧
    cla_balancer (next_channel cla' h).2 = Standard b') as Hn.
  { intros h. unfold next_channel, next_endpoint. rewrite Hb, Hb'. cbn. destruct (sb_next_item b h) as [e b']. cbn. eauto. }
  unfold get_http_channel. rewrite Hb, Hb'. destruct context; apply Hn.
Qed.

Lemma answers_standard requests : ∀ c c' cla cla' b,
  assignment c = Some cla → assignment c' = Some cla' → cla_balancer cla = Standard b → cla_balancer cla' = Standard b →
  answers requests c = answers requests c'.
Proof.
  induction requests as [|[now context] requests IH]; intros c c' cla cla' b Hc Hc' Hb Hb'; [done|].
  destruct (get_http_channel_standard cla cla' b context Hb Hb') as [Hr (b' & Hb1 & Hb2)].
  assert (∀ d cl, assignment d = Some cl → ∃ d', assignment d' = Some (get_http_channel cl context).2 ∧
    get_http_connection as_bytes now context d = ((get_http_channel cl context).1, d')) as Hstep.
  { intros [s|d|o] cl Hd; cbn in *; simplify_eq.
    - destruct (get_http_channel (static_load_assignment s) context) as [r cl']. by exists (set_static s cl').
    - rewrite Hd. destruct (get_http_channel cl context) as [r cl']. by exists (Dynamic (change_load_assignment d (Some cl'))). }
  destruct (Hstep c cla Hc) as (d & Hd & Eq), (Hstep c' cla' Hc') as (d' & Hd' & Eq'). cbn. rewrite Eq, Eq', Hr. f_equal.
  by eapply IH.
Qed.

(** The configurator a cluster's load assignment is built with. *)
Definition cluster_tls c : option Tls.ClientConfigurator :=
  match c with
  | Static c => tls_configurator (static_transport_socket c)
  | Dynamic c => tls_configurator (dynamic_transport_socket c)
  | OnDemand c => hc_tls_configurator (od_http_config c)
  end.

(** What [change_tls_context] does to a load assignment. *)
Lemma change_tls_assignment c id secret c' cla :
  change_tls_context c id secret = (Ok true, c') → assignment c = Some cla →
  ∃ t cla', assignment c' = Some cla' ∧ cla_rebuild (set_transport_socket cla t) = Ok cla' ∧
    cluster_tls c' = tls_configurator t.
Proof.
  destruct c as [s|d|o]; cbn; [| |done].
  - unfold static_change_tls_context. intros Hc [= <-].
    destruct (update_secret (static_transport_socket s) id secret) as [[[] t]|]; cbn beta iota in Hc; [|done|done].
    destruct (cla_rebuild (set_transport_socket (static_load_assignment s) t)) as [cla'|] eqn:Er; simplify_eq. by exists t, cla'.
  - unfold dynamic_change_tls_context. intros Hc Hd. rewrite Hd in Hc.
    destruct (update_secret (dynamic_transport_socket d) id secret) as [[[] t]|]; cbn beta iota in Hc; [|done|done].
    destruct (cla_rebuild (set_transport_socket cla t)) as [cla'|] eqn:Er; simplify_eq. by exists t, cla'.
Qed.

(** C37: A changed secret does not reach the requests of a cluster with a standard
    balancer: the endpoints that the health checks use are rebuilt with the new
    TLS configuration (and with the endpoint's host in place of the configured
    server name), but the balancer keeps the endpoints it was built from, so
    that every sequence of requests is answered exactly as if the secret had
    not changed. *)
Theorem rotation_misses_requests c (id : str) (secret : Tls.TransportSecret) c' cla (b : SB) (requests : list (Z * RoutingContext)) :
  change_tls_context c id secret = (Ok true, c') → assignment c = Some cla → cla_balancer cla = Standard b →
  answers requests c' = answers requests c ∧
  ∃ cla', assignment c' = Some cla' ∧
    Forall2 (λ e e', authority e' = authority e ∧
      channel_tls (http_channel e') = (λ tls, (Tls.client_config tls, host (authority e'))) <$> cluster_tls c')
      (all_endpoints cla) (all_endpoints cla').
Proof.
  intros Hc Hcla Hb. destruct (change_tls_assignment _ _ _ _ _ Hc Hcla) as (t & cla' & Hcla' & Hr & Ht).
  apply cla_rebuild_Ok in Hr as (Hsock & Hbal & Hls). cbn in Hsock, Hbal, Hls. rewrite Hb in Hbal. cbn in Hbal. split.
  - symmetry. by eapply answers_standard.
  - exists cla'. split; [done|]. unfold all_endpoints. eapply Forall2_bind; [|exact Hls].
    intros l l' (_ & _ & He). rewrite Forall2_fmap_l in He. eapply Forall2_impl; [exact He|].
    intros e e' (Hcon & _ & _ & _ & _ & _ & _ & Htls). split; [unfold authority, endpoint_authority; by rewrite Hcon|].
    rewrite Htls, Ht. done.
Qed.

(** ** Clusters as they are built *)

Definition prepared (b : ClusterLoadAssignmentBuilder) (pl : PartialLocalityLbEndpoints) : list PartialLbEndpoint :=
  prepare_endpoint (cb_bind_device b) (cb_connection_timeout b) (cb_idle_timeout b) <$> pl_endpoints pl.

(** The endpoint of a builder's target. *)
Definition builder_built (b : ClusterLoadAssignmentBuilder) : PartialLbEndpoint → LbEndpoint → Prop :=
  built_from (cb_cluster_name b) (builder_options b) (cb_transport_socket b) (tls_server_name (cb_transport_socket b) (cb_server_name b)).

Lemma tls_server_name_idemp t sn : tls_server_name t (tls_server_name t sn) = tls_server_name t sn.
Proof. unfold tls_server_name. by destruct (tls_configurator t). Qed.

Lemma cla_build_Ok b cla :
  cla_build b = Return (Ok cla) →
  cla_transport_socket cla = cb_transport_socket b ∧
  build_balancer (cb_lb_policy b) (cla_localities cla) = Return (Ok (cla_balancer cla)) ∧
  Forall2 (builder_built b) (cb_cla b ≫= prepared b) (all_endpoints cla).
Proof.
  unfold cla_build. destruct (build_localities b) as [ls|] eqn:El; [|done].
  destruct (build_balancer (cb_lb_policy b) ls) as [[lb|]|] eqn:Eb; cbn; [|done|done]. intros Hc. simplify_eq/=.
  split_and!; [done|done|]. unfold all_endpoints. cbn. unfold build_localities in El. apply mapM_Ok in El.
  eapply Forall2_bind; [|exact El]. intros pl l Hl. unfold locality_build in Hl.
  destruct (mapM _ (pl_endpoints pl)) as [eps|] eqn:Ee; cbn in Hl; [|done].
  assert (endpoints l = eps) as ->.
  { destruct (DefaultLb.locality_build eps (pl_priority pl)) as [dl|] eqn:Ed; [|done]. simplify_eq/=.
    unfold DefaultLb.locality_build in Ed. repeat case_match; by simplify_eq. }
  apply mapM_Ok in Ee. unfold prepared. rewrite Forall2_fmap_l. eapply Forall2_impl; [exact Ee|].
  intros pe e He. apply endpoint_build_Ok in He. by rewrite tls_server_name_idemp in He.
Qed.

(** The server name of TLS differs by the kind of a cluster: the channels of a
    static cluster ask for the configured name, while those of a cluster whose
    endpoints are discovered ask for the host of the endpoint, whatever name is
    configured. *)
Theorem discovered_endpoints_ignore_server_name :
  (∀ (config : ClusterConfig) secrets p (s : StaticCluster (SB := SB)) cla_config,
    partial_cluster_try_from config secrets = Ok p → discovery_settings config = DiscoverStatic cla_config →
    cluster_build X_ENVOY_ORIGINAL_DST_HOST p = Return (Ok (Static s)) →
    Forall (λ e, channel_tls (http_channel e) =
      (λ tls, (Tls.client_config tls, Tls.sni tls)) <$> tls_configurator (static_transport_socket s))
      (all_endpoints (static_load_assignment s))) ∧
  (∀ name pcla (m m' : gmap str ClusterType) c,
    change_cluster_load_assignment name pcla m = Return (Ok c, m') →
    ∃ d cla, c = Dynamic d ∧ m' !! name = Some c ∧ dynamic_load_assignment d = Some cla ∧
    Forall (λ e, channel_tls (http_channel e) =
      (λ tls, (Tls.client_config tls, host (authority e))) <$> tls_configurator (dynamic_transport_socket d))
      (all_endpoints cla)).
Proof.
  split.
  - intros config secrets p s cla_config Hp Hd Hb. unfold partial_cluster_try_from in Hp. rewrite Hd in Hp.
    destruct (transport_socket_try_from _ secrets) as [t|]; cbn in Hp; [|done]. unfold static_partial in Hp.
    destruct (configured_server_name t) as [sn|] eqn:Esn; cbn in Hp; [|done].
    destruct (partial_cla_try_from cla_config) as [pcla|]; cbn in Hp; [|done]. simplify_eq/=.
    destruct (cla_build _) as [[cla|]|] eqn:Ec; cbn in Hb; simplify_eq/=. apply cla_build_Ok in Ec as (_ & _ & He).
    eapply Forall2_Forall_r; [exact He|]. apply Forall_true. intros pe e (_ & _ & _ & _ & _ & _ & _ & ->). cbn.
    unfold configured_server_name in Esn. unfold tls_server_name. destruct (tls_configurator t) as [tls|]; cbn; [|done].
    case_match; by simplify_eq/=.
  - intros name pcla m m' c Hc. unfold change_cluster_load_assignment in Hc.
    destruct (m !! name) as [[s|d|o]|] eqn:En; [done| |done|done].
    destruct (cla_build _) as [[cla|]|] eqn:Ec; cbn in Hc; simplify_eq/=. apply cla_build_Ok in Ec as (_ & _ & He).
    exists (change_load_assignment d (Some cla)), cla. split_and!; [done|by rewrite lookup_insert_eq|done|].
    eapply Forall2_Forall_r; [exact He|]. apply Forall_true. intros pe e (_ & _ & _ & _ & _ & _ & _ & ->). cbn.
    unfold tls_server_name. by destruct (tls_configurator (dynamic_transport_socket d)).
Qed.
End spec.

(** ** Examples *)
Section example.
Import ClusterExample.
#[local] Existing Instance TlsSpec.ex_tls.
#[local] Existing Instance ex_uri.
#[local] Existing Instance ex_lru.
#[local] Existing Instance assoc_http.
#[local] Existing Instance ex_standard.

Definition ex_new_cert : Tls.TransportSecret := Tls.TsCertificate (ex_cert 2).

Definition ex_static : ClusterType (SB := ex_lb) := ex_cluster ex_static_config.

Definition ex_rotated : ClusterType (SB := ex_lb) := (change_tls_context ex_static (lit "cert") ex_new_cert).2.

Definition ex_assignment : option (ClusterLoadAssignment (SB := ex_lb)) := assignment ex_static.

(** The keys of the certificates that the given channels present. *)
Definition presented (r : result ClusterError HttpChannels) : option nat :=
  match r with
  | Ok (Single ch) => channel_tls ch ≫= λ t, Tls.cc_key <$> Tls.client_certificate t.1
  | _ => None
  end.

(** The key 1 is replaced by the key 2; the requests still present the key 1,
    the health checks the key 2. *)
Lemma rotation_misses_requests_witness :
  presented <$> answers ex_as_bytes [(0, ContextNone); (1, ContextNone)] ex_rotated = [Some 1%nat; Some 1%nat] ∧
  ((λ p, presented (Ok (Single p.2))) <$> (all_http_channels 0 ex_rotated).1) = [Some 2%nat; Some 2%nat].
Proof.
  split; [|vm_compute; reflexivity].
  assert (match ex_assignment with Some cla => match cla_balancer cla with Standard _ => true | _ => false end | None => false end
    = true) as Hs by (vm_compute; reflexivity).
  destruct ex_assignment as [cla|] eqn:Ecla; [|discriminate Hs].
  destruct (cla_balancer cla) as [b|b] eqn:Eb; [|discriminate Hs].
  destruct (rotation_misses_requests ex_as_bytes ex_static (lit "cert") ex_new_cert ex_rotated cla b [(0, ContextNone); (1, ContextNone)])
    as [-> _]; [|exact Ecla|exact Eb|vm_compute; reflexivity].
  assert ((change_tls_context ex_static (lit "cert") ex_new_cert).1 = Ok true) as Hok by (vm_compute; reflexivity).
  unfold ex_rotated. destruct (change_tls_context ex_static (lit "cert") ex_new_cert) as [r c]. cbn in Hok. by rewrite Hok.
Defined.

Definition ex_eds_map : gmap str (ClusterType (SB := ex_lb)) := {[lit "backend" := ex_cluster ex_eds_config]}.

Definition ex_localities : list PartialLocalityLbEndpoints :=
  match partial_cla_try_from ex_cla with Ok l => l | Err _ => [] end.

(** The server names that the channels ask for. *)
Definition asked (l : list (str * HttpChannel)) : list (option str) := (λ p, snd <$> channel_tls p.2) <$> l.

Definition ex_changed : outcome (result ClusterError (ClusterType (SB := ex_lb)) * gmap str (ClusterType (SB := ex_lb))) :=
  change_cluster_load_assignment (lit "backend") ex_localities ex_eds_map.

Definition ex_asked : option (list (option str)) :=
  match ex_changed with Return (Ok c, _) => Some (asked (all_http_channels 0 c).1) | _ => None end.

Lemma discovered_endpoints_ignore_server_name_witness :
  asked (all_http_channels 0 ex_static).1 = [Some (lit "backend.example.com"); Some (lit "backend.example.com")] ∧
  ex_asked = Some [Some (lit "10.0.0.1"); Some (lit "10.0.0.2")] ∧
  ∃ c m d cla, ex_changed = Return (Ok c, m) ∧ c = Dynamic d ∧ dynamic_load_assignment d = Some cla ∧
    Forall (λ e, channel_tls (http_channel e) =
      (λ tls, (Tls.client_config tls, host (authority e))) <$> tls_configurator (dynamic_transport_socket d)) (all_endpoints cla).
Proof.
  split; [vm_compute; reflexivity|].
  assert (ex_asked = Some [Some (lit "10.0.0.1"); Some (lit "10.0.0.2")]) as Ha by (vm_compute; reflexivity).
  split; [exact Ha|]. unfold ex_asked in Ha. destruct ex_changed as [[[c|] m]|] eqn:E; [|discriminate Ha..].
  destruct (discovered_endpoints_ignore_server_name ex_original_dst_host) as [_ Hd].
  destruct (Hd _ _ _ _ _ E) as (d & cla & Hc & _ & Hcla & He). exists c, m, d, cla. split_and!; [done|done|done|exact He].
Defined.
End example.
End ClustersSpec.

(** Serving requests from the clusters: the endpoints a load assignment answers
    with, and what the threads see of the shared map. *)

Import Http Balancer Health Endpoints Clusters ClustersSpec.

Module ClustersServe.

Section serve.
Context `{TlsLib, HttpLib, UriLib, LL : LruLib} {LS : LruSpec LL} {SB : Type} `{SLB : StandardLb SB LbEndpoint}.
Context {SLL : StandardLbLaws SB LbEndpoint}.
Context (X_ENVOY_ORIGINAL_DST_HOST : HeaderName) (as_bytes : HeaderValue → str).

Notation CLA := (ClusterLoadAssignment (SB := SB)).
Notation ClusterType := (ClusterType (SB := SB)).
Notation ClustersMap := (gmap str ClusterType).
Implicit Types (cla : CLA) (c : ClusterType) (m : ClustersMap) (o : OriginalDstCluster).

(** ** Load assignments *)

Inductive cla_op : Type :=
  | OpHttp (context : RoutingContext)
  | OpTcp
  | OpGrpc
  | OpHealth (a : str) (s : HealthStatus).

Definition run_cla cla (op : cla_op) : CLA :=
  match op with
  | OpHttp context => (get_http_channel cla context).2
  | OpTcp => (get_tcp_channel cla).2
  | OpGrpc => (get_grpc_channel cla).2
  | OpHealth a s => update_endpoint_health cla a s
  end.

(** A balancer with no endpoint but those of [l]. *)
Definition within (b : BalancerType (SB := SB)) (l : list LbEndpoint) : Prop :=
  match b with
  | Standard b => sb_serves b l
  | OverrideHostLb b => sb_serves (OverrideHost.fallback b) l ∧
      map_Forall (λ _ entry, OverrideHost.oe_endpoint entry ∈ l) (OverrideHost.endpoints b)
  end.

Lemma next_item_within b l h :
  within b l → within (balancer_next_item b h).2 l ∧ ∀ e, (balancer_next_item b h).1 = Some e → e ∈ l.
Proof.
  destruct b as [b|b]; cbn.
  - intros Hb. pose proof (sb_serves_next b l h Hb) as Hn. pose proof (λ e, sb_next_elem b l h e Hb) as He.
    by destruct (sb_next_item b h).
  - intros [Hb Hm]. unfold OverrideHost.override_next_item. cbn.
    pose proof (sb_serves_next _ l h Hb) as Hn. pose proof (λ e, sb_next_elem _ l h e Hb) as He.
    unfold next_item, standard_balancer. by destruct (sb_next_item (OverrideHost.fallback b) h).
Qed.

Lemma select_within b l v h :
  within (OverrideHostLb b) l →
  within (OverrideHostLb (OverrideHost.select_override parse_authority b v h).2) l ∧
  ∀ chs, (OverrideHost.select_override parse_authority b v h).1 = Some chs →
    match chs with OverrideHost.Single e => e ∈ l | OverrideHost.MultiWithFailover e es => Forall (λ e, e ∈ l) (e :: es) end.
Proof.
  intros [Hb Hm]. assert (within (OverrideHostLb (OverrideHost.select_fallback b h).2) l ∧
    ∀ chs, (OverrideHost.select_fallback b h).1 = Some chs → ∃ e, chs = OverrideHost.Single e ∧ e ∈ l) as [Hw Hs].
  { unfold OverrideHost.select_fallback. pose proof (sb_serves_next _ l h Hb) as Hn. pose proof (λ e, sb_next_elem _ l h e Hb) as He.
    unfold next_item, standard_balancer. destruct (sb_next_item (OverrideHost.fallback b) h) as [[e|] fb]; cbn in *; [|done].
    split; [done|]. intros chs [= <-]. eauto. }
  assert (∀ chs, (OverrideHost.select_fallback b h).1 = Some chs →
    match chs with OverrideHost.Single e => e ∈ l | OverrideHost.MultiWithFailover e es => Forall (λ e, e ∈ l) (e :: es) end) as Hs'
    by (intros chs Hc; by destruct (Hs chs Hc) as (e & -> & ?)).
  unfold OverrideHost.select_override. destruct (to_str v) as [s|]; [|done].
  destruct (omap _ _) as [|primary rest] eqn:Eo; [done|]. cbn. split; [done|]. intros chs [= <-]. rewrite <-Eo.
  apply Forall_forall. intros e (raw & _ & He)%list_elem_of_omap. unfold OverrideHost.named_endpoint in He.
  case_decide; [done|]. apply bind_Some in He as (a & _ & He). apply bind_Some in He as (entry & Ha & He).
  destruct (OverrideHost.healthy entry); simplify_eq. by apply (Hm a).
Qed.

Lemma update_health_within b l e s : within b l → within (balancer_update_health b e s) l.
Proof.
  destruct b as [b|b]; cbn; [apply sb_serves_update|]. intros [Hb Hm]. unfold OverrideHost.override_update_health. cbn.
  split; [by apply sb_serves_update|]. destruct (OverrideHost.endpoints b !! _) as [entry|] eqn:Ee; [|done].
  apply map_Forall_insert_2; [|done]. by apply (Hm _ _ Ee).
Qed.

Lemma next_endpoint_within cla l h :
  within (cla_balancer cla) l →
  within (cla_balancer (next_endpoint cla h).2) l ∧ cla_localities (next_endpoint cla h).2 = cla_localities cla ∧
  ∀ e, (next_endpoint cla h).1 = Ok e → e ∈ l.
Proof.
  intros Hw. unfold next_endpoint. destruct (next_item_within _ _ h Hw) as [Hw' He].
  destruct (balancer_next_item _ h) as [[e|] b]; cbn in *; split_and!; try done. intros e' [= <-]. auto.
Qed.

Definition channel_list (chs : HttpChannels) : list HttpChannel :=
  match chs with Single ch => [ch] | MultiWithFailover ch chs => ch :: chs end.

Lemma http_channel_within cla l context :
  within (cla_balancer cla) l →
  within (cla_balancer (get_http_channel cla context).2) l ∧
  cla_localities (get_http_channel cla context).2 = cla_localities cla ∧
  ∀ chs, (get_http_channel cla context).1 = Ok chs → Forall (λ ch, ch ∈ http_channel <$> l) (channel_list chs).
Proof.
  intros Hw.
  assert (∀ h, within (cla_balancer (next_channel cla h).2) l ∧ cla_localities (next_channel cla h).2 = cla_localities cla ∧
    ∀ chs, (next_channel cla h).1 = Ok chs → Forall (λ ch, ch ∈ http_channel <$> l) (channel_list chs)) as Hn.
  { intros h. unfold next_channel. destruct (next_endpoint_within cla l h Hw) as (Hw' & Hl & He).
    destruct (next_endpoint cla h) as [[e|] cla']; cbn in *; split_and!; try done. intros chs [= <-]. cbn.
    apply Forall_singleton, list_elem_of_fmap. eauto. }
  unfold get_http_channel. destruct context; try apply Hn. destruct (cla_balancer cla) as [b|b] eqn:Eb; [apply Hn|].
  destruct (select_within b l v (fallback_hash ≫= id) Hw) as [Hw' He].
  destruct (OverrideHost.select_override parse_authority b v (fallback_hash ≫= id)) as [[chs|] b']; cbn [fst snd] in *;
    (split; [exact Hw'|split; [done|]]); [|done]. intros chs' [= <-].
  specialize (He chs eq_refl). destruct chs; cbn; [apply Forall_singleton|apply Forall_cons in He as [He Hes]; apply Forall_cons; split];
    try (apply list_elem_of_fmap; eauto). apply Forall_fmap. eapply Forall_impl; [exact Hes|]. intros. apply list_elem_of_fmap. eauto.
Qed.

Lemma run_cla_within cla l op :
  within (cla_balancer cla) l → within (cla_balancer (run_cla cla op)) l ∧ cla_localities (run_cla cla op) = cla_localities cla.
Proof.
  intros Hw. destruct op as [context| | |a s]; cbn [run_cla].
  - by destruct (http_channel_within cla l context Hw) as (? & ? & _).
  - unfold get_tcp_channel. destruct (next_endpoint_within cla l None Hw) as (? & ? & _). by destruct (next_endpoint cla None).
  - unfold get_grpc_channel. destruct (next_endpoint_within cla l None Hw) as (? & ? & _). by destruct (next_endpoint cla None).
  - unfold update_endpoint_health. cbn. split; [|done]. revert Hw. generalize (cla_balancer cla).
    induction (filter _ (all_endpoints cla)) as [|e es IH]; intros b Hb; [done|]. cbn. by apply IH, update_health_within.
Qed.

Lemma run_all_within ops : ∀ cla l,
  within (cla_balancer cla) l →
  within (cla_balancer (foldl run_cla cla ops)) l ∧ cla_localities (foldl run_cla cla ops) = cla_localities cla.
Proof.
  induction ops as [|op ops IH]; intros cla l Hw; [done|]. cbn. destruct (run_cla_within cla l op Hw) as [Hw' <-]. by apply IH.
Qed.

Lemma override_new_within name fb ls :
  map_Forall (λ _ entry, OverrideHost.oe_endpoint entry ∈ ls ≫= DefaultLb.endpoints)
    (OverrideHost.endpoints (OverrideHost.override_new (B := SB) (E := LbEndpoint) name fb ls)).
Proof.
  intros a entry Ha. unfold OverrideHost.override_new, OverrideHost.override_build in Ha. cbn in Ha.
  rewrite OverrideHost.build_lookup in Ha. destruct (last _) as [e|] eqn:El; [|by rewrite lookup_empty in Ha]. simplify_eq. cbn.
  apply last_Some_elem_of in El. by apply list_elem_of_filter in El as [_ ?].
Qed.

Lemma as_locality_endpoints ls : (as_locality <$> ls) ≫= DefaultLb.endpoints = ls ≫= endpoints.
Proof. induction ls as [|l ls IH]; [done|]. cbn. by rewrite IH. Qed.

Lemma cla_build_within b cla : cla_build b = Return (Ok cla) → within (cla_balancer cla) (all_endpoints cla).
Proof.
  intros (_ & Hb & _)%cla_build_Ok. unfold all_endpoints. rewrite <-as_locality_endpoints. unfold build_balancer in Hb.
  destruct (cb_lb_policy b) as [p|[name|] p]; [| |done];
    destruct (sb_from_policy p _) as [sb|] eqn:Es; cbn in Hb; simplify_eq; apply sb_serves_build in Es.
  - by rewrite <-Hb.
  - rewrite <-Hb. split; [done|]. apply override_new_within.
Qed.


(** ** Clusters whose endpoint the request names *)

(** The cached endpoints are those the settings give. *)
Definition od_ok o : Prop :=
  ∀ k e, lru_holds (od_endpoints o) k e →
    endpoint_try_new (od_name o) k (od_http_config o) (od_bind_device o) (od_transport_socket o) = Ok e.

(** The endpoint for an authority, built anew. *)
Definition new_endpoint o (a : str) : result ClusterError Endpoint :=
  a ← apply_port_override o a;
  endpoint_try_new (od_name o) a (od_http_config o) (od_bind_device o) (od_transport_socket o).

(** Equal but for the cache. *)
Definition same_settings o o' : Prop := ∃ eps, o' = od_with o eps (od_http_config o).

Lemma same_settings_refl o : same_settings o o.
Proof. exists (od_endpoints o). by destruct o. Qed.

Lemma by_authority_transparent {A} now o a (use : Endpoint → result ClusterError A) :
  od_ok o →
  (endpoint_by_authority now o a use).1 = (new_endpoint o a ≫= use) ∧
  od_ok (endpoint_by_authority now o a use).2 ∧ same_settings o (endpoint_by_authority now o a use).2.
Proof.
  intros Hok. unfold endpoint_by_authority, new_endpoint.
  destruct (apply_port_override o a) as [a'|err]; cbn [mbind result_bind]; [|split_and!; [done|done|apply same_settings_refl]].
  pose proof (lru_get_some _ now (od_endpoints o) a') as Hsome. pose proof (lru_get_holds _ now (od_endpoints o) a') as Hholds.
  destruct (lru_get now (od_endpoints o) a') as [found eps]. cbn [fst snd] in Hsome, Hholds.
  set (o1 := od_with o eps (od_http_config o)).
  assert (od_ok o1 ∧ same_settings o o1) as [Hok1 Hs1] by (split; [intros k e Hh; apply Hok, Hholds, Hh|by exists eps]).
  destruct found as [e|]; [split_and!; [by rewrite (Hok a' e (Hsome e eq_refl))|done|done]|].
  change (endpoint_try_new (od_name o) a' (od_http_config o) (od_bind_device o) (od_transport_socket o))
    with (endpoint_try_new (od_name o1) a' (od_http_config o1) (od_bind_device o1) (od_transport_socket o1)).
  destruct (endpoint_try_new (od_name o1) a' (od_http_config o1) (od_bind_device o1) (od_transport_socket o1)) as [e|err] eqn:Ee;
    cbn [mbind result_bind]; [|done].
  destruct (use e) as [r|err]; cbn [fst snd]; [|done]. split_and!; [done| |by eexists].
  intros k e' [[-> ->]|Hh]%lru_insert_holds; [done|by apply Hok, Hholds].
Qed.

Lemma same_settings_trans o1 o2 o3 : same_settings o1 o2 → same_settings o2 o3 → same_settings o1 o3.
Proof. intros [e1 ->] [e2 ->]. by exists e2. Qed.

Lemma new_endpoint_same o o' a : same_settings o o' → new_endpoint o' a = new_endpoint o a.
Proof. by intros [eps ->]. Qed.

(** ** Requests of a thread *)

Inductive request : Type :=
  | ReqHttp (now : Z) (context : RoutingContext)
  | ReqTcp (now : Z) (context : RoutingContext)
  | ReqGrpc (now : Z) (context : RoutingContext)
  | ReqAllHttp (now : Z)
  | ReqAllTcp (now : Z)
  | ReqAllGrpc (now : Z).

Definition serve c (r : request) : ClusterType :=
  match r with
  | ReqHttp now context => (get_http_connection as_bytes now context c).2
  | ReqTcp now context => (get_tcp_connection now context c).2
  | ReqGrpc now context => (get_grpc_connection now context c).2
  | ReqAllHttp now => (all_http_channels now c).2
  | ReqAllTcp now => (all_tcp_channels now c).2
  | ReqAllGrpc now => (all_grpc_channels now c).2
  end.

(** [with_assignment] leaves a cluster of the same kind. *)
Lemma with_assignment_od {A} (f : CLA → result ClusterError A * CLA) g o :
  with_assignment f g (OnDemand o) = ((g o).1, OnDemand (g o).2).
Proof. cbn. by destruct (g o). Qed.

Lemma with_assignment_kind {A} (f : CLA → result ClusterError A * CLA) g c o :
  (with_assignment f g c).2 = OnDemand o → ∃ o', c = OnDemand o'.
Proof.
  destruct c as [s|d|o']; cbn; [| |eauto].
  - by destruct (f _).
  - destruct (dynamic_load_assignment d); [by destruct (f _)|done].
Qed.

(** So does listing its channels, which leaves the cache no more than it had. *)
Lemma all_channels_kind {A} (f : CLA → list A) g now c o :
  (all_channels f g now c).2 = OnDemand o → ∃ o', c = OnDemand o'.
Proof. destruct c; cbn; [done|done|eauto]. Qed.

Lemma all_channels_od {A} (f : CLA → list A) g now o :
  od_ok o → ∃ o', (all_channels f g now (OnDemand o)).2 = OnDemand o' ∧ od_ok o' ∧ same_settings o o'.
Proof.
  intros Hok. cbn. pose proof (lru_iter_holds _ now (od_endpoints o)) as Hh. destruct (lru_iter now (od_endpoints o)) as [l eps].
  exists (od_with o eps (od_http_config o)). split_and!; [done| |by exists eps]. intros k e Hk. apply Hok. by apply Hh.
Qed.

(** A request leaves an on-demand cluster with its settings and a sound cache. *)
Lemma od_serve o (r : request) :
  od_ok o → ∃ o', serve (OnDemand o) r = OnDemand o' ∧ od_ok o' ∧ same_settings o o'.
Proof.
  intros Hok. assert (∃ o', OnDemand (SB := SB) o = OnDemand o' ∧ od_ok o' ∧ same_settings o o') as Hself
    by (exists o; split_and!; [done|done|apply same_settings_refl]).
  assert (∀ A now a (use : Endpoint → result ClusterError A), ∃ o',
    OnDemand (SB := SB) (endpoint_by_authority now o a use).2 = OnDemand o' ∧ od_ok o' ∧ same_settings o o') as Hby.
  { intros A now a use. destruct (by_authority_transparent now o a use Hok) as (_ & ? & ?). eauto. }
  destruct r as [now context|now context|now context|now|now|now]; cbn [serve]; try (by apply all_channels_od).
  - unfold get_http_connection. rewrite with_assignment_od. cbn [snd]. unfold od_get_http_connection, get_http_connection_by_text,
      get_http_connection_by_authority. destruct context; try exact Hself;
      [destruct (parse_authority (as_bytes v)) as [a|]|destruct (parse_authority d) as [a|]|]; try exact Hself;
      match goal with |- context [endpoint_by_authority ?n ?o ?a ?u] =>
        specialize (Hby _ n a u); by destruct (endpoint_by_authority n o a u) end.
  - unfold get_tcp_connection. rewrite with_assignment_od. cbn [snd]. unfold od_get_tcp_connection. destruct context; try exact Hself.
    apply Hby.
  - unfold get_grpc_connection. rewrite with_assignment_od. cbn [snd]. unfold od_get_grpc_connection. destruct context; try exact Hself.
    apply Hby.
Qed.

(** ** The shared map and its threads *)

(** What the configuration does with the shared map.  A build that panics
    leaves the map and its version as they are. *)
Inductive updates m : ClustersMap → Prop :=
  | update_add p r m' : add_cluster X_ENVOY_ORIGINAL_DST_HOST p m = Return (r, m') → updates m m'
  | update_remove name : updates m (remove_cluster name m).2
  | update_change name pcla r m' : change_cluster_load_assignment name pcla m = Return (r, m') → updates m m'
  | update_remove_cla name : updates m (remove_cluster_load_assignment name m).2
  | update_set_health name a s : updates m (map_update_endpoint_health name a s m)
  | update_secret_change id secret : updates m (update_tls_context id secret m).2.

Record machine : Type := mk_machine {
  shared : CachedWatch (SB := SB);
  threads : gmap nat (CachedWatcher (SB := SB));
}.

(** [reach k mc]: the configuration changed [k] times, and in between threads
    started and served requests, each on its copy, which it renews if it can. *)
Inductive reach : Z → machine → Prop :=
  | reach_start : reach 0 (mk_machine (mk_watch ∅ 0) ∅)
  | reach_update k mc m' :
    reach k mc → updates (watch_value (shared mc)) m' →
    reach (k + 1) (mk_machine (watch_update (shared mc) (λ _, ((), m'))).2 (threads mc))
  | reach_spawn k mc t :
    reach k mc → reach k (mk_machine (shared mc) (<[t := watcher (shared mc)]> (threads mc)))
  | reach_request k mc t w readable name r :
    reach k mc → threads mc !! t = Some w →
    reach k (mk_machine (shared mc)
      (<[t := (with_cluster name (λ c, (Ok (), serve c r)) (cached_or_latest (shared mc) w readable)).2]> (threads mc))).

(** The copy has the clusters of the map, each as the thread's own requests
    left it. *)
Definition agree m (l : ClustersMap) : Prop :=
  ∀ name, match m !! name, l !! name with
          | Some c0, Some c => ∃ rs, c = foldl serve c0 rs
          | None, None => True
          | _, _ => False
          end.

(** Every on-demand cluster of the map has the property [P]. *)
Definition on_demand_all (P : OriginalDstCluster → Prop) m : Prop := ∀ name o, m !! name = Some (OnDemand o) → P o.

(** What holds of an on-demand cluster that was just built, and does not depend
    on its TLS configuration, holds of all of the map. *)
Class stable (P : OriginalDstCluster → Prop) : Prop := {
  stable_build : ∀ p o, cluster_build (SB := SB) X_ENVOY_ORIGINAL_DST_HOST p = Return (Ok (OnDemand o)) → P o;
  stable_tls : ∀ o hc, P o → P (od_with o (od_endpoints o) hc);
}.

Lemma on_demand_insert P m name c :
  on_demand_all P m → (∀ o, c = OnDemand o → P o) → on_demand_all P (<[name := c]> m).
Proof.
  intros Hm Hc name' o. destruct (decide (name = name')) as [<-|]; [rewrite lookup_insert_eq|rewrite lookup_insert_ne by done].
  - intros [= Ho]. by apply Hc.
  - apply Hm.
Qed.

Lemma change_tls_on_demand c id secret o :
  (change_tls_context c id secret).2 = OnDemand o →
  ∃ o', c = OnDemand o' ∧ (o = o' ∨ ∃ hc, o = od_with o' (od_endpoints o') hc).
Proof.
  destruct c as [s|d|o']; cbn [change_tls_context].
  - by destruct (static_change_tls_context s id secret).
  - by destruct (dynamic_change_tls_context d id secret).
  - unfold od_change_tls_context. destruct (hc_tls_configurator _) as [tls|]; [destruct (Tls.uses_secret tls id);
      [destruct (Tls.client_update tls id secret)|]|]; cbn; intros [= <-]; eauto.
Qed.

Lemma update_tls_on_demand P `{!stable P} names id secret : ∀ m changed,
  on_demand_all P m → on_demand_all P (update_tls_loop names id secret m changed).2.
Proof.
  induction names as [|name names IH]; intros m changed Hm; [done|]. cbn [update_tls_loop].
  destruct (m !! name) as [c|] eqn:Ec; [|by apply IH].
  assert (on_demand_all P (<[name := (change_tls_context c id secret).2]> m)) as Hi.
  { apply on_demand_insert; [done|]. intros o (o' & -> & [->|[hc ->]])%change_tls_on_demand; [|apply stable_tls]; by apply (Hm name). }
  destruct (change_tls_context c id secret) as [[b|err] c']; cbn [snd] in *; [by apply IH|done].
Qed.

Lemma updates_on_demand P `{!stable P} m m' : on_demand_all P m → updates m m' → on_demand_all P m'.
Proof.
  intros Hm [p r m1 Ha|name|name pcla r m1 Hc|name|name a s|id secret].
  - unfold add_cluster in Ha. destruct (cluster_build _ p) as [[c|]|] eqn:Eb; cbn in Ha; simplify_eq; [|done].
    apply on_demand_insert; [done|]. intros o ->. by eapply stable_build.
  - unfold remove_cluster. destruct (m !! name); [|done]. cbn. intros name' o [_ Hl]%lookup_delete_Some. by eapply Hm.
  - unfold change_cluster_load_assignment in Hc. destruct (m !! name) as [[s|d|o]|]; simplify_eq; [done| |done|done].
    destruct (cla_build _) as [[cla|]|]; cbn in Hc; simplify_eq; [|done]. by apply on_demand_insert.
  - unfold remove_cluster_load_assignment. destruct (m !! name) as [[s|d|o]|]; try done. by apply on_demand_insert.
  - unfold map_update_endpoint_health. destruct (m !! name) as [c|] eqn:Ec; [|done]. apply on_demand_insert; [done|].
    intros o Ho. destruct c; cbn in Ho; simplify_eq. by eapply Hm.
  - by apply update_tls_on_demand.
Qed.

Lemma reach_on_demand P `{!stable P} k mc : reach k mc → on_demand_all P (watch_value (shared mc)).
Proof.
  induction 1 as [|k mc m' Hr IH Hu|k mc t Hr IH|k mc t w readable name r Hr IH Ht]; cbn; [|by eapply updates_on_demand|done|done].
  intros name o. by rewrite lookup_empty.
Qed.

(** Nothing is cached in the map itself. *)
Definition uncached o : Prop := ∀ k e, ¬ lru_holds (od_endpoints o) k e.

(** The routing requirement names an endpoint. *)
Definition names_endpoint (r : RoutingRequirement) : bool :=
  match r with RequireHeader _ | RequireMetadataKey _ | RequireAuthority => true | _ => false end.

#[local] Instance uncached_stable : stable uncached.
Proof.
  split; [|done]. intros p o Eb k e. destruct p; cbn in Eb.
  - destruct (cla_build _) as [[?|]|]; cbn in Eb; simplify_eq.
  - simplify_eq.
  - destruct (od_requirements _ _). cbn in Eb. simplify_eq. cbn. apply lru_new_holds.
Qed.

#[local] Instance named_stable : stable (λ o, names_endpoint (od_routing_requirements o) = true).
Proof.
  split; [|done]. intros p o Eb. destruct p; cbn in Eb.
  - destruct (cla_build _) as [[?|]|]; cbn in Eb; simplify_eq.
  - simplify_eq.
  - unfold od_requirements in Eb. repeat case_match; cbn in Eb; by simplify_eq.
Qed.

Lemma agree_refl m : agree m m.
Proof. intros name. destruct (m !! name); [by exists []|done]. Qed.

Lemma agree_request m w name r :
  agree m (local w) → agree m (local (with_cluster name (λ c, (Ok (), serve c r)) w).2).
Proof.
  intros Ha. unfold with_cluster. destruct (local w !! name) as [c|] eqn:Ec; [|done]. cbn. intros name'. specialize (Ha name').
  destruct (decide (name = name')) as [<-|]; [|by rewrite lookup_insert_ne].
  rewrite lookup_insert_eq. rewrite Ec in Ha. destruct (m !! name) as [c0|]; [|done]. destruct Ha as [rs ->].
  exists (rs ++ [r]). by rewrite foldl_app.
Qed.

Record machine_inv (k : Z) (mc : machine) : Prop := {
  inv_version : watch_version (shared mc) = k;
  inv_threads : ∀ t w, threads mc !! t = Some w →
    watcher_version w ≤ k ∧ (watcher_version w = k → agree (watch_value (shared mc)) (local w));
}.

Lemma reach_nonneg k mc : reach k mc → 0 ≤ k.
Proof. induction 1; lia. Qed.

(** A renewed copy, and one that was not. *)
Lemma renewed k mc w readable :
  machine_inv k mc → watcher_version w ≤ k ∧ (watcher_version w = k → agree (watch_value (shared mc)) (local w)) →
  let w' := cached_or_latest (shared mc) w readable in
  watcher_version w' ≤ k ∧ (watcher_version w' = k → agree (watch_value (shared mc)) (local w')) ∧
  (readable = true → watcher_version w' = k).
Proof.
  intros [Hv _] [Hle Ha]. unfold cached_or_latest. rewrite Hv. destruct (Z.eqb_spec k (watcher_version w)) as [->|Hne]; cbn.
  - split_and!; [lia|auto|done].
  - destruct readable; cbn; split_and!; try done; intros; apply agree_refl.
Qed.

Lemma reach_inv k mc : reach k mc → k < 2 ^ 64 → machine_inv k mc.
Proof.
  induction 1 as [|k mc m' Hr IH Hu|k mc t Hr IH|k mc t w readable name r Hr IH Ht]; intros Hk.
  - split; [done|]. intros t w. cbn. by rewrite lookup_empty.
  - pose proof (reach_nonneg _ _ Hr) as H0k. destruct (IH ltac:(lia)) as [Hv Hth]. split; cbn.
    + rewrite Hv. apply Int.wrapping_incr_small; lia.
    + intros t w Hw. destruct (Hth t w Hw). split; [lia|]. intros. lia.
  - destruct (IH Hk) as [Hv Hth]. split; cbn; [done|]. intros t' w.
    destruct (decide (t = t')) as [<-|]; [rewrite lookup_insert_eq; intros [= <-]|rewrite lookup_insert_ne by done; apply Hth].
    cbn. rewrite Hv. split; [lia|]. intros. apply agree_refl.
  - destruct (IH Hk) as [Hv Hth]. split; cbn; [done|]. intros t' w'.
    destruct (decide (t = t')) as [<-|]; [rewrite lookup_insert_eq; intros [= <-]|rewrite lookup_insert_ne by done; apply Hth].
    destruct (renewed k mc w readable (IH Hk) (Hth t w Ht)) as (Hle & Ha & _). split.
    + unfold with_cluster. by destruct (local _ !! name).
    + intros Hk'. apply agree_request, Ha. revert Hk'. unfold with_cluster. by destruct (local _ !! name).
Qed.

Lemma od_requests rs : ∀ o, od_ok o → ∃ o', foldl serve (OnDemand o) rs = OnDemand o' ∧ od_ok o' ∧ same_settings o o'.
Proof.
  induction rs as [|r rs IH]; intros o Hok; [exists o; split_and!; [done|done|apply same_settings_refl]|]. cbn [foldl].
  destruct (od_serve o r Hok) as (o1 & -> & Hok1 & Hs1). destruct (IH o1 Hok1) as (o2 & -> & Hok2 & Hs2).
  exists o2. split_and!; [done|done|by eapply same_settings_trans].
Qed.

(** C16: The threads follow the configuration: after any changes to the clusters
    and any requests, a thread that renews its copy has exactly the clusters of
    the shared map, each changed by nothing but this thread's own requests since
    it last renewed; and for a cluster whose endpoint the request names its
    cache is invisible: an HTTP request and a TCP connection for an authority
    are answered as a new endpoint would be, built with the settings, the TLS
    configuration included, that the shared map has at that moment. *)
Theorem threads_follow_configuration (k : Z) (mc : machine) (t : nat) (w : CachedWatcher) :
  reach k mc → k < 2 ^ 64 → threads mc !! t = Some w →
  let m := watch_value (shared mc) in
  let w' := cached_or_latest (shared mc) w true in
  agree m (local w') ∧
  ∀ name o now a, m !! name = Some (OnDemand o) →
    (with_cluster name (get_http_connection as_bytes now (ContextAuthority a)) w').1 =
      (e ← new_endpoint o a; Ok (Single (ep_http_channel e))) ∧
    (with_cluster name (get_tcp_connection now (ContextAuthority a)) w').1 =
      (e ← new_endpoint o a; Ok (ep_tcp_channel e)).
Proof.
  intros Hr Hk Ht m w'. pose proof (reach_inv k mc Hr Hk) as Hinv. pose proof Hinv as [Hv Hth].
  pose proof (reach_on_demand uncached k mc Hr) as Hun.
  destruct (renewed k mc w true Hinv (Hth t w Ht)) as (_ & Ha & Hv'). specialize (Ha (Hv' eq_refl)). fold w' m in Ha.
  split; [done|]. intros name o now a Hm. pose proof (Ha name) as Hn. rewrite Hm in Hn.
  destruct (local w' !! name) as [c|] eqn:Ec; [|done]. destruct Hn as [rs ->].
  assert (od_ok o) as Hok by (intros key e Hh; by destruct (Hun name o Hm key e)).
  destruct (od_requests rs o Hok) as (o' & Ho' & Hok' & Hs). unfold with_cluster. rewrite Ec, Ho'.
  unfold get_http_connection, get_tcp_connection. rewrite !with_assignment_od. cbn [fst snd].
  rewrite <-(new_endpoint_same o o' a Hs). split.
  - unfold od_get_http_connection, get_http_connection_by_authority.
    destruct (by_authority_transparent now o' a (λ e, Ok (ep_http_channel e)) Hok') as (He & _).
    destruct (endpoint_by_authority now o' a _) as [r o2]. cbn [fst] in He. subst r. by destruct (new_endpoint o' a).
  - unfold od_get_tcp_connection, get_tcp_connection_by_authority. by apply by_authority_transparent.
Qed.

(** ** The context a cluster asks for *)

(** The contexts that are meant for a cluster: a cluster whose endpoint the
    request names takes a name, a balancer what it chooses by. *)
Definition balancer_takes (b : BalancerType (SB := SB)) (context : RoutingContext) : bool :=
  match b, context with
  | OverrideHostLb b, ContextOverrideHost _ (Some _) => sb_requires_hash (OverrideHost.fallback b)
  | OverrideHostLb b, ContextOverrideHost _ None => negb (sb_requires_hash (OverrideHost.fallback b))
  | _, ContextHash _ => requires_hash b
  | _, ContextNone => negb (requires_hash b)
  | _, _ => false
  end.

Definition takes c (context : RoutingContext) : bool :=
  match c with
  | Static c => balancer_takes (cla_balancer (static_load_assignment c)) context
  | Dynamic c =>
    match dynamic_load_assignment c with
    | Some cla => balancer_takes (cla_balancer cla) context
    | None => match context with ContextHash _ | ContextNone => true | _ => false end
    end
  | OnDemand _ => match context with ContextHeader _ | ContextDynamicDest _ | ContextAuthority _ => true | _ => false end
  end.

Lemma takes_accepted c context now : takes c context = true → (get_http_connection as_bytes now context c).1 ≠ Err RequiresAuthority.
Proof.
  assert (∀ cla, (get_http_channel cla context).1 ≠ Err RequiresAuthority) as Hcla.
  { intros cla. assert (∀ h, (next_channel cla h).1 ≠ Err RequiresAuthority) as Hn.
    { intros h. unfold next_channel, next_endpoint. by destruct (balancer_next_item _ h) as [[e|] b]. }
    unfold get_http_channel. destruct context; try apply Hn. destruct (cla_balancer cla); [apply Hn|].
    by destruct (OverrideHost.select_override _ _ _ _) as [[chs|] b']. }
  assert (∀ o a, (get_http_connection_by_authority now o a).1 ≠ Err RequiresAuthority) as Hod.
  { intros o a. unfold get_http_connection_by_authority, endpoint_by_authority, apply_port_override.
    assert (∀ o a, endpoint_try_new (od_name o) a (od_http_config o) (od_bind_device o) (od_transport_socket o)
      ≠ Err RequiresAuthority) as Hnew.
    { intros o1 a1. unfold endpoint_try_new, build_channel. destruct (hc_tls_configurator _); [destruct (hc_server_name _);
        [|destruct (is_server_name _)]|]; cbn; try destruct (dst_uri _ _); by cbn. }
    destruct (upstream_port_override o) as [port|]; [destruct (parse_authority _) as [a1|]; [|done]|]; cbn [ok_or];
      (match goal with |- context [lru_get ?n ?l ?k] => destruct (lru_get n l k) as [[e|] eps] end; [done|]);
      match goal with |- context [endpoint_try_new ?n ?k ?h ?b ?s] => pose proof (Hnew (od_with o eps (od_http_config o)) k) as Hn;
        destruct (endpoint_try_new n k h b s) as [e|err]; [done|]; cbn; congruence end. }
  intros Ht. destruct c as [s|d|o]; unfold get_http_connection.
  - cbn. specialize (Hcla (static_load_assignment s)). by destruct (get_http_channel _ context).
  - cbn. destruct (dynamic_load_assignment d) as [cla|]; [|done]. specialize (Hcla cla). by destruct (get_http_channel _ context).
  - rewrite with_assignment_od. cbn [fst]. destruct context; try done; cbn [od_get_http_connection];
      unfold get_http_connection_by_text; try (destruct (parse_authority _) as [a1|]; [|done]);
      match goal with |- context [get_http_connection_by_authority ?n ?o ?a] => specialize (Hod o a);
        destruct (get_http_connection_by_authority n o a) as [[?|?] ?]; cbn in *; congruence end.
Qed.

Lemma requirement_taken c r dest hash host_name context :
  (∀ o, c = OnDemand o → names_endpoint (od_routing_requirements o) = true) →
  routing_context as_bytes (get_routing_requirements c) r dest hash host_name = Ok context → takes c context = true.
Proof.
  intros Hasked.
  assert (∀ cla, routing_context as_bytes (cla_routing_requirements cla) r dest hash host_name = Ok context →
    balancer_takes (cla_balancer cla) context = true) as Hcla.
  { intros cla. unfold cla_routing_requirements. destruct (cla_balancer cla) as [b|b].
    - destruct (sb_requires_hash b) eqn:Eh; cbn; intros [= <-]; cbn; by rewrite Eh.
    - cbn. destruct (sb_requires_hash (OverrideHost.fallback b)) eqn:Eh, (header_get (headers r) (OverrideHost.header b)); cbn;
        by intros [= <-]. }
  destruct c as [s|d|o]; cbn [get_routing_requirements takes].
  - apply Hcla.
  - destruct (dynamic_load_assignment d); [apply Hcla|]. destruct (policy_requires_hash _); by intros [= <-].
  - specialize (Hasked o eq_refl). destruct (od_routing_requirements o); try done; cbn.
    + destruct (header_get _ _); [|done]. by intros [= <-].
    + destruct dest; [|done]. by intros [= <-].
    + destruct (routing_authority _ _ _); cbn; [|done]. by intros [= <-].
Qed.

End serve.

(** ** Examples *)
Section example.
Import ClusterExample.
#[local] Existing Instance TlsSpec.ex_tls.
#[local] Existing Instance ex_uri.
#[local] Existing Instance ex_lru.
#[local] Existing Instance ex_lru_spec.
#[local] Existing Instance assoc_http.
#[local] Existing Instance ex_standard.
#[local] Existing Instance ex_standard_laws.

Definition ex_builder : ClusterLoadAssignmentBuilder :=
  match ex_partial ex_static_config with
  | PartialStatic _ b _ _ => b
  | _ => mk_cla_builder [] [] None None (PolicyStandard RoundRobin) SocketNone None None None
  end.

Definition ex_built : ClusterLoadAssignment (SB := ex_lb) :=
  match cla_build ex_builder with
  | Return (Ok cla) => cla
  | _ => mk_cla [] SocketNone protocol_options_default (Standard (DefaultLb.mk_default (Wrr.wrr_new []) ∅)) []
  end.

Definition ex_ops : list cla_op := [OpHttp ContextNone; OpHealth (lit "10.0.0.1:443") Unhealthy; OpTcp].


(** The cluster is added, a thread starts and connects, and the secret changes. *)
Definition ex_map1 : gmap str (ClusterType (SB := ex_lb)) := {[lit "backend" := ex_cluster ex_od_config]}.
Definition ex_map2 : gmap str (ClusterType (SB := ex_lb)) := (update_tls_context (lit "cert") ex_new_cert ex_map1).2.

Definition ex_machine1 : machine (SB := ex_lb) := mk_machine (mk_watch ex_map1 1) {[0%nat := watcher (mk_watch ex_map1 1)]}.

Definition ex_connect : request := ReqHttp 5 (ContextAuthority (lit "10.1.1.1:80")).

Definition ex_thread : CachedWatcher (SB := ex_lb) :=
  (with_cluster (lit "backend") (λ c, (Ok (), serve ex_as_bytes c ex_connect)) (watcher (mk_watch ex_map1 1))).2.

Definition ex_machine2 : machine (SB := ex_lb) := mk_machine (mk_watch ex_map2 2) {[0%nat := ex_thread]}.

Lemma ex_reach : reach ex_original_dst_host ex_as_bytes 2 ex_machine2.
Proof.
  assert (reach ex_original_dst_host ex_as_bytes 1 ex_machine1) as H1.
  { apply (reach_spawn _ _ 1 (mk_machine (mk_watch ex_map1 1) ∅) 0%nat).
    apply (reach_update _ _ 0 (mk_machine (mk_watch ∅ 0) ∅) ex_map1); [apply reach_start|].
    apply (update_add _ _ (ex_partial ex_od_config) (Ok (ex_cluster ex_od_config))). unfold add_cluster.
    rewrite ex_cluster_built by (vm_compute; reflexivity). reflexivity. }
  apply (reach_request _ _ 1 ex_machine1 0%nat (watcher (mk_watch ex_map1 1)) true (lit "backend") ex_connect) in H1;
    [|reflexivity].
  apply (reach_update _ _ 1 _ ex_map2) in H1; [|apply update_secret_change]. exact H1.
Qed.

Definition ex_od : OriginalDstCluster :=
  match ex_map2 !! lit "backend" with
  | Some (OnDemand o) => o
  | _ => mk_original_dst [] SocketNone None RequireNone None ex_od_config [] (mk_channel_config None None None protocol_options_default)
  end.

(** The thread that had a connection with the key 1 presents the key 2, on the
    overridden port. *)
Lemma threads_follow_configuration_witness :
  (presented (with_cluster (lit "backend") (get_http_connection ex_as_bytes 6 (ContextAuthority (lit "10.1.1.1:80")))
     ex_thread).1 = Some 1%nat) ∧
  let answer := (with_cluster (lit "backend") (get_http_connection ex_as_bytes 6 (ContextAuthority (lit "10.1.1.1:80")))
     (cached_or_latest (mk_watch ex_map2 2) ex_thread true)).1 in
  presented answer = Some 2%nat ∧
  (match answer with Ok chs => upstream_authority <$> channel_list chs | Err _ => [] end) = [lit "10.1.1.1:8443"].
Proof.
  split; [vm_compute; reflexivity|]. cbv zeta.
  destruct (threads_follow_configuration ex_original_dst_host ex_as_bytes 2 ex_machine2 0%nat ex_thread ex_reach)
    as [_ Hod]; [lia|reflexivity|].
  destruct (Hod (lit "backend") ex_od 6 (lit "10.1.1.1:80")) as [Hh _]; [vm_compute; reflexivity|].
  change (shared ex_machine2) with (mk_watch ex_map2 2) in Hh. rewrite Hh. split; vm_compute; reflexivity.
Defined.

Definition ex_request : Request := mk_request (lit "GET") (mk_uri None (Some (lit "10.1.1.1:80")) None) [].

End example.
End ClustersServe.
